(* ===== verification/_CoqProject ===== *)
-Q . S2P
Prelude.v
PyDict.v
PriorityQueue.v
PyStr.v
PosixPath.v
Json.v
Persistence.v
PersistenceSpec.v
StatsSchema.v
StatsParser.v
StatsRows.v
StatsParserSpec.v
StatsResume.v
StatsScan.v
StatsScanSpec.v
CounterDelta.v
CounterDeltaSpec.v
WindowedIngest.v
IngestScore.v
PyDate.v
StatsFind.v
StatsFindSpec.v
WriteStage.v
WriteStageSpec.v
Coverage.v
CoverageSpec.v
WriteBehind.v
WriteBehindSpec.v
LeaseOwner.v
JobStore.v
JobStoreInv.v
JobStoreOps.v
JobStorePersist.v
JobStoreSteps.v
JobStoreClaim.v
JobStoreSafety.v
Snapshot.v
JobStoreSpec.v
JobStoreRecovery.v
JobStoreQueues.v
EntryStore.v
EntryStoreSpec.v
Prog.v
IngestReady.v
IngestReadySpec.v
IngestReadyDemo.v
NegativeStates.v
NegativeStatesSpec.v
MembersStore.v
MembersStoreSpec.v
MembersQueue.v
SpacePressure.v
SpacePressureSpec.v
FileLock.v
FileLockSpec.v
DayClose.v
DayCloseSpec.v
AppendDays.v
AppendDaysSpec.v
SealedMap.v
SealedMapSpec.v
RawRemoval.v
RawRemovalSpec.v
RawArchived.v
DeadLetter.v
Discover.v
DiscoverLogic.v
DiscoverSpec.v
DiscoverBounds.v
DiscoverCounts.v
DiscoverDemo.v
DeadLetterSpec.v
CloneAppend.v
CloneAppendSpec.v
