(* ===== verification/Prelude.v ===== *)
(** HPCPerfStats: a verification development of the [sync_timedb] ingest core.

    The program.  HPCPerfStats collects node statistics on an HPC cluster and loads
    them into TimescaleDB.  The loader, [sync_timedb], is a long-running process on
    the archive host: coordinator threads discover raw statistics files, put them in
    queues, hand them to worker processes (ingest a file, append it to the day's tar,
    close a day), and must survive worker deaths, restarts and crashes without losing
    a file or an archived byte.  The part that carries this promise is modelled here;
    the paths below are under [src/hpcperfstats/].

    - The job store ([dbload/lib/sync_timedb_job_store.py]): one in-process object with
      the scored ingest queue (two bands, three lazy heaps), the FIFO queues of
      the other job kinds, the claims with their deadlines and leases, the payload
      rows, and a shadow copy of what is durable.
    - The write-behind layer ([dbload/lib/sync_timedb_write_behind.py]): a writer
      thread that turns dirty marks of the job store and of the keyed sidecars into
      writes, and the keyed sidecar store.
    - The dead letters (second half of [sync_timedb_job_store.py]): a sidecar of jobs
      that failed for good, with a backoff schedule for their readmission.
    - The tar append ([dbload/lib/sync_timedb_tar_clone_append.py]): appends members
      to a daily tar in place, under a journal.
    - The sidecar documents ([dbload/lib/sync_timedb_persistence.py],
      [sync_timedb_manifest_contract.py]): the envelope every sidecar is saved in and
      checked against, and the contract version that resets them all.
    - The archive members store ([dbload/lib/sync_timedb_archive_members_store.py]):
      per day, which members the archive holds, who is populating that map, who waits
      for it, and the queue of populate jobs.
    - Space pressure ([dbload/lib/sync_timedb_space_pressure.py]): when free space
      runs low, appends go to one day at a time and restores take turns.
    - File locks ([dbload/lib/file_locking.py]): [flock] on a sidecar that is removed
      on release.
    - Day-close cooperation ([dbload/lib/sync_timedb_day_close_cooperation.py]): when
      the janitor may change a daily tar, and how it spaces its retries.
    - Append day lists ([dbload/lib/sync_timedb_append_day_lists.py]): append claims
      parked per day, and what each day still owes.
    - Sealed member maps ([dbload/lib/sync_timedb_sealed_member_map.py]): what a sealed
      archive holds, stored under the identity of the archive file.
    - Raw removal ([dbload/lib/sync_timedb_day_raw_removal.py], with the classification
      of [sync_timedb_archive_helpers.py]): per day, which raw files were verified in
      the archive, and their deletion once it is sealed.
    - Raw file parsing ([dbload/lib/sync_timedb_parsing.py], [sync_timedb_parsing_legacy.py],
      [monitor_mark_side_ingest.py], [monitor_naming/]): the parser of raw statistics
      files, the search for their headers, and the passes that turn counters into
      differences and rates.
    - Finding files ([dbload/lib/sync_timedb_stats_find.py]): the commands that list the
      raw archive, the parser of their output, the selections by date and by job.
    - Discovery ([dbload/lib/sync_timedb_job_reconstruct.py], [sync_timedb_job_discover.py]
      and the background discovery of [sync_timedb_queue_orchestrator.py]): the walk that
      decides for every raw file found which work is missing and queues it.
    - The archive gate ([dbload/lib/sync_timedb_ingest_readiness.py],
      [sync_timedb_host_itimes.py], [sync_timedb_file_complete_ingest_mark.py],
      [sync_timedb_zero_host_ingest_mark.py]): whether a raw file was ingested and may be
      archived and deleted, from durable marks and cached database probes.
    - The ingest write stage ([dbload/lib/sync_timedb_ingest_write_stage.py]): the queue
      between the threads that parse and those that write to the database.
    - Negative states ([dbload/lib/sync_timedb_negative_states.py]): which failures are the
      environment's, what follows a negative state, and the snapshot taken before migrations.
    - Ingest coverage ([dbload/lib/ingest_coverage.py], [dbload/ingest_coverage_sweeper.py],
      [lib/ingest_rotation.py]): a daemon that looks at what every host has in the
      database and whether its closed files are ingested.

    How they interact: the coordinators call the job store; every durable change of it
    marks the writer ([mark_dirty]), whose thread calls [_persist_write]; the next process
    loads the written document.  A job whose attempts are used up ([bump_job_attempt],
    [job_max_attempts]) becomes a dead letter, and comes back as an enqueue when it is
    due.  Append claims are parked in the day lists, a day is selected under space
    pressure, the gate says which of its files were ingested, and append workers call
    [clone_append] under the tar's file lock.  Before the janitor changes that tar it asks
    the members store, the file lock and its own tracker.  Every sidecar is saved and
    loaded through the envelope of the persistence module.  A discovery walk, in a thread
    of its own, reads the records of the finder, asks the marks and member maps what is
    complete, queues the rest in the job store and notes it in the day lists; when the
    ingest queue is full it pushes younger backfill out, and reports the oldest day it
    left behind, which the day-close gate compares with.  An ingest worker finds the line
    a file is to be resumed at, parses it in windows, differences each window with the
    carry of those before, and hands the rows to the write stage.  When a day is sealed,
    the removal pass looks every raw file up in the map of the sealed archive before it
    deletes it.

    Files, in dependency order.
    - [Prelude]: Python exceptions as [result], truthiness, tactics, list lemmas, and
      [rtc_invariant], the induction every transition system here uses.
    - [PyDict]: [dict], with insertion order where the code iterates; [PyStr]: the
      string methods; [PosixPath]: [normpath] and its idempotence; [Json]: the values
      [json] reads and writes.
    - [PriorityQueue]: the class of priority queues, the contract [heapq] gives the
      job store; every theorem on the store holds for each instance, [MinScan] is one.
    - [IngestScore]: the scores that order the ingest queue; [LeaseOwner]: owner
      tokens, fingerprints, identities.
    - [WriteBehind]: [WriteBehindWriter], its critical sections as functions on
      [writer], its threads as the step relation [Threads.step]; [WriteBehindSpec].
    - [JobStore]: [SyncTimedbJobStore], a record [store] and one definition per method
      or module function; a method body runs under the store's lock, so it is one
      step.  [JobStoreInv]: the representation invariant [store_wf]; [JobStoreOps]:
      every operation keeps it; [JobStorePersist]: the document written and loaded;
      [JobStoreSteps]: [step] and [reachable], with a worked run [Demo];
      [JobStoreClaim]: the claim loop refines "the best [n] live items";
      [JobStoreSafety], [JobStoreSpec], [JobStoreRecovery], [JobStoreQueues]: the theorems.
    - [Persistence], [PersistenceSpec]: documents as JSON values, the archive directory
      as a map from paths to contents, the reset as a list of file operations that can
      stop anywhere.  [Snapshot]: the job store's document encoded into its sidecar
      and decoded by the next process.
    - [MembersStore]: the store as one definition per method, each block under a
      lock a function ([.._locked]); [MembersStoreSpec]: threads as labelled steps
      that run those blocks in any order; [MembersQueue]: the populate queue.
    - [SpacePressure], [SpacePressureSpec]: [_STATE] as a record.
    - [FileLock], [FileLockSpec]: processes as program counters between system calls,
      over inodes, a path that names one of them, and the flocks.
    - [DayClose], [DayCloseSpec]; [AppendDays], [AppendDaysSpec].
    - [EntryStore], [EntryStoreSpec]: [WriteBehindEntryStore]; its write is three steps
      between which other calls run.
    - [DeadLetter], [DeadLetterSpec]: the dead letters and their cached index.
    - [Prog]: programs of atomic accesses to a shared world, their program logic, and systems
      of threads that run them.  [IngestReady]: the archive gate as such programs;
      [IngestReadySpec], [IngestReadyDemo].
    - [CloneAppend], [CloneAppendSpec]: [clone_append] as the list of system calls it
      makes, on a disk on which unsynced writes can be lost or torn.
    - [SealedMap], [SealedMapSpec]; [RawRemoval], [RawRemovalSpec]: one day's state and
      its passes; [RawArchived] composes the two: what was deleted is in an archive.
    - [StatsSchema]: schema tokens, legacy counters, marks; [StatsParser]:
      [IncrementalStatsParser], one [feed_line] per line, and the windows of
      [parse_stats_file_streaming_incremental]; [StatsRows]: merging process rows and
      appending columns; [StatsParserSpec], [StatsResume].
    - [StatsScan], [StatsScanSpec]: headers in a file read in blocks from its end, the
      tail window, the resume point.
    - [CounterDelta], [CounterDeltaSpec]: [_apply_counter_deltas] and
      [_apply_arc_and_finalize] over any float arithmetic ([FloatArith]);
      [WindowedIngest]: from the lines of a file to the differences of its counters.
    - [PyDate]: the proleptic calendar of [datetime.date]; [StatsFind], [StatsFindSpec].
    - [Discover]: the walk as a state monad ([walk]) over the job store and the day counts;
      before each of its calls the other threads run ([others]), and files and clocks
      answer by the number of calls made.  [DiscoverLogic]: postconditions of such
      computations, for any relation the others respect; [DiscoverSpec], [DiscoverBounds],
      [DiscoverCounts]: the theorems; [DiscoverDemo]: concrete walks.
    - [NegativeStates], [NegativeStatesSpec]: the snapshot as a list of changes to a disk.
    - [WriteStage], [WriteStageSpec]: callers, writers and a stop as program counters over
      the globals they read without a lock.
    - [Coverage], [CoverageSpec]: one sweep, [run_sweep], over a server of documents.

    What the theorems show.
    - Every reachable store is well formed; no operation loses a job, save the ones
      that end or evict it, which are named; no durable change goes unmarked; a
      restart restores every queued and claimed job; claims are exclusive, in priority
      order, and end only through their owner; the reaper, the dead-owner steal and
      the reconciliation take back exactly the claims they should.
    - A marked change is written, or the writer still owes it; a flush that returned
      had it written, as long as flushes do not overlap.
    - A removed sidecar entry never comes back; a write is a merge.
    - A dead letter walks its schedule to its terminal state, is readmitted once
      per cycle, and is bounded in number; the index cache is never stale.
    - A crash during an append or during its recovery loses no archived byte; a
      failed append undoes itself; a committed one has the promised layout.
    - Scores order as the code means them to and stay exact below 2^53.
    - A restart through the file restores every queued job: encoding, envelope, load
      and validation compose to the identity on what is durable.  A loaded sidecar has
      its kind's shape, whatever the file held, and a reset that was interrupted is redone.
    - Writers exclude everybody although the lock's file comes and goes; attempts end
      within a bounded number of system calls; an uncontended one succeeds.
    - A merge into a members map is atomic although it copies outside the lock, and
      returns under any interference; nobody waits for a map that is already there;
      one thread populates an identity, one job serves a day; a day survives a restart.
    - Pressure has hysteresis; one day is selected at a time; one restore runs at a
      time; a sealed tar's size is read from its frame header.
    - The janitor changes a tar exactly when nobody else needs it.
    - Parked claims leave in the order they came; the counts rebuilt after a restart
      are exact for every reachable job store.
    - A lookup in a sealed map answers for the archive that is there; a raw file that was
      deleted was in it; an interrupted removal pass resumes to the same end.
    - Parsing in windows is parsing the whole file, whatever the batches and limits; a
      resumed parse emits the rest; rows belong to headers in range.
    - Differences and rates do not depend on the windows; the wrap correction recovers
      increments of up to half a counter's range.
    - What the find commands print is read back however it is cut; a job window gets
      every file that overlaps it.
    - A discovery walk forgets no file: each is queued, claimed, or its day is at or after
      the frontier, and a day the close gate lets through has all its files in the store.
      The walk ends; the day counts stay exact; only older work turns a file away.
    - A file the archive gate lets through carries a mark of an ingest that was reported
      complete for its fingerprint, or its first and last sample had rows, on evidence as
      old as the caches allow and no older; clearing removes the marks of the paths given.
    - A snapshot with its marker is whole, wherever a crash stopped it; a failure is the
      environment's exactly when a class or number in its chain of causes says so.
    - An answered write is final: written exactly once, or refused and never written.  A
      queued one is written while nobody stops the stage.
    - Every host is scanned within as many sweeps as there are hosts, while their
      documents last.
    - The backward block reader sees every line; the resume point is the last known
      header before the first missing one.

    Where the code does not do what it means to, the behaviour is proved as it is:
    [WriteBehindSpec.overlapping_flush_swallows_error],
    [JobStoreSpec.claim_unnormalised_band_spins], [JobStoreRecovery.steal_demotes_hot],
    [EntryStoreSpec.replace_all_resurrects], [DeadLetterSpec.cap_drops_live_and_stored],
    [MembersStoreSpec.persist_race_loses_map],
    [MembersQueue.invalidate_all_duplicates_jobs],
    [SpacePressureSpec.selection_outlives_pressure], [DayCloseSpec.empty_path_is_tracked],
    [RawRemovalSpec.gate_fails_open], [RawRemovalSpec.uningested_file_deleted],
    [RawRemovalSpec.waiting_pass_not_saved], [RawRemovalSpec.verified_count_drifts],
    [SealedMapSpec.torn_map_raises], [DiscoverDemo.WalkDemo.pushed_out_not_rescheduled],
    [DiscoverDemo.WalkDemo.date_name_counts_elsewhere],
    [StatsFindSpec.FindDemo.tab_stops_sorted_walk],
    [StatsFindSpec.FindDemo.huge_name_stops_selection], [WriteStageSpec.stranded_forever],
    [WriteStageSpec.StageDemo.put_on_no_queue],
    [WriteStageSpec.StageDemo.returned_before_written],
    [IngestReadyDemo.one_missing_blocks_host],
    [IngestReadyDemo.unreadable_setting_opens_gate],
    [IngestReadyDemo.cleared_mark_lingers],
    [NegativeStatesSpec.SnapshotDemo.unreadable_directory_left_out],
    [NegativeStatesSpec.SnapshotDemo.causes_followed_to_end],
    [CoverageSpec.CoverageDemo.expired_before_unscanned],
    [CoverageSpec.CoverageDemo.bad_rotation_stops_all], the examples of [StatsResume.Demo]
    and [StatsScanSpec.ScanDemo], and [CounterDeltaSpec.DeltaDemo.wrap_64_lost].

    Numbers.  Scores are Python floats that hold integers below 2^53 (proved), hence
    [Z]; a score bound may be infinite ([bound]).  Deadlines and clocks are [Z]: the
    code only adds to and compares them.  File offsets are [nat].  Parsed numbers are
    fractions, infinities or not-a-number ([pyfloat]); the difference passes hold for any
    [FloatArith], with [binary64] of [SpecFloat] and whole numbers as instances.

    Fuel.  The two [while] loops over the lazy heaps take fuel: [claim_fuel] and the heap
    length plus one in [evict_youngest_catchup_ingest].  They are enough in every
    reachable state: [claim_ingest_refines] and [evict_youngest_spec] state that the
    result is a value.  The alignment loop has the code's own bound of 16 tries.  The
    retry loop of [merge_members] is driven by the list of what others do between its
    attempts ([merge_returns]); the lock loops are runs of steps, bounded per attempt
    ([attempts_bounded]) and by the caller's timeout.  The loop that makes room for a
    backfill file evicts one job per turn: the jobs in the store and the records of the
    walk together are enough ([walk_returns]).

    Atomicity.  A block under a lock is one step.  The dead-owner sweep and the
    reconciliation take the store's lock once per claim: run alone they are the
    functions of [JobStore] the theorems speak of, and interleaved with others they
    are the [requeue] steps of [JobStoreSteps.step], which the invariants cover.
    Files to append are assumed not to change size between their [fstat] and their
    copy ([stat_agrees]), and the logical end of a tar to lie within it.  A raw file
    does not change while it is parsed; its text is ASCII.

    Parameters: SHA-1 and SHA-256, [TarInfo.tobuf], the walk of [tarfile] over an
    archive, [pwd]/[grp], [float] on text, [str] of floats and containers, the heap,
    and what the machine answers (clock, local calendar, process table, [stat], free
    space, clone support, which write or unlink fails, marks, whether a daily tar misses a
    file).  In the walk they are fields of [process].

    Not modelled: logging and metrics; the text of JSON documents (a document is the value
    it encodes); lock timing telemetry; the compiled Codon parser; the collapse of rows
    over devices, which is a chain of pandas sums; running the find commands; the SQL of a
    scan and the listener that writes rotation records; the rest of the coordinators,
    worker pools and database code that call these components; the collectors, the web
    portal and the metric kernels. *)
From stdpp Require Export base gmap sets list strings sorting relations.
From Stdlib Require Export ZArith Lia.

(** ** Python failures as values *)

(** The exception classes the modelled code raises or catches; of a database error, whether
    its text says that a time limit ended the query. *)
Inductive py_exn :=
| ValueError
| KeyError
| IndexError
| OSError
| RuntimeError
| TimeoutError
| TarError
| TypeError
| AttributeError
| OverflowError
| PersistenceContractMismatchError
| DatabaseError (bounded : bool).

#[export] Instance py_exn_eq_dec : EqDecision py_exn.
Proof. solve_decision. Defined.

(** A call that returns or raises. *)
Inductive result (A : Type) :=
| Ok (a : A)
| Raise (e : py_exn).
Arguments Ok {A} a.
Arguments Raise {A} e.

#[export] Instance result_eq_dec `{EqDecision A} : EqDecision (result A).
Proof. solve_decision. Defined.

#[export] Instance result_ret : MRet result := fun A a => Ok a.
#[export] Instance result_bind : MBind result := fun A B f m =>
  match m with
  | Ok a => f a
  | Raise e => Raise e
  end.

#[export] Instance result_fmap : FMap result := fun A B f m =>
  match m with
  | Ok a => Ok (f a)
  | Raise e => Raise e
  end.

Lemma result_bind_ok {A B} (m : result A) (f : A -> result B) b :
  m ≫= f = Ok b <-> exists a, m = Ok a /\ f a = Ok b.
Proof. destruct m; cbn; naive_solver. Qed.

Lemma result_fmap_bind {A B C} (m : result A) (f : A -> result B) (g : B -> C) : g <$> (m ≫= f) = m ≫= (fun a => g <$> f a).
Proof. by destruct m. Qed.

Lemma result_bind_fmap {A B C} (m : result A) (f : A -> B) (g : B -> result C) : (f <$> m) ≫= g = m ≫= (fun a => g (f a)).
Proof. by destruct m. Qed.

Lemma result_bind_ext {A B} (m : result A) (f g : A -> result B) : (forall a, m = Ok a -> f a = g a) -> m ≫= f = m ≫= g.
Proof. destruct m; cbn; auto. Qed.

(** ** Python truthiness of the values the code tests with [or] *)

(** [x or d] on an optional number: [None] and [0] are falsy. *)
Definition num_or (x : option Z) (d : Z) : Z :=
  match x with
  | Some v => if (v =? 0)%Z then d else v
  | None => d
  end.

(** [str(x or "")] on an optional string. *)
Definition str_or_empty (x : option string) : string :=
  match x with
  | Some v => v
  | None => EmptyString
  end.

(** ** Tactics of the development *)

(** Destructs every decidable test of the goal, or of the context. *)
Ltac case_tests :=
  repeat (case_decide || case_match || case_bool_decide); simplify_eq/=.

(** Closes a goal by splitting hypotheses and arithmetic. *)
Ltac crush :=
  intros; repeat match goal with
    | H : _ /\ _ |- _ => destruct H
    | H : exists _, _ |- _ => destruct H
    end; simplify_eq/=; auto; try (exfalso; lia); try lia; try set_solver.

(** ** Lists *)

Section list_facts.
Context {A : Type}.

Lemma NoDup_snoc (l : list A) x : NoDup l -> x ∉ l -> NoDup (l ++ [x]).
Proof.
  intros Hl Hx. apply NoDup_app. split_and!; [done | set_solver | apply NoDup_singleton].
Qed.

Lemma list_to_set_snoc `{Countable A} (l : list A) (x : A) :
  (list_to_set (l ++ [x]) : gset A) = {[x]} ∪ list_to_set l.
Proof. rewrite list_to_set_app_L. set_solver. Qed.

Lemma filter_all (P : A -> Prop) `{forall x, Decision (P x)} (l : list A) :
  (forall x, x ∈ l -> P x) -> filter P l = l.
Proof.
  induction l as [|x l IH]; intros HP; [done|].
  rewrite filter_cons, decide_True by (apply HP; set_solver).
  f_equal. apply IH. intros y Hy. apply HP. set_solver.
Qed.

Lemma filter_nothing (P : A -> Prop) `{forall x, Decision (P x)} (l : list A) :
  (forall x, x ∈ l -> ~ P x) -> filter P l = [].
Proof.
  induction l as [|x l IH]; intros HP; [done|]. rewrite filter_cons, decide_False by (apply HP; set_solver).
  apply IH. intros y Hy. apply HP. set_solver.
Qed.

Lemma filter_ext_elem (P Q : A -> Prop) `{forall x, Decision (P x)} `{forall x, Decision (Q x)} (l : list A) :
  (forall x, x ∈ l -> P x <-> Q x) -> filter P l = filter Q l.
Proof.
  induction l as [|x l IH]; intros HPQ; [done|]. rewrite !filter_cons, IH by (intros y Hy; apply HPQ; set_solver).
  assert (P x <-> Q x) by (apply HPQ; set_solver). repeat case_decide; tauto.
Qed.

Lemma filter_comm (P Q : A -> Prop) `{forall x, Decision (P x)} `{forall x, Decision (Q x)} (l : list A) :
  filter P (filter Q l) = filter Q (filter P l).
Proof. rewrite !list_filter_filter. apply filter_ext_elem. tauto. Qed.

Lemma elem_concat (ls : list (list A)) x : x ∈ concat ls <-> exists l, x ∈ l /\ l ∈ ls.
Proof.
  induction ls as [|l ls IH]; simpl; [set_solver|]. rewrite elem_of_app, IH. setoid_rewrite elem_of_cons. naive_solver.
Qed.

Lemma NoDup_take n (l : list A) : NoDup l -> NoDup (take n l).
Proof. intros Hl. rewrite <- (take_drop n l) in Hl. by apply NoDup_app in Hl as (? & _ & _). Qed.

Lemma filter_length_cons (P : A -> Prop) `{forall x, Decision (P x)} x l :
  length (filter P (x :: l)) = (if decide (P x) then S (length (filter P l)) else length (filter P l)).
Proof. rewrite filter_cons. by case_decide. Qed.
End list_facts.

(** ** Reachability *)

(** An invariant of the initial state and of every step holds wherever the
    steps lead. *)
Lemma rtc_invariant {A} (R : relation A) (P : A -> Prop) x z :
  (forall y y', R y y' -> P y -> P y') -> P x -> rtc R x z -> P z.
Proof. intros HR Hx Hz. induction Hz; eauto. Qed.
