(* ===== verification/PyDict.v ===== *)
(** Insertion-ordered dictionaries.

    Python's [dict] keeps its keys in the order they were first inserted, and
    the job store iterates over such dictionaries ([reap_expired_inflight],
    [steal_dead_owner_leases], [ingest_identities]).  [dict K V] is that value: an
    association list, updated in place at an existing key and extended at the
    end at a new one.  [dict_wf] says no key occurs twice; every operation
    keeps it.  Two dictionaries with the same lookups are [≡]; the operations
    respect that coarser equality ([Proper] instances). *)
From S2P Require Import Prelude.

Record dict (K V : Type) := Dict { dict_items : list (K * V) }.
Arguments Dict {K V} _.
Arguments dict_items {K V} _.

Section dict_ops.
Context {K V : Type} `{EqDecision K}.

Fixpoint assoc_get (k : K) (l : list (K * V)) : option V :=
  match l with
  | [] => None
  | (k', v) :: l' => if decide (k = k') then Some v else assoc_get k l'
  end.

Fixpoint assoc_set (k : K) (v : V) (l : list (K * V)) : list (K * V) :=
  match l with
  | [] => [(k, v)]
  | (k', v') :: l' =>
      if decide (k = k') then (k, v) :: l' else (k', v') :: assoc_set k v l'
  end.

Definition assoc_del (k : K) (l : list (K * V)) : list (K * V) :=
  filter (fun p => p.1 <> k) l.

#[export] Instance dict_empty : Empty (dict K V) := Dict [].
#[export] Instance dict_lookup : Lookup K V (dict K V) :=
  fun k d => assoc_get k (dict_items d).
#[export] Instance dict_insert : Insert K V (dict K V) :=
  fun k v d => Dict (assoc_set k v (dict_items d)).
#[export] Instance dict_delete : Delete K (dict K V) :=
  fun k d => Dict (assoc_del k (dict_items d)).

Definition dict_keys (d : dict K V) : list K := (dict_items d).*1.
Definition dict_values (d : dict K V) : list V := (dict_items d).*2.
Definition dict_len (d : dict K V) : nat := length (dict_items d).

Definition dict_wf (d : dict K V) : Prop := NoDup (dict_keys d).

(** Same lookups: equality up to insertion order. *)
#[export] Instance dict_equiv : Equiv (dict K V) :=
  fun d1 d2 => forall k : K, d1 !! k = d2 !! k.
End dict_ops.

#[export] Instance dict_inhabited {K V} : Inhabited (dict K V) := populate (Dict []).
#[export] Instance dict_eq_dec `{EqDecision K, EqDecision V} : EqDecision (dict K V).
Proof. solve_decision. Defined.

#[global] Arguments dict_lookup {_ _ _} _ _ : simpl never.
#[global] Arguments dict_insert {_ _ _} _ _ _ : simpl never.
#[global] Arguments dict_delete {_ _ _} _ _ : simpl never.

Section dict_laws.
Context {K V : Type} `{EqDecision K}.
Implicit Types (d : dict K V) (k : K) (v : V).

Lemma dict_lookup_empty k : (∅ : dict K V) !! k = None.
Proof. done. Qed.

Lemma dict_lookup_insert d k k' v :
  <[k := v]> d !! k' = if decide (k = k') then Some v else d !! k'.
Proof.
  destruct d as [l]. unfold lookup, dict_lookup, insert, dict_insert; simpl.
  induction l as [|[k0 v0] l IH]; simpl; [by repeat case_decide; simplify_eq|].
  destruct (decide (k = k0)) as [->|]; simpl; [repeat case_decide; by simplify_eq|].
  rewrite IH. repeat case_decide; by simplify_eq.
Qed.

Lemma dict_lookup_insert_eq d k v : <[k := v]> d !! k = Some v.
Proof. rewrite dict_lookup_insert. by case_decide. Qed.

Lemma dict_lookup_insert_ne d k k' v : k <> k' -> <[k := v]> d !! k' = d !! k'.
Proof. intros. rewrite dict_lookup_insert. by case_decide. Qed.

Lemma dict_lookup_delete d k k' :
  delete k d !! k' = if decide (k = k') then None else d !! k'.
Proof.
  destruct d as [l]. unfold lookup, dict_lookup, delete, dict_delete, assoc_del; simpl.
  induction l as [|[k0 v0] l IH]; [by case_decide|].
  rewrite filter_cons. repeat (case_decide || simpl); simplify_eq/=; try done;
    rewrite ?decide_True, ?decide_False in IH by done; done.
Qed.

Lemma dict_lookup_delete_eq d k : delete k d !! k = None.
Proof. rewrite dict_lookup_delete. by case_decide. Qed.

Lemma dict_lookup_delete_ne d k k' : k <> k' -> delete k d !! k' = d !! k'.
Proof. intros. rewrite dict_lookup_delete. by case_decide. Qed.

Lemma dict_lookup_elem d k v : d !! k = Some v -> (k, v) ∈ dict_items d.
Proof.
  destruct d as [l]. unfold lookup, dict_lookup; simpl.
  induction l as [|[k0 v0] l IH]; simpl; [done|].
  case_decide; intros; simplify_eq; set_solver.
Qed.

Lemma dict_elem_lookup d k v : dict_wf d -> (k, v) ∈ dict_items d -> d !! k = Some v.
Proof.
  destruct d as [l]. unfold dict_wf, dict_keys, lookup, dict_lookup; simpl.
  induction l as [|[k0 v0] l IH]; simpl; [set_solver|].
  intros [Hn Hd]%NoDup_cons [|]%elem_of_cons; simplify_eq; [by case_decide|].
  case_decide; [subst|by apply IH].
  destruct Hn. apply list_elem_of_fmap. by exists (k0, v).
Qed.

Lemma dict_items_lookup d k v : dict_wf d -> (k, v) ∈ dict_items d <-> d !! k = Some v.
Proof. split; eauto using dict_elem_lookup, dict_lookup_elem. Qed.

Lemma dict_keys_lookup d k : k ∈ dict_keys d <-> is_Some (d !! k).
Proof.
  destruct d as [l]. unfold dict_keys, lookup, dict_lookup; simpl.
  induction l as [|[k0 v0] l IH]; simpl.
  - split; [set_solver|by intros []].
  - rewrite elem_of_cons, IH. case_decide; naive_solver.
Qed.

Lemma dict_keys_insert_Some d k v : is_Some (d !! k) -> dict_keys (<[k := v]> d) = dict_keys d.
Proof.
  destruct d as [l]. unfold dict_keys, lookup, dict_lookup, insert, dict_insert; simpl.
  induction l as [|[k0 v0] l IH]; simpl; [by intros []|].
  case_decide; simpl; [by subst|]. intros. f_equal. by apply IH.
Qed.

Lemma dict_items_insert_None d k v :
  d !! k = None -> dict_items (<[k := v]> d) = dict_items d ++ [(k, v)].
Proof.
  destruct d as [l]. unfold lookup, dict_lookup, insert, dict_insert; simpl.
  induction l as [|[k0 v0] l IH]; simpl; [done|].
  case_decide; simpl; [done|]. intros. f_equal. by apply IH.
Qed.

Lemma dict_keys_insert_None d k v :
  d !! k = None -> dict_keys (<[k := v]> d) = dict_keys d ++ [k].
Proof. intros. unfold dict_keys. by rewrite dict_items_insert_None, fmap_app. Qed.

Lemma dict_wf_empty : dict_wf (∅ : dict K V).
Proof. apply NoDup_nil_2. Qed.

Lemma dict_wf_insert d k v : dict_wf d -> dict_wf (<[k := v]> d).
Proof.
  unfold dict_wf. intros Hd. destruct (d !! k) eqn:E.
  - by rewrite dict_keys_insert_Some by eauto.
  - rewrite dict_keys_insert_None by done. apply NoDup_snoc; [done|].
    rewrite dict_keys_lookup, E. by intros [].
Qed.

Lemma dict_keys_delete d k : dict_keys (delete k d) = filter (fun k' => k' <> k) (dict_keys d).
Proof.
  destruct d as [l]. unfold dict_keys, delete, dict_delete, assoc_del; simpl.
  induction l as [|[k0 v0] l IH]; [done|].
  simpl. rewrite !filter_cons; simpl. case_decide; simpl; [f_equal|]; apply IH.
Qed.

Lemma dict_wf_delete d k : dict_wf d -> dict_wf (delete k d).
Proof. unfold dict_wf. rewrite dict_keys_delete. apply NoDup_filter. Qed.

Lemma dict_delete_None d k : d !! k = None -> delete k d = d.
Proof.
  destruct d as [l]. unfold lookup, dict_lookup, delete, dict_delete, assoc_del; simpl.
  intros Hl. f_equal. induction l as [|[k0 v0] l IH]; [done|].
  simpl in Hl. case_decide; [done|].
  rewrite filter_cons, decide_True by (simpl; congruence). f_equal. by apply IH.
Qed.

(** Writing the value already there changes nothing, its place included. *)
Lemma dict_insert_id d k v : d !! k = Some v -> <[k := v]> d = d.
Proof.
  destruct d as [l]. unfold lookup, dict_lookup, insert, dict_insert; simpl.
  intros Hl. f_equal. induction l as [|[k0 v0] l IH]; simpl in *; [done|].
  case_decide; [by simplify_eq|]. f_equal. by apply IH.
Qed.

(** Deleting a present key removes one item; this is what [len] sees. *)
(** Order and lookups determine a dict. *)
Lemma dict_ext d e : dict_wf d -> dict_keys d = dict_keys e -> (forall k, k ∈ dict_keys d -> d !! k = e !! k) -> d = e.
Proof.
  destruct d as [l], e as [l']. unfold dict_wf, dict_keys, lookup, dict_lookup; simpl. intros Hd Hk Hl. f_equal.
  revert l' Hk Hl. induction l as [|[k v] l IH]; intros [|[k' v'] l'] Hk Hl; simplify_eq/=; [done|].
  apply NoDup_cons in Hd as [Hn Hd]. f_equal.
  - specialize (Hl k' ltac:(set_solver)). by rewrite !decide_True in Hl by done; simplify_eq.
  - apply IH; [done|done|]. intros k Hin. specialize (Hl k ltac:(set_solver)). by rewrite !decide_False in Hl by set_solver.
Qed.

(** Updates of different keys commute when one of them is there already. *)
Lemma dict_insert_comm d k k' v v' : k <> k' -> is_Some (d !! k) -> <[k := v]> (<[k' := v']> d) = <[k' := v']> (<[k := v]> d).
Proof.
  destruct d as [l]. unfold lookup, dict_lookup, insert, dict_insert; simpl. intros Hne Hk. f_equal.
  induction l as [|[k0 v0] l IH]; simpl in *; [by destruct Hk|].
  repeat (case_decide; simplify_eq/=; try done). by rewrite IH.
Qed.

Lemma dict_insert_insert d k v v' : <[k := v]> (<[k := v']> d) = <[k := v]> d.
Proof.
  destruct d as [l]. unfold insert, dict_insert; simpl. f_equal.
  induction l as [|[k0 v0] l IH]; simpl in *; repeat (case_decide; simplify_eq/=; try done). by rewrite IH.
Qed.

Lemma dict_items_delete_perm d k v :
  dict_wf d -> d !! k = Some v -> dict_items d ≡ₚ (k, v) :: dict_items (delete k d).
Proof.
  destruct d as [l]. unfold dict_wf, dict_keys, lookup, dict_lookup, delete, dict_delete, assoc_del; simpl.
  induction l as [|[k0 v0] l IH]; simpl; [done|].
  intros [Hn Hd]%NoDup_cons. destruct (decide (k = k0)) as [<-|Hne]; intros Hl; simplify_eq.
  - rewrite filter_cons, decide_False by (simpl; by intros []). f_equiv.
    rewrite filter_all; [done|]. intros [k1 v1] Hin ?; simpl in *; subst.
    apply Hn, list_elem_of_fmap. by exists (k, v1).
  - rewrite filter_cons, decide_True by (simpl; congruence). rewrite IH at 1 by done. apply Permutation_swap.
Qed.

#[export] Instance dict_equivalence : Equivalence (≡@{dict K V}).
Proof. split; [by intros ? k|intros d1 d2 H k; by rewrite (H k)|intros d1 d2 d3 H1 H2 k; by rewrite (H1 k)]. Qed.

#[export] Instance dict_lookup_proper k : Proper ((≡) ==> (=)) (lookup k : dict K V -> option V).
Proof. intros d1 d2 H. apply H. Qed.

#[export] Instance dict_insert_proper k v : Proper ((≡) ==> (≡)) (insert k v : dict K V -> dict K V).
Proof. intros d1 d2 H k'. rewrite !dict_lookup_insert. by case_decide. Qed.

#[export] Instance dict_delete_proper k : Proper ((≡) ==> (≡)) (delete k : dict K V -> dict K V).
Proof. intros d1 d2 H k'. rewrite !dict_lookup_delete. by case_decide. Qed.

(** Equal up to insertion order means equal as collections of items. *)
Lemma dict_equiv_items_perm d1 d2 :
  dict_wf d1 -> dict_wf d2 -> d1 ≡ d2 -> dict_items d1 ≡ₚ dict_items d2.
Proof.
  intros Hw1 Hw2 He. apply NoDup_Permutation.
  - by apply NoDup_fmap_1 in Hw1.
  - by apply NoDup_fmap_1 in Hw2.
  - intros [k v]. rewrite !dict_items_lookup by done. by rewrite (He k).
Qed.
End dict_laws.

(** A dictionary built from a list of items, later items winning ([dict(items)]). *)
Definition dict_of_items {K V} `{EqDecision K} (l : list (K * V)) : dict K V :=
  foldl (fun d p => <[p.1 := p.2]> d) ∅ l.

Lemma dict_of_items_wf {K V} `{EqDecision K} (l : list (K * V)) : dict_wf (dict_of_items l).
Proof.
  unfold dict_of_items. generalize (dict_wf_empty : dict_wf (∅ : dict K V)).
  generalize (∅ : dict K V). induction l as [|[k v] l IH]; simpl; [done|].
  intros d Hd. by apply IH, dict_wf_insert.
Qed.

Lemma dict_of_items_NoDup {K V} `{EqDecision K} (l : list (K * V)) :
  NoDup l.*1 -> dict_of_items l = Dict l.
Proof.
  unfold dict_of_items.
  assert (forall (pre : list (K * V)), NoDup (pre ++ l).*1 ->
    foldl (fun d p => <[p.1 := p.2]> d) (Dict pre) l = Dict (pre ++ l)) as Hg.
  { induction l as [|[k v] l IH]; intros pre Hnd; simpl; [by rewrite app_nil_r|].
    assert (<[k := v]> (Dict pre) = Dict (pre ++ [(k, v)])) as ->.
    { rewrite fmap_app, fmap_cons in Hnd. apply NoDup_app in Hnd as (_ & Hdis & _).
      assert (Dict pre !! k = None) as Hk.
      { apply eq_None_not_Some. intros Hs. apply dict_keys_lookup in Hs.
        apply (Hdis k Hs). left. }
      pose proof (dict_items_insert_None (Dict pre) k v Hk) as Hi.
      destruct (<[k:=v]> (Dict pre)) as [l0]; simpl in Hi. by rewrite Hi. }
    rewrite IH; rewrite <- app_assoc; [done|exact Hnd]. }
  intros. by apply (Hg []).
Qed.

(** [{k: v for k, v in d.items() if p(k, v)}]. *)
Definition dict_filter {K V} (p : K -> V -> bool) (d : dict K V) : dict K V :=
  Dict (filter (fun kv => p kv.1 kv.2 = true) (dict_items d)).

(** [d.update(e)]. *)
Definition dict_update {K V} `{EqDecision K} (d e : dict K V) : dict K V :=
  foldl (fun d p => <[p.1 := p.2]> d) d (dict_items e).

Section dict_bulk.
Context {K V : Type} `{EqDecision K}.
Implicit Types (d e : dict K V) (k : K) (v : V).

Lemma dict_filter_wf p d : dict_wf d -> dict_wf (dict_filter p d).
Proof.
  unfold dict_wf, dict_keys, dict_filter; simpl. destruct d as [l]; simpl.
  induction l as [|[k v] l IH]; [done|]. rewrite fmap_cons, filter_cons. intros [Hn Hd]%NoDup_cons.
  case_decide; [|by apply IH]. rewrite fmap_cons. apply NoDup_cons. split; [|by apply IH].
  intros Hin. apply Hn. simpl in *. apply list_elem_of_fmap in Hin as (y & -> & Hin).
  apply list_elem_of_filter in Hin as [_ Hin]. apply list_elem_of_fmap. by exists y.
Qed.

Lemma dict_filter_lookup p d k v :
  dict_wf d -> dict_filter p d !! k = Some v <-> d !! k = Some v /\ p k v = true.
Proof.
  intros Hw. rewrite <- !dict_items_lookup by auto using dict_filter_wf.
  unfold dict_filter; simpl. rewrite list_elem_of_filter. simpl. naive_solver.
Qed.

Lemma dict_filter_lookup_None p d k :
  dict_wf d -> dict_filter p d !! k = None <-> forall v, d !! k = Some v -> p k v = false.
Proof.
  intros Hw. split.
  - intros Hn v Hv. destruct (p k v) eqn:E; [|done].
    assert (dict_filter p d !! k = Some v) as Hs by by apply dict_filter_lookup. congruence.
  - intros Hp. apply eq_None_not_Some. intros [v Hv]. apply dict_filter_lookup in Hv as [Hv E]; [|done].
    by rewrite (Hp v Hv) in E.
Qed.

Lemma dict_update_wf d e : dict_wf d -> dict_wf (dict_update d e).
Proof.
  unfold dict_update. destruct e as [l]; simpl. revert d. induction l as [|[k v] l IH]; intros d Hd; simpl; [done|].
  by apply IH, dict_wf_insert.
Qed.

Lemma dict_update_lookup d e k :
  dict_wf e -> dict_update d e !! k = match e !! k with Some v => Some v | None => d !! k end.
Proof.
  unfold dict_update, dict_wf, dict_keys. destruct e as [l]. unfold lookup at 2, dict_lookup at 2. simpl.
  revert d. induction l as [|[k0 v0] l IH]; intros d Hd; simpl; [done|].
  apply NoDup_cons in Hd as [Hn Hd]. rewrite IH by done. destruct (decide (k = k0)) as [->|Hne].
  - assert (assoc_get k0 l = None) as ->.
    { apply eq_None_not_Some. intros Hs. apply Hn. by apply (dict_keys_lookup (Dict l)). }
    apply dict_lookup_insert_eq.
  - by rewrite dict_lookup_insert_ne.
Qed.
End dict_bulk.

Create HintDb dict discriminated.
Create Rewrite HintDb dict.
#[export] Hint Resolve dict_wf_empty dict_wf_insert dict_wf_delete : dict.
#[export] Hint Rewrite @dict_lookup_insert_eq @dict_lookup_delete_eq @dict_lookup_empty : dict.
#[export] Hint Rewrite @dict_lookup_insert_ne @dict_lookup_delete_ne using congruence : dict.

Lemma elem_values {K V} `{EqDecision K} (d : dict K V) v : dict_wf d -> v ∈ dict_values d <-> exists k, d !! k = Some v.
Proof.
  intros Hd. unfold dict_values. rewrite list_elem_of_fmap. split.
  - intros ([k w] & -> & Hin). exists k. by apply dict_items_lookup.
  - intros [k Hk]. exists (k, v). split; [done|]. by apply dict_items_lookup.
Qed.
