(* ===== verification/PriorityQueue.v ===== *)
(** Priority queues of [(score, identity)] pairs: the interface the ingest
    bands promise to the claim loop, and an implementation.

    The job store keeps three [heapq] heaps.  Its code uses four things of
    [heapq]: [heappush], [heappop], [heap\[0\]] and [heapify]; what it relies on
    is the contract [PriorityQueue] states: an item goes in, the least item
    comes out, nothing else appears or disappears.  Tuples compare
    lexicographically: the score first, then the identity by code points. *)
From S2P Require Import Prelude.

(** One heap item: [(score, identity)]. *)
Definition qkey : Type := Z * string.

Definition qkey_le (a b : qkey) : Prop :=
  (a.1 < b.1)%Z \/ a.1 = b.1 /\ String.le a.2 b.2.

#[export] Instance qkey_le_dec : RelDecision qkey_le.
Proof. intros a b. unfold qkey_le. apply _. Defined.

#[export] Instance qkey_le_refl : Reflexive qkey_le.
Proof. intros a. right. done. Qed.

#[export] Instance qkey_le_trans : Transitive qkey_le.
Proof.
  intros a b c [?|[E1 H1]] [?|[E2 H2]]; unfold qkey_le; [left; lia..|].
  right. split; [congruence|by etrans].
Qed.

#[export] Instance qkey_le_antisymm : AntiSymm (=) qkey_le.
Proof.
  intros [s1 i1] [s2 i2] [?|[E1 H1]] [?|[E2 H2]]; simpl in *; [lia..|].
  subst. f_equal. by apply (anti_symm String.le).
Qed.

#[export] Instance qkey_le_total : Total qkey_le.
Proof.
  intros [s1 i1] [s2 i2]. unfold qkey_le; simpl.
  destruct (Z.lt_trichotomy s1 s2) as [?|[->|?]]; [auto| |auto].
  destruct (total String.le i1 i2); auto.
Qed.

Lemma qkey_le_score a b : qkey_le a b -> (a.1 <= b.1)%Z.
Proof. intros [?|[-> _]]; lia. Qed.

(** What a heap promises its client. *)
Class PriorityQueue (H : Type) := {
  pq_items : H -> list qkey;
  pq_empty : H;
  pq_push : qkey -> H -> H;
  pq_pop : H -> option (qkey * H);
  pq_items_empty : pq_items pq_empty = [];
  pq_items_push x h : pq_items (pq_push x h) ≡ₚ x :: pq_items h;
  pq_pop_None h : pq_pop h = None -> pq_items h = [];
  pq_pop_perm h x h' : pq_pop h = Some (x, h') -> pq_items h ≡ₚ x :: pq_items h';
  pq_pop_min h x h' y : pq_pop h = Some (x, h') -> y ∈ pq_items h -> qkey_le x y;
}.

Section derived.
Context {H : Type} `{PriorityQueue H}.

(** [heap\[0\]]. *)
Definition pq_peek (h : H) : option qkey := fst <$> pq_pop h.

(** [len(heap)]. *)
Definition pq_len (h : H) : nat := length (pq_items h).

(** [heap\[:\] = items; heapify(heap)]. *)
Definition pq_heapify (l : list qkey) : H := foldr pq_push pq_empty l.

Lemma pq_items_heapify l : pq_items (pq_heapify l) ≡ₚ l.
Proof.
  induction l as [|x l IH]; simpl; [by rewrite pq_items_empty|].
  by rewrite pq_items_push, IH.
Qed.

Lemma pq_elem_push x y h : y ∈ pq_items (pq_push x h) <-> y = x \/ y ∈ pq_items h.
Proof. by rewrite pq_items_push, elem_of_cons. Qed.

Lemma pq_elem_heapify y l : y ∈ pq_items (pq_heapify l) <-> y ∈ l.
Proof. by rewrite pq_items_heapify. Qed.

Lemma pq_pop_elem h x h' y :
  pq_pop h = Some (x, h') -> y ∈ pq_items h <-> y = x \/ y ∈ pq_items h'.
Proof. intros Hp. by rewrite (pq_pop_perm _ _ _ Hp), elem_of_cons. Qed.

Lemma pq_len_push x h : pq_len (pq_push x h) = S (pq_len h).
Proof. unfold pq_len. by rewrite pq_items_push. Qed.

Lemma pq_len_pop h x h' : pq_pop h = Some (x, h') -> pq_len h = S (pq_len h').
Proof. intros Hp. unfold pq_len. by rewrite (pq_pop_perm _ _ _ Hp). Qed.

Lemma pq_pop_is_Some h : pq_items h <> [] -> exists x h', pq_pop h = Some (x, h').
Proof.
  intros Hne. destruct (pq_pop h) as [[x h']|] eqn:E; [by eauto|].
  by apply pq_pop_None in E.
Qed.

Lemma pq_peek_Some h x :
  pq_peek h = Some x -> x ∈ pq_items h /\ forall y, y ∈ pq_items h -> qkey_le x y.
Proof.
  unfold pq_peek. destruct (pq_pop h) as [[x' h']|] eqn:E; simpl; intros; simplify_eq.
  split; [|by eauto using pq_pop_min].
  eapply pq_pop_elem; [done|by left].
Qed.
End derived.

(** ** An implementation

    A list from which the least item is taken.  The laws hold of every list, so
    no representation invariant is needed. *)
Module MinScan.

Fixpoint take_min (x : qkey) (l : list qkey) : qkey * list qkey :=
  match l with
  | [] => (x, [])
  | y :: l' =>
      if decide (qkey_le x y) then let '(m, r) := take_min x l' in (m, y :: r)
      else let '(m, r) := take_min y l' in (m, x :: r)
  end.

Definition pop (l : list qkey) : option (qkey * list qkey) :=
  match l with
  | [] => None
  | x :: l' => Some (take_min x l')
  end.

Lemma take_min_perm x l : x :: l ≡ₚ (take_min x l).1 :: (take_min x l).2.
Proof.
  revert x. induction l as [|y l IH]; intros x; simpl; [done|].
  case_decide.
  - specialize (IH x). destruct (take_min x l) as [m r]; simpl in *.
    rewrite (Permutation_swap y x l), IH. apply Permutation_swap.
  - specialize (IH y). destruct (take_min y l) as [m r]; simpl in *.
    rewrite IH. apply Permutation_swap.
Qed.

Lemma take_min_le_head x l : qkey_le (take_min x l).1 x.
Proof.
  revert x. induction l as [|y l IH]; intros x; simpl; [done|].
  case_decide as Hle.
  - specialize (IH x). by destruct (take_min x l).
  - specialize (IH y). destruct (take_min y l); simpl in *.
    etrans; [exact IH|]. by destruct (total qkey_le x y).
Qed.

Lemma take_min_min x l y : y ∈ x :: l -> qkey_le (take_min x l).1 y.
Proof.
  revert x. induction l as [|z l IH]; intros x; simpl.
  - intros [->|[]%elem_of_nil]%elem_of_cons. done.
  - case_decide as Hle.
    + intros Hy. pose proof (take_min_le_head x l) as Hh.
      assert (y = z \/ y ∈ x :: l) as [->|Hin] by set_solver.
      * destruct (take_min x l); simpl in *. by etrans.
      * specialize (IH x Hin). by destruct (take_min x l).
    + intros Hy. pose proof (take_min_le_head z l) as Hh.
      assert (y = x \/ y ∈ z :: l) as [->|Hin] by set_solver.
      * destruct (take_min z l); simpl in *. etrans; [exact Hh|].
        by destruct (total qkey_le x z).
      * specialize (IH z Hin). by destruct (take_min z l).
Qed.

#[export, refine] Instance min_scan : PriorityQueue (list qkey) := {
  pq_items l := l;
  pq_empty := [];
  pq_push x l := x :: l;
  pq_pop := pop;
}.
Proof.
  - done.
  - done.
  - by intros [].
  - intros [|z l] x h'; simpl; [done|]. intros [= Hm].
    pose proof (take_min_perm z l) as Hp. by rewrite Hm in Hp.
  - intros [|z l] x h' y; simpl; [done|]. intros [= Hm] Hy.
    pose proof (take_min_min z l y Hy) as Hp. by rewrite Hm in Hp.
Defined.
End MinScan.
