(* ===== verification/PyStr.v ===== *)
(** The string operations the modelled code uses, on ASCII strings:
    [str.strip], [str.lower], [str.split(sep)], [str.replace], ["sep".join],
    [int(text)] and the decimal rendering of an integer, with the lemmas the
    round trips rest on. *)
From S2P Require Import Prelude.
From Stdlib Require Import Decimal DecimalString DecimalZ Ascii String.

Local Open Scope string_scope.

Definition is_space (c : ascii) : bool :=
  let n := nat_of_ascii c in
  (((9 <=? n) && (n <=? 13)) || ((28 <=? n) && (n <=? 32)))%nat.

Definition is_digit (c : ascii) : bool :=
  let n := nat_of_ascii c in ((48 <=? n) && (n <=? 57))%nat.

Definition lower_ascii (c : ascii) : ascii :=
  let n := nat_of_ascii c in
  if ((65 <=? n) && (n <=? 90))%nat then ascii_of_nat (n + 32) else c.

(** Every character satisfies [p]. *)
Fixpoint str_all (p : ascii -> bool) (s : string) : bool :=
  match s with
  | EmptyString => true
  | String c s' => p c && str_all p s'
  end.

Definition no_char (c : ascii) (s : string) : bool := str_all (fun c' => negb (Ascii.eqb c' c)) s.

Fixpoint py_lstrip (s : string) : string :=
  match s with
  | EmptyString => EmptyString
  | String c s' => if is_space c then py_lstrip s' else s
  end.

Fixpoint py_rstrip (s : string) : string :=
  match s with
  | EmptyString => EmptyString
  | String c s' =>
      match py_rstrip s' with
      | EmptyString => if is_space c then EmptyString else String c EmptyString
      | t => String c t
      end
  end.

Definition py_strip (s : string) : string := py_rstrip (py_lstrip s).

Fixpoint py_lower (s : string) : string :=
  match s with
  | EmptyString => EmptyString
  | String c s' => String (lower_ascii c) (py_lower s')
  end.

(** [s.split(sep)] for a one-character separator. *)
Fixpoint py_split (sep : ascii) (s : string) : list string :=
  match s with
  | EmptyString => [EmptyString]
  | String c s' =>
      if Ascii.eqb c sep then EmptyString :: py_split sep s'
      else match py_split sep s' with
           | p :: ps => String c p :: ps
           | [] => [String c EmptyString]
           end
  end.

(** [sep.join(parts)]. *)
Fixpoint py_join (sep : string) (l : list string) : string :=
  match l with
  | [] => EmptyString
  | [p] => p
  | p :: l' => p ++ sep ++ py_join sep l'
  end.

(** [s.replace(a, b)] for one-character [a] and [b]. *)
Fixpoint py_replace (a b : ascii) (s : string) : string :=
  match s with
  | EmptyString => EmptyString
  | String c s' => String (if Ascii.eqb c a then b else c) (py_replace a b s')
  end.

Fixpoint str_reverse_onto (s acc : string) : string :=
  match s with
  | EmptyString => acc
  | String c s' => str_reverse_onto s' (String c acc)
  end.

(** [s[: -len(suffix)]] when [s.endswith(suffix)], for a suffix that is not empty. *)
Fixpoint strip_suffix (suffix s : string) : option string :=
  if String.eqb s suffix then Some EmptyString
  else match s with
       | EmptyString => None
       | String c s' => match strip_suffix suffix s' with Some p => Some (String c p) | None => None end
       end.

Definition is_alpha (c : ascii) : bool :=
  let n := nat_of_ascii c in (((65 <=? n) && (n <=? 90)) || ((97 <=? n) && (n <=? 122)))%nat.

(** [s.lstrip(chars)], the characters as a test. *)
Fixpoint lstrip_chars (p : ascii -> bool) (s : string) : string :=
  match s with
  | EmptyString => EmptyString
  | String c s' => if p c then lstrip_chars p s' else s
  end.

(** ["".join(filter(p, s))]. *)
Fixpoint str_filter (p : ascii -> bool) (s : string) : string :=
  match s with
  | EmptyString => EmptyString
  | String c s' => if p c then String c (str_filter p s') else str_filter p s'
  end.

(** [sub in s]. *)
Fixpoint str_contains (sub s : string) : bool :=
  String.prefix sub s || match s with EmptyString => false | String _ s' => str_contains sub s' end.

(** [s.isdigit()]. *)
Definition str_isdigit (s : string) : bool := negb (String.eqb s EmptyString) && str_all is_digit s.

(** The first word and what follows it, of a string without leading space. *)
Fixpoint split_word (s : string) : string * string :=
  match s with
  | EmptyString => (EmptyString, EmptyString)
  | String c s' => if is_space c then (EmptyString, s) else let '(w, rest) := split_word s' in (String c w, rest)
  end.

(** [s.split()]: the words between white space. *)
Fixpoint words_from (word : string) (s : string) : list string :=
  match s with
  | EmptyString => if String.eqb word EmptyString then [] else [str_reverse_onto word EmptyString]
  | String c s' =>
      if is_space c
      then if String.eqb word EmptyString then words_from EmptyString s' else str_reverse_onto word EmptyString :: words_from EmptyString s'
      else words_from (String c word) s'
  end.

Definition py_words (s : string) : list string := words_from EmptyString s.

(** [s.split(sep, 1)]: what is before the first separator, and what follows it. *)
Fixpoint split_once (sep : ascii) (s : string) : string * option string :=
  match s with
  | EmptyString => (EmptyString, None)
  | String c s' => if Ascii.eqb c sep then (EmptyString, Some s') else let '(a, b) := split_once sep s' in (String c a, b)
  end.

(** [s.rsplit(marker, 1)], [None] when the marker is not there. *)
Fixpoint rsplit_on (marker s : string) : option (string * string) :=
  match s with
  | EmptyString => None
  | String c s' =>
      match rsplit_on marker s' with
      | Some (a, b) => Some (String c a, b)
      | None => if String.prefix marker s then Some (EmptyString, String.substring (String.length marker) (String.length s) s) else None
      end
  end.

(** ** Integers *)

(** [str(z)]. *)
Definition str_of_Z (z : Z) : string := NilZero.string_of_int (Z.to_int z).

(** The digits of an [int()] literal: one underscore is allowed between two
    digits. [prev] says the previous character was a digit. *)
Fixpoint digits_value (acc : Z) (prev : bool) (s : string) : option Z :=
  match s with
  | EmptyString => if prev then Some acc else None
  | String c s' =>
      if is_digit c then
        digits_value (acc * 10 + (Z.of_nat (nat_of_ascii c) - 48))%Z true s'
      else if Ascii.eqb c "_"%char && prev then digits_value acc false s'
      else None
  end.

(** [int(text)], [None] when it raises [ValueError]. *)
Definition py_int (s : string) : option Z :=
  match py_strip s with
  | String c t =>
      if Ascii.eqb c "-"%char then Z.opp <$> digits_value 0 false t
      else if Ascii.eqb c "+"%char then digits_value 0 false t
      else digits_value 0 false (String c t)
  | EmptyString => None
  end.

(** ** Lemmas *)

Lemma str_all_app p s t : str_all p (s ++ t) = str_all p s && str_all p t.
Proof. induction s as [|c s IH]; simpl; [done|]. by rewrite IH, andb_assoc. Qed.

Lemma str_all_impl (p q : ascii -> bool) s :
  (forall c, p c = true -> q c = true) -> str_all p s = true -> str_all q s = true.
Proof.
  intros Hpq. induction s as [|c s IH]; simpl; [done|].
  rewrite !andb_true_iff. naive_solver.
Qed.

Lemma py_replace_no_char a b s : a <> b -> no_char a (py_replace a b s) = true.
Proof.
  intros Hab. unfold no_char. induction s as [|c s IH]; simpl; [done|]. rewrite IH, andb_true_r.
  destruct (Ascii.eqb_spec c a) as [|Hne]; apply negb_true_iff, Ascii.eqb_neq; congruence.
Qed.

Lemma py_replace_keeps_no_char a b c s :
  c <> b -> no_char c s = true -> no_char c (py_replace a b s) = true.
Proof.
  intros Hcb. unfold no_char. induction s as [|d s IH]; simpl; [done|].
  rewrite !andb_true_iff. intros [Hd Hs]. split; [|by apply IH].
  destruct (Ascii.eqb d a); [apply negb_true_iff, Ascii.eqb_neq; congruence|done].
Qed.

Lemma py_replace_id a b s : no_char a s = true -> py_replace a b s = s.
Proof.
  unfold no_char. induction s as [|c s IH]; simpl; [done|].
  rewrite andb_true_iff, negb_true_iff. intros [-> Hs]. by rewrite IH.
Qed.

Lemma py_split_nonempty sep s : exists p ps, py_split sep s = p :: ps.
Proof. induction s as [|c s (p & ps & E)]; simpl; [eauto|]. destruct (Ascii.eqb c sep); [eauto|]. rewrite E. eauto. Qed.

Lemma py_split_not_nil sep s : py_split sep s <> [].
Proof. destruct (py_split_nonempty sep s) as (p & ps & ->). done. Qed.

Lemma py_split_no_char sep s : no_char sep s = true -> py_split sep s = [s].
Proof.
  unfold no_char. induction s as [|c s IH]; simpl; [done|].
  rewrite andb_true_iff, negb_true_iff. intros [-> Hs]. by rewrite IH.
Qed.

Lemma py_split_app sep s t :
  no_char sep s = true -> py_split sep (s ++ String sep t) = s :: py_split sep t.
Proof.
  unfold no_char. induction s as [|c s IH]; simpl.
  - by rewrite Ascii.eqb_refl.
  - rewrite andb_true_iff, negb_true_iff. intros [-> Hs]. by rewrite IH.
Qed.

Lemma py_split_sep sep s t :
  no_char sep s = true -> py_split sep (s ++ String sep EmptyString ++ t) = s :: py_split sep t.
Proof. apply py_split_app. Qed.

Lemma py_lstrip_id s : str_all (fun c => negb (is_space c)) s = true -> py_lstrip s = s.
Proof. destruct s as [|c s]; simpl; [done|]. rewrite andb_true_iff, negb_true_iff. by intros [-> _]. Qed.

Lemma py_rstrip_id s : str_all (fun c => negb (is_space c)) s = true -> py_rstrip s = s.
Proof.
  induction s as [|c s IH]; simpl; [done|]. rewrite andb_true_iff, negb_true_iff.
  intros [-> Hs]. rewrite IH by done. by destruct s.
Qed.

Lemma py_strip_id s : str_all (fun c => negb (is_space c)) s = true -> py_strip s = s.
Proof. intros. unfold py_strip. by rewrite py_lstrip_id, py_rstrip_id. Qed.

Lemma py_rstrip_idem s : py_rstrip (py_rstrip s) = py_rstrip s.
Proof.
  induction s as [|c s IH]; [done|]. cbn [py_rstrip]. destruct (py_rstrip s) as [|d t] eqn:E.
  - destruct (is_space c) eqn:Hc; [done|]. simpl. by rewrite Hc.
  - cbn [py_rstrip] in *. by rewrite IH.
Qed.

Lemma py_rstrip_head c s : is_space c = false -> exists t, py_rstrip (String c s) = String c t.
Proof. intros Hc. cbn [py_rstrip]. destruct (py_rstrip s); [rewrite Hc|]; eauto. Qed.

Lemma py_lstrip_head s : py_lstrip s = EmptyString \/ exists c t, py_lstrip s = String c t /\ is_space c = false.
Proof. induction s as [|c s IH]; [by left|]. cbn [py_lstrip]. destruct (is_space c) eqn:Hc; [done|]. right; eauto. Qed.

Lemma py_strip_idem s : py_strip (py_strip s) = py_strip s.
Proof.
  unfold py_strip. destruct (py_lstrip_head s) as [->|(c & t & -> & Hc)]; [done|].
  destruct (py_rstrip_head c t Hc) as [u E]. rewrite E. cbn [py_lstrip]. rewrite Hc, <- E. apply py_rstrip_idem.
Qed.

Lemma digit_not_space c : is_digit c = true -> negb (is_space c) = true.
Proof. destruct c as [[] [] [] [] [] [] [] []]; vm_compute; congruence. Qed.

Lemma digit_not c d : is_digit c = true -> is_digit d = false -> negb (Ascii.eqb c d) = true.
Proof. intros Hc Hd. apply negb_true_iff, Ascii.eqb_neq. congruence. Qed.

(** *** Decimal rendering *)

Lemma string_of_uint_digits u : str_all is_digit (NilEmpty.string_of_uint u) = true.
Proof. induction u; simpl; auto. Qed.

Lemma digits_value_acc u (p : positive) :
  digits_value (Z.pos p) true (NilEmpty.string_of_uint u) = Some (Z.pos (Pos.of_uint_acc u p)).
Proof.
  revert p. induction u; intros p; [done|..]; simpl Pos.of_uint_acc; rewrite <- IHu;
    cbn -[Z.mul Z.add Pos.mul Pos.add Z.sub]; f_equal; vm_compute (Z.of_nat _); lia.
Qed.

Lemma digits_value_uint u b :
  u <> Nil \/ b = true -> digits_value 0 b (NilEmpty.string_of_uint u) = Some (Z.of_uint u).
Proof.
  revert b. induction u; intros b Hb;
    [by destruct Hb as [[]| ->] | by apply IHu; right | by apply (digits_value_acc u _) ..].
Qed.

Lemma digits_value_pos p :
  digits_value 0 false (NilZero.string_of_uint (Pos.to_uint p)) = Some (Z.pos p).
Proof.
  pose proof (DecimalPos.Unsigned.to_uint_nonnil p) as Hn.
  assert (NilZero.string_of_uint (Pos.to_uint p) = NilEmpty.string_of_uint (Pos.to_uint p)) as ->
    by (by destruct (Pos.to_uint p)).
  rewrite digits_value_uint by auto. f_equal.
  pose proof (DecimalZ.of_to (Z.pos p)) as Hz. simpl in Hz. done.
Qed.

Lemma string_of_pos_digits p : str_all is_digit (NilZero.string_of_uint (Pos.to_uint p)) = true.
Proof.
  pose proof (DecimalPos.Unsigned.to_uint_nonnil p) as Hn.
  pose proof (string_of_uint_digits (Pos.to_uint p)) as Hd.
  by destruct (Pos.to_uint p).
Qed.

Lemma string_of_pos_cons p :
  exists c s, NilZero.string_of_uint (Pos.to_uint p) = String c s /\ is_digit c = true.
Proof.
  pose proof (string_of_pos_digits p) as Hd.
  pose proof (DecimalPos.Unsigned.to_uint_nonnil p) as Hn.
  destruct (Pos.to_uint p); simpl in *; [done|..]; eauto.
Qed.

(** Characters a rendered integer is made of. *)
Lemma str_of_Z_chars (q : ascii -> bool) z :
  (forall c, is_digit c = true -> q c = true) -> q "-"%char = true -> str_all q (str_of_Z z) = true.
Proof.
  intros Hd Hm. unfold str_of_Z. destruct z as [|p|p]; cbn -[Pos.to_uint NilZero.string_of_uint].
  - simpl. by rewrite Hd.
  - eapply str_all_impl; [exact Hd|apply string_of_pos_digits].
  - rewrite Hm. eapply str_all_impl; [exact Hd|apply string_of_pos_digits].
Qed.

Lemma py_strip_str_of_Z z : py_strip (str_of_Z z) = str_of_Z z.
Proof. apply py_strip_id, str_of_Z_chars; [apply digit_not_space|done]. Qed.

(** [int(str(z)) == z]. *)
Lemma py_int_str_of_Z z : py_int (str_of_Z z) = Some z.
Proof.
  unfold py_int. rewrite py_strip_str_of_Z. unfold str_of_Z.
  destruct z as [|p|p]; [done|..]; cbn -[Pos.to_uint NilZero.string_of_uint digits_value].
  - pose proof (digits_value_pos p) as Hv.
    destruct (string_of_pos_cons p) as (c & s & E & Hc). rewrite E in *.
    pose proof (digit_not c "-"%char Hc eq_refl) as ->%negb_true_iff.
    pose proof (digit_not c "+"%char Hc eq_refl) as ->%negb_true_iff. done.
  - by rewrite digits_value_pos.
Qed.

#[export] Instance str_of_Z_inj : Inj (=) (=) str_of_Z.
Proof. intros x y E. apply (f_equal py_int) in E. rewrite !py_int_str_of_Z in E. by simplify_eq. Qed.

Lemma str_of_Z_no_char c z : is_digit c = false -> c <> "-"%char -> no_char c (str_of_Z z) = true.
Proof.
  intros Hc Hm. apply str_of_Z_chars.
  - intros d Hd. by apply digit_not.
  - apply negb_true_iff, Ascii.eqb_neq. congruence.
Qed.

Lemma strip_suffix_spec suffix s p : strip_suffix suffix s = Some p -> s = p ++ suffix.
Proof.
  revert p. induction s as [|c s IH]; intros p; cbn [strip_suffix].
  - destruct (String.eqb_spec "" suffix) as [E|]; [|done]. intros [= <-]. exact E.
  - destruct (String.eqb_spec (String c s) suffix) as [E|]; [intros [= <-]; exact E|].
    destruct (strip_suffix suffix s) as [q|]; [|done]. intros [= <-]. by rewrite (IH q eq_refl).
Qed.

Lemma string_length_app (a b : string) : String.length (a ++ b) = (String.length a + String.length b)%nat.
Proof. induction a as [|c a IH]; [done|]. change (String c a ++ b) with (String c (a ++ b)). simpl. by rewrite IH. Qed.

Lemma string_app_assoc (a b c : string) : (a ++ (b ++ c))%string = ((a ++ b) ++ c)%string.
Proof. induction a as [|x a IH]; [done|]. change (String x (a ++ (b ++ c)) = String x ((a ++ b) ++ c))%string. by f_equal. Qed.

Lemma string_app_nil_r (a : string) : (a ++ "") = a.
Proof. induction a as [|x a IH]; [done|]. change (String x (a ++ "") = String x a)%string. by f_equal. Qed.

Lemma string_app_length_self (p s : string) : p ++ s = s -> p = "".
Proof.
  intros E. apply (f_equal String.length) in E. rewrite string_length_app in E. destruct p; [done|simpl in E; lia].
Qed.

Lemma strip_suffix_app suffix p : strip_suffix suffix (p ++ suffix) = Some p.
Proof.
  induction p as [|c p IH].
  - change ("" ++ suffix) with suffix. destruct suffix as [|c s]; [done|]. cbn [strip_suffix]. by rewrite String.eqb_refl.
  - change (String c p ++ suffix) with (String c (p ++ suffix)). cbn [strip_suffix].
    destruct (String.eqb_spec (String c (p ++ suffix)) suffix) as [E|_]; [|by rewrite IH].
    by apply (string_app_length_self (String c p)) in E.
Qed.

(** ** Splitting at the last marker *)

Lemma substring_all n s : (String.length s <= n)%nat -> String.substring 0 n s = s.
Proof.
  revert n. induction s as [|c s IH]; intros [|n] Hn; simpl in *; try done; [lia|]. by rewrite IH by lia.
Qed.

Lemma substring_app m s n : (String.length s <= n)%nat -> String.substring (String.length m) n (m ++ s) = s.
Proof. intros Hn. induction m as [|c m IH]; simpl; [by apply substring_all|exact IH]. Qed.

Lemma prefix_app m s : String.prefix m (m ++ s) = true.
Proof. induction m as [|c m IH]; simpl; [by destruct s|]. by destruct (Ascii.ascii_dec c c). Qed.

(** A marker does not start in a text without its first character. *)
Lemma rsplit_on_None c m s : no_char c s = true -> rsplit_on (String c m) s = None.
Proof.
  induction s as [|a s IH]; [done|]. unfold no_char in *. cbn [str_all rsplit_on]. rewrite andb_true_iff, negb_true_iff.
  intros [Ha Hs]. rewrite IH by done. cbn [String.prefix]. destruct (Ascii.ascii_dec c a) as [<-|]; [|done].
  by rewrite Ascii.eqb_refl in Ha.
Qed.

Lemma rsplit_on_last c m a b :
  no_char c m = true -> no_char c b = true -> rsplit_on (String c m) (a ++ String c m ++ b) = Some (a, b).
Proof.
  intros Hm Hb. induction a as [|d a IH].
  - change ("" ++ String c m ++ b) with (String c (m ++ b)). cbn [rsplit_on].
    rewrite rsplit_on_None by (unfold no_char in *; by rewrite str_all_app, Hm, Hb).
    change (String c (m ++ b)) with (String c m ++ b). rewrite prefix_app, substring_app; [done|].
    rewrite string_length_app. lia.
  - change (String d a ++ String c m ++ b) with (String d (a ++ String c m ++ b)). cbn [rsplit_on]. by rewrite IH.
Qed.

Lemma str_contains_app a m b : str_contains m (a ++ m ++ b) = true.
Proof.
  induction a as [|c a IH].
  - change ("" ++ m ++ b) with (m ++ b). pose proof (prefix_app m b) as Hp.
    destruct (m ++ b) as [|d s]; cbn [str_contains]; by rewrite Hp.
  - change (String c a ++ m ++ b) with (String c (a ++ m ++ b)). cbn [str_contains]. rewrite IH. apply orb_true_r.
Qed.
