(* ===== verification/PosixPath.v ===== *)
(** [posixpath.normpath], which gives the job store its ingest identities:
    the definition as the standard library documents it, and its idempotence. *)
From S2P Require Import Prelude PyStr.
From Stdlib Require Import Ascii String.
Local Open Scope string_scope.

Definition slash : ascii := "/"%char.

(** Leading slashes kept: POSIX keeps exactly two, and collapses three or more. *)
Definition initial_slashes (p : string) : nat :=
  match p with
  | String a (String b (String c _)) =>
      if Ascii.eqb a slash
      then (if Ascii.eqb b slash && negb (Ascii.eqb c slash) then 2 else 1)%nat
      else 0%nat
  | String a (String b EmptyString) =>
      if Ascii.eqb a slash then (if Ascii.eqb b slash then 2 else 1)%nat else 0%nat
  | String a EmptyString => if Ascii.eqb a slash then 1%nat else 0%nat
  | EmptyString => 0%nat
  end.

(** One path component pushed on the (reversed) list of kept components. *)
Definition norm_step (init : nat) (acc : list string) (comp : string) : list string :=
  if decide (comp = "" \/ comp = ".") then acc
  else if decide (comp <> ".." \/ (init = 0%nat /\ acc = []) \/ head acc = Some "..")
  then comp :: acc
  else tail acc.

Fixpoint slashes (n : nat) (s : string) : string :=
  match n with
  | O => s
  | S n' => String slash (slashes n' s)
  end.

Definition normpath (p : string) : string :=
  if decide (p = "") then "."
  else
    let init := initial_slashes p in
    let comps := reverse (foldl (norm_step init) [] (py_split slash p)) in
    let r := slashes init (py_join "/" comps) in
    if decide (r = "") then "." else r.

(** ** Idempotence *)

Definition good_comp (c : string) : Prop := c <> "" /\ c <> "." /\ no_char slash c = true.

(** What [norm_step] builds, read from the last component back. *)
Fixpoint norm_ok (init : nat) (acc : list string) : Prop :=
  match acc with
  | [] => True
  | c :: acc' =>
      good_comp c /\
      (c = ".." -> init = 0%nat /\ acc' = [] \/ head acc' = Some "..") /\
      norm_ok init acc'
  end.

Lemma norm_step_ok init acc c :
  no_char slash c = true -> norm_ok init acc -> norm_ok init (norm_step init acc c).
Proof.
  intros Hc Hacc. unfold norm_step. case_decide as H1; [done|].
  case_decide as H2; [|by destruct acc as [|? acc]; simpl in *; naive_solver].
  simpl. split; [split_and!; naive_solver|]. naive_solver.
Qed.

Lemma foldl_norm_ok init l acc :
  Forall (fun c => no_char slash c = true) l -> norm_ok init acc ->
  norm_ok init (foldl (norm_step init) acc l).
Proof.
  revert acc. induction l as [|c l IH]; intros acc Hl Hacc; simpl; [done|].
  apply Forall_cons in Hl as [Hc Hl]. apply IH; [done|]. by apply norm_step_ok.
Qed.

(** Normalising normalised components changes nothing. *)
Lemma foldl_norm_fixed init acc :
  norm_ok init acc -> foldl (norm_step init) [] (reverse acc) = acc.
Proof.
  induction acc as [|c acc IH]; [done|]. intros ((Hn & Hd & _) & Hdd & Hacc).
  rewrite reverse_cons, foldl_app, IH by done. simpl. unfold norm_step.
  rewrite decide_False by naive_solver.
  rewrite decide_True; [done|]. destruct (decide (c = "..")); naive_solver.
Qed.

Lemma py_split_parts sep s : Forall (fun c => no_char sep c = true) (py_split sep s).
Proof.
  induction s as [|c s IH]; simpl; [by repeat constructor|].
  destruct (Ascii.eqb c sep) eqn:E; [by constructor|].
  destruct (py_split sep s) as [|p ps]; unfold no_char in *; simpl; [constructor; simpl; by rewrite ?E|].
  apply Forall_cons in IH as [Hp Hps]. constructor; [|done]. simpl. by rewrite E, Hp.
Qed.

Lemma py_split_join l :
  l <> [] -> Forall (fun c => no_char slash c = true) l -> py_split slash (py_join "/" l) = l.
Proof.
  induction l as [|p [|q l] IH]; intros Hne Hl; [done|..].
  - apply Forall_cons in Hl as [Hp _]. simpl. by apply py_split_no_char.
  - apply Forall_cons in Hl as [Hp Hl].
    change (py_join "/" (p :: q :: l)) with (p ++ String slash (py_join "/" (q :: l))).
    rewrite py_split_app by done. f_equal. by apply IH.
Qed.

Lemma foldl_norm_slashes init n s acc :
  foldl (norm_step init) acc (py_split slash (slashes n s)) =
  foldl (norm_step init) acc (py_split slash s).
Proof.
  induction n as [|n IH]; simpl; [done|]. change (norm_step init acc "") with acc. apply IH.
Qed.

Lemma norm_ok_Forall init acc : norm_ok init acc -> Forall good_comp acc.
Proof. induction acc as [|c acc IH]; [by constructor|]. intros (? & _ & ?). constructor; auto. Qed.

Lemma py_join_head l :
  Forall good_comp l -> py_join "/" l = "" /\ l = [] \/
  exists c s, py_join "/" l = String c s /\ Ascii.eqb c slash = false.
Proof.
  destruct l as [|p l]; [by left|]. intros [(Hne & _ & Hs) _]%Forall_cons. right.
  destruct p as [|c p]; [done|]. unfold no_char in Hs. simpl in Hs.
  apply andb_true_iff in Hs as [Hc%negb_true_iff _].
  destruct l; simpl; eauto.
Qed.

Lemma initial_slashes_join n l :
  (n <= 2)%nat -> Forall good_comp l -> initial_slashes (slashes n (py_join "/" l)) = n.
Proof.
  intros Hn Hl. destruct (py_join_head l Hl) as [[-> _]|(c & s & -> & Hc)];
    destruct n as [|[|[|n]]]; try lia; simpl; rewrite ?Hc; try done.
  - by destruct s as [|? []].
  - by destruct s.
Qed.

Lemma initial_slashes_le p : (initial_slashes p <= 2)%nat.
Proof.
  destruct p as [|a [|b [|c p]]]; simpl; repeat (destruct (Ascii.eqb _ _); simpl); lia.
Qed.

Lemma normpath_shape p :
  exists n acc, (n <= 2)%nat /\ norm_ok n acc /\
    normpath p = (if decide (slashes n (py_join "/" (reverse acc)) = "") then "."
                  else slashes n (py_join "/" (reverse acc))).
Proof.
  unfold normpath. destruct (decide (p = "")) as [->|].
  - exists 0%nat, []. split; [lia|]. split; [done|]. reflexivity.
  - exists (initial_slashes p), (foldl (norm_step (initial_slashes p)) [] (py_split slash p)).
    split; [apply initial_slashes_le|]. split; [|done].
    apply foldl_norm_ok; [apply py_split_parts|done].
Qed.

(** A normalised path is its own normal form. *)
Lemma normpath_idem p : normpath (normpath p) = normpath p.
Proof.
  destruct (normpath_shape p) as (n & acc & Hn & Hok & ->).
  case_decide as E; [done|]. unfold normpath at 1. rewrite decide_False by done.
  assert (Forall good_comp (reverse acc)) as Hg
    by (rewrite Forall_reverse; by eapply norm_ok_Forall).
  rewrite initial_slashes_join by done. rewrite foldl_norm_slashes.
  destruct (decide (reverse acc = [])) as [Er|Hne].
  - rewrite Er in *. simpl. by rewrite decide_False.
  - rewrite py_split_join by (done || by eapply Forall_impl; [exact Hg|intros ? (_ & _ & ?)]).
    rewrite foldl_norm_fixed by done. by rewrite decide_False.
Qed.

(** ** Joining *)

Fixpoint ends_with_slash (s : string) : bool :=
  match s with
  | EmptyString => false
  | String c EmptyString => Ascii.eqb c slash
  | String _ s' => ends_with_slash s'
  end.

(** [posixpath.join(a, b)]. *)
Definition path_join (a b : string) : string :=
  match b with
  | String c _ =>
      if Ascii.eqb c slash then b
      else if decide (a = "") then b
      else if ends_with_slash a then a ++ b else a ++ "/" ++ b
  | EmptyString => if decide (a = "") then b else if ends_with_slash a then a ++ b else a ++ "/" ++ b
  end.

(** [path.lstrip("/")], the name of a file inside a tar. *)
Fixpoint lstrip_slash (s : string) : string :=
  match s with
  | String c s' => if Ascii.eqb c slash then lstrip_slash s' else s
  | EmptyString => EmptyString
  end.

(** [posixpath.basename(p)]. *)
Definition path_basename (p : string) : string := default "" (last (py_split slash p)).

(** [p[: p.rfind("/") + 1]]. *)
Fixpoint dir_head (p : string) : string :=
  match p with
  | EmptyString => EmptyString
  | String c p' => match dir_head p' with
                   | EmptyString => if Ascii.eqb c slash then String c EmptyString else EmptyString
                   | h => String c h
                   end
  end.

Fixpoint rstrip_slash (s : string) : string :=
  match s with
  | EmptyString => EmptyString
  | String c s' => match rstrip_slash s' with
                   | EmptyString => if Ascii.eqb c slash then EmptyString else String c EmptyString
                   | r => String c r
                   end
  end.

(** [posixpath.dirname(p)]. *)
Definition path_dirname (p : string) : string :=
  match rstrip_slash (dir_head p) with EmptyString => dir_head p | r => r end.
