(* ===== verification/Json.v ===== *)
(** JSON documents as the Python values [json.load] makes of them.

    A document is what the sidecars hold once parsed: [json.load] after
    [json.dump] gives the value back (the text format is the standard library's).
    Objects are Python dictionaries with string keys.  The conversions the loader
    applies to such values ([int(x)], [x or d], [list(x)]) are defined here with the
    exceptions they raise. *)
From S2P Require Import Prelude PyDict PyStr.
Local Open Scope Z_scope.

(** A float: a fraction, an infinity or not-a-number. *)
Inductive pyfloat :=
| FFin (num : Z) (den : positive)
| FInf (negative : bool)
| FNaN.

#[export] Instance pyfloat_eq_dec : EqDecision pyfloat.
Proof. solve_decision. Defined.

Inductive json :=
| JNull
| JBool (b : bool)
| JInt (z : Z)
| JFloat (f : pyfloat)
| JStr (s : string)
| JList (l : list json)
| JDict (d : dict string json).

#[export] Instance json_inhabited : Inhabited json := populate JNull.

Abbreviation jdict := (dict string json).

(** The induction principle that reaches into lists and objects. *)
Fixpoint json_nested_ind (P : json -> Prop) (Hnull : P JNull) (Hbool : forall b, P (JBool b))
    (Hint : forall z, P (JInt z)) (Hfloat : forall f, P (JFloat f)) (Hstr : forall s, P (JStr s))
    (Hlist : forall l, Forall P l -> P (JList l))
    (Hdict : forall l, Forall (fun kv => P kv.2) l -> P (JDict (Dict l))) (j : json) : P j :=
  let rec := json_nested_ind P Hnull Hbool Hint Hfloat Hstr Hlist Hdict in
  match j with
  | JNull => Hnull
  | JBool b => Hbool b
  | JInt z => Hint z
  | JFloat f => Hfloat f
  | JStr s => Hstr s
  | JList l => Hlist l
      ((fix go (l : list json) : Forall P l :=
          match l with
          | [] => Forall_nil_2 _
          | x :: l' => Forall_cons_2 _ _ _ (rec x) (go l')
          end) l)
  | JDict (Dict l) => Hdict l
      ((fix go (l : list (string * json)) : Forall (fun kv => P kv.2) l :=
          match l with
          | [] => Forall_nil_2 _
          | x :: l' => Forall_cons_2 _ _ _ (rec x.2) (go l')
          end) l)
  end.

(** [bool(x)]. *)
Definition json_truthy (j : json) : bool :=
  match j with
  | JNull => false
  | JBool b => b
  | JInt z => negb (z =? 0)
  | JFloat (FFin n _) => negb (n =? 0)
  | JFloat _ => true
  | JStr s => negb (bool_decide (s = EmptyString))
  | JList l => match l with [] => false | _ => true end
  | JDict d => match dict_items d with [] => false | _ => true end
  end.

(** [int(x)]. *)
Definition json_int (j : json) : result Z :=
  match j with
  | JBool b => Ok (if b then 1 else 0)
  | JInt z => Ok z
  | JFloat (FFin n d) => Ok (Z.quot n (Zpos d))
  | JFloat (FInf _) => Raise OverflowError
  | JFloat FNaN => Raise ValueError
  | JStr s => match py_int s with Some z => Ok z | None => Raise ValueError end
  | JNull | JList _ | JDict _ => Raise TypeError
  end.

(** [d.get(key)]. *)
Definition json_get (key : string) (d : jdict) : json := default JNull (d !! key).

(** [x or d]. *)
Definition json_or (j d : json) : json := if json_truthy j then j else d.

Definition is_list (j : json) : bool := match j with JList _ => true | _ => false end.
Definition is_dict (j : json) : bool := match j with JDict _ => true | _ => false end.

Fixpoint chars (s : string) : list json :=
  match s with
  | EmptyString => []
  | String c s' => JStr (String c EmptyString) :: chars s'
  end.

(** [list(x)]. *)
Definition json_list (j : json) : result (list json) :=
  match j with
  | JList l => Ok l
  | JDict d => Ok (JStr <$> dict_keys d)
  | JStr s => Ok (chars s)
  | _ => Raise TypeError
  end.

(** [x if isinstance(x, dict) else {}]. *)
Definition dict_or_empty (j : json) : jdict := match j with JDict d => d | _ => ∅ end.

(** [d.setdefault(key, v)]. *)
Definition dict_setdefault {V} (key : string) (v : V) (d : dict string V) : dict string V :=
  match d !! key with
  | Some _ => d
  | None => <[key := v]> d
  end.

(** ** Sorted keys

    [json.dump(..., sort_keys=True)] writes every object with its keys in order. *)
Definition key_le (a b : string * json) : Prop := String.le a.1 b.1.

#[export] Instance key_le_dec : RelDecision key_le.
Proof. intros a b. unfold key_le. apply _. Defined.

#[export] Instance key_le_trans : Transitive key_le.
Proof. intros a b c. unfold key_le. apply transitivity. Qed.

#[export] Instance key_le_total : Total key_le.
Proof. intros a b. unfold key_le. apply total, _. Qed.

Fixpoint sort_keys (j : json) : json :=
  match j with
  | JList l => JList (map sort_keys l)
  | JDict d => JDict (Dict (merge_sort key_le (map (fun kv => (kv.1, sort_keys kv.2)) (dict_items d))))
  | _ => j
  end.

(** Every object of the document has distinct keys. *)
Inductive json_wf : json -> Prop :=
| wf_null : json_wf JNull
| wf_bool b : json_wf (JBool b)
| wf_int z : json_wf (JInt z)
| wf_float f : json_wf (JFloat f)
| wf_str s : json_wf (JStr s)
| wf_list l : Forall json_wf l -> json_wf (JList l)
| wf_dict d : dict_wf d -> Forall (fun kv => json_wf kv.2) (dict_items d) -> json_wf (JDict d).

(** ** Lemmas *)

Definition sorted_dict (d : jdict) : jdict :=
  Dict (merge_sort key_le (map (fun kv => (kv.1, sort_keys kv.2)) (dict_items d))).

Lemma sort_keys_dict d : sort_keys (JDict d) = JDict (sorted_dict d).
Proof. done. Qed.

Lemma sorted_dict_perm d :
  dict_items (sorted_dict d) ≡ₚ map (fun kv => (kv.1, sort_keys kv.2)) (dict_items d).
Proof. apply merge_sort_Permutation. Qed.

Lemma sorted_dict_wf d : dict_wf d -> dict_wf (sorted_dict d).
Proof.
  unfold dict_wf, dict_keys. rewrite sorted_dict_perm. intros Hd.
  assert ((map (fun kv : string * json => (kv.1, sort_keys kv.2)) (dict_items d)).*1 = (dict_items d).*1) as ->; [|done].
  rewrite <- list_fmap_compose. by apply list_fmap_ext.
Qed.

Lemma sorted_dict_lookup d k : dict_wf d -> sorted_dict d !! k = sort_keys <$> d !! k.
Proof.
  intros Hd. apply option_eq. intros v. rewrite <- dict_items_lookup by by apply sorted_dict_wf.
  rewrite sorted_dict_perm. split.
  - intros ([k' w] & [= -> ->] & Hin)%list_elem_of_fmap. apply dict_items_lookup in Hin as ->; done.
  - intros (w & Hw & ->)%fmap_Some. apply list_elem_of_fmap. exists (k, w). split; [done|].
    by apply dict_items_lookup.
Qed.

Lemma sorted_dict_get d k : dict_wf d -> json_get k (sorted_dict d) = sort_keys (json_get k d).
Proof. intros Hd. unfold json_get. rewrite sorted_dict_lookup by done. by destruct (d !! k). Qed.

Lemma sort_keys_truthy j : json_truthy (sort_keys j) = json_truthy j.
Proof.
  destruct j as [| | | | |l|d]; try done; [by destruct l|]. simpl.
  pose proof (sorted_dict_perm d) as Hp. unfold sorted_dict in Hp. simpl in Hp.
  destruct (dict_items d) as [|x l].
  - simpl in *. by rewrite merge_sort_nil || done.
  - destruct (merge_sort _ _) as [|y m] eqn:E; [|done]. by apply Permutation_nil_cons in Hp.
Qed.

Lemma sort_keys_int j : json_int (sort_keys j) = json_int j.
Proof. by destruct j. Qed.

Lemma dict_setdefault_lookup {V} key (v : V) d k :
  dict_setdefault key v d !! k = if decide (k = key) then Some (default v (d !! key)) else d !! k.
Proof.
  unfold dict_setdefault. destruct (d !! key) as [w|] eqn:E; case_decide as H; subst; simpl; try done.
  - apply dict_lookup_insert_eq.
  - by rewrite dict_lookup_insert_ne.
Qed.

Lemma dict_setdefault_wf {V} key (v : V) d : dict_wf d -> dict_wf (dict_setdefault key v d).
Proof. unfold dict_setdefault. intros Hd. destruct (d !! key); [done|by apply dict_wf_insert]. Qed.

(** ** Sorting by key *)

Definition by_key {A} (a b : string * A) : Prop := String.le a.1 b.1.

#[export] Instance by_key_dec {A} : RelDecision (@by_key A).
Proof. intros a b. unfold by_key. apply _. Defined.

#[export] Instance by_key_trans {A} : Transitive (@by_key A).
Proof. intros a b c. unfold by_key. apply transitivity. Qed.

#[export] Instance by_key_total {A} : Total (@by_key A).
Proof. intros a b. unfold by_key. apply total, _. Qed.

(** With distinct keys there is one sorted order. *)
Lemma by_key_unique {A} (l1 l2 : list (string * A)) :
  NoDup l1.*1 -> Sorted by_key l1 -> Sorted by_key l2 -> l1 ≡ₚ l2 -> l1 = l2.
Proof.
  intros Hnd H1 H2 Hp. apply (Sorted_unique_strong by_key); [|done..].
  intros [k1 x1] [k2 x2] Hin1 Hin2 Hle1 Hle2. unfold by_key in *; simpl in *.
  assert (k1 = k2) as <- by (by apply (anti_symm String.le)).
  rewrite <- Hp in Hin2. f_equal. apply (dict_elem_lookup (Dict l1)) in Hin1, Hin2; [congruence|done..].
Qed.

Lemma sorted_by_key_fmap {A B} (g : string * A -> string * B) l :
  (forall p, (g p).1 = p.1) -> Sorted by_key l -> Sorted by_key (g <$> l).
Proof.
  intros Hg. induction 1 as [|p l Hs IH Hr]; [constructor|]. constructor; [done|].
  destruct Hr; constructor. unfold by_key in *. by rewrite !Hg.
Qed.

Lemma fmap_fst_same {A B} (g : string * A -> string * B) l : (forall p, (g p).1 = p.1) -> (g <$> l).*1 = l.*1.
Proof. intros Hg. rewrite <- list_fmap_compose. apply list_fmap_ext. intros i p _. apply Hg. Qed.

Lemma merge_sort_fmap {A} (g : string * A -> string * json) l :
  NoDup l.*1 -> (forall p, (g p).1 = p.1) -> merge_sort key_le (g <$> l) = g <$> merge_sort by_key l.
Proof.
  intros Hnd Hg. change key_le with (@by_key json). apply by_key_unique.
  - rewrite merge_sort_Permutation. by rewrite fmap_fst_same.
  - apply (Sorted_merge_sort key_le).
  - apply sorted_by_key_fmap; [done|]. apply (Sorted_merge_sort by_key).
  - by rewrite !merge_sort_Permutation.
Qed.

Lemma sorted_items {A} (g : string * A -> string * json) (l : list (string * A)) (h : string * A -> string * json) :
  NoDup l.*1 -> (forall p, (g p).1 = p.1) -> (forall p, h p = (p.1, sort_keys (g p).2)) ->
  sorted_dict (Dict (g <$> l)) = Dict (h <$> merge_sort by_key l).
Proof.
  intros Hnd Hg Hh. unfold sorted_dict. f_equal. simpl. rewrite <- merge_sort_fmap; [|done|intros p; by rewrite Hh].
  f_equal. change (map ?f (g <$> l)) with (f <$> (g <$> l)). rewrite <- list_fmap_compose. apply list_fmap_ext.
  intros i p _. unfold compose. by rewrite Hh, Hg.
Qed.
