(* ===== verification/Persistence.v ===== *)
(** The sidecars: [dbload/lib/sync_timedb_persistence.py] and the manifest checks of
    [dbload/lib/sync_timedb_manifest_contract.py].

    A sidecar file holds a JSON document, or something that cannot be read or parsed
    ([FBad]); [load_persistence_document] validates the envelope and unwraps it,
    [save_persistence_document] builds it.  Files are written atomically (a temporary
    file and a rename), so a save is one step.

    The contract gate is a program over the archive directory: [ensure_contract]
    computes the unlinks and the write it makes, in order, and [run_fs] applies them;
    [stuck] tells which unlinks fail (the code logs that and goes on).  Paths are
    relative to the archive directory; a directory is its files. *)
From S2P Require Import Prelude PyDict PyStr PosixPath Json.
Local Open Scope Z_scope.

Definition SYNC_TIMEDB_PERSISTENCE_CONTRACT_VERSION : Z := 9.
Definition PERSISTENCE_CONTRACT_BASENAME : string := ".sync_timedb_persistence.json".

Definition LEGACY_ORPHAN_ARTIFACT_PATHS : list string :=
  [".sync_timedb_startup_tar_seal.json"; ".sync_timedb_startup_raw_removal.json"].

Definition PERSISTENCE_ARTIFACT_REGISTRY : dict string string := Dict
  [("ingest_checkpoint", ".sync_timedb_state.json");
   ("archive_dead_letter", ".sync_timedb_dead_letter.json");
   ("queue_dead_letter", ".sync_timedb_queue_dead_letter.json");
   ("archive_maint_hints", ".sync_archive_maint_hints.json");
   ("day_close_manifest", ".sync_timedb_async_day_close.json");
   ("day_raw_removal_dir", ".sync_timedb_day_raw_removal");
   ("unparsable_raw", ".sync_timedb_unparsable_raw.json");
   ("zero_host_ingest_mark", ".sync_timedb_zero_host_ingest_mark.json");
   ("file_complete_ingest_mark", ".sync_timedb_file_complete_ingest_mark.json");
   ("job_store_snapshot", ".sync_timedb_job_store.json");
   ("archive_members_store_dir", ".sync_timedb_archive_members")].

Definition MANIFEST_SCHEMA_VERSION : Z := 1.
Definition MAINT_HINTS_SCHEMA_VERSION : Z := 2.
Definition JOB_STORE_SNAPSHOT_SCHEMA_VERSION : Z := 1.

Definition KIND_SCHEMA_VERSION : dict string Z := Dict
  [("ingest_checkpoint", 1); ("archive_dead_letter", 1); ("queue_dead_letter", 1); ("unparsable_raw", 1);
   ("archive_maint_hints", MAINT_HINTS_SCHEMA_VERSION); ("day_close_manifest", MANIFEST_SCHEMA_VERSION);
   ("day_raw_removal", MANIFEST_SCHEMA_VERSION); ("zero_host_ingest_mark", 1);
   ("file_complete_ingest_mark", 1); ("job_store_snapshot", JOB_STORE_SNAPSHOT_SCHEMA_VERSION);
   ("sealed_member_map", 1)].

Definition LIST_ENTRY_KINDS : list string :=
  ["ingest_checkpoint"; "archive_dead_letter"; "queue_dead_letter"; "unparsable_raw"].
Definition MANIFEST_KINDS : list string := ["day_close_manifest"; "day_raw_removal"].
Definition DICT_ENTRIES_KINDS : list string :=
  ["zero_host_ingest_mark"; "file_complete_ingest_mark"; "sealed_member_map"].
Definition DICT_PASSTHROUGH_KINDS : list string :=
  ["archive_maint_hints"; "day_close_manifest"; "day_raw_removal"; "zero_host_ingest_mark";
   "file_complete_ingest_mark"; "sealed_member_map"].

Definition empty_entries : json := JDict (Dict [("entries", JDict ∅)]).

(** [_KIND_LOAD_DEFAULT_FACTORY]; a kind without a factory defaults to [None]. *)
Definition load_default (kind : string) : json :=
  if decide (kind ∈ LIST_ENTRY_KINDS) then JList []
  else if decide (kind = "zero_host_ingest_mark" \/ kind = "file_complete_ingest_mark") then empty_entries
  else if decide (kind = "job_store_snapshot")
  then JDict (Dict [("ingest", JDict ∅); ("lists", JDict ∅); ("pending", JDict ∅); ("payloads", JDict ∅)])
  else JNull.

Definition artifact_path (archive_data_dir kind : string) : result string :=
  match PERSISTENCE_ARTIFACT_REGISTRY !! kind with
  | None => Raise KeyError
  | Some rel => Ok (path_join archive_data_dir rel)
  end.

(** ** The manifest contract *)

Definition RAW_REMOVAL_PHASES : list string := ["verifying"; "verification_complete"; "deleting"; "done"].

Definition MANIFEST_REQUIRED_TOP_LEVEL : dict string (list string) := Dict
  [("day_raw_removal", ["phase"; "tar_path"]); ("day_close_manifest", ["entries"]);
   ("archive_maint_hints", ["version"])].

Definition DAY_PHASE_ORDER : dict string Z := Dict [("sealed", 1); ("raw_removed", 2); ("tar_dropped", 3)].

(** [day_phases] is the hints' dictionary of normalized tar paths. *)
Definition day_phase_name_from_hints (day_phases : jdict) (tar_path : string) : json :=
  match json_get (normpath tar_path) day_phases with
  | JDict phase => json_get "phase" phase
  | phase => phase
  end.

(** An unhashable phase makes the membership test raise. *)
Definition day_phase_at_least (day_phases : jdict) (tar_path target : string) : result bool :=
  match day_phase_name_from_hints day_phases tar_path with
  | JStr name =>
      match DAY_PHASE_ORDER !! name, DAY_PHASE_ORDER !! target with
      | Some a, Some b => Ok (b <=? a)
      | _, _ => Ok false
      end
  | JList _ | JDict _ => Raise TypeError
  | _ => Ok false
  end.

Definition manifest_phase_is_valid (kind : string) (phase : json) : bool :=
  if decide (kind = "day_raw_removal")
  then match phase with JStr p => bool_decide (p ∈ RAW_REMOVAL_PHASES) | _ => false end
  else true.

Definition validate_manifest_payload (kind : string) (payload : jdict) : bool :=
  match MANIFEST_REQUIRED_TOP_LEVEL !! kind with
  | None => true
  | Some required =>
      forallb (fun key => bool_decide (is_Some (payload !! key))) required &&
      match json_get "phase" payload with
      | JNull => true
      | phase => manifest_phase_is_valid kind phase
      end
  end.

(** ** Envelopes *)

(** [_persistence_schema_version_ok]: a missing version is accepted. *)
Definition schema_version_ok (raw : jdict) (expected : option Z) (allowed : list Z) (version_key_fallback : bool)
    : result bool :=
  match expected with
  | None => Ok true
  | Some e =>
      let schema := match json_get "schema_version" raw with
                    | JNull => if version_key_fallback then json_get "version" raw else JNull
                    | v => v
                    end in
      match schema with
      | JNull => Ok true
      | _ => match json_int schema with
             | Ok i => Ok (bool_decide (i ∈ e :: allowed))
             | Raise TypeError | Raise ValueError => Ok false
             | Raise ex => Raise ex
             end
      end
  end.

Definition validate_envelope (raw : json) (kind : string) : result bool :=
  let expected := KIND_SCHEMA_VERSION !! kind in
  match raw with
  | JNull => Ok false
  | _ =>
      if decide (kind ∈ LIST_ENTRY_KINDS) then
        match raw with
        | JList _ => Ok true
        | JDict d => ok ← schema_version_ok d expected [] false; Ok (ok && is_list (json_get "entries" d))
        | _ => Ok false
        end
      else if decide (kind = "archive_maint_hints") then
        match raw with
        | JDict d => schema_version_ok d expected [1] true
        | _ => Ok false
        end
      else if decide (kind ∈ MANIFEST_KINDS) then
        match raw with
        | JDict d => ok ← schema_version_ok d expected [] true; Ok (ok && validate_manifest_payload kind d)
        | _ => Ok false
        end
      else if decide (kind ∈ DICT_ENTRIES_KINDS) then
        match raw with
        | JDict d =>
            ok ← schema_version_ok d expected [] false;
            Ok (ok && match json_get "entries" d with JNull | JDict _ => true | _ => false end)
        | _ => Ok false
        end
      else if decide (kind = "job_store_snapshot") then
        match raw with
        | JDict d =>
            ok ← schema_version_ok d expected [] false;
            Ok (ok && match json_get "ingest" d with JNull | JDict _ => true | _ => false end)
        | _ => Ok false
        end
      else Ok true
  end.

Definition unwrap_envelope (raw : json) (kind : string) : json :=
  if decide (kind ∈ LIST_ENTRY_KINDS) then
    match raw with
    | JList l => JList l
    | JDict d => match json_get "entries" d with JList l => JList l | _ => JNull end
    | _ => JNull
    end
  else if decide (kind ∈ DICT_PASSTHROUGH_KINDS) then
    match raw with JDict d => JDict d | _ => JNull end
  else if decide (kind = "job_store_snapshot") then
    match raw with
    | JDict d =>
        JDict (Dict [("ingest", json_or (json_get "ingest" d) (JDict ∅));
                     ("lists", json_or (json_get "lists" d) (JDict ∅));
                     ("pending", json_or (json_get "pending" d) (JDict ∅));
                     ("payloads", json_or (json_get "payloads" d) (JDict ∅))])
    | _ => JNull
    end
  else raw.

(** ** Files *)

Inductive file_content :=
| FJson (j : json)
| FBad.

(** [_read_json_file]: [None] for a file that cannot be read or parsed. *)
Definition read_json_file (f : file_content) : json :=
  match f with FJson j => j | FBad => JNull end.

(** [load_persistence_document]; the file is [None] when the path is empty or not a
    regular file. *)
Definition load_persistence_document (file : option file_content) (kind : string) (default : json) : result json :=
  let default := match default with JNull => load_default kind | d => d end in
  match file with
  | None => Ok default
  | Some f =>
      let raw := read_json_file f in
      ok ← validate_envelope raw kind;
      if ok : bool then
        match unwrap_envelope raw kind with
        | JNull => Ok default
        | v => Ok v
        end
      else Ok default
  end.

(** [dict(x or {})] on a dictionary or a falsy value, which is what the job store
    passes; other values are rejected. *)
Definition json_dict (j : json) : result json :=
  if json_truthy j then match j with JDict d => Ok (JDict d) | _ => Raise TypeError end else Ok (JDict ∅).

(** The document [_save_json_atomic] leaves in the file. *)
Definition dumped (compact : bool) (payload : json) : json := if compact then sort_keys payload else payload.

Definition schema_json (kind : string) : json :=
  match KIND_SCHEMA_VERSION !! kind with Some v => JInt v | None => JNull end.

(** The envelope [save_persistence_document] writes. *)
Definition persistence_envelope (kind : string) (payload : json) : result json :=
  let contract_version := JInt SYNC_TIMEDB_PERSISTENCE_CONTRACT_VERSION in
  if decide (kind ∈ LIST_ENTRY_KINDS) then
    entries ← json_list (json_or payload (JList []));
    Ok (JDict (Dict [("contract_version", contract_version); ("schema_version", schema_json kind);
                     ("entries", JList entries)]))
  else if decide (kind = "archive_maint_hints") then
    let d := <["contract_version" := contract_version]> (dict_or_empty payload) in
    Ok (JDict (delete "version" (dict_setdefault "schema_version" (JInt MAINT_HINTS_SCHEMA_VERSION) d)))
  else if decide (kind ∈ MANIFEST_KINDS) then
    let d := <["contract_version" := contract_version]> (dict_or_empty payload) in
    Ok (JDict (dict_setdefault "schema_version" (JInt MANIFEST_SCHEMA_VERSION) d))
  else if decide (kind ∈ DICT_ENTRIES_KINDS) then
    let d := <["contract_version" := contract_version]> (dict_or_empty payload) in
    let d := dict_setdefault "schema_version" (schema_json kind) d in
    Ok (JDict (if is_dict (json_get "entries" d) then d else <["entries" := JDict ∅]> d))
  else if decide (kind = "job_store_snapshot") then
    let d := dict_or_empty payload in
    ingest ← json_dict (json_get "ingest" d);
    lists ← json_dict (json_get "lists" d);
    pending ← json_dict (json_get "pending" d);
    payloads ← json_dict (json_get "payloads" d);
    Ok (JDict (Dict [("contract_version", contract_version);
                     ("schema_version", JInt JOB_STORE_SNAPSHOT_SCHEMA_VERSION);
                     ("ingest", ingest); ("lists", lists); ("pending", pending); ("payloads", payloads)]))
  else Ok payload.

(** [save_persistence_document]: the file it leaves. *)
Definition save_persistence_document (kind : string) (payload : json) (compact : bool) : result file_content :=
  envelope ← persistence_envelope kind payload; Ok (FJson (dumped compact envelope)).

(** ** The contract gate *)

Abbreviation archive := (gmap string file_content).

Inductive fs_action :=
| AUnlink (path : string)
| AWrite (path : string) (content : file_content).

Section gate.
Variable stuck : string -> bool.

Definition run_fs_action (fs : archive) (a : fs_action) : archive :=
  match a with
  | AUnlink p => if stuck p then fs else delete p fs
  | AWrite p c => <[p := c]> fs
  end.

Definition run_fs (fs : archive) (acts : list fs_action) : archive := foldl run_fs_action fs acts.
End gate.

Definition under_dir (dir path : string) : bool := String.prefix (dir +:+ "/") path.

(** The files of a tree, and the path itself when it is a file. *)
Definition tree_files (dir : string) (fs : archive) : list string :=
  filter (fun p => p = dir \/ under_dir dir p = true) (map_to_list fs).*1.

(** [reset_sync_timedb_persistence]: the unlinks, in order. *)
Definition reset_actions (fs : archive) : list fs_action :=
  AUnlink <$>
    (foldr (fun kr acc =>
              (if decide (kr.1 = "day_raw_removal_dir" \/ kr.1 = "archive_members_store_dir")
               then tree_files kr.2 fs else [kr.2]) ++ acc)
       [] (dict_items PERSISTENCE_ARTIFACT_REGISTRY)
     ++ LEGACY_ORPHAN_ARTIFACT_PATHS ++ [PERSISTENCE_CONTRACT_BASENAME]).

Definition read_contract_version (fs : archive) : result (option Z) :=
  match fs !! PERSISTENCE_CONTRACT_BASENAME with
  | Some (FJson (JDict d)) =>
      match json_int (json_get "contract_version" d) with
      | Ok v => Ok (Some v)
      | Raise TypeError | Raise ValueError => Ok None
      | Raise ex => Raise ex
      end
  | _ => Ok None
  end.

Definition contract_payload (now : pyfloat) : file_content :=
  FJson (JDict (Dict [("contract_version", JInt SYNC_TIMEDB_PERSISTENCE_CONTRACT_VERSION);
                      ("written_at", JFloat now)])).

(** [ensure_persistence_contract] on a non-empty directory name: its file operations,
    and whether it reset. *)
Definition ensure_contract (allow_reset : bool) (now : pyfloat) (fs : archive) : list fs_action * result bool :=
  let write := AWrite PERSISTENCE_CONTRACT_BASENAME (contract_payload now) in
  match read_contract_version fs with
  | Raise ex => ([], Raise ex)
  | Ok on_disk =>
      if decide (on_disk = Some SYNC_TIMEDB_PERSISTENCE_CONTRACT_VERSION) then ([], Ok false)
      else if allow_reset then (reset_actions fs ++ [write], Ok true)
      else match on_disk with
           | None => ([write], Ok false)
           | Some _ => ([], Raise PersistenceContractMismatchError)
           end
  end.
