(* ===== verification/PersistenceSpec.v ===== *)
(** What the sidecar layer promises: a loaded document has the shape of its kind, what
    is saved is read back, and the contract gate resets completely, only when it
    must, and also when it was interrupted. *)
From S2P Require Import Prelude PyDict PyStr PosixPath Json Persistence.
Local Open Scope Z_scope.

(** ** Sorted documents validate alike *)

Lemma is_list_sort j : is_list (sort_keys j) = is_list j.
Proof. by destruct j. Qed.

Lemma is_dict_sort j : is_dict (sort_keys j) = is_dict j.
Proof. by destruct j. Qed.

Lemma schema_version_sorted d e al fb :
  dict_wf d -> schema_version_ok (sorted_dict d) e al fb = schema_version_ok d e al fb.
Proof.
  intros Hd. unfold schema_version_ok. rewrite !sorted_dict_get by done. destruct e as [e|]; [|done].
  destruct (json_get "schema_version" d), fb; try done; by destruct (json_get "version" d).
Qed.

Lemma validate_manifest_sorted kind d :
  dict_wf d -> validate_manifest_payload kind (sorted_dict d) = validate_manifest_payload kind d.
Proof.
  intros Hd. unfold validate_manifest_payload. rewrite sorted_dict_get by done.
  destruct (MANIFEST_REQUIRED_TOP_LEVEL !! kind) as [req|]; [|done]. f_equal.
  - induction req as [|k req IH]; simpl; [done|]. rewrite IH, sorted_dict_lookup by done.
    by destruct (d !! k).
  - unfold manifest_phase_is_valid. by destruct (json_get "phase" d).
Qed.

Lemma entries_test_sorted j :
  match sort_keys j with JNull | JDict _ => true | _ => false end = match j with JNull | JDict _ => true | _ => false end.
Proof. by destruct j. Qed.

Lemma validate_sorted j kind : json_wf j -> validate_envelope (sort_keys j) kind = validate_envelope j kind.
Proof.
  destruct 1 as [| | | | |l Hl|d Hd Hv]; try done. rewrite sort_keys_dict. unfold validate_envelope.
  rewrite !schema_version_sorted, !sorted_dict_get, validate_manifest_sorted, is_list_sort, !entries_test_sorted by done.
  done.
Qed.

Lemma unwrap_sorted j kind :
  json_wf j -> kind <> "job_store_snapshot" -> unwrap_envelope (sort_keys j) kind = sort_keys (unwrap_envelope j kind).
Proof.
  intros Hj Hk. unfold unwrap_envelope. destruct (decide (kind = "job_store_snapshot")) as [|_]; [done|].
  destruct Hj as [| | | | |l Hl|d Hd Hv]; [by repeat case_decide..|].
  rewrite sort_keys_dict, sorted_dict_get by done.
  case_decide; [by destruct (json_get "entries" d)|]. by case_decide.
Qed.

Lemma dumped_validate b j kind : json_wf j -> validate_envelope (dumped b j) kind = validate_envelope j kind.
Proof. destruct b; [apply validate_sorted|done]. Qed.

Lemma dumped_unwrap b j kind :
  json_wf j -> kind <> "job_store_snapshot" -> unwrap_envelope (dumped b j) kind = dumped b (unwrap_envelope j kind).
Proof. destruct b; [apply unwrap_sorted|done]. Qed.

(** ** Kinds *)

(** The shape callers rely on, kind by kind. *)
Definition kind_shape (kind : string) (j : json) : bool :=
  if decide (kind ∈ LIST_ENTRY_KINDS) then is_list j
  else if decide (kind = "zero_host_ingest_mark" \/ kind = "file_complete_ingest_mark" \/ kind = "job_store_snapshot")
  then is_dict j
  else if decide (kind ∈ "archive_maint_hints" :: "sealed_member_map" :: MANIFEST_KINDS)
  then match j with JNull | JDict _ => true | _ => false end
  else true.

Lemma load_default_shape kind : kind_shape kind (load_default kind) = true.
Proof.
  unfold kind_shape, load_default. repeat (case_decide; try done); try (exfalso; naive_solver).
Qed.

Lemma unwrap_shape raw kind :
  unwrap_envelope raw kind <> JNull -> kind_shape kind (unwrap_envelope raw kind) = true.
Proof.
  unfold unwrap_envelope, kind_shape. intros Hn. destruct (decide (kind ∈ LIST_ENTRY_KINDS)).
  { destruct raw; try done. by destruct (json_get "entries" d). }
  destruct (decide (kind ∈ DICT_PASSTHROUGH_KINDS)) as [Hp|Hp].
  { destruct raw; try done. by repeat case_decide. }
  destruct (decide (kind = "job_store_snapshot")) as [->|Hj]; [destruct raw; by repeat case_decide|].
  rewrite decide_False, decide_False; [done| |]; intros Hk; apply Hp; unfold DICT_PASSTHROUGH_KINDS, MANIFEST_KINDS in *;
    set_solver.
Qed.

(** A loaded document has the shape of its kind, whatever bytes the sidecar holds: a
    list of entries, a dictionary, or for the optional documents [None]; the queued
    scores of a job store snapshot are a dictionary. *)
Theorem load_shape file kind v :
  load_persistence_document file kind JNull = Ok v ->
  kind_shape kind v = true /\
  (kind = "job_store_snapshot" -> exists d i, v = JDict d /\ json_get "ingest" d = JDict i).
Proof.
  unfold load_persistence_document. intros Hl.
  assert (v = load_default kind \/
    exists raw, v = unwrap_envelope raw kind /\ v <> JNull /\ validate_envelope raw kind = Ok true) as [->|(raw & -> & Hn & Hv)].
  { destruct file as [f|]; [|left; congruence].
    destruct (validate_envelope (read_json_file f) kind) as [[|]|] eqn:E; cbn in Hl; [|left; congruence|done].
    destruct (unwrap_envelope (read_json_file f) kind) eqn:Eu; [left; congruence|..];
      right; exists (read_json_file f); rewrite Eu; (split; [congruence|]; split; [congruence|done]). }
  - split; [apply load_default_shape|]. intros ->. by eexists _, ∅.
  - split; [by apply unwrap_shape|]. intros ->. destruct raw as [| | | | | |d]; try done.
    cbn in Hv. apply result_bind_ok in Hv as (ok & _ & [= Hv]). apply andb_true_iff in Hv as [_ Hv].
    eexists _, (dict_or_empty (json_or (json_get "ingest" d) (JDict ∅))). split; [reflexivity|].
    transitivity (json_or (json_get "ingest" d) (JDict ∅)); [reflexivity|].
    destruct (json_get "ingest" d) as [| | | | | |i]; try done. unfold json_or. by destruct (json_truthy (JDict i)).
Qed.

(** ** What is saved is read back *)

(** The stamps a save adds to a dictionary document. *)
Definition stamps : list string := ["contract_version"; "schema_version"; "version"].

Lemma load_of kind j v :
  validate_envelope j kind = Ok true -> unwrap_envelope j kind = v -> v <> JNull ->
  load_persistence_document (Some (FJson j)) kind JNull = Ok v.
Proof. intros Hv <- Hn. unfold load_persistence_document. simpl. rewrite Hv. simpl. by destruct (unwrap_envelope j kind). Qed.

(** A saved list of entries is read back, with the keys of its objects sorted in the
    compact form. *)
Theorem list_sidecar_roundtrip kind l compact :
  kind ∈ LIST_ENTRY_KINDS -> Forall json_wf l ->
  exists f, save_persistence_document kind (JList l) compact = Ok f /\
    load_persistence_document (Some f) kind JNull = Ok (dumped compact (JList l)).
Proof.
  intros Hk Hl. unfold save_persistence_document, persistence_envelope. rewrite decide_True by done.
  assert (json_list (json_or (JList l) (JList [])) = Ok l) as -> by by destruct l.
  eexists. split; [reflexivity|]. set (e := JDict _).
  assert (json_wf e) as He.
  { apply wf_dict; [unfold dict_wf, dict_keys; simpl; repeat constructor; set_solver|].
    repeat (apply Forall_cons; split; [|]); try apply Forall_nil_2; simpl; try constructor; try done.
    unfold schema_json. destruct (_ !! kind); constructor. }
  assert (unwrap_envelope e kind = JList l) as Hu by (unfold unwrap_envelope; by rewrite decide_True).
  apply load_of.
  - rewrite dumped_validate by done. unfold validate_envelope, e. rewrite decide_True by done.
    unfold schema_version_ok. apply list_elem_of_In in Hk. simpl in Hk.
    destruct Hk as [<-|[<-|[<-|[<-|[]]]]]; reflexivity.
  - rewrite dumped_unwrap by (try done; intros ->; set_solver). by rewrite Hu.
  - by destruct compact.
Qed.

Lemma manifest_kind kind :
  kind ∈ MANIFEST_KINDS -> (kind ∉ LIST_ENTRY_KINDS) /\ kind <> "archive_maint_hints" /\ kind <> "job_store_snapshot" /\
    (kind ∈ DICT_PASSTHROUGH_KINDS) /\ KIND_SCHEMA_VERSION !! kind = Some MANIFEST_SCHEMA_VERSION.
Proof.
  intros Hk. apply list_elem_of_In in Hk. destruct Hk as [<-|[<-|[]]]; (split_and!; try done);
    rewrite ?list_elem_of_In; simpl; naive_solver.
Qed.

Lemma dict_entries_kind kind :
  kind ∈ DICT_ENTRIES_KINDS -> (kind ∉ LIST_ENTRY_KINDS) /\ kind <> "archive_maint_hints" /\ kind <> "job_store_snapshot" /\
    (kind ∉ MANIFEST_KINDS) /\ (kind ∈ DICT_PASSTHROUGH_KINDS) /\ KIND_SCHEMA_VERSION !! kind = Some 1.
Proof.
  intros Hk. apply list_elem_of_In in Hk. destruct Hk as [<-|[<-|[<-|[]]]]; (split_and!; try done);
    rewrite ?list_elem_of_In; simpl; naive_solver.
Qed.

(** A dictionary with the stamps of a save. *)
Definition stamped (v : Z) (d : jdict) : jdict :=
  dict_setdefault "schema_version" (JInt v) (<["contract_version" := JInt SYNC_TIMEDB_PERSISTENCE_CONTRACT_VERSION]> d).

Lemma stamped_wf v d : dict_wf d -> dict_wf (stamped v d).
Proof. intros Hd. by apply dict_setdefault_wf, dict_wf_insert. Qed.

Lemma stamped_other v d k : (k ∉ stamps) -> stamped v d !! k = d !! k.
Proof.
  unfold stamps. intros Hk. unfold stamped. rewrite dict_setdefault_lookup.
  rewrite decide_False by (intros ->; set_solver). apply dict_lookup_insert_ne. intros E. subst. set_solver.
Qed.

Lemma stamped_schema v d :
  d !! "schema_version" = None \/ d !! "schema_version" = Some (JInt v) ->
  stamped v d !! "schema_version" = Some (JInt v).
Proof.
  intros Hd. unfold stamped. rewrite dict_setdefault_lookup, decide_True, dict_lookup_insert_ne by done.
  by destruct Hd as [-> | ->].
Qed.

Lemma stamped_json_wf v d : json_wf (JDict d) -> json_wf (JDict (stamped v d)).
Proof.
  inversion 1 as [| | | | | |d' Hd Hv]; subst. constructor; [by apply stamped_wf|].
  apply Forall_forall. intros [k j] Hin. apply dict_items_lookup in Hin; [|by apply stamped_wf].
  unfold stamped in Hin. rewrite dict_setdefault_lookup in Hin. rewrite Forall_forall in Hv.
  assert (forall j', <["contract_version" := JInt SYNC_TIMEDB_PERSISTENCE_CONTRACT_VERSION]> d !! k = Some j' -> json_wf j') as Hi.
  { intros j'. destruct (decide (k = "contract_version")) as [-> | Hn].
    - rewrite dict_lookup_insert_eq. intros [= <-]. constructor.
    - rewrite dict_lookup_insert_ne by done. intros Hl. apply dict_items_lookup in Hl; [|done]. by apply (Hv _ Hl). }
  revert Hin Hi. generalize (<["contract_version" := JInt SYNC_TIMEDB_PERSISTENCE_CONTRACT_VERSION]> d). intros D Hin Hi.
  case_decide; [|by apply Hi]. subst k. injection Hin as <-. simpl.
  destruct (D !! "schema_version") eqn:E; simpl; [by apply Hi|constructor].
Qed.

Lemma schema_ok_stamp e v al fb : e !! "schema_version" = Some (JInt v) -> schema_version_ok e (Some v) al fb = Ok true.
Proof.
  intros He. unfold schema_version_ok, json_get. rewrite He. simpl. rewrite bool_decide_true; [done|set_solver].
Qed.

Lemma insert_json_wf k j d : json_wf (JDict d) -> json_wf j -> json_wf (JDict (<[k := j]> d)).
Proof.
  inversion 1 as [| | | | | |d' Hd Hv]; subst. intros Hj. constructor; [by apply dict_wf_insert|].
  apply Forall_forall. intros [k' j'] Hin. apply dict_items_lookup in Hin; [|by apply dict_wf_insert].
  rewrite Forall_forall in Hv. simpl. destruct (decide (k' = k)) as [-> | Hn].
  - rewrite dict_lookup_insert_eq in Hin. by injection Hin as <-.
  - rewrite dict_lookup_insert_ne in Hin by done. apply dict_items_lookup in Hin; [|done]. by apply (Hv _ Hin).
Qed.

Lemma delete_json_wf k d : json_wf (JDict d) -> json_wf (JDict (delete k d)).
Proof.
  inversion 1 as [| | | | | |d' Hd Hv]; subst. constructor; [by apply dict_wf_delete|].
  apply Forall_forall. intros [k' j'] Hin. apply dict_items_lookup in Hin; [|by apply dict_wf_delete].
  rewrite Forall_forall in Hv. simpl. destruct (decide (k' = k)) as [-> | Hn].
  - by rewrite dict_lookup_delete_eq in Hin.
  - rewrite dict_lookup_delete_ne in Hin by done. apply dict_items_lookup in Hin; [|done]. by apply (Hv _ Hin).
Qed.

(** The entries a dictionary sidecar is read back with. *)
Definition entries_of (d : jdict) : json := if is_dict (json_get "entries" d) then json_get "entries" d else JDict ∅.

Lemma stamped_manifest kind v d :
  kind ∈ MANIFEST_KINDS -> validate_manifest_payload kind (stamped v d) = validate_manifest_payload kind d.
Proof.
  intros Hk. unfold validate_manifest_payload.
  assert (json_get "phase" (stamped v d) = json_get "phase" d) as ->
    by (unfold json_get; rewrite stamped_other by (unfold stamps; set_solver); done).
  destruct (MANIFEST_REQUIRED_TOP_LEVEL !! kind) as [req|] eqn:Er; [|done]. f_equal.
  assert (forall k, k ∈ req -> k ∉ stamps) as Hreq.
  { unfold stamps. apply list_elem_of_In in Hk. destruct Hk as [<-|[<-|[]]]; injection Er as <-; set_solver. }
  clear Er. induction req as [|k req IH]; simpl; [done|].
  rewrite IH by (intros; apply Hreq; set_solver). by rewrite stamped_other by (apply Hreq; set_solver).
Qed.

Lemma dict_load kind compact e :
  kind <> "job_store_snapshot" -> json_wf (JDict e) ->
  validate_envelope (JDict e) kind = Ok true -> unwrap_envelope (JDict e) kind = JDict e ->
  load_persistence_document (Some (FJson (dumped compact (JDict e)))) kind JNull = Ok (dumped compact (JDict e)).
Proof.
  intros Hn He Hval Hun. apply load_of; [by rewrite dumped_validate|by rewrite dumped_unwrap, Hun|by destruct compact].
Qed.

(** A saved dictionary document is read back: every field the program put in it, its
    [entries] made a dictionary where the kind demands one, and the keys sorted in
    the compact form. *)
Theorem dict_sidecar_roundtrip kind d compact v :
  kind ∈ "archive_maint_hints" :: MANIFEST_KINDS ++ DICT_ENTRIES_KINDS ->
  KIND_SCHEMA_VERSION !! kind = Some v -> json_wf (JDict d) ->
  d !! "schema_version" = None \/ d !! "schema_version" = Some (JInt v) ->
  (kind ∈ MANIFEST_KINDS -> validate_manifest_payload kind d = true) ->
  exists f e, save_persistence_document kind (JDict d) compact = Ok f /\
    load_persistence_document (Some f) kind JNull = Ok (dumped compact (JDict e)) /\
    forall k, k ∉ stamps ->
      e !! k = if decide (k = "entries" /\ kind ∈ DICT_ENTRIES_KINDS) then Some (entries_of d) else d !! k.
Proof.
  intros Hk Hv Hd Hs Hm. unfold save_persistence_document, persistence_envelope, validate_envelope. cbn [dict_or_empty].
  pose proof (stamped_json_wf v d Hd) as Hsw. pose proof (stamped_schema v d Hs) as Hss.
  apply elem_of_cons in Hk as [E | [Hk|Hk]%elem_of_app].
  - subst kind. injection Hv as <-. rewrite decide_False, decide_True by (try done; set_solver). fold (stamped 2 d).
    eexists _, (delete "version" (stamped 2 d)). split; [reflexivity|]. split.
    + apply dict_load; [done|by apply delete_json_wf| |done]. unfold validate_envelope.
      rewrite decide_False, decide_True by (try done; set_solver). apply schema_ok_stamp.
      by rewrite dict_lookup_delete_ne.
    + intros k Hkn. rewrite decide_False by (intros [_ ?]; set_solver).
      rewrite dict_lookup_delete_ne by (intros Ek; subst; set_solver). by apply stamped_other.
  - destruct (manifest_kind kind Hk) as (H1 & H2 & H3 & H4 & H5). rewrite H5 in Hv. injection Hv as <-.
    rewrite !decide_False by done. rewrite decide_True by done. fold (stamped MANIFEST_SCHEMA_VERSION d).
    eexists _, (stamped MANIFEST_SCHEMA_VERSION d). split; [reflexivity|]. split.
    + apply dict_load; [done|done| |].
      * unfold validate_envelope. rewrite !decide_False by done. rewrite decide_True by done.
        rewrite H5, (schema_ok_stamp _ _ _ _ Hss). cbn. rewrite stamped_manifest by done. by rewrite (Hm Hk).
      * unfold unwrap_envelope. rewrite decide_False by done. by rewrite decide_True.
    + intros k Hkn. rewrite decide_False; [by apply stamped_other|]. intros [_ Hd']. by apply dict_entries_kind in Hd' as (_ & _ & _ & ? & _).
  - destruct (dict_entries_kind kind Hk) as (H1 & H2 & H3 & H4 & H5 & H6). rewrite H6 in Hv. injection Hv as <-.
    rewrite !decide_False by done. rewrite decide_True by done. unfold schema_json. rewrite H6. fold (stamped 1 d).
    assert (json_get "entries" (stamped 1 d) = json_get "entries" d) as Eg
      by (unfold json_get; rewrite stamped_other by (unfold stamps; set_solver); done).
    rewrite Eg. set (e := if is_dict _ then _ else _).
    assert (json_get "entries" e = entries_of d) as Ee.
    { unfold e, entries_of. destruct (is_dict _); [done|]. unfold json_get. by rewrite dict_lookup_insert_eq. }
    eexists _, e. split; [reflexivity|]. split.
    + apply dict_load; [done| | |].
      * unfold e. destruct (is_dict _); [done|]. apply insert_json_wf; [done|]. constructor; [apply dict_wf_empty|constructor].
      * unfold validate_envelope. rewrite !decide_False by done. rewrite decide_True, H6 by done.
        rewrite (schema_ok_stamp e 1); [|unfold e; destruct (is_dict _); [done|by rewrite dict_lookup_insert_ne]].
        rewrite Ee. unfold entries_of. by destruct (json_get "entries" d).
      * unfold unwrap_envelope. rewrite decide_False by done. by rewrite decide_True.
    + intros k Hkn. destruct (decide (k = "entries")) as [->|Hne].
      * rewrite decide_True by done. unfold json_get in Ee. unfold e, entries_of in *.
        destruct (json_get "entries" d) as [| | | | | |j] eqn:Ej; cbn [is_dict] in *; try apply dict_lookup_insert_eq.
        rewrite stamped_other by done. unfold json_get in Ej. destruct (d !! "entries"); simpl in Ej; congruence.
      * rewrite decide_False by tauto. unfold e. destruct (is_dict _); [|rewrite dict_lookup_insert_ne by done]; by apply stamped_other.
Qed.

(** ** The contract gate *)

(** The paths a reset owns. *)
Definition resettable (p : string) : bool :=
  existsb (fun kr => if decide (kr.1 = "day_raw_removal_dir" \/ kr.1 = "archive_members_store_dir")
                     then bool_decide (p = kr.2) || under_dir kr.2 p else bool_decide (p = kr.2))
    (dict_items PERSISTENCE_ARTIFACT_REGISTRY)
  || bool_decide (p ∈ LEGACY_ORPHAN_ARTIFACT_PATHS) || bool_decide (p = PERSISTENCE_CONTRACT_BASENAME).

(** The paths a reset of [fs] unlinks. *)
Definition reset_paths (fs : archive) : list string :=
  foldr (fun kr acc =>
           (if decide (kr.1 = "day_raw_removal_dir" \/ kr.1 = "archive_members_store_dir")
            then tree_files kr.2 fs else [kr.2]) ++ acc)
    [] (dict_items PERSISTENCE_ARTIFACT_REGISTRY)
  ++ LEGACY_ORPHAN_ARTIFACT_PATHS ++ [PERSISTENCE_CONTRACT_BASENAME].

Lemma elem_tree_files dir fs p : p ∈ tree_files dir fs <-> is_Some (fs !! p) /\ (p = dir \/ under_dir dir p = true).
Proof.
  unfold tree_files. rewrite list_elem_of_filter, list_elem_of_fmap. split.
  - intros (Hp & [q c] & -> & Hin). apply elem_of_map_to_list in Hin. by split; [eexists|].
  - intros ([c Hc] & Hp). split; [done|]. exists (p, c). by rewrite elem_of_map_to_list.
Qed.

Lemma reset_paths_resettable fs p : p ∈ reset_paths fs -> resettable p = true.
Proof.
  unfold reset_paths, resettable. rewrite !elem_of_app, !orb_true_iff, !bool_decide_eq_true, list_elem_of_singleton.
  intros [Hin | [Hin|Hin]]; [left; left|by left; right|by right]. revert Hin.
  generalize (dict_items PERSISTENCE_ARTIFACT_REGISTRY). intros l. induction l as [|[k r] l IH]; simpl; [set_solver|].
  rewrite elem_of_app, orb_true_iff. intros [Hin|Hin]; [left|right; by apply IH]. revert Hin. case_decide.
  - rewrite elem_tree_files, orb_true_iff, bool_decide_eq_true. tauto.
  - rewrite list_elem_of_singleton, bool_decide_eq_true. done.
Qed.

Lemma resettable_reset_paths fs p : resettable p = true -> is_Some (fs !! p) -> p ∈ reset_paths fs.
Proof.
  unfold reset_paths, resettable. rewrite !elem_of_app, !orb_true_iff, !bool_decide_eq_true, list_elem_of_singleton.
  intros [[Hin|Hin]|Hin] Hp; [left|by right; left|by right; right]. revert Hin.
  generalize (dict_items PERSISTENCE_ARTIFACT_REGISTRY). intros l. induction l as [|[k r] l IH]; simpl; [done|].
  rewrite elem_of_app, orb_true_iff. intros [Hin|Hin]; [left|right; by apply IH]. revert Hin. case_decide.
  - rewrite elem_tree_files, orb_true_iff, bool_decide_eq_true. tauto.
  - rewrite list_elem_of_singleton, bool_decide_eq_true. done.
Qed.

Section gate_spec.
Variable stuck : string -> bool.

Lemma run_unlinks ps fs p :
  run_fs stuck fs (AUnlink <$> ps) !! p = if decide (p ∈ ps /\ stuck p = false) then None else fs !! p.
Proof.
  revert fs. induction ps as [|q ps IH]; intros fs; [by rewrite decide_False by set_solver|].
  change (run_fs stuck fs (AUnlink <$> q :: ps)) with (run_fs stuck (run_fs_action stuck fs (AUnlink q)) (AUnlink <$> ps)).
  rewrite IH. simpl. destruct (decide (p ∈ ps /\ stuck p = false)) as [[Hp Hs]|Hp].
  { by rewrite decide_True by set_solver. }
  destruct (decide (p = q)) as [->|Hne].
  - destruct (stuck q) eqn:Eq; [by rewrite decide_False by naive_solver|].
    rewrite lookup_delete_eq. by rewrite decide_True by set_solver.
  - rewrite decide_False by set_solver. destruct (stuck q); [done|]. by rewrite lookup_delete_ne.
Qed.

Lemma run_fs_app fs l1 l2 : run_fs stuck fs (l1 ++ l2) = run_fs stuck (run_fs stuck fs l1) l2.
Proof. apply foldl_app. Qed.

Lemma run_reset now fs p :
  run_fs stuck fs (reset_actions fs ++ [AWrite PERSISTENCE_CONTRACT_BASENAME (contract_payload now)]) !! p =
    if decide (p = PERSISTENCE_CONTRACT_BASENAME) then Some (contract_payload now)
    else if resettable p && negb (stuck p) then None else fs !! p.
Proof.
  rewrite run_fs_app. change (reset_actions fs) with (AUnlink <$> reset_paths fs).
  set (fs' := run_fs stuck fs _). change (run_fs stuck fs' _) with (<[PERSISTENCE_CONTRACT_BASENAME := contract_payload now]> fs').
  case_decide as Hp; [subst p; apply lookup_insert_eq|].
  rewrite lookup_insert_ne by done. unfold fs'. rewrite run_unlinks.
  destruct (resettable p) eqn:Er, (stuck p) eqn:Es; cbn [andb negb];
    try (rewrite decide_False by (intros [Hin ?]; done)); try done.
  - case_decide as Hd; [done|]. apply eq_None_not_Some. intros Hs. apply Hd. split; [|done].
    by apply resettable_reset_paths.
  - rewrite decide_False; [done|]. intros [Hin%reset_paths_resettable _]. congruence.
Qed.

(** The contract version of a reset interrupted before its last step is the old one
    or missing. *)
Lemma read_contract_prefix fs ps v :
  read_contract_version fs = Ok v ->
  exists v', read_contract_version (run_fs stuck fs (AUnlink <$> ps)) = Ok v' /\ (v' = v \/ v' = None).
Proof.
  intros Hv. unfold read_contract_version in *. rewrite run_unlinks.
  case_decide; [by exists None; split; [|right]|]. exists v. split; [done|by left].
Qed.

Lemma read_contract_written now fs : read_contract_version (<[PERSISTENCE_CONTRACT_BASENAME := contract_payload now]> fs) =
  Ok (Some SYNC_TIMEDB_PERSISTENCE_CONTRACT_VERSION).
Proof. unfold read_contract_version. by rewrite lookup_insert_eq. Qed.

Lemma ensure_resets now fs acts :
  ensure_contract true now fs = (acts, Ok true) ->
  acts = reset_actions fs ++ [AWrite PERSISTENCE_CONTRACT_BASENAME (contract_payload now)] /\
  exists v, read_contract_version fs = Ok v /\ v <> Some SYNC_TIMEDB_PERSISTENCE_CONTRACT_VERSION.
Proof.
  unfold ensure_contract. destruct (read_contract_version fs) as [v|]; [|done].
  case_decide; [done|]. intros [= <-]. split; [done|by exists v].
Qed.

(** A reset is complete and contained: afterwards the contract is current, every
    sidecar of the registry, every file of its two directories and every legacy
    sidecar is gone unless its unlink failed, and every other file is as before. *)
Theorem reset_complete now fs acts p :
  ensure_contract true now fs = (acts, Ok true) ->
  run_fs stuck fs acts !! p =
    if decide (p = PERSISTENCE_CONTRACT_BASENAME) then Some (contract_payload now)
    else if resettable p && negb (stuck p) then None else fs !! p.
Proof. intros [-> _]%ensure_resets. apply run_reset. Qed.

(** A reset can be interrupted: stopped after any number of its file operations, the
    next start finds no current contract and ends on the disk the first would
    have left; and once the contract is current, starts change nothing. *)
Theorem contract_crash_safe now now' fs acts n :
  ensure_contract true now fs = (acts, Ok true) ->
  let fs' := run_fs stuck fs (take n acts) in
  (n < length acts)%nat /\ (ensure_contract true now' fs').2 = Ok true /\
    run_fs stuck fs' (ensure_contract true now' fs').1 = run_fs stuck fs (ensure_contract true now' fs).1 \/
  (length acts <= n)%nat /\ ensure_contract true now' fs' = ([], Ok false).
Proof.
  intros [-> (v & Hv & Hne)]%ensure_resets. cbv zeta. rewrite length_app.
  change (reset_actions fs) with (AUnlink <$> reset_paths fs). rewrite length_fmap. cbn [length].
  destruct (decide (n <= length (reset_paths fs))%nat) as [Hn|Hn].
  - left. split; [lia|]. rewrite take_app_le by (rewrite length_fmap; lia). rewrite <- fmap_take.
    destruct (read_contract_prefix fs (take n (reset_paths fs)) v Hv) as (v' & Hv' & Hor).
    set (fs' := run_fs stuck fs _) in *.
    assert (forall f w, read_contract_version f = Ok w -> w <> Some SYNC_TIMEDB_PERSISTENCE_CONTRACT_VERSION ->
      ensure_contract true now' f = (reset_actions f ++ [AWrite PERSISTENCE_CONTRACT_BASENAME (contract_payload now')], Ok true)) as He.
    { intros f w Hf Hw. unfold ensure_contract. rewrite Hf. by rewrite decide_False. }
    rewrite (He fs v Hv Hne), (He fs' v' Hv') by (destruct Hor as [-> | ->]; done). split; [done|].
    apply map_eq. intros p. cbn [fst]. rewrite !run_reset. case_decide; [done|].
    destruct (resettable p) eqn:Er, (stuck p) eqn:Es; cbn [andb negb]; try done; unfold fs'; rewrite run_unlinks;
      rewrite decide_False; try done; intros [Hin ?]; try congruence.
    apply subseteq_take in Hin. apply reset_paths_resettable in Hin. congruence.
  - right. split; [lia|]. rewrite take_ge by (rewrite length_app, length_fmap; cbn [length]; lia).
    rewrite run_fs_app. set (fs' := run_fs stuck fs _).
    change (run_fs stuck fs' _) with (<[PERSISTENCE_CONTRACT_BASENAME := contract_payload now]> fs').
    unfold ensure_contract. rewrite read_contract_written. by rewrite decide_True.
Qed.

Lemma read_contract_raises fs e : read_contract_version fs = Raise e -> e = OverflowError.
Proof.
  unfold read_contract_version. destruct (fs !! _) as [[[]|]|]; try done.
  destruct (json_get _ _) as [|[]| |[]|x| |]; simpl; try congruence. destruct (py_int x); congruence.
Qed.

(** Without permission to reset, no file is ever removed: a current contract is left
    alone, a missing one is written, and any other version is refused with the disk
    untouched. *)
Theorem refuse_keeps_disk now fs :
  let '(acts, r) := ensure_contract false now fs in
  (forall p, AUnlink p ∉ acts) /\
  (forall p, p <> PERSISTENCE_CONTRACT_BASENAME -> run_fs stuck fs acts !! p = fs !! p) /\
  (r = Raise PersistenceContractMismatchError <->
    exists v, read_contract_version fs = Ok (Some v) /\ v <> SYNC_TIMEDB_PERSISTENCE_CONTRACT_VERSION) /\
  (r = Ok false -> read_contract_version (run_fs stuck fs acts) = Ok (Some SYNC_TIMEDB_PERSISTENCE_CONTRACT_VERSION)).
Proof.
  unfold ensure_contract. destruct (read_contract_version fs) as [[v|]|ex] eqn:Ev; simpl.
  - destruct (decide (Some v = _)) as [[= ->]|Hne].
    + split_and!; [set_solver|done| |done]. split; [done|]. intros (w & [= <-] & ?). done.
    + split_and!; [set_solver|done| |done]. split; [|done]. intros _. exists v. split; [done|]. congruence.
  - split_and!; [set_solver|intros p Hp; by rewrite lookup_insert_ne| |intros _; apply read_contract_written].
    split; [done|]. by intros (w & ? & ?).
  - split_and!; [set_solver|done| |done]. split; [|by intros (w & ? & ?)]. intros [= ->].
    by apply read_contract_raises in Ev.
Qed.
End gate_spec.

(** ** Instances *)

Lemma load_shape_witness :
  load_persistence_document (Some (FJson (JDict (Dict [("schema_version", JInt 1); ("ingest", JDict ∅)]))))
    "job_store_snapshot" JNull =
    Ok (JDict (Dict [("ingest", JDict ∅); ("lists", JDict ∅); ("pending", JDict ∅); ("payloads", JDict ∅)])) /\
  kind_shape "job_store_snapshot"
    (JDict (Dict [("ingest", JDict ∅); ("lists", JDict ∅); ("pending", JDict ∅); ("payloads", JDict ∅)])) = true.
Proof.
  split; [reflexivity|].
  apply (load_shape (Some (FJson (JDict (Dict [("schema_version", JInt 1); ("ingest", JDict ∅)]))))). reflexivity.
Defined.

Lemma list_sidecar_roundtrip_witness :
  let entry := JDict (Dict [("path", JStr "/data/a"); ("host", JStr "c1")]) in
  (exists f, save_persistence_document "unparsable_raw" (JList [entry]) true = Ok f /\
    load_persistence_document (Some f) "unparsable_raw" JNull = Ok (dumped true (JList [entry]))) /\
  dumped true (JList [entry]) = JList [JDict (Dict [("host", JStr "c1"); ("path", JStr "/data/a")])].
Proof.
  split; [|reflexivity]. apply list_sidecar_roundtrip; [repeat constructor|].
  constructor; [|constructor]. apply wf_dict; [unfold dict_wf; simpl; repeat constructor; set_solver|].
  repeat constructor.
Defined.

Lemma dict_sidecar_roundtrip_witness :
  let d := Dict [("phase", JStr "verifying"); ("tar_path", JStr "/a/2024-01-01.tar.zst")] in
  exists f e, save_persistence_document "day_raw_removal" (JDict d) false = Ok f /\
    load_persistence_document (Some f) "day_raw_removal" JNull = Ok (dumped false (JDict e)) /\
    forall k, k ∉ stamps ->
      e !! k = if decide (k = "entries" /\ "day_raw_removal" ∈ DICT_ENTRIES_KINDS) then Some (entries_of d) else d !! k.
Proof.
  apply (dict_sidecar_roundtrip "day_raw_removal" _ false 1); [repeat constructor|reflexivity| |by left|done].
  apply wf_dict; [unfold dict_wf; simpl; repeat constructor; set_solver|repeat constructor].
Defined.

(** An old contract, the job store snapshot, a member map, a daily tar; the unlink of the
    member map fails. *)
Definition old_archive : archive :=
  <[PERSISTENCE_CONTRACT_BASENAME := FJson (JDict (Dict [("contract_version", JInt 8)]))]>
  (<[".sync_timedb_job_store.json" := FBad]>
  (<[".sync_timedb_archive_members/2024-01-01.json" := FBad]>
  (<["2024-01-01.tar.zst" := FBad]> ∅))).

Definition map_stuck (p : string) : bool := bool_decide (p = ".sync_timedb_archive_members/2024-01-01.json").

Lemma reset_complete_witness :
  let acts := (ensure_contract true (FFin 3 1) old_archive).1 in
  let after := run_fs map_stuck old_archive acts in
  ensure_contract true (FFin 3 1) old_archive = (acts, Ok true) /\
  after !! ".sync_timedb_job_store.json" = None /\
  after !! ".sync_timedb_archive_members/2024-01-01.json" = Some FBad /\
  after !! "2024-01-01.tar.zst" = Some FBad.
Proof.
  cbv zeta. split; [vm_compute; reflexivity|].
  split_and!; (rewrite (reset_complete map_stuck (FFin 3 1) old_archive); [vm_compute; reflexivity|vm_compute; reflexivity]).
Defined.

Lemma contract_crash_safe_witness :
  let acts := (ensure_contract true (FFin 3 1) old_archive).1 in
  let fs' := run_fs map_stuck old_archive (take 5 acts) in
  ensure_contract true (FFin 3 1) old_archive = (acts, Ok true) /\
  ((5 < length acts)%nat /\ (ensure_contract true (FFin 4 1) fs').2 = Ok true /\
    run_fs map_stuck fs' (ensure_contract true (FFin 4 1) fs').1 =
      run_fs map_stuck old_archive (ensure_contract true (FFin 4 1) old_archive).1 \/
  (length acts <= 5)%nat /\ ensure_contract true (FFin 4 1) fs' = ([], Ok false)).
Proof.
  cbv zeta. split; [vm_compute; reflexivity|].
  apply (contract_crash_safe map_stuck (FFin 3 1) (FFin 4 1) old_archive _ 5). vm_compute. reflexivity.
Defined.
