(* ===== verification/StatsSchema.v ===== *)
(** The schemas of raw statistics files, from [dbload/lib/sync_timedb_parsing.py],
    [sync_timedb_parsing_legacy.py], [monitor_mark_side_ingest.py] and
    [monitor_naming/].

    A schema line names the keys of a type, each a token with options: [W=] the counter
    width, [U=] multiplier and unit, [R=S] the slow tier.  Old archives carry
    programmable counters that are decoded through tables.  [float(text)] is the
    parameter [py_float]; texts are ASCII. *)
From S2P Require Import Prelude PyDict PyStr Json.
From Stdlib Require Import Ascii.
Local Open Scope Z_scope.
Local Open Scope string_scope.

(** ** Constants *)

Definition exclude_types : list string :=
  ["intel_x86_uncore_cha_skx"; "host_ps"; "host_sysv_shm"; "host_tmpfs"; "host_vfs"; "ib"; "ib_sw"; "intel_skx_cha"; "ps";
   "sysv_shm"; "tmpfs"; "vfs"].
Definition HOST_PROC_KEYS : list string :=
  ["uid"; "vm_peak"; "vm_size"; "vm_lck"; "vm_hwm"; "vm_rss"; "vm_data"; "vm_stk"; "vm_exe"; "vm_lib"; "vm_pte"; "vm_swap"; "threads"].
Definition HOST_PROC_PEAK_KEYS : list string := ["vm_peak"; "vm_hwm"; "vm_stk"; "vm_exe"; "vm_lib"].
Definition MAX_SAMPLE_TIME_S : Z := 253402300800.
Definition SLOW_TIER_OPT : string := "R=S".
Definition TIER_MARKERS : list string := ["@fast"; "@full"].
Definition GPU_STATS_TYPES : list string := ["nvidia_gpu"; "amd_gpu"; "intel_gpu"].
Definition HOST_MEM_JOB_TYPE : string := "host_mem_job".
Definition JOB_STAMP_DEV_SEP : string := String "031"%char "".
Definition INGEST_LEGACY_KNL_IMC_TYPE : string := "intel_knl_mc_dclk".
Definition MONITOR_LEGACY_KNL_IMC_TYPE : string := "intel_knl_mc".
Definition LEGACY_HARDWARE_DECODE_TYPES : list string :=
  ["amd64_pmc"; "amd64_df"; "intel_8pmc3"; "intel_4pmc3"; "intel_snb_imc"; "intel_ivb_imc"; "intel_hsw_imc"; "intel_bdw_imc";
   INGEST_LEGACY_KNL_IMC_TYPE; MONITOR_LEGACY_KNL_IMC_TYPE; "intel_skx_imc"].
(** [removed_legacy] of monitor_variable_rename_map.yaml. *)
Definition REMOVED_LEGACY_SYMBOLS : list string :=
  ["host_ib_ext"; "host_ib_sw"; "host_mic"; "intel_knl"; "intel_knl_edc"; "intel_knl_mc"; "intel_x86_pmc_knl";
   "intel_x86_uncore_edc_knl"; "intel_x86_uncore_mc_knl"; "amd_x86_pmc"; "amd_x86_uncore_df"; "CTL0"; "CTL1"; "CTL2"; "CTL3";
   "CTL4"; "CTL5"; "CTL6"; "CTL7"; "CTR0"; "CTR1"; "CTR2"; "CTR3"; "CTR4"; "CTR5"; "CTR6"; "CTR7"; "FIXED_CTR"; "FIXED_CTR0";
   "FIXED_CTR1"; "FIXED_CTR2"].

(** ** Tokens *)

Definition comma : ascii := ",".

Definition schema_key_basename (token : string) : string := (split_once comma token).1.

Definition schema_token_is_slow_tier (token : string) : bool := bool_decide (SLOW_TIER_OPT ∈ tail (py_split comma token)).

Definition fast_schema_keys (full_events : list string) : list string :=
  filter (fun e => schema_token_is_slow_tier e = false) full_events.

(** A key compiled: event, counter width, multiplier, unit. *)
Record compiled_key := CompiledKey { ck_event : string; ck_wid : Z; ck_mult : pyfloat; ck_unit : string }.

Section tokens.
Context (py_float : string -> option pyfloat).

(** One option of a token. *)
Definition compile_option (acc : Z * pyfloat * string) (ele : string) : Z * pyfloat * string :=
  let '(width, mult, unit) := acc in
  let w := lstrip_chars (fun c => Ascii.eqb c "W" || Ascii.eqb c "=") ele in
  let width := if str_contains "W=" ele && str_isdigit w then default width (py_int w) else width in
  if str_contains "U=" ele then
    let u := lstrip_chars (fun c => Ascii.eqb c "U" || Ascii.eqb c "=") ele in
    (width, default mult (py_float (str_filter is_digit u)), str_filter is_alpha u)
  else (width, mult, unit).

Definition compile_schema_token (token : string) : compiled_key :=
  let parts := py_split comma token in
  let '(width, mult, unit) := foldl compile_option (64, FFin 1 1, "#") (tail parts) in
  CompiledKey (default "" (head parts)) width mult unit.

Definition compile_schema_tokens (tokens : list string) : list compiled_key := compile_schema_token <$> tokens.
End tokens.

Definition compile_schema_bare_names (tokens : list string) : list string := schema_key_basename <$> tokens.

(** ** Old archives *)

Definition schema_needs_legacy_hardware_decode (typ : string) (schema_events : list string) : bool :=
  existsb (fun token => let base := default "" (head (py_split comma token)) in
                        bool_decide (base ∈ REMOVED_LEGACY_SYMBOLS) || str_contains "CTL" base || str_contains "CTR" base ||
                        str_contains "FIXED_CTR" base) schema_events ||
  bool_decide (typ ∈ LEGACY_HARDWARE_DECODE_TYPES).

(** Programmed selector to event, and fixed counter to event. *)
Abbreviation eventmap := (dict Z string * dict string string)%type.

Definition amd64_pmc_eventmap : eventmap := (Dict
  [(0x43FF03, "FLOPS,W=48"); (0x4300C2, "BRANCH_INST_RETIRED,W=48"); (0x4300C3, "BRANCH_INST_RETIRED_MISS,W=48");
   (0x4308AF, "DISPATCH_STALL_CYCLES1,W=48"); (0x43FFAE, "DISPATCH_STALL_CYCLES0,W=48")], ∅).
Definition amd64_df_eventmap : eventmap := (Dict
  [(0x403807, "MBW_CHANNEL_0,W=48,U=64B"); (0x403847, "MBW_CHANNEL_1,W=48,U=64B"); (0x403887, "MBW_CHANNEL_2,W=48,U=64B");
   (0x4038C7, "MBW_CHANNEL_3,W=48,U=64B"); (0x433907, "MBW_CHANNEL_4,W=48,U=64B"); (0x433947, "MBW_CHANNEL_5,W=48,U=64B");
   (0x433987, "MBW_CHANNEL_6,W=48,U=64B"); (0x4339C7, "MBW_CHANNEL_7,W=48,U=64B")], ∅).
Definition intel_8pmc3_eventmap : eventmap := (Dict
  [(0x4301C7, "FP_ARITH_INST_RETIRED_SCALAR_DOUBLE,W=48,U=1"); (0x4302C7, "FP_ARITH_INST_RETIRED_SCALAR_SINGLE,W=48,U=1");
   (0x4304C7, "FP_ARITH_INST_RETIRED_128B_PACKED_DOUBLE,W=48,U=2"); (0x4308C7, "FP_ARITH_INST_RETIRED_128B_PACKED_SINGLE,W=48,U=4");
   (0x4310C7, "FP_ARITH_INST_RETIRED_256B_PACKED_DOUBLE,W=48,U=4"); (0x4320C7, "FP_ARITH_INST_RETIRED_256B_PACKED_SINGLE,W=48,U=8");
   (0x4340C7, "FP_ARITH_INST_RETIRED_512B_PACKED_DOUBLE,W=48,U=8"); (0x4380C7, "FP_ARITH_INST_RETIRED_512B_PACKED_SINGLE,W=48,U=16");
   (0x438010, "SSE_DOUBLE_SCALAR,W=48,U=1"); (0x431010, "SSE_DOUBLE_PACKED,W=48,U=2"); (0x430211, "SIMD_DOUBLE_256,W=48,U=4");
   (0x439010, "SSE_DOUBLE_ALL,W=48,U=1")],
  Dict [("FIXED_CTR0", "INST_RETIRED,W=48"); ("FIXED_CTR1", "APERF,W=48"); ("FIXED_CTR2", "MPERF,W=48")]).
Definition intel_skx_imc_eventmap : eventmap := (Dict
  [(0x400304, "CAS_READS,W=48"); (0x400C04, "CAS_WRITES,W=48"); (0x400B01, "ACT_COUNT,W=48"); (0x400102, "PRE_COUNT_MISS,W=48")], ∅).
Definition intel_snb_imc_eventmap : eventmap := (Dict [(0x400304, "CAS_READS,W=48"); (0x400B04, "CAS_WRITES,W=48")], ∅).
Definition intel_hsw_imc_eventmap : eventmap := (Dict [(0x400304, "CAS_READS,W=48"); (0x400B04, "CAS_WRITES,W=48")], ∅).
Definition intel_knl_mc_dclk_eventmap : eventmap := (Dict [(0x300301, "CAS_READS,W=48"); (0x300309, "CAS_WRITES,W=48")], ∅).

Definition EVENTMAPS_BY_TYPE : dict string eventmap := Dict
  [("amd64_pmc", amd64_pmc_eventmap); ("amd64_df", amd64_df_eventmap); ("intel_8pmc3", intel_8pmc3_eventmap);
   ("intel_4pmc3", intel_8pmc3_eventmap); ("intel_snb_imc", intel_snb_imc_eventmap); ("intel_ivb_imc", intel_snb_imc_eventmap);
   ("intel_hsw_imc", intel_hsw_imc_eventmap); ("intel_bdw_imc", intel_hsw_imc_eventmap);
   (INGEST_LEGACY_KNL_IMC_TYPE, intel_knl_mc_dclk_eventmap); (MONITOR_LEGACY_KNL_IMC_TYPE, intel_knl_mc_dclk_eventmap);
   ("intel_skx_imc", intel_skx_imc_eventmap)].

Definition legacy_output_type (typ : string) : string :=
  if decide (typ = MONITOR_LEGACY_KNL_IMC_TYPE) then INGEST_LEGACY_KNL_IMC_TYPE else typ.

(** The loop over the keys: the events the control registers select, the positions of
    those registers, the names of the other values. *)
Fixpoint map_counters (schema_events : list string) (idx : nat) (vals : list string) (em : eventmap)
    (n : dict string string) (rm_idx : list nat) (schema_mod : list string) : result (list nat * list string) :=
  match schema_events with
  | [] => Ok (rm_idx, schema_mod)
  | token :: rest =>
      let eve := default "" (head (py_split comma token)) in
      if str_contains "CTL" eve then
        let reg := lstrip_chars (fun c => Ascii.eqb c "C" || Ascii.eqb c "T" || Ascii.eqb c "L") eve in
        let event := default "OTHER" (v ← vals !! idx; z ← py_int v; em.1 !! z) in
        map_counters rest (S idx) vals em (<[reg := event]> n) (rm_idx ++ [idx]) schema_mod
      else if str_contains "FIXED_CTR" eve then
        match em.2 !! eve with
        | Some event => map_counters rest (S idx) vals em n rm_idx (schema_mod ++ [event])
        | None => Raise KeyError
        end
      else if str_contains "CTR" eve then
        match n !! lstrip_chars (fun c => Ascii.eqb c "C" || Ascii.eqb c "T" || Ascii.eqb c "R") eve with
        | Some event => map_counters rest (S idx) vals em n rm_idx (schema_mod ++ [event])
        | None => Raise KeyError
        end
      else map_counters rest (S idx) vals em n rm_idx (schema_mod ++ [eve])
  end.

(** The values at the other positions. *)
Definition drop_positions (rm_idx : list nat) (vals : list string) : list string :=
  omap (fun iv => if decide (iv.1 ∈ rm_idx) then None else Some iv.2) (zip (seq 0 (length vals)) vals).

Definition map_hardware_counter_vals (schema_events vals : list string) (em : eventmap) : result (dict string string) :=
  '(rm_idx, schema_mod) ← map_counters schema_events 0 vals em ∅ [] [];
  if existsb (fun i => (length vals <=? i)%nat) rm_idx then Raise IndexError
  else Ok (dict_of_items (zip schema_mod (drop_positions rm_idx vals))).

Definition decode_counter_line (typ : string) (schema : dict string (list string)) (vals : list string)
    : result (option (dict string string)) :=
  match EVENTMAPS_BY_TYPE !! typ, schema !! typ with
  | Some em, Some events => d ← map_hardware_counter_vals events vals em; Ok (Some d)
  | _, _ => Ok None
  end.

(** ** Shared nodes *)

(** [jid and jid not in ("-", "0")]. *)
Definition real_jid (jid : string) : bool := negb (bool_decide (jid ∈ ["-"; "0"; ""])).

Definition job_stamp (jid : string) : string := String.substring 0 64 ("j:" ++ jid).

Definition shared_row_dev (dev typ jid : string) (shared : bool) : string :=
  if decide (typ ∈ GPU_STATS_TYPES) then dev
  else if negb (real_jid jid) then dev
  else if decide (typ = HOST_MEM_JOB_TYPE) then if String.prefix "j:" dev then String.substring 0 64 dev else job_stamp jid
  else if negb shared then dev
  else job_stamp jid ++ JOB_STAMP_DEV_SEP ++ dev.

(** [text.split(None, 1)]: the second part, if there is one. *)
Definition after_first_word (text : string) : option string :=
  match py_lstrip (split_word (py_lstrip text)).2 with EmptyString => None | rest => Some rest end.

Definition strip_prefix (prefix s : string) : option string :=
  if String.prefix prefix s then Some (String.substring (String.length prefix) (String.length s - String.length prefix) s) else None.

Definition parse_jobs_jids (line : string) : list string :=
  let text := py_strip line in
  if negb (String.prefix "%jobs" text) then []
  else match after_first_word text ≫= strip_prefix "jids=" with
       | None => []
       | Some raw =>
           omap (fun token => let jid := py_strip token in
                              if real_jid jid && (String.length jid <=? 32)%nat && no_char " " jid then Some jid else None)
             (py_split comma raw)
       end.

(** What a mark says: the jobs of the node, or the placement of one job. *)
Inductive mark_kind :=
| MJobs (jids : list string)
| MAffinity (jid cpus gpus cg : string).

Definition affinity_fields (tokens : list string) : dict string string :=
  foldl (fun fields token => match split_once "=" token with
                             | (key, Some value) => <[key := value]> fields
                             | (_, None) => fields
                             end) ∅ tokens.

Definition parse_affinity_mark (line : string) : option mark_kind :=
  let text := py_strip line in
  if negb (String.prefix "%affinity" text) then None
  else
    let fields := affinity_fields (tail (py_words text)) in
    let jid := py_strip (default "" (fields !! "jid")) in
    if negb (real_jid jid) || (32 <? String.length jid)%nat then None
    else Some (MAffinity jid (default "" (fields !! "cpus")) (default "-" (fields !! "gpus")) (default "sched" (fields !! "cg"))).
