(* ===== verification/StatsParser.v ===== *)
(** The parser of raw statistics files: [IncrementalStatsParser] and the windows of
    [parse_stats_file_streaming_incremental], from [dbload/lib/sync_timedb_parsing.py].

    A file is a sequence of schema lines ([!type keys]), sample headers ([time jid host]),
    data lines ([type device values]) and marks ([%jobs], [%affinity]).  [feed_line] is
    one transition of the parser; it can raise.  The compiled schemas the code caches
    are recomputed here, being functions of the schemas; the bare key names, which it
    caches per type for another type's schema, are modelled.  Marks are shared by two
    lists, so they carry an identity.  Process rows are handed out as columns, here as the
    rows.  The windows are those of the Python parser: files the compiled Codon extension
    parses, warnings, logging, locks and telemetry are left out. *)
From S2P Require Import Prelude PyDict PyStr Json StatsSchema.
From Stdlib Require Import Ascii.
Local Open Scope Z_scope.

(** ** Columns *)

Record columns := Columns {
  co_time : list pyfloat;
  co_host : list string;
  co_jid : list string;
  co_type : list string;
  co_dev : list string;
  co_event : list string;
  co_value : list pyfloat;
  co_wid : list Z;
  co_mult : list pyfloat;
  co_unit : list string;
}.

Definition empty_stats_columns : columns := Columns [] [] [] [] [] [] [] [] [] [].

Record stat_row := StatRow {
  sr_time : pyfloat;
  sr_host : string;
  sr_jid : string;
  sr_type : string;
  sr_dev : string;
  sr_event : string;
  sr_value : pyfloat;
  sr_wid : Z;
  sr_mult : pyfloat;
  sr_unit : string;
}.

Definition stats_payload_row_count (c : columns) : nat := length (co_time c).

(** [stats_payload_to_records], where every column has the length of the times. *)
Fixpoint zip_rows (times : list pyfloat) (hosts jids types devs events : list string) (values : list pyfloat) (wids : list Z)
    (mults : list pyfloat) (units : list string) : list stat_row :=
  match times, hosts, jids, types, devs, events, values, wids, mults, units with
  | t :: times, h :: hosts, j :: jids, ty :: types, d :: devs, e :: events, v :: values, w :: wids, m :: mults, u :: units =>
      StatRow t h j ty d e v w m u :: zip_rows times hosts jids types devs events values wids mults units
  | _, _, _, _, _, _, _, _, _, _ => []
  end.

Definition stats_payload_to_records (c : columns) : list stat_row :=
  zip_rows (co_time c) (co_host c) (co_jid c) (co_type c) (co_dev c) (co_event c) (co_value c) (co_wid c) (co_mult c) (co_unit c).

(** ** Process rows *)

Record proc_row := ProcRow {
  pr_time : pyfloat;
  pr_host : string;
  pr_jid : string;
  pr_proc : string;
  pr_device : string;
  pr_fields : dict string (option Z);
}.

Abbreviation proc_key := (string * string * string)%type.
Definition key_of (r : proc_row) : proc_key := (pr_jid r, pr_host r, pr_proc r).

Definition nullable_int_max (left right : option Z) : option Z :=
  match left, right with
  | None, _ => right
  | _, None => left
  | Some l, Some r => Some (Z.max l r)
  end.

Definition merge_field (acc : dict string (option Z)) (kv : string * option Z) : dict string (option Z) :=
  let '(key, value) := kv in
  if decide (key ∈ HOST_PROC_PEAK_KEYS) then <[key := nullable_int_max (mjoin (acc !! key)) value]> acc else <[key := value]> acc.

(** Peak fields keep their maximum, the others the later value. *)
Definition merge_proc_row_dicts (earlier later : proc_row) : proc_row :=
  ProcRow (pr_time later) (pr_host later) (pr_jid later) (pr_proc later) (pr_device later)
    (foldl merge_field (pr_fields earlier) (dict_items (pr_fields later))).

Definition merge_proc_row_online (by_key : dict proc_key proc_row) (row : proc_row) : dict proc_key proc_row :=
  match by_key !! key_of row with
  | None => <[key_of row := row]> by_key
  | Some existing => <[key_of row := merge_proc_row_dicts existing row]> by_key
  end.

Definition dedupe_proc_stats_peak_merge (rows : list proc_row) : list proc_row :=
  dict_values (foldl merge_proc_row_online ∅ rows).

(** ** The parser *)

(** The current sample header. *)
Record line_ctx := LineCtx { lc_time : pyfloat; lc_host : string; lc_jid : string }.

Record mark := Mark { mk_id : nat; mk_kind : mark_kind; mk_time : option pyfloat; mk_host : option string }.

Record parser := Parser {
  ps_line_index : nat;
  ps_schema : dict string (list string);
  ps_schema_fast : dict string (list string);
  ps_bare : dict string (list string);
  ps_fast_bare : dict string (list string);
  ps_cols : columns;
  ps_procs : dict proc_key proc_row;
  ps_insert : bool;
  ps_tags : option line_ctx;
  ps_arm_shared : bool;
  ps_sample_shared : bool;
  ps_marks : list mark;
  ps_pending : list nat;
  ps_next : nat;
}.

Definition new_parser : parser := Parser 0 ∅ ∅ ∅ ∅ empty_stats_columns ∅ false None false false [] [] 0.

Definition with_line_index i p := Parser i (ps_schema p) (ps_schema_fast p) (ps_bare p) (ps_fast_bare p) (ps_cols p) (ps_procs p) (ps_insert p) (ps_tags p) (ps_arm_shared p) (ps_sample_shared p) (ps_marks p) (ps_pending p) (ps_next p).
Definition with_schemas s f b fb p := Parser (ps_line_index p) s f b fb (ps_cols p) (ps_procs p) (ps_insert p) (ps_tags p) (ps_arm_shared p) (ps_sample_shared p) (ps_marks p) (ps_pending p) (ps_next p).
Definition with_cols c p := Parser (ps_line_index p) (ps_schema p) (ps_schema_fast p) (ps_bare p) (ps_fast_bare p) c (ps_procs p) (ps_insert p) (ps_tags p) (ps_arm_shared p) (ps_sample_shared p) (ps_marks p) (ps_pending p) (ps_next p).
Definition with_procs d p := Parser (ps_line_index p) (ps_schema p) (ps_schema_fast p) (ps_bare p) (ps_fast_bare p) (ps_cols p) d (ps_insert p) (ps_tags p) (ps_arm_shared p) (ps_sample_shared p) (ps_marks p) (ps_pending p) (ps_next p).
Definition with_sample i t p := Parser (ps_line_index p) (ps_schema p) (ps_schema_fast p) (ps_bare p) (ps_fast_bare p) (ps_cols p) (ps_procs p) i t (ps_arm_shared p) (ps_sample_shared p) (ps_marks p) (ps_pending p) (ps_next p).
Definition with_marks a sh m pe n p := Parser (ps_line_index p) (ps_schema p) (ps_schema_fast p) (ps_bare p) (ps_fast_bare p) (ps_cols p) (ps_procs p) (ps_insert p) (ps_tags p) a sh m pe n.

(** [store.get(typ) or default] on lists. *)
Definition list_or (x : option (list string)) (d : list string) : list string :=
  match x with Some ((_ :: _) as l) => l | _ => d end.

(** A chunk handed to [on_chunk]. *)
Abbreviation chunk := (columns * list proc_row)%type.

Section parser.
Context (py_float : string -> option pyfloat).

Definition append_compiled_stats_columns (cols : columns) (time : pyfloat) (host jid typ dev : string) (compiled : list compiled_key)
    (vals : list string) : columns :=
  let n := length compiled in
  if negb (length vals =? n)%nat then cols
  else match mapM py_float vals with
       | None => cols
       | Some values =>
           Columns (co_time cols ++ replicate n time) (co_host cols ++ replicate n host) (co_jid cols ++ replicate n jid)
             (co_type cols ++ replicate n typ) (co_dev cols ++ replicate n dev) (co_event cols ++ (ck_event <$> compiled))
             (co_value cols ++ values) (co_wid cols ++ (ck_wid <$> compiled)) (co_mult cols ++ (ck_mult <$> compiled))
             (co_unit cols ++ (ck_unit <$> compiled))
       end.

Definition append_vals_dict_columns (cols : columns) (time : pyfloat) (host jid typ dev : string) (vals : dict string string) : columns :=
  match dict_items vals with
  | [] => cols
  | _ => append_compiled_stats_columns cols time host jid typ dev (compile_schema_tokens py_float (dict_keys vals)) (dict_values vals)
  end.

(** ** Process lines *)

(** [int(raw)], else [int(float(raw))], else nothing. *)
Definition proc_value (raw : string) : result (option Z) :=
  match py_int raw with
  | Some z => Ok (Some z)
  | None => match py_float raw with
            | None => Ok None
            | Some (FFin n d) => Ok (Some (Z.quot n (Zpos d)))
            | Some FNaN => Ok None
            | Some (FInf _) => Raise OverflowError
            end
  end.

Fixpoint proc_fields (bare_keys vals : list string) (fields : dict string (option Z)) : result (dict string (option Z)) :=
  match bare_keys, vals with
  | bare :: bare_keys, raw :: vals =>
      if decide (bare ∈ HOST_PROC_KEYS) then v ← proc_value raw; proc_fields bare_keys vals (<[bare := v]> fields)
      else proc_fields bare_keys vals fields
  | _, _ => Ok fields
  end.

(** The tier marker of a line, and the values after it. *)
Definition take_tier (vals : list string) : option string * list string :=
  match vals with
  | v :: rest => if decide (v ∈ TIER_MARKERS) then (Some v, rest) else (None, vals)
  | [] => (None, [])
  end.

(** [_proc_bare_keys_for]: cached under the type. *)
Definition proc_bare_keys_for (typ : string) (schema_keys : list string) (fast : bool) (p : parser) : list string * parser :=
  let store := if fast then ps_fast_bare p else ps_bare p in
  match store !! typ with
  | Some bare => (bare, p)
  | None =>
      let bare := compile_schema_bare_names schema_keys in
      (bare, if fast then with_schemas (ps_schema p) (ps_schema_fast p) (ps_bare p) (<[typ := bare]> (ps_fast_bare p)) p
             else with_schemas (ps_schema p) (ps_schema_fast p) (<[typ := bare]> (ps_bare p)) (ps_fast_bare p) p)
  end.

Definition feed_proc_line (typ dev : string) (vals : list string) (p : parser) : result parser :=
  let proc_name := (split_once "/"%char dev).1 in
  let full_schema_keys := list_or (ps_schema p !! typ) (list_or (ps_schema p !! "host_proc") (list_or (ps_schema p !! "proc") HOST_PROC_KEYS)) in
  let '(tier, vals) := take_tier vals in
  let use_fast := bool_decide (tier = Some "@fast") in
  let schema_keys := if use_fast then list_or (ps_schema_fast p !! typ) (fast_schema_keys full_schema_keys) else full_schema_keys in
  let '(bare_keys, p) := proc_bare_keys_for typ schema_keys use_fast p in
  match ps_tags p with
  | None => Raise TypeError (* not reached: a header has been read *)
  | Some tags =>
      fields ← proc_fields bare_keys vals ∅;
      Ok (with_procs (merge_proc_row_online (ps_procs p)
            (ProcRow (lc_time tags) (lc_host tags) (lc_jid tags) proc_name dev fields)) p)
  end.

(** ** Counter lines *)

Definition feed_stats_line (typ dev : string) (vals : list string) (p : parser) : result parser :=
  match ps_schema p !! typ with
  | None => Ok p
  | Some events =>
      let '(tier, vals) := take_tier vals in
      let legacy := schema_needs_legacy_hardware_decode typ events in
      let fast := bool_decide (tier = Some "@fast") in
      if fast && legacy then Ok p
      else
        let keys := if fast then default [] (ps_schema_fast p !! typ) else events in
        match ps_tags p with
        | None => Ok p
        | Some tags =>
            let out_typ := if legacy then legacy_output_type typ else typ in
            let dev := shared_row_dev dev out_typ (lc_jid tags) (ps_sample_shared p) in
            if legacy then
              decoded ← decode_counter_line typ (ps_schema p) vals;
              match decoded with
              | None => Ok p
              | Some d => Ok (with_cols (append_vals_dict_columns (ps_cols p) (lc_time tags) (lc_host tags) (lc_jid tags) out_typ dev d) p)
              end
            else Ok (with_cols (append_compiled_stats_columns (ps_cols p) (lc_time tags) (lc_host tags) (lc_jid tags) out_typ dev
                                  (compile_schema_tokens py_float keys) vals) p)
        end
  end.

(** ** Marks *)

Definition queue_mark (kind : mark_kind) (p : parser) : parser :=
  let id := ps_next p in
  match ps_tags p with
  | Some tags =>
      let shared := match kind with MJobs _ => real_jid (lc_jid tags) | MAffinity _ _ _ _ => ps_sample_shared p end in
      with_marks (ps_arm_shared p) shared (ps_marks p ++ [Mark id kind (Some (lc_time tags)) (Some (lc_host tags))]) (ps_pending p) (S id) p
  | None => with_marks (ps_arm_shared p) (ps_sample_shared p) (ps_marks p ++ [Mark id kind None None]) (ps_pending p ++ [id]) (S id) p
  end.

Definition note_percent_mark (line : string) (p : parser) : parser :=
  if String.prefix "%jobs" line then
    match parse_jobs_jids line with
    | [] => p
    | jids => queue_mark (MJobs jids) (with_marks true (ps_sample_shared p) (ps_marks p) (ps_pending p) (ps_next p) p)
    end
  else if String.prefix "%affinity" line then
    match parse_affinity_mark line with
    | None => p
    | Some kind => queue_mark kind p
    end
  else p.

(** The pending marks are those of the header that follows them. *)
Definition bind_mark (pending : list nat) (when : pyfloat) (host : string) (m : mark) : mark :=
  if decide (mk_id m ∈ pending /\ mk_time m = None) then Mark (mk_id m) (mk_kind m) (Some when) (Some host) else m.

Definition bind_pending_marks (when : pyfloat) (host jid : string) (p : parser) : parser :=
  with_marks false (ps_arm_shared p && real_jid jid) (bind_mark (ps_pending p) when host <$> ps_marks p) [] (ps_next p) p.

Definition mark_ready (m : mark) : bool :=
  match mk_time m, mk_host m with Some _, Some h => negb (bool_decide (h = "")) | _, _ => false end.

Definition take_ready_marks (p : parser) : list mark * parser :=
  (filter (fun m => mark_ready m = true) (ps_marks p),
   with_marks (ps_arm_shared p) (ps_sample_shared p) (filter (fun m => mark_ready m = false) (ps_marks p)) (ps_pending p) (ps_next p) p).

(** ** Lines *)

(** [0.0 <= t < MAX_SAMPLE_TIME_S]. *)
Definition sample_time_ok (t : pyfloat) : bool :=
  match t with FFin n d => (0 <=? n) && (n <? MAX_SAMPLE_TIME_S * Zpos d) | _ => false end.

Definition digit_line_identity (s : string) : option (string * string * string) :=
  match py_words s with t :: jid :: host :: _ => Some (t, jid, host) | _ => None end.

(** [collect_marks] of monitor_mark_side_ingest: the same marks, each for the next header. *)
Definition collect_line (st : list mark * list nat) (raw : string) : list mark * list nat :=
  let '(marks, pending) := st in
  let add kind := (marks ++ [Mark (length marks) kind None None], pending ++ [length marks]) in
  match py_strip raw with
  | EmptyString => st
  | String c _ as line =>
      if String.prefix "%jobs" line then match parse_jobs_jids line with [] => st | jids => add (MJobs jids) end
      else if String.prefix "%affinity" line then match parse_affinity_mark line with None => st | Some kind => add kind end
      else if is_digit c then
        match digit_line_identity line with
        | None => st
        | Some (t, _, host) =>
            match py_float t with
            | None => st
            | Some when => (bind_mark pending when host <$> marks, [])
            end
        end
      else st
  end.

Definition collect_marks (lines : list string) : list mark := (foldl collect_line ([], []) lines).1.

Definition feed_header (s : string) (p : parser) : parser :=
  match digit_line_identity s with
  | None => p
  | Some (t, jid, host) =>
      match py_float t with
      | Some t =>
          if sample_time_ok t
          then bind_pending_marks t host jid (with_sample true (Some (LineCtx t host jid)) p)
          else with_sample false (ps_tags p) p
      | None => with_sample false (ps_tags p) p
      end
  end.

Definition feed_schema_line (s : string) (p : parser) : result parser :=
  match py_words s with
  | label :: ((_ :: _) as events) =>
      let typ := String.substring 1 (String.length label - 1) label in
      let fast := fast_schema_keys events in
      Ok (with_schemas (<[typ := events]> (ps_schema p)) (<[typ := fast]> (ps_schema_fast p))
            (<[typ := compile_schema_bare_names events]> (ps_bare p)) (<[typ := compile_schema_bare_names fast]> (ps_fast_bare p)) p)
  | _ => Raise ValueError
  end.

Definition feed_line (start_idx : nat) (excluded : list string) (line : string) (p : parser) : result parser :=
  let i := ps_line_index p in
  let p := with_line_index (S i) p in
  match py_lstrip line with
  | EmptyString => Ok p
  | String c _ as s =>
      if is_alpha c && ps_insert p then
        match py_words s with
        | typ :: dev :: ((_ :: _) as vals) =>
            if decide (typ ∈ excluded) then Ok p
            else if decide (typ ∈ ["proc"; "host_proc"]) then feed_proc_line typ dev vals p
            else feed_stats_line typ dev vals p
        | _ => Ok p
        end
      else if (start_idx <=? i)%nat && is_digit c then Ok (feed_header s p)
      else if Ascii.eqb c "!" then feed_schema_line s p
      else if Ascii.eqb c "%" then Ok (note_percent_mark s p)
      else Ok p
  end.

Fixpoint feed_lines (start_idx : nat) (excluded : list string) (lines : list string) (p : parser) : result parser :=
  match lines with
  | [] => Ok p
  | line :: lines => p ← feed_line start_idx excluded line p; feed_lines start_idx excluded lines p
  end.

Definition take_stats_columns (p : parser) : columns * parser := (ps_cols p, with_cols empty_stats_columns p).
Definition take_proc_stats (p : parser) : list proc_row * parser := (dict_values (ps_procs p), with_procs ∅ p).

(** [finish]. *)
Definition finish (p : parser) : list stat_row * list proc_row := (stats_payload_to_records (ps_cols p), dict_values (ps_procs p)).

Definition parse_stats_lines (start_idx : nat) (excluded : list string) (lines : list string) : result (list stat_row * list proc_row) :=
  p ← feed_lines start_idx excluded lines new_parser; Ok (finish p).

(** ** Windows *)

(** When a window is full: by the bytes read, or by its rows. *)
Inductive flush_limit :=
| FlushRows (n : nat)
| FlushBytes (n : Z).

Definition over_limit (limit : flush_limit) (batch_end window_start : Z) (p : parser) : bool :=
  match limit with
  | FlushRows n => (Nat.max 1 n <=? stats_payload_row_count (ps_cols p))%nat
  | FlushBytes n => Z.max 1 n <=? batch_end - window_start
  end.

Definition line_starts_time_sample (line : string) (line_index start_idx : nat) : bool :=
  match py_lstrip line with
  | EmptyString => false
  | String c _ => is_digit c && (start_idx <=? line_index)%nat
  end.

Record window_state := WindowState { ws_parser : parser; ws_pending : bool; ws_start : Z }.

Definition take_chunk (p : parser) : chunk * parser :=
  let '(c, p) := take_stats_columns p in let '(r, p) := take_proc_stats p in ((c, r), p).

Definition has_rows (p : parser) : bool :=
  negb (stats_payload_row_count (ps_cols p) =? 0)%nat || match dict_items (ps_procs p) with [] => false | _ => true end.

(** One line of a batch: flush before a new sample when the window is full, then feed. *)
Definition window_line (start_idx : nat) (excluded : list string) (limit : flush_limit) (batch_end : Z) (line : string)
    (w : window_state) : result (list chunk * window_state) :=
  let p := ws_parser w in
  let '(out, p, pending, start) :=
    if line_starts_time_sample line (ps_line_index p) start_idx && (ws_pending w || over_limit limit batch_end (ws_start w) p)
    then if has_rows p then let '(c, p) := take_chunk p in ([c], p, false, batch_end) else ([], p, false, ws_start w)
    else ([], p, ws_pending w, ws_start w) in
  p ← feed_line start_idx excluded line p;
  Ok (out, WindowState p (pending || over_limit limit batch_end start p) start).

Fixpoint window_lines (start_idx : nat) (excluded : list string) (limit : flush_limit) (batch_end : Z) (lines : list string)
    (w : window_state) : result (list chunk * window_state) :=
  match lines with
  | [] => Ok ([], w)
  | line :: lines =>
      '(out, w) ← window_line start_idx excluded limit batch_end line w;
      '(outs, w) ← window_lines start_idx excluded limit batch_end lines w;
      Ok (out ++ outs, w)
  end.

(** The chunks and the marks a run hands out.  A batch is its lines and where the file
    stands after it. *)
Record emitted := Emitted { em_chunks : list chunk; em_marks : list mark }.

Fixpoint window_batches (start_idx : nat) (excluded : list string) (limit : flush_limit) (batches : list (list string * Z))
    (w : window_state) : result (emitted * window_state) :=
  match batches with
  | [] => Ok (Emitted [] [], w)
  | (lines, batch_end) :: batches =>
      '(out, w) ← window_lines start_idx excluded limit batch_end lines w;
      let '(marks, p) := take_ready_marks (ws_parser w) in
      '(rest, w) ← window_batches start_idx excluded limit batches (WindowState p (ws_pending w) (ws_start w));
      Ok (Emitted (out ++ em_chunks rest) (marks ++ em_marks rest), w)
  end.

Definition parse_stats_file_streaming_incremental (start_idx : nat) (excluded : list string) (limit : flush_limit)
    (batches : list (list string * Z)) : result emitted :=
  '(em, w) ← window_batches start_idx excluded limit batches (WindowState new_parser false 0);
  let p := ws_parser w in
  if has_rows p then
    let '(c, p) := take_chunk p in
    Ok (Emitted (em_chunks em ++ [c]) (em_marks em ++ (take_ready_marks p).1))
  else Ok em.

End parser.
