(* ===== verification/StatsRows.v ===== *)
(** The rows a parse collects: merging process rows is associative and commutes across
    keys, so rows merged apart and then together are the rows merged one by one; the
    columns of counter rows are a table, whatever is appended. *)
From S2P Require Import Prelude PyDict PyStr Json StatsSchema StatsParser.
From Stdlib Require Import Ascii.
Local Open Scope Z_scope.

(** ** Merging process rows *)

Definition merge_fields (a b : dict string (option Z)) : dict string (option Z) := foldl merge_field a (dict_items b).

#[local] Arguments merge_field : simpl never.

Lemma merge_field_shape acc kv : exists v, merge_field acc kv = <[kv.1 := v]> acc.
Proof. destruct kv as [k v]. unfold merge_field. case_decide; eauto. Qed.

(** The value a merge leaves. *)
Lemma merge_field_value acc k v :
  merge_field acc (k, v) = <[k := if decide (k ∈ HOST_PROC_PEAK_KEYS) then nullable_int_max (mjoin (acc !! k)) v else v]> acc.
Proof. unfold merge_field. by case_decide. Qed.

Lemma merge_fields_lookup a b k :
  dict_wf b ->
  merge_fields a b !! k =
    match b !! k with
    | None => a !! k
    | Some v => Some (if decide (k ∈ HOST_PROC_PEAK_KEYS) then nullable_int_max (mjoin (a !! k)) v else v)
    end.
Proof.
  destruct b as [l]. unfold merge_fields, dict_wf, dict_keys. change (Dict l !! k) with (assoc_get k l). simpl. intros Hl. revert a.
  induction l as [|[k0 v0] l IH]; intros a; simpl; [done|].
  apply NoDup_cons in Hl as [Hn Hl]. rewrite IH by done. rewrite merge_field_value, dict_lookup_insert.
  destruct (decide (k = k0)) as [->|]; [|by rewrite decide_False by congruence].
  rewrite decide_True by done. destruct (assoc_get k0 l) eqn:E; [|done].
  exfalso. apply Hn. apply (dict_lookup_elem (Dict l)) in E. apply list_elem_of_fmap. by exists (k0, o).
Qed.

Lemma dict_keys_insert {V} (d : dict string V) k v :
  dict_keys (<[k := v]> d) = if decide (k ∈ dict_keys d) then dict_keys d else dict_keys d ++ [k].
Proof.
  case_decide as E; [by apply dict_keys_insert_Some, dict_keys_lookup|]. apply dict_keys_insert_None.
  destruct (d !! k) eqn:E'; [|done]. exfalso. apply E, dict_keys_lookup. eauto.
Qed.

(** The keys, in order: those of [a], then the new ones of [b]. *)
Lemma merge_fields_keys a b :
  dict_wf b -> dict_keys (merge_fields a b) = dict_keys a ++ filter (fun k => k ∉ dict_keys a) (dict_keys b).
Proof.
  destruct b as [l]. unfold merge_fields. change (dict_keys (Dict l)) with l.*1. change (dict_wf (Dict l)) with (NoDup l.*1). simpl.
  revert a. induction l as [|[k v] l IH]; intros a Hl; [by rewrite app_nil_r|].
  rewrite fmap_cons in Hl |- *. apply NoDup_cons in Hl as [Hn Hl]. simpl foldl. rewrite IH by done.
  rewrite filter_cons. simpl. destruct (merge_field_shape a (k, v)) as [w ->]. simpl. rewrite dict_keys_insert.
  destruct (decide (k ∈ dict_keys a)) as [E|E]; [by rewrite (decide_False (P := ~ _)) by tauto|].
  rewrite (decide_True (P := ~ _)) by done. rewrite <- app_assoc. simpl. do 2 f_equal.
  apply filter_ext_elem. intros x Hx. assert (x <> k) by (intros ->; done). set_solver.
Qed.

Lemma merge_fields_wf a b : dict_wf a -> dict_wf b -> dict_wf (merge_fields a b).
Proof.
  intros Ha Hb. unfold dict_wf. rewrite merge_fields_keys by done. apply NoDup_app. split_and!; [done| |by apply NoDup_filter].
  intros x Hx Hf. apply list_elem_of_filter in Hf as [Hf _]. done.
Qed.

Lemma nullable_int_max_assoc a b c : nullable_int_max a (nullable_int_max b c) = nullable_int_max (nullable_int_max a b) c.
Proof. destruct a, b, c; simpl; try done. f_equal. lia. Qed.

Lemma merge_fields_assoc a b c :
  dict_wf a -> dict_wf b -> dict_wf c -> merge_fields a (merge_fields b c) = merge_fields (merge_fields a b) c.
Proof.
  intros Ha Hb Hc. pose proof (merge_fields_wf b c Hb Hc) as Hbc. apply dict_ext; [by apply merge_fields_wf| |].
  - rewrite !merge_fields_keys by done. rewrite filter_app, <- app_assoc. do 2 f_equal.
    rewrite list_filter_filter. apply filter_ext_elem. intros k _. rewrite elem_of_app, list_elem_of_filter.
    destruct (decide (k ∈ dict_keys a)); tauto.
  - intros k _. rewrite !merge_fields_lookup by done. destruct (c !! k) as [v|]; [|done].
    destruct (b !! k) as [w|]; simpl; case_decide; try done; by rewrite nullable_int_max_assoc.
Qed.

(** ** One row per key *)

Definition row_wf (r : proc_row) : Prop := dict_wf (pr_fields r).
Definition keyed (d : dict proc_key proc_row) : Prop :=
  dict_wf d /\ forall k r, d !! k = Some r -> key_of r = k /\ row_wf r.

Lemma merge_proc_row_dicts_key a b : key_of (merge_proc_row_dicts a b) = key_of b.
Proof. done. Qed.

Lemma merge_proc_row_dicts_wf a b : row_wf a -> row_wf b -> row_wf (merge_proc_row_dicts a b).
Proof. apply merge_fields_wf. Qed.

Lemma merge_proc_row_dicts_assoc a b c :
  row_wf a -> row_wf b -> row_wf c ->
  merge_proc_row_dicts a (merge_proc_row_dicts b c) = merge_proc_row_dicts (merge_proc_row_dicts a b) c.
Proof. intros. unfold merge_proc_row_dicts at 1 3. simpl. f_equal. by apply merge_fields_assoc. Qed.

(** The merge is an insertion of what the key has and the row. *)
Definition merged (d : dict proc_key proc_row) (r : proc_row) : proc_row :=
  match d !! key_of r with None => r | Some existing => merge_proc_row_dicts existing r end.

Lemma merge_proc_row_online_insert d r : merge_proc_row_online d r = <[key_of r := merged d r]> d.
Proof. unfold merge_proc_row_online, merged. by case_match. Qed.

Lemma keyed_empty : keyed ∅.
Proof. split; [apply dict_wf_empty|done]. Qed.

Lemma merge_proc_row_online_keyed d r : keyed d -> row_wf r -> keyed (merge_proc_row_online d r).
Proof.
  intros [Hd Hk] Hr. rewrite merge_proc_row_online_insert. split; [by apply dict_wf_insert|]. intros k s.
  rewrite dict_lookup_insert. case_decide; [|by apply Hk]. intros [= <-]. subst k. unfold merged.
  destruct (d !! key_of r) eqn:E; [|done]. split; [done|]. apply merge_proc_row_dicts_wf; [by apply (Hk _ _ E)|done].
Qed.

Lemma merge_rows_keyed rows d : keyed d -> Forall row_wf rows -> keyed (foldl merge_proc_row_online d rows).
Proof. intros Hd Hr. revert d Hd. induction Hr; intros d Hd; simpl; [done|]. by apply IHHr, merge_proc_row_online_keyed. Qed.

Lemma merge_proc_row_online_comm d r s :
  key_of r <> key_of s -> is_Some (d !! key_of r) ->
  merge_proc_row_online (merge_proc_row_online d s) r = merge_proc_row_online (merge_proc_row_online d r) s.
Proof.
  intros Hne Hr. rewrite !merge_proc_row_online_insert. unfold merged.
  rewrite !dict_lookup_insert_ne by congruence. by rewrite dict_insert_comm.
Qed.

Lemma merge_rows_comm rows d r :
  Forall (fun s => key_of s <> key_of r) rows -> is_Some (d !! key_of r) ->
  foldl merge_proc_row_online (merge_proc_row_online d r) rows = merge_proc_row_online (foldl merge_proc_row_online d rows) r.
Proof.
  intros Hrows. revert d. induction Hrows as [|s rows Hs Hrows IH]; intros d Hd; simpl; [done|].
  rewrite <- merge_proc_row_online_comm by done. apply IH. rewrite merge_proc_row_online_insert, dict_lookup_insert_ne by done. done.
Qed.

(** Merging a row in place is merging both in turn. *)
Lemma merge_proc_row_online_twice d x r :
  keyed d -> row_wf x -> row_wf r -> key_of x = key_of r ->
  merge_proc_row_online d (merge_proc_row_dicts x r) = merge_proc_row_online (merge_proc_row_online d x) r.
Proof.
  intros [Hd Hk] Hx Hr E. rewrite !merge_proc_row_online_insert. unfold merged. rewrite merge_proc_row_dicts_key, E.
  rewrite dict_lookup_insert_eq, dict_insert_insert. f_equal. destruct (d !! key_of r) as [y|] eqn:Ey; [|done].
  apply merge_proc_row_dicts_assoc; [by apply (Hk _ _ Ey)|done|done].
Qed.

Lemma dict_values_split (d : dict proc_key proc_row) k x y :
  dict_wf d -> d !! k = Some x ->
  exists l l', dict_items d = l ++ (k, x) :: l' /\ dict_items (<[k := y]> d) = l ++ (k, y) :: l' /\ k ∉ l'.*1.
Proof.
  destruct d as [l]. unfold dict_wf, dict_keys. intros Hl Hk. change (assoc_get k l = Some x) in Hk. simpl in Hl.
  change (exists l0 l', l = l0 ++ (k, x) :: l' /\ assoc_set k y l = l0 ++ (k, y) :: l' /\ k ∉ l'.*1).
  induction l as [|[k0 v0] l IH]; [done|]. rewrite fmap_cons in Hl. apply NoDup_cons in Hl as [Hn Hl]. simpl in Hk |- *.
  destruct (decide (k = k0)) as [<-|]; [simplify_eq; by exists [], l|].
  destruct (IH Hl Hk) as (l1 & l2 & -> & -> & ?). by exists ((k0, v0) :: l1), l2.
Qed.

Lemma keyed_values d r : keyed d -> r ∈ dict_values d -> row_wf r.
Proof. intros [Hd Hk] Hr. apply elem_values in Hr as [k E]; [|done]. by apply (Hk _ _ E). Qed.

Lemma keyed_keys d : keyed d -> key_of <$> dict_values d = dict_keys d.
Proof.
  intros [Hd Hk]. unfold dict_values, dict_keys. rewrite <- list_fmap_compose. apply list_fmap_ext. intros i [k r] Hl%list_elem_of_lookup_2.
  apply dict_elem_lookup in Hl; [|done]. by apply Hk in Hl as [].
Qed.

(** Rows collected apart and merged in are the rows merged one by one. *)
Lemma merge_rows_apart rows d :
  keyed d -> Forall row_wf rows ->
  foldl merge_proc_row_online d (dict_values (foldl merge_proc_row_online ∅ rows)) = foldl merge_proc_row_online d rows.
Proof.
  intros Hd. induction rows as [|r rows IH] using rev_ind; intros Hrows; [done|].
  apply Forall_app in Hrows as [Hrows [Hr _]%Forall_cons]. rewrite !foldl_app. simpl. rewrite <- IH by done.
  pose proof (merge_rows_keyed rows ∅ keyed_empty Hrows) as He. set (e := foldl merge_proc_row_online ∅ rows) in *.
  rewrite (merge_proc_row_online_insert e). unfold merged. destruct (e !! key_of r) as [x|] eqn:Ex.
  - destruct (dict_values_split e (key_of r) x (merge_proc_row_dicts x r) (proj1 He) Ex) as (l & l' & E & E' & Hn).
    unfold dict_values. rewrite E, E', !fmap_app, !foldl_app. simpl.
    assert (Hel : forall q, q ∈ dict_values e -> row_wf q) by (intros q; by apply keyed_values).
    unfold dict_values in Hel. rewrite E, fmap_app in Hel.
    assert (keyed (foldl merge_proc_row_online d l.*2)) as Hl.
    { apply merge_rows_keyed; [done|]. apply Forall_forall. intros q Hq. apply Hel. set_solver. }
    destruct (proj2 He _ _ Ex) as [Kx Wx]. rewrite merge_proc_row_online_twice by done. apply merge_rows_comm.
    + apply Forall_forall. intros q ([k q'] & -> & Hq)%list_elem_of_fmap Hk.
      assert (e !! k = Some q') as Eq by (apply dict_elem_lookup; [apply He|rewrite E; set_solver]).
      apply (proj2 He) in Eq as [Kq _]. apply Hn, list_elem_of_fmap. exists (k, q'). simpl in *. split; congruence.
    + rewrite merge_proc_row_online_insert, Kx. rewrite dict_lookup_insert_eq. done.
  - unfold dict_values. rewrite dict_items_insert_None by done. rewrite fmap_app, foldl_app. done.
Qed.

Lemma values_rows d : keyed d -> foldl merge_proc_row_online ∅ (dict_values d) = d.
Proof.
  intros [Hd Hk]. destruct d as [l]. change (dict_values (Dict l)) with l.*2.
  induction l as [|[k r] l IH] using rev_ind; [done|]. change (NoDup (l ++ [(k, r)]).*1) in Hd.
  rewrite fmap_app in Hd. rewrite fmap_app. apply NoDup_app in Hd as (Hl & Hn & _).
  assert (Hlk : forall k' r', (k', r') ∈ l ++ [(k, r)] -> key_of r' = k' /\ row_wf r').
  { intros k' r' Hin. apply Hk. apply dict_elem_lookup; [|done]. unfold dict_wf, dict_keys. simpl. rewrite fmap_app.
    apply NoDup_app. split_and!; [done|done|apply NoDup_singleton]. }
  rewrite foldl_app. rewrite IH; [|done|].
  - simpl. destruct (Hlk k r ltac:(set_solver)) as [<- _].
    assert (E : (Dict l : dict proc_key proc_row) !! key_of r = None).
    { destruct (Dict l !! key_of r) as [r'|] eqn:E; [|done]. exfalso. apply dict_lookup_elem in E. apply (Hn (key_of r)); [|set_solver].
      apply list_elem_of_fmap. by exists (key_of r, r'). }
    rewrite merge_proc_row_online_insert. unfold merged. rewrite E. unfold insert, dict_insert. f_equal.
    pose proof (dict_items_insert_None (Dict l) (key_of r) r E) as Hi. exact Hi.
  - intros k' r' Hin%dict_lookup_elem. apply Hlk. set_solver.
Qed.

(** A further row is merged the same in both. *)
Lemma merge_values_snoc e d r :
  keyed e -> keyed d -> row_wf r ->
  foldl merge_proc_row_online e (dict_values (merge_proc_row_online d r)) =
    merge_proc_row_online (foldl merge_proc_row_online e (dict_values d)) r.
Proof.
  intros He Hd Hr. rewrite <- (values_rows d Hd) at 1.
  pose proof (merge_rows_apart (dict_values d ++ [r]) e He) as E. rewrite !foldl_app in E. apply E.
  apply Forall_app. split; [|by apply Forall_singleton]. apply Forall_forall. intros q. by apply keyed_values.
Qed.

(** ** Columns *)

Definition cols_app (c c' : columns) : columns :=
  Columns (co_time c ++ co_time c') (co_host c ++ co_host c') (co_jid c ++ co_jid c') (co_type c ++ co_type c')
    (co_dev c ++ co_dev c') (co_event c ++ co_event c') (co_value c ++ co_value c') (co_wid c ++ co_wid c')
    (co_mult c ++ co_mult c') (co_unit c ++ co_unit c').

(** All ten columns have one length. *)
Record square (c : columns) : Prop := Square {
  sq_host : length (co_host c) = length (co_time c);
  sq_jid : length (co_jid c) = length (co_time c);
  sq_type : length (co_type c) = length (co_time c);
  sq_dev : length (co_dev c) = length (co_time c);
  sq_event : length (co_event c) = length (co_time c);
  sq_value : length (co_value c) = length (co_time c);
  sq_wid : length (co_wid c) = length (co_time c);
  sq_mult : length (co_mult c) = length (co_time c);
  sq_unit : length (co_unit c) = length (co_time c);
}.

(** The columns of rows: every square payload is one. *)
Definition columns_of_rows (rows : list stat_row) : columns :=
  Columns (sr_time <$> rows) (sr_host <$> rows) (sr_jid <$> rows) (sr_type <$> rows) (sr_dev <$> rows) (sr_event <$> rows)
    (sr_value <$> rows) (sr_wid <$> rows) (sr_mult <$> rows) (sr_unit <$> rows).

Lemma cols_app_assoc a b c : cols_app a (cols_app b c) = cols_app (cols_app a b) c.
Proof. unfold cols_app. simpl. f_equal; apply app_assoc. Qed.

Lemma cols_app_empty c : cols_app c empty_stats_columns = c.
Proof. destruct c. unfold cols_app. simpl. by rewrite !app_nil_r. Qed.

Lemma empty_square : square empty_stats_columns.
Proof. by split. Qed.

Lemma square_app c c' : square c -> square c' -> square (cols_app c c').
Proof. intros [] []. split; simpl; rewrite !length_app; lia. Qed.

Lemma columns_of_records c : square c -> columns_of_rows (stats_payload_to_records c) = c.
Proof.
  destruct c as [ts hs js tys ds es vs ws ms us]. unfold stats_payload_to_records. intros []; simpl in *.
  revert hs js tys ds es vs ws ms us sq_host0 sq_jid0 sq_type0 sq_dev0 sq_event0 sq_value0 sq_wid0 sq_mult0 sq_unit0.
  induction ts as [|t ts IH]; intros [|h hs] [|j js] [|ty tys] [|d ds] [|e es] [|v vs] [|w ws] [|m ms] [|u us] **; try discriminate;
    [done|]. simplify_eq/=. specialize (IH hs js tys ds es vs ws ms us).
  do 9 (specialize (IH ltac:(lia))). unfold columns_of_rows in *.
  injection IH as ? ? ? ? ? ? ? ? ? ?. rewrite !fmap_cons. simpl. f_equal; by f_equal.
Qed.

Lemma records_of_rows rows : stats_payload_to_records (columns_of_rows rows) = rows.
Proof. unfold stats_payload_to_records. induction rows as [|[] rows IH]; [done|]. simpl. f_equal. exact IH. Qed.

Lemma square_of_rows rows : square (columns_of_rows rows).
Proof. split; simpl; by rewrite !length_fmap. Qed.

Lemma columns_of_rows_app rows rows' : columns_of_rows (rows ++ rows') = cols_app (columns_of_rows rows) (columns_of_rows rows').
Proof. unfold columns_of_rows, cols_app. simpl. by rewrite !fmap_app. Qed.

Lemma records_app c c' :
  square c -> square c' ->
  stats_payload_to_records (cols_app c c') = stats_payload_to_records c ++ stats_payload_to_records c'.
Proof.
  intros Hc Hc'. rewrite <- (columns_of_records c Hc), <- (columns_of_records c' Hc') at 1.
  by rewrite <- columns_of_rows_app, records_of_rows.
Qed.

Lemma record_fields c r :
  square c -> r ∈ stats_payload_to_records c -> sr_time r ∈ co_time c /\ sr_host r ∈ co_host c /\ sr_jid r ∈ co_jid c.
Proof.
  intros Hc. rewrite <- (columns_of_records c Hc), records_of_rows. generalize (stats_payload_to_records c). intros rows Hr. simpl.
  split_and!; by apply list_elem_of_fmap_2.
Qed.

Section appends.
Context (py_float : string -> option pyfloat).
Abbreviation append_stats := (append_compiled_stats_columns py_float).
Abbreviation append_vals := (append_vals_dict_columns py_float).

(** What a line appends. *)
Definition line_columns (time : pyfloat) (host jid typ dev : string) (compiled : list compiled_key) (vals : list string) : columns :=
  append_stats empty_stats_columns time host jid typ dev compiled vals.

Lemma append_stats_app c time host jid typ dev compiled vals :
  append_stats c time host jid typ dev compiled vals = cols_app c (line_columns time host jid typ dev compiled vals).
Proof.
  unfold line_columns, append_compiled_stats_columns. destruct (negb _); [by rewrite cols_app_empty|].
  by destruct (mapM py_float vals); [|rewrite cols_app_empty].
Qed.

Lemma line_columns_square time host jid typ dev compiled vals : square (line_columns time host jid typ dev compiled vals).
Proof.
  unfold line_columns, append_compiled_stats_columns. destruct (length vals =? length compiled)%nat eqn:E; simpl; [|apply empty_square].
  apply Nat.eqb_eq in E. destruct (mapM py_float vals) as [values|] eqn:Ev; [|apply empty_square].
  apply length_mapM in Ev. split; simpl; rewrite ?length_replicate, ?length_fmap; lia.
Qed.

Lemma line_columns_time time host jid typ dev compiled vals t :
  t ∈ co_time (line_columns time host jid typ dev compiled vals) -> t = time.
Proof.
  unfold line_columns, append_compiled_stats_columns. destruct (negb _); [by intros ?%elem_of_nil|].
  destruct (mapM py_float vals) as [values|]; [|by intros ?%elem_of_nil]. simpl. by intros [? _]%elem_of_replicate.
Qed.

Lemma line_columns_rows time host jid typ dev compiled vals r :
  r ∈ stats_payload_to_records (line_columns time host jid typ dev compiled vals) -> sr_time r = time /\ sr_host r = host /\ sr_jid r = jid.
Proof.
  intros Hr. apply record_fields in Hr; [|apply line_columns_square]. revert Hr.
  unfold line_columns, append_compiled_stats_columns. destruct (negb _); [by intros (?%elem_of_nil & _)|].
  destruct (mapM py_float vals) as [values|]; [|by intros (?%elem_of_nil & _)]. simpl. rewrite !elem_of_replicate. tauto.
Qed.

Definition dict_columns (time : pyfloat) (host jid typ dev : string) (d : dict string string) : columns :=
  append_vals empty_stats_columns time host jid typ dev d.

Lemma append_vals_app c time host jid typ dev d :
  append_vals c time host jid typ dev d = cols_app c (dict_columns time host jid typ dev d).
Proof.
  unfold dict_columns, append_vals_dict_columns. destruct (dict_items d); [by rewrite cols_app_empty|]. apply append_stats_app.
Qed.

Lemma dict_columns_line time host jid typ dev d :
  exists compiled vals, dict_columns time host jid typ dev d = line_columns time host jid typ dev compiled vals.
Proof.
  unfold dict_columns, append_vals_dict_columns. destruct (dict_items d); [by exists [], []|]. eauto.
Qed.
End appends.
