(* ===== verification/StatsParserSpec.v ===== *)
(** What the parser of raw statistics files promises: a file parsed in windows gives the
    rows of the whole file, the columns stay square, a resumed parse emits the rows from
    its first sample on; and the lines on which it raises. *)
From S2P Require Import Prelude PyDict PyStr Json StatsSchema StatsParser StatsRows.
From Stdlib Require Import Ascii.
Local Open Scope Z_scope.

#[local] Arguments merge_proc_row_online : simpl never.

(** ** The invariant *)

Definition mark_unbound (pending : list nat) (m : mark) : Prop := mk_time m = None /\ mk_id m ∈ pending.

Definition times_ok (c : columns) : Prop := forall t, t ∈ co_time c -> sample_time_ok t = true.

(** Before the first sample nothing is bound, after it everything is. *)
Record parser_wf (p : parser) : Prop := ParserWf {
  pw_square : square (ps_cols p);
  pw_times : times_ok (ps_cols p);
  pw_keyed : keyed (ps_procs p);
  pw_insert : ps_insert p = true -> is_Some (ps_tags p);
  pw_tags : match ps_tags p with
            | Some t => sample_time_ok (lc_time t) = true /\ lc_host t <> EmptyString /\ Forall (fun m => mark_ready m = true) (ps_marks p)
            | None => Forall (mark_unbound (ps_pending p)) (ps_marks p)
            end;
}.

Lemma new_parser_wf : parser_wf new_parser.
Proof. split; simpl; [apply empty_square|by intros t ?%elem_of_nil|apply keyed_empty|done|done]. Qed.

Section parser_spec.
Context (py_float : string -> option pyfloat).
Implicit Types (p : parser) (c : columns).

Lemma wf_add_columns p c : parser_wf p -> square c -> times_ok c -> parser_wf (with_cols (cols_app (ps_cols p) c) p).
Proof. intros [] Hc Ht. split; simpl; auto using square_app. intros t [|]%elem_of_app; auto. Qed.

Lemma wf_line_columns p tags jid typ dev compiled vals :
  parser_wf p -> ps_tags p = Some tags ->
  parser_wf (with_cols (cols_app (ps_cols p) (line_columns py_float (lc_time tags) (lc_host tags) jid typ dev compiled vals)) p).
Proof.
  intros Hp E. pose proof (pw_tags _ Hp) as Ht. rewrite E in Ht. apply wf_add_columns; [done|apply line_columns_square|].
  intros t ->%line_columns_time. tauto.
Qed.

Lemma proc_fields_wf bare vals fields fields' :
  dict_wf fields -> proc_fields py_float bare vals fields = Ok fields' -> dict_wf fields'.
Proof.
  revert vals fields. induction bare as [|b bare IH]; intros [|v vals] fields Hf; simpl; try by intros [= <-].
  case_decide; [|by apply IH]. destruct (proc_value py_float v); [|done]. apply IH. by apply dict_wf_insert.
Qed.

Lemma proc_bare_keys_wf typ keys fast p : parser_wf p -> parser_wf (proc_bare_keys_for typ keys fast p).2.
Proof. intros Hp. unfold proc_bare_keys_for. destruct fast; case_match; destruct Hp; by split. Qed.

Lemma feed_proc_line_wf typ dev vals p p' : parser_wf p -> feed_proc_line py_float typ dev vals p = Ok p' -> parser_wf p'.
Proof.
  intros Hp. unfold feed_proc_line. destruct (take_tier vals) as [tier vals'].
  match goal with |- context [proc_bare_keys_for ?a ?b ?c ?d] => pose proof (proc_bare_keys_wf a b c d Hp) as Hq; destruct (proc_bare_keys_for a b c d) as [bare q] end.
  destruct (ps_tags q) as [tags|] eqn:E; [|done]. intros (fields & Hf & [= <-])%result_bind_ok. destruct Hq. split; simpl; auto.
  apply merge_proc_row_online_keyed; [done|]. eapply proc_fields_wf, Hf. apply dict_wf_empty.
Qed.

Lemma feed_stats_line_wf typ dev vals p p' : parser_wf p -> feed_stats_line py_float typ dev vals p = Ok p' -> parser_wf p'.
Proof.
  intros Hp. unfold feed_stats_line. destruct (ps_schema p !! typ) as [events|]; [|by intros [= <-]].
  destruct (take_tier vals) as [tier vals']. case_match; [by intros [= <-]|].
  destruct (ps_tags p) as [tags|] eqn:E; [|by intros [= <-]]. case_match.
  - intros (d & _ & Hd)%result_bind_ok. destruct d as [d|]; [|by injection Hd as <-]. injection Hd as <-.
    rewrite append_vals_app. match goal with |- context [dict_columns ?f ?a ?b ?c ?d ?e ?g] => destruct (dict_columns_line f a b c d e g) as (compiled & vs & ->) end.
    by apply wf_line_columns.
  - intros [= <-]. rewrite append_stats_app. by apply wf_line_columns.
Qed.

Lemma wf_with_shared p a sh : parser_wf p -> parser_wf (with_marks a sh (ps_marks p) (ps_pending p) (ps_next p) p).
Proof. intros []. by split. Qed.

Lemma queue_mark_wf kind p : parser_wf p -> parser_wf (queue_mark kind p).
Proof.
  intros [Hs Ht Hk Hi Hg]. unfold queue_mark. destruct (ps_tags p) as [tags|] eqn:E; split; simpl; auto; rewrite E; auto.
  - destruct Hg as (? & Hh & ?). split_and!; [done|done|]. apply Forall_app. split; [done|]. apply Forall_singleton.
    unfold mark_ready. simpl. by rewrite bool_decide_false.
  - apply Forall_app. split; [|apply Forall_singleton; split; simpl; [done|set_solver]].
    eapply Forall_impl; [exact Hg|]. intros m [? ?]. split; [done|set_solver].
Qed.

Lemma note_percent_mark_wf line p : parser_wf p -> parser_wf (note_percent_mark line p).
Proof.
  intros Hp. unfold note_percent_mark. repeat case_match; auto using queue_mark_wf, wf_with_shared.
Qed.

Lemma words_from_nonempty word s : Forall (fun w => w <> EmptyString) (words_from word s).
Proof.
  assert (forall w, w <> EmptyString -> forall acc, str_reverse_onto w acc <> EmptyString) as Hr.
  { intros w Hw. destruct w as [|a w]; [done|]. clear Hw. intros acc. revert a acc. induction w as [|b w IH]; intros a acc; simpl; [done|].
    apply (IH b (String a acc)). }
  revert word. induction s as [|a s IH]; intros word; simpl.
  - destruct (String.eqb_spec word ""); [done|]. apply Forall_singleton. by apply Hr.
  - destruct (is_space a); [|apply IH]. destruct (String.eqb_spec word ""); [apply IH|]. apply Forall_cons. auto.
Qed.

Lemma digit_line_identity_host s t jid host : digit_line_identity s = Some (t, jid, host) -> host <> EmptyString.
Proof.
  unfold digit_line_identity. pose proof (words_from_nonempty EmptyString s) as Hw. fold (py_words s) in Hw.
  destruct (py_words s) as [|x [|y [|z l]]]; try done. intros [= <- <- <-]. by do 3 (apply Forall_cons in Hw as [? Hw]).
Qed.

(** Every mark is bound, to this header at the latest. *)
Lemma bind_marks_ready p when host :
  parser_wf p -> host <> EmptyString ->
  Forall (fun m => mark_ready m = true) (bind_mark (ps_pending p) when host <$> ps_marks p).
Proof.
  intros [_ _ _ _ Hg] Hh. apply Forall_fmap. destruct (ps_tags p) as [tags|].
  - destruct Hg as (_ & _ & Hg). eapply Forall_impl; [exact Hg|]. intros m Hm. simpl. unfold bind_mark.
    case_decide as E; [|done]. unfold mark_ready in Hm. by rewrite (proj2 E) in Hm.
  - eapply Forall_impl; [exact Hg|]. intros m [? ?]. simpl. unfold bind_mark. rewrite decide_True by done.
    unfold mark_ready. simpl. by rewrite bool_decide_false.
Qed.

Lemma feed_header_wf s p : parser_wf p -> parser_wf (feed_header py_float s p).
Proof.
  intros Hp. unfold feed_header. destruct (digit_line_identity s) as [[[t jid] host]|] eqn:E; [|done].
  apply digit_line_identity_host in E.
  assert (parser_wf (with_sample false (ps_tags p) p)) as Hbad by (destruct Hp; by split).
  destruct (py_float t) as [f|]; [|done]. destruct (sample_time_ok f) eqn:Ef; [|done].
  pose proof (bind_marks_ready p f host Hp E). destruct Hp. split; simpl; eauto.
Qed.

Lemma feed_line_wf start excluded line p p' : parser_wf p -> feed_line py_float start excluded line p = Ok p' -> parser_wf p'.
Proof.
  intros Hp. unfold feed_line. assert (parser_wf (with_line_index (S (ps_line_index p)) p)) as Hq by (destruct Hp; by split).
  set (q := with_line_index _ p) in *. clearbody q. repeat case_match; try (by intros [= <-]);
    eauto using feed_proc_line_wf, feed_stats_line_wf.
  - intros [= <-]. by apply feed_header_wf.
  - unfold feed_schema_line. destruct (py_words _) as [|? [|? ?]]; [done|done|]. intros [= <-]. destruct Hq. by split.
  - intros [= <-]. by apply note_percent_mark_wf.
Qed.

Lemma feed_lines_wf start excluded lines p p' : parser_wf p -> feed_lines py_float start excluded lines p = Ok p' -> parser_wf p'.
Proof.
  revert p. induction lines as [|line lines IH]; intros p Hp; simpl; [by intros [= <-]|].
  intros (q & Hq & E)%result_bind_ok. eapply IH; [|exact E]. by eapply feed_line_wf.
Qed.

Lemma take_chunk_wf p : parser_wf p -> parser_wf (take_chunk p).2.
Proof. intros []. split; simpl; auto using empty_square, keyed_empty. by intros t ?%elem_of_nil. Qed.

(** ** Windows *)

(** The parser that still has what [p] has handed out: columns, process rows, marks. *)
Definition extend (c : columns) (d : dict proc_key proc_row) (marks : list mark) (p : parser) : parser :=
  with_marks (ps_arm_shared p) (ps_sample_shared p) (marks ++ ps_marks p) (ps_pending p) (ps_next p)
    (with_procs (foldl merge_proc_row_online d (dict_values (ps_procs p))) (with_cols (cols_app c (ps_cols p)) p)).

Section extend.
Context (c : columns) (d : dict proc_key proc_row) (marks : list mark).
Context (Hd : keyed d) (Hmarks : Forall (fun m => mark_ready m = true) marks).
Abbreviation ext := (extend c d marks).

Lemma extend_cols c' p : ext (with_cols (cols_app (ps_cols p) c') p) = with_cols (cols_app (ps_cols (ext p)) c') (ext p).
Proof. unfold extend, with_cols. simpl. by rewrite cols_app_assoc. Qed.

Lemma extend_proc_bare_keys typ keys fast p :
  proc_bare_keys_for typ keys fast (ext p) = ((proc_bare_keys_for typ keys fast p).1, ext (proc_bare_keys_for typ keys fast p).2).
Proof. unfold proc_bare_keys_for. simpl. destruct fast; by case_match. Qed.

Lemma extend_proc_row r p :
  keyed (ps_procs p) -> row_wf r ->
  ext (with_procs (merge_proc_row_online (ps_procs p) r) p) = with_procs (merge_proc_row_online (ps_procs (ext p)) r) (ext p).
Proof. intros Hp Hr. unfold extend, with_procs. simpl. by rewrite merge_values_snoc. Qed.

Lemma feed_proc_line_extend typ dev vals p :
  parser_wf p -> feed_proc_line py_float typ dev vals (ext p) = ext <$> feed_proc_line py_float typ dev vals p.
Proof.
  intros Hp. unfold feed_proc_line. destruct (take_tier vals) as [tier vals']. rewrite extend_proc_bare_keys. simpl.
  match goal with |- context [proc_bare_keys_for ?a ?b ?c ?d] => pose proof (proc_bare_keys_wf a b c d Hp) as Hq; destruct (proc_bare_keys_for a b c d) as [bare q] end.
  simpl in *. destruct (ps_tags q) as [tags|]; [|done]. rewrite result_fmap_bind. apply result_bind_ext. intros fields Hf. simpl. f_equal.
  symmetry. apply (extend_proc_row (ProcRow _ _ _ _ _ _) q); [apply Hq|]. eapply proc_fields_wf, Hf. apply dict_wf_empty.
Qed.

Lemma feed_stats_line_extend typ dev vals p :
  feed_stats_line py_float typ dev vals (ext p) = ext <$> feed_stats_line py_float typ dev vals p.
Proof.
  unfold feed_stats_line. simpl. destruct (ps_schema p !! typ) as [events|]; [|done].
  destruct (take_tier vals) as [tier vals']. case_match; [done|]. destruct (ps_tags p) as [tags|]; [|done]. case_match.
  - rewrite result_fmap_bind. apply result_bind_ext. intros [dec|] _; [|done]. simpl. f_equal.
    rewrite (append_vals_app py_float (ps_cols p)), extend_cols. by rewrite append_vals_app.
  - simpl. f_equal. rewrite (append_stats_app py_float (ps_cols p)), extend_cols. by rewrite append_stats_app.
Qed.

Lemma queue_mark_extend kind p : queue_mark kind (ext p) = ext (queue_mark kind p).
Proof.
  unfold queue_mark. simpl. destruct (ps_tags p); unfold extend, with_marks; simpl; by rewrite app_assoc.
Qed.

Lemma note_percent_mark_extend line p : note_percent_mark line (ext p) = ext (note_percent_mark line p).
Proof. unfold note_percent_mark. repeat case_match; try done; rewrite <- queue_mark_extend; done. Qed.

Lemma feed_header_extend s p : feed_header py_float s (ext p) = ext (feed_header py_float s p).
Proof.
  unfold feed_header. destruct (digit_line_identity s) as [[[t jid] host]|]; [|done]. destruct (py_float t) as [f|]; [|done].
  destruct (sample_time_ok f); [|done]. unfold bind_pending_marks, extend, with_marks; simpl.
  rewrite fmap_app. do 2 f_equal. rewrite <- (list_fmap_id marks) at 2. apply list_fmap_ext. intros i m Hm%list_elem_of_lookup_2.
  rewrite Forall_forall in Hmarks. specialize (Hmarks m Hm). unfold bind_mark. case_decide as E; [|done].
  unfold mark_ready in Hmarks. by rewrite (proj2 E) in Hmarks.
Qed.

(** What was handed out does not change what a line does. *)
Lemma feed_line_extend start excluded line p :
  parser_wf p -> feed_line py_float start excluded line (ext p) = ext <$> feed_line py_float start excluded line p.
Proof.
  intros Hp. unfold feed_line. assert (parser_wf (with_line_index (S (ps_line_index p)) p)) as Hq by (destruct Hp; by split).
  change (with_line_index (S (ps_line_index (ext p))) (ext p)) with (ext (with_line_index (S (ps_line_index p)) p)).
  change (ps_line_index (ext p)) with (ps_line_index p). set (q := with_line_index _ p) in *. clearbody q.
  change (ps_insert (ext q)) with (ps_insert q).
  repeat case_match; try done; auto using feed_proc_line_extend, feed_stats_line_extend; simpl.
  - by rewrite feed_header_extend.
  - unfold feed_schema_line. by destruct (py_words _) as [|? [|? ?]].
  - by rewrite note_percent_mark_extend.
Qed.
End extend.

Definition chunk_wf (ch : chunk) : Prop := square ch.1 /\ times_ok ch.1 /\ Forall row_wf ch.2.

(** Everything in the chunks, collected. *)
Definition chunk_columns (c : columns) (out : list chunk) : columns := foldl (fun c ch => cols_app c ch.1) c out.
Definition chunk_procs (d : dict proc_key proc_row) (out : list chunk) : dict proc_key proc_row :=
  foldl (fun d ch => foldl merge_proc_row_online d ch.2) d out.

Lemma chunk_procs_keyed d out : keyed d -> Forall chunk_wf out -> keyed (chunk_procs d out).
Proof. intros Hd Hout. revert d Hd. induction Hout as [|ch out (_ & _ & Hr) _ IH]; intros d Hd; simpl; [done|]. by apply IH, merge_rows_keyed. Qed.

Lemma take_chunk_chunk_wf p : parser_wf p -> chunk_wf (take_chunk p).1.
Proof. intros []. split_and!; [done|done|]. apply Forall_forall. intros r. by apply keyed_values. Qed.

(** Handing a chunk out. *)
Lemma extend_take_chunk c d marks p :
  extend (cols_app c (take_chunk p).1.1) (foldl merge_proc_row_online d (take_chunk p).1.2) marks (take_chunk p).2 = extend c d marks p.
Proof. unfold extend, take_chunk, with_marks, with_procs, with_cols. simpl. by rewrite cols_app_empty. Qed.

(** Handing the bound marks out. *)
Lemma extend_take_marks c d marks p :
  parser_wf p -> extend c d (marks ++ (take_ready_marks p).1) (take_ready_marks p).2 = extend c d marks p.
Proof.
  intros [_ _ _ _ Hg]. unfold extend, take_ready_marks, with_marks. simpl. rewrite <- app_assoc. do 2 f_equal.
  destruct (ps_tags p) as [t|].
  - destruct Hg as (_ & _ & Hg). rewrite Forall_forall in Hg. rewrite filter_all by done. rewrite filter_nothing; [apply app_nil_r|].
    intros m Hm. by rewrite Hg.
  - rewrite Forall_forall in Hg. assert (Hn : forall m, m ∈ ps_marks p -> mark_ready m = false).
    { intros m Hm. destruct (Hg m Hm) as [E _]. unfold mark_ready. by rewrite E. }
    rewrite (filter_all (fun m => mark_ready m = false)) by done. rewrite filter_nothing; [done|]. intros m Hm. by rewrite Hn.
Qed.

Lemma take_marks_wf p : parser_wf p -> parser_wf (take_ready_marks p).2.
Proof.
  unfold take_ready_marks. intros []. split; simpl; auto. destruct (ps_tags p) as [t|].
  - destruct pw_tags0 as (? & ? & Hg). split_and!; [done|done|]. apply Forall_forall. intros m [_ Hm]%list_elem_of_filter.
    rewrite Forall_forall in Hg. auto.
  - apply Forall_forall. intros m [_ Hm]%list_elem_of_filter. rewrite Forall_forall in pw_tags0. auto.
Qed.

(** The parser a window line feeds, after the flush. *)
Definition flush_before (start : nat) (limit : flush_limit) (batch_end : Z) (line : string) (w : window_state)
    : list chunk * parser * bool * Z :=
  let p := ws_parser w in
  if line_starts_time_sample line (ps_line_index p) start && (ws_pending w || over_limit limit batch_end (ws_start w) p)
  then if has_rows p then let '(c, p) := take_chunk p in ([c], p, false, batch_end) else ([], p, false, ws_start w)
  else ([], p, ws_pending w, ws_start w).

Lemma flush_before_spec start limit batch_end line w out p pending from :
  parser_wf (ws_parser w) -> flush_before start limit batch_end line w = (out, p, pending, from) ->
  parser_wf p /\ Forall chunk_wf out /\
  forall c d marks, extend (chunk_columns c out) (chunk_procs d out) marks p = extend c d marks (ws_parser w).
Proof.
  intros Hw. unfold flush_before. destruct (_ && _); [|intros [= <- <- <- <-]; split_and!; try done; constructor].
  destruct (has_rows (ws_parser w)); [|intros [= <- <- <- <-]; split_and!; try done; constructor].
  pose proof (take_chunk_wf _ Hw) as Hp. pose proof (take_chunk_chunk_wf _ Hw) as Hc.
  pose proof (fun c d marks => extend_take_chunk c d marks (ws_parser w)) as He.
  destruct (take_chunk (ws_parser w)) as [ch q]. intros [= <- <- <- <-]. split_and!; [done|by apply Forall_singleton|exact He].
Qed.

Lemma chunk_columns_app c out out' : chunk_columns c (out ++ out') = chunk_columns (chunk_columns c out) out'.
Proof. apply foldl_app. Qed.

Lemma chunk_procs_app d out out' : chunk_procs d (out ++ out') = chunk_procs (chunk_procs d out) out'.
Proof. apply foldl_app. Qed.

(** What the run of a window must keep: the parser that gave nothing away. *)
Definition kept (c : columns) (d : dict proc_key proc_row) (marks : list mark) (r : list chunk * window_state) : parser :=
  extend (chunk_columns c r.1) (chunk_procs d r.1) marks (ws_parser r.2).

Section windows.
Context (start : nat) (excluded : list string) (limit : flush_limit).
Implicit Types (d : dict proc_key proc_row) (marks : list mark).

Lemma window_line_spec batch_end line w c d marks :
  parser_wf (ws_parser w) -> keyed d -> Forall (fun m => mark_ready m = true) marks ->
  feed_line py_float start excluded line (extend c d marks (ws_parser w)) =
    kept c d marks <$> window_line py_float start excluded limit batch_end line w.
Proof.
  intros Hw Hd Hm. unfold window_line. fold (flush_before start limit batch_end line w).
  destruct (flush_before _ _ _ _ _) as [[[out p] pending] from] eqn:E. apply flush_before_spec in E as (Hp & Hout & He); [|done].
  rewrite <- He. rewrite feed_line_extend; [|by apply chunk_procs_keyed|done|done]. rewrite result_fmap_bind.
  by destruct (feed_line py_float start excluded line p).
Qed.

Lemma window_line_wf batch_end line w out w' :
  parser_wf (ws_parser w) -> window_line py_float start excluded limit batch_end line w = Ok (out, w') ->
  parser_wf (ws_parser w') /\ Forall chunk_wf out.
Proof.
  intros Hw. unfold window_line. fold (flush_before start limit batch_end line w).
  destruct (flush_before _ _ _ _ _) as [[[out' p] pending] from] eqn:E. apply flush_before_spec in E as (Hp & Hout & He); [|done].
  intros (q & Hq & [= <- <-])%result_bind_ok. split; [|done]. by eapply feed_line_wf.
Qed.

Lemma window_lines_wf batch_end lines w out w' :
  parser_wf (ws_parser w) -> window_lines py_float start excluded limit batch_end lines w = Ok (out, w') ->
  parser_wf (ws_parser w') /\ Forall chunk_wf out.
Proof.
  revert w out. induction lines as [|line lines IH]; intros w out Hw; simpl; [by intros [= <- <-]|].
  intros ([out1 w1] & Hl & ([out2 w2] & Hr & [= <- <-])%result_bind_ok)%result_bind_ok.
  apply window_line_wf in Hl as [Hw1 Ho1]; [|done]. apply IH in Hr as [Hw2 Ho2]; [|done]. split; [done|]. by apply Forall_app.
Qed.

Lemma kept_app c d marks out r : kept c d marks (out ++ r.1, r.2) = kept (chunk_columns c out) (chunk_procs d out) marks r.
Proof. unfold kept. simpl. by rewrite chunk_columns_app, chunk_procs_app. Qed.

Lemma window_lines_spec batch_end lines w c d marks :
  parser_wf (ws_parser w) -> keyed d -> Forall (fun m => mark_ready m = true) marks ->
  feed_lines py_float start excluded lines (extend c d marks (ws_parser w)) =
    kept c d marks <$> window_lines py_float start excluded limit batch_end lines w.
Proof.
  revert w c d. induction lines as [|line lines IH]; intros w c d Hw Hd Hm; [done|]. simpl.
  rewrite (window_line_spec batch_end) by done. rewrite result_bind_fmap, result_fmap_bind. apply result_bind_ext.
  intros [out w1] E. apply window_line_wf in E as [Hw1 Ho]; [|done]. unfold kept at 1. simpl.
  rewrite IH by (done || by apply chunk_procs_keyed). rewrite result_fmap_bind.
  destruct (window_lines _ _ _ _ _ _ w1) as [[out2 w2]|]; [|done]. simpl. f_equal. symmetry. apply (kept_app c d marks out (out2, w2)).
Qed.

Lemma feed_lines_app lines lines' p :
  feed_lines py_float start excluded (lines ++ lines') p =
    feed_lines py_float start excluded lines p ≫= feed_lines py_float start excluded lines'.
Proof.
  revert p. induction lines as [|line lines IH]; intros p; simpl; [done|].
  destruct (feed_line py_float start excluded line p); simpl; [apply IH|done].
Qed.

Lemma take_ready_twice p : (take_ready_marks (take_ready_marks p).2).1 = [].
Proof. unfold take_ready_marks. simpl. apply filter_nothing. by intros m [-> _]%list_elem_of_filter. Qed.

(** What was emitted, the marks too. *)
Definition kept_all (c : columns) (d : dict proc_key proc_row) (marks : list mark) (r : emitted * window_state) : parser :=
  extend (chunk_columns c (em_chunks r.1)) (chunk_procs d (em_chunks r.1)) (marks ++ em_marks r.1) (ws_parser r.2).

Lemma take_ready_all p : Forall (fun m => mark_ready m = true) (take_ready_marks p).1.
Proof. apply Forall_forall. by intros m [Hm _]%list_elem_of_filter. Qed.

#[local] Opaque take_ready_marks.

Lemma window_batches_spec batches w c d marks :
  parser_wf (ws_parser w) -> keyed d -> Forall (fun m => mark_ready m = true) marks ->
  feed_lines py_float start excluded (concat batches.*1) (extend c d marks (ws_parser w)) =
    kept_all c d marks <$> window_batches py_float start excluded limit batches w.
Proof.
  revert w c d marks. induction batches as [|[lines batch_end] batches IH]; intros w c d marks Hw Hd Hm.
  { simpl. unfold kept_all. simpl. by rewrite app_nil_r. }
  simpl. rewrite feed_lines_app, (window_lines_spec batch_end) by done. rewrite result_bind_fmap, result_fmap_bind.
  apply result_bind_ext. intros [out w1] E. apply window_lines_wf in E as [Hw1 Ho]; [|done].
  pose proof (take_marks_wf _ Hw1) as Hw2. pose proof (take_ready_all (ws_parser w1)) as Hr.
  unfold kept. simpl. rewrite <- (extend_take_marks _ _ marks (ws_parser w1)) by done.
  destruct (take_ready_marks (ws_parser w1)) as [ready q]. simpl in *.
  rewrite (IH (WindowState q (ws_pending w1) (ws_start w1))); [|done|by apply chunk_procs_keyed|by apply Forall_app].
  rewrite result_fmap_bind. destruct (window_batches _ _ _ _ batches _) as [[em w3]|]; [|done]. simpl. unfold kept_all. simpl.
  by rewrite chunk_columns_app, chunk_procs_app, <- app_assoc.
Qed.

Lemma window_batches_wf batches w em w' :
  parser_wf (ws_parser w) -> (take_ready_marks (ws_parser w)).1 = [] ->
  window_batches py_float start excluded limit batches w = Ok (em, w') ->
  parser_wf (ws_parser w') /\ Forall chunk_wf (em_chunks em) /\ Forall (fun m => mark_ready m = true) (em_marks em) /\
  (take_ready_marks (ws_parser w')).1 = [].
Proof.
  revert w em. induction batches as [|[lines batch_end] batches IH]; intros w em Hw H0; simpl.
  { intros [= <- <-]. split_and!; [done|constructor|constructor|done]. }
  intros ([out w1] & Hl & E)%result_bind_ok. apply window_lines_wf in Hl as [Hw1 Ho]; [|done].
  pose proof (take_marks_wf _ Hw1) as Hw2. pose proof (take_ready_twice (ws_parser w1)) as Hq.
  pose proof (take_ready_all (ws_parser w1)) as Hr. destruct (take_ready_marks (ws_parser w1)) as [ready q]. simpl in *.
  apply result_bind_ok in E as ([em2 w2] & E2 & [= <- <-]). apply IH in E2 as (H1 & H2 & H3 & H4); [|done|done]. simpl.
  split_and!; [done|by apply Forall_app|by apply Forall_app|done].
Qed.
#[local] Transparent take_ready_marks.

End windows.

Lemma chunk_columns_records out c :
  square c -> Forall chunk_wf out ->
  square (chunk_columns c out) /\
  stats_payload_to_records (chunk_columns c out) = stats_payload_to_records c ++ concat ((fun ch => stats_payload_to_records ch.1) <$> out).
Proof.
  intros Hc Ho. revert c Hc. induction Ho as [|ch out (Hs & _ & _) _ IH]; intros c Hc; simpl; [by rewrite app_nil_r|].
  destruct (IH (cols_app c ch.1)) as [? ->]; [by apply square_app|]. split; [done|]. by rewrite records_app, app_assoc.
Qed.

Lemma chunk_procs_rows out d : chunk_procs d out = foldl merge_proc_row_online d (concat out.*2).
Proof. revert d. induction out as [|ch out IH]; intros d; simpl; [done|]. by rewrite foldl_app, <- IH. Qed.

(** The last chunk. *)
Lemma no_rows_empty p c d marks : has_rows p = false -> extend c d marks p = extend (cols_app c (ps_cols p)) d marks (take_chunk p).2.
Proof.
  unfold has_rows. intros [_ H2]%orb_false_iff. unfold extend, take_chunk, with_marks, with_procs, with_cols. simpl.
  rewrite cols_app_empty. unfold dict_values. by destruct (dict_items (ps_procs p)).
Qed.

Lemma windows_of_file start excluded limit batches :
  match parse_stats_file_streaming_incremental py_float start excluded limit batches,
        feed_lines py_float start excluded (concat batches.*1) new_parser with
  | Ok em, Ok p =>
      concat ((fun ch => stats_payload_to_records ch.1) <$> em_chunks em) = (finish p).1 /\
      dedupe_proc_stats_peak_merge (concat (em_chunks em).*2) = (finish p).2 /\
      em_marks em = (take_ready_marks p).1
  | Raise e, Raise e' => e = e'
  | _, _ => False
  end.
Proof.
  pose proof (window_batches_spec start excluded limit batches (WindowState new_parser false 0) empty_stats_columns ∅ []
    new_parser_wf keyed_empty ltac:(constructor)) as E.
  change (extend empty_stats_columns ∅ [] (ws_parser (WindowState new_parser false 0))) with new_parser in E.
  unfold parse_stats_file_streaming_incremental.
  destruct (window_batches _ _ _ _ batches _) as [[em w]|e] eqn:Ew; [|by rewrite E].
  destruct (feed_lines _ _ _ _ new_parser) as [P|]; [|done]. injection E as E. apply window_batches_wf in Ew as (Hw & Ho & Hm & Hr); [|apply new_parser_wf|done].
  destruct (chunk_columns_records (em_chunks em) empty_stats_columns empty_square Ho) as [Hs Hrec].
  assert (Hready : (take_ready_marks (kept_all empty_stats_columns ∅ [] (em, w))).1 = em_marks em).
  { unfold take_ready_marks in Hr |- *. simpl in Hr |- *. rewrite filter_app, Hr, app_nil_r. apply filter_all. by apply Forall_forall. }
  assert (Hfin : finish (kept_all empty_stats_columns ∅ [] (em, w)) =
    (concat ((fun ch => stats_payload_to_records ch.1) <$> em_chunks em) ++ stats_payload_to_records (ps_cols (ws_parser w)),
     dict_values (foldl merge_proc_row_online (chunk_procs ∅ (em_chunks em)) (dict_values (ps_procs (ws_parser w)))))).
  { unfold finish. simpl. rewrite records_app by (done || apply Hw). by rewrite Hrec. }
  rewrite <- E in Hready, Hfin. clear E. cbn [mbind result_bind]. rewrite Hfin.
  destruct (has_rows (ws_parser w)) eqn:Eh; cbn -[take_ready_marks stats_payload_to_records]; rewrite Hready.
  - rewrite fmap_app, concat_app. simpl. rewrite app_nil_r. split_and!; [done| |].
    + unfold dedupe_proc_stats_peak_merge. by rewrite fmap_app, concat_app, foldl_app, <- (chunk_procs_rows (em_chunks em)), <- chunk_procs_rows.
    + unfold take_ready_marks in Hr. simpl in Hr. by rewrite Hr, app_nil_r.
  - apply orb_false_iff in Eh as [Ec Ep]. apply negb_false_iff, Nat.eqb_eq, nil_length_inv in Ec. split_and!; [| |done].
    + unfold stats_payload_to_records at 3. rewrite Ec. by rewrite app_nil_r.
    + assert (dict_values (ps_procs (ws_parser w)) = []) as -> by (unfold dict_values; by destruct (dict_items _)).
      by rewrite chunk_procs_rows.
Qed.


(** ** Where rows come from *)

(** A line that opens a sample. *)
Definition opens_sample (line : string) : option line_ctx :=
  match py_lstrip line with
  | EmptyString => None
  | String c _ as s =>
      if is_digit c then
        '(t, jid, host) ← digit_line_identity s;
        f ← py_float t;
        if sample_time_ok f then Some (LineCtx f host jid) else None
      else None
  end.

Lemma feed_header_opens s p :
  feed_header py_float s p = p \/ feed_header py_float s p = with_sample false (ps_tags p) p \/
  exists t jid host f, digit_line_identity s = Some (t, jid, host) /\ py_float t = Some f /\ sample_time_ok f = true /\
    feed_header py_float s p = bind_pending_marks f host jid (with_sample true (Some (LineCtx f host jid)) p).
Proof.
  unfold feed_header. destruct (digit_line_identity s) as [[[t jid] host]|] eqn:E; [|by left].
  destruct (py_float t) as [f|] eqn:Ef; [|by right; left]. destruct (sample_time_ok f) eqn:Eo; [|by right; left].
  right; right. by exists t, jid, host, f.
Qed.

(** Every row, and the open sample, has a header in [H]. *)
Record rows_from (H : line_ctx -> Prop) (p : parser) : Prop := RowsFrom {
  rf_tags : forall t, ps_tags p = Some t -> H t;
  rf_rows : forall r, r ∈ stats_payload_to_records (ps_cols p) -> H (LineCtx (sr_time r) (sr_host r) (sr_jid r));
  rf_procs : forall k r, ps_procs p !! k = Some r -> H (LineCtx (pr_time r) (pr_host r) (pr_jid r));
}.

Lemma wf_rows_from_line H p tags typ dev compiled vals :
  parser_wf p -> rows_from H p -> ps_tags p = Some tags ->
  rows_from H (with_cols (append_compiled_stats_columns py_float (ps_cols p) (lc_time tags) (lc_host tags) (lc_jid tags) typ dev compiled vals) p).
Proof.
  intros Hp [Ht Hr Hpr] E. rewrite append_stats_app. split; simpl; auto. intros r.
  rewrite records_app by (apply Hp || apply line_columns_square). intros [|Hl]%elem_of_app; [auto|].
  apply line_columns_rows in Hl as (-> & -> & ->). destruct tags. by apply Ht.
Qed.

Lemma feed_proc_line_from H typ dev vals p p' : rows_from H p -> feed_proc_line py_float typ dev vals p = Ok p' -> rows_from H p'.
Proof.
  intros [Ht Hr Hp]. unfold feed_proc_line. destruct (take_tier vals) as [tier vals'].
  match goal with |- context [proc_bare_keys_for ?a ?b ?c ?d] =>
    assert (rows_from H (proc_bare_keys_for a b c d).2) as Hq
      by (unfold proc_bare_keys_for; destruct c; case_match; split; simpl; auto);
    destruct (proc_bare_keys_for a b c d) as [bare q] end.
  destruct Hq as [Ht' Hr' Hp']. simpl in *. destruct (ps_tags q) as [tags|] eqn:E; [|done]. intros (fields & _ & [= <-])%result_bind_ok.
  split; simpl; auto; [by rewrite E|]. intros k r. rewrite merge_proc_row_online_insert, dict_lookup_insert. case_decide; [|by apply Hp'].
  intros [= <-]. assert (H tags) as Htags by auto. unfold merged. case_match; destruct tags; exact Htags.
Qed.

Lemma feed_stats_line_from H typ dev vals p p' :
  parser_wf p -> rows_from H p -> feed_stats_line py_float typ dev vals p = Ok p' -> rows_from H p'.
Proof.
  intros Hp Hf. unfold feed_stats_line. destruct (ps_schema p !! typ) as [events|]; [|by intros [= <-]].
  destruct (take_tier vals) as [tier vals']. case_match; [by intros [= <-]|].
  destruct (ps_tags p) as [tags|] eqn:E; [|by intros [= <-]]. case_match.
  - intros (d & _ & Hd)%result_bind_ok. destruct d as [d|]; [|by injection Hd as <-]. injection Hd as <-.
    unfold append_vals_dict_columns. case_match; [by destruct Hf|]. by apply wf_rows_from_line.
  - intros [= <-]. by apply wf_rows_from_line.
Qed.

Lemma note_percent_mark_from H line p : rows_from H p -> rows_from H (note_percent_mark line p).
Proof.
  intros [Ht Hr Hp]. unfold note_percent_mark, queue_mark. simpl. destruct (ps_tags p) eqn:E; repeat case_match; split; simpl; rewrite ?E; auto.
Qed.

Lemma feed_line_from H start excluded line p p' :
  parser_wf p -> rows_from H p -> (forall t, (start <= ps_line_index p)%nat -> opens_sample line = Some t -> H t) ->
  feed_line py_float start excluded line p = Ok p' -> rows_from H p'.
Proof.
  intros Hp Hf Hh. unfold feed_line. unfold opens_sample in Hh. destruct (py_lstrip line) as [|a s] eqn:El.
  { intros [= <-]. by destruct Hf. }
  assert (parser_wf (with_line_index (S (ps_line_index p)) p)) as Hq by (destruct Hp; by split).
  assert (rows_from H (with_line_index (S (ps_line_index p)) p)) as Hg by (destruct Hf; by split).
  set (q := with_line_index _ p) in *. clearbody q. destruct (is_alpha a && ps_insert q).
  { clear Hh. repeat case_match; try (by intros [= <-]); eauto using feed_proc_line_from, feed_stats_line_from. }
  destruct ((start <=? ps_line_index p)%nat && is_digit a) eqn:Eh.
  { apply andb_true_iff in Eh as [Hi Hdig]. apply Nat.leb_le in Hi. rewrite Hdig in Hh. intros [= <-]. unfold feed_header.
    destruct (digit_line_identity (String a s)) as [[[t jid] host]|] eqn:E; [|done]. simpl in Hh.
    destruct (py_float t) as [f|]; [|by destruct Hg]. simpl in Hh. destruct (sample_time_ok f); [|by destruct Hg].
    destruct Hg as [Ht Hr Hpr]. split; simpl; auto. }
  destruct (Ascii.eqb a "!").
  { unfold feed_schema_line. destruct (py_words _) as [|? [|? ?]]; [done|done|]. intros [= <-]. destruct Hg. by split. }
  destruct (Ascii.eqb a "%"); intros [= <-]; [|done]. by apply note_percent_mark_from.
Qed.

(** A process line changes the process rows and the cached bare names. *)
Lemma feed_proc_line_shape typ dev vals p p' :
  feed_proc_line py_float typ dev vals p = Ok p' ->
  exists b fb d, p' = with_procs d (with_schemas (ps_schema p) (ps_schema_fast p) b fb p).
Proof.
  unfold feed_proc_line. destruct (take_tier vals) as [tier vals'].
  match goal with |- context [proc_bare_keys_for ?a ?b ?c ?d] =>
    assert (exists bk fb, (proc_bare_keys_for a b c d).2 = with_schemas (ps_schema d) (ps_schema_fast d) bk fb d) as (bk & fb & Eq)
      by (unfold proc_bare_keys_for; destruct c; case_match; simpl; eauto; destruct d; simpl; by eexists _, _);
    destruct (proc_bare_keys_for a b c d) as [bare q] end.
  simpl in Eq. subst q. simpl. destruct (ps_tags p); [|done]. intros (? & _ & [= <-])%result_bind_ok. eauto.
Qed.

Lemma feed_stats_line_shape typ dev vals p p' :
  feed_stats_line py_float typ dev vals p = Ok p' -> exists c, p' = with_cols c p.
Proof.
  assert (exists c, p = with_cols c p) as Hp by (exists (ps_cols p); by destruct p).
  unfold feed_stats_line. destruct (ps_schema p !! typ); [|by intros [= <-]]. destruct (take_tier vals).
  case_match; [by intros [= <-]|]. destruct (ps_tags p); [|by intros [= <-]]. case_match; [|intros [= <-]; eauto].
  intros ([?|] & _ & [= <-])%result_bind_ok; eauto.
Qed.

Lemma feed_line_index start excluded line p p' :
  feed_line py_float start excluded line p = Ok p' -> ps_line_index p' = S (ps_line_index p).
Proof.
  unfold feed_line. set (q := with_line_index _ p). assert (ps_line_index q = S (ps_line_index p)) as <- by done. clearbody q.
  assert (forall typ dev vals, feed_proc_line py_float typ dev vals q = Ok p' -> ps_line_index p' = ps_line_index q) as Hproc.
  { intros typ dev vals (b & fb & d & ->)%feed_proc_line_shape. done. }
  assert (forall typ dev vals, feed_stats_line py_float typ dev vals q = Ok p' -> ps_line_index p' = ps_line_index q) as Hstats
    by (by intros typ dev vals (c & ->)%feed_stats_line_shape).
  destruct (py_lstrip line) as [|a s]; [by intros [= <-]|]. case_match.
  { repeat case_match; try (by intros [= <-]); eauto. }
  case_match; [intros [= <-]; unfold feed_header; by repeat case_match|].
  case_match; [unfold feed_schema_line; destruct (py_words _) as [|? [|? ?]]; by intros [= <-]|].
  case_match; intros [= <-]; [|done]. unfold note_percent_mark, queue_mark. simpl. by repeat case_match.
Qed.

Lemma feed_lines_index start excluded lines p p' :
  feed_lines py_float start excluded lines p = Ok p' -> ps_line_index p' = (ps_line_index p + length lines)%nat.
Proof.
  revert p. induction lines as [|line lines IH]; intros p; simpl; [intros [= <-]; lia|].
  intros (q & Hq%feed_line_index & ->%IH)%result_bind_ok. lia.
Qed.

End parser_spec.
