(* ===== verification/StatsResume.v ===== *)
(** Resuming a parse at a sample: the prefix is fed for its schemas only, and the rows are
    those the whole parse has from that sample on, when the prefix has no marks.  [Demo]
    runs the parser on small files, also where it does not do what it means to. *)
From S2P Require Import Prelude PyDict PyStr Json StatsSchema StatsParser StatsRows StatsParserSpec.
From Stdlib Require Import Ascii.
Local Open Scope Z_scope.

(** Lines that are no marks. *)
Definition no_mark (line : string) : bool :=
  match py_lstrip line with String c _ => negb (Ascii.eqb c "%") | EmptyString => true end.

Section resume.
Context (py_float : string -> option pyfloat) (excluded : list string).

(** The whole parse [w] and the resumed one [r], after a sample both have opened. *)
Record same_sample (c : columns) (w r : parser) : Prop := SameSample {
  ss_index : ps_line_index w = ps_line_index r;
  ss_schema : ps_schema w = ps_schema r;
  ss_fast : ps_schema_fast w = ps_schema_fast r;
  ss_cols : ps_cols w = cols_app c (ps_cols r);
  ss_insert : ps_insert w = ps_insert r;
  ss_tags : ps_tags w = ps_tags r;
  ss_open : is_Some (ps_tags r);
  ss_arm : ps_arm_shared w = ps_arm_shared r;
  ss_shared : ps_sample_shared w = ps_sample_shared r;
}.

Lemma same_proc_line c typ dev vals w r w' r' :
  same_sample c w r -> feed_proc_line py_float typ dev vals w = Ok w' -> feed_proc_line py_float typ dev vals r = Ok r' ->
  same_sample c w' r'.
Proof.
  intros [] (b & fb & d & ->)%feed_proc_line_shape (b' & fb' & d' & ->)%feed_proc_line_shape. by split.
Qed.

Lemma same_stats_line c typ dev vals w r w' r' :
  same_sample c w r -> feed_stats_line py_float typ dev vals w = Ok w' -> feed_stats_line py_float typ dev vals r = Ok r' ->
  same_sample c w' r'.
Proof.
  intros Hs. pose proof Hs as [Hi Hsch Hf Hc Hin Ht Ho Ha Hsh]. unfold feed_stats_line. rewrite Hsch, Hf, Ht, Hsh.
  destruct (ps_schema r !! typ) as [events|]; [|by intros [= <-] [= <-]]. destruct (take_tier vals) as [tier vals'].
  destruct (_ && _); [by intros [= <-] [= <-]|]. destruct (ps_tags r) as [tags|] eqn:E; [|by intros [= <-] [= <-]].
  destruct (schema_needs_legacy_hardware_decode typ events).
  - destruct (decode_counter_line typ (ps_schema r) vals') as [[d|]|]; simpl; [|by intros [= <-] [= <-]|done].
    intros [= <-] [= <-]. split; simpl; rewrite ?E; try done. rewrite Hc, (append_vals_app py_float (cols_app _ _)), append_vals_app.
    by rewrite cols_app_assoc.
  - intros [= <-] [= <-]. split; simpl; rewrite ?E; try done.
    rewrite Hc, (append_stats_app py_float (cols_app _ _)), append_stats_app. by rewrite cols_app_assoc.
Qed.

Lemma same_mark c s w r : same_sample c w r -> same_sample c (note_percent_mark s w) (note_percent_mark s r).
Proof.
  intros [Hi Hsch Hf Hc Hin Ht Ho Ha Hsh]. unfold note_percent_mark, queue_mark. simpl. rewrite Ht.
  destruct Ho as [tags Ho]. rewrite Ho. repeat case_match; split; simpl; try done; congruence || (rewrite Ho; done) || done.
Qed.

Lemma same_line c start start' line w r w' r' :
  same_sample c w r -> (start <= ps_line_index r)%nat -> (start' <= ps_line_index r)%nat ->
  feed_line py_float start excluded line w = Ok w' -> feed_line py_float start' excluded line r = Ok r' -> same_sample c w' r'.
Proof.
  intros Hs H1 H2. unfold feed_line. rewrite (ss_index _ _ _ Hs). rewrite !(proj2 (Nat.leb_le _ _)) by done.
  assert (same_sample c (with_line_index (S (ps_line_index r)) w) (with_line_index (S (ps_line_index r)) r)) as Hq by (destruct Hs; by split).
  set (v := with_line_index _ w) in *. set (q := with_line_index _ r) in *. clearbody v q. rewrite (ss_insert _ _ _ Hq).
  destruct (py_lstrip line) as [|a s]; [by intros [= <-] [= <-]|]. destruct (is_alpha a && ps_insert q).
  { destruct (py_words _) as [|typ [|dev [|? ?]]]; try by intros [= <-] [= <-].
    case_decide; [by intros [= <-] [= <-]|]. case_decide; [by apply same_proc_line|by apply same_stats_line]. }
  simpl. destruct (is_digit a).
  { intros [= <-] [= <-]. unfold feed_header. destruct (digit_line_identity _) as [[[t jid] host]|]; [|done]. destruct Hq.
    destruct (py_float t) as [f|]; [destruct (sample_time_ok f)|]; split; simpl; eauto. by rewrite ss_arm0. }
  destruct (Ascii.eqb a "!").
  { unfold feed_schema_line. destruct (py_words _) as [|? [|? ?]]; [done|done|]. intros [= <-] [= <-]. destruct Hq.
    split; simpl; congruence. }
  destruct (Ascii.eqb a "%"); intros [= <-] [= <-]; [|done]. by apply same_mark.
Qed.

Lemma same_lines c start start' lines w r w' r' :
  same_sample c w r -> (start <= ps_line_index r)%nat -> (start' <= ps_line_index r)%nat ->
  feed_lines py_float start excluded lines w = Ok w' -> feed_lines py_float start' excluded lines r = Ok r' -> same_sample c w' r'.
Proof.
  revert w r. induction lines as [|line lines IH]; intros w r Hs H1 H2; simpl; [by intros [= <-] [= <-]|].
  intros (w1 & Hw & Ew)%result_bind_ok (r1 & Hr & Er)%result_bind_ok. pose proof (feed_line_index _ _ _ _ _ _ Hr) as Hi.
  eapply IH, Er; [|lia|lia|exact Ew]. exact (same_line _ _ _ _ _ _ _ _ Hs H1 H2 Hw Hr).
Qed.

(** Before the first sample of the resumed parse. *)
Record waiting (w r : parser) : Prop := Waiting {
  wt_index : ps_line_index w = ps_line_index r;
  wt_schema : ps_schema w = ps_schema r;
  wt_fast : ps_schema_fast w = ps_schema_fast r;
  wt_arm : ps_arm_shared w = false;
  wt_cols : ps_cols r = empty_stats_columns;
  wt_insert : ps_insert r = false;
  wt_arm' : ps_arm_shared r = false;
}.

Lemma not_mark_char a : is_digit a = true \/ is_alpha a = true -> Ascii.eqb a "!" = false /\ Ascii.eqb a "%" = false.
Proof. destruct a as [[] [] [] [] [] [] [] []]; vm_compute; intros [|]; split; congruence. Qed.

(** Only a schema line changes what the two share, and both read it alike. *)
Lemma waiting_line start line w r w' r' :
  waiting w r -> no_mark line = true -> (ps_line_index r < start)%nat ->
  feed_line py_float 0 excluded line w = Ok w' -> feed_line py_float start excluded line r = Ok r' -> waiting w' r'.
Proof.
  intros Hs Hm Hlt. unfold feed_line. unfold no_mark in Hm. rewrite (wt_index _ _ Hs), (proj2 (Nat.leb_gt _ _) Hlt).
  assert (waiting (with_line_index (S (ps_line_index r)) w) (with_line_index (S (ps_line_index r)) r)) as Hq by (destruct Hs; by split).
  set (v := with_line_index _ w) in *. set (q := with_line_index _ r) in *. clearbody v q.
  destruct (py_lstrip line) as [|a s]; [by intros [= <-] [= <-]|]. rewrite (wt_insert _ _ Hq), andb_false_r. simpl.
  destruct (is_alpha a && ps_insert v) eqn:Ea.
  { apply andb_true_iff in Ea as [Ea _]. destruct (not_mark_char a) as [-> ->]; [by right|]. intros Hw [= <-]. revert Hw.
    destruct (py_words _) as [|typ [|dev [|? ?]]]; try by intros [= <-].
    case_decide; [by intros [= <-]|]. destruct Hq. case_decide.
    - intros (b & fb & d & ->)%feed_proc_line_shape. by split.
    - intros (cs & ->)%feed_stats_line_shape. by split. }
  destruct (is_digit a) eqn:Ed.
  { destruct (not_mark_char a) as [-> ->]; [by left|]. intros [= <-] [= <-]. destruct Hq.
    destruct (feed_header_opens py_float (String a s) v) as [->|[->|(t & jid & host & f & _ & _ & _ & ->)]]; by split. }
  destruct (Ascii.eqb a "!").
  { unfold feed_schema_line. destruct (py_words _) as [|? [|? ?]]; [done|done|]. intros [= <-] [= <-]. destruct Hq.
    split; simpl; congruence. }
  apply negb_true_iff in Hm as ->. by intros [= <-] [= <-].
Qed.

Lemma waiting_lines start lines w r w' r' :
  waiting w r -> forallb no_mark lines = true -> (ps_line_index r + length lines <= start)%nat ->
  feed_lines py_float 0 excluded lines w = Ok w' -> feed_lines py_float start excluded lines r = Ok r' -> waiting w' r'.
Proof.
  revert w r. induction lines as [|line lines IH]; intros w r Hs Hm Hlt; simpl in *; [by intros [= <-] [= <-]|].
  apply andb_true_iff in Hm as [Hm1 Hm2].
  intros (w1 & Hw & Ew)%result_bind_ok (r1 & Hr & Er)%result_bind_ok. pose proof (feed_line_index _ _ _ _ _ _ Hr) as Hi.
  eapply IH, Er; [|done|lia|exact Ew]. apply (waiting_line start line w r); [done|done|lia|done|done].
Qed.

(** At the first sample both parses agree. *)
Lemma waiting_opens start line w r w' r' :
  waiting w r -> is_Some (opens_sample py_float line) -> (start <= ps_line_index r)%nat ->
  feed_line py_float 0 excluded line w = Ok w' -> feed_line py_float start excluded line r = Ok r' -> same_sample (ps_cols w) w' r'.
Proof.
  intros [] [t Ho] Hle. unfold opens_sample in Ho. unfold feed_line. destruct (py_lstrip line) as [|a s]; [done|].
  destruct (is_digit a) eqn:Ed; [|done]. rewrite (proj2 (Nat.leb_le _ _) Hle). simpl.
  assert (is_alpha a = false) as -> by (revert Ed; destruct a as [[] [] [] [] [] [] [] []]; vm_compute; congruence). simpl.
  intros [= <-] [= <-]. unfold feed_header.
  destruct (digit_line_identity (String a s)) as [[[t' jid] host]|]; [|done]. simpl in Ho. destruct (py_float t') as [f|]; [|done].
  simpl in Ho. destruct (sample_time_ok f); [|done].
  split; simpl; eauto; congruence || (by rewrite wt_cols0, cols_app_empty) || (by rewrite wt_arm0, wt_arm'0).
Qed.

(** [C33] A parse resumed at a sample, whose prefix has no marks, gives the counter rows of the
    whole parse from that sample on. *)
Theorem resume_emits_the_rest pre header suf w r :
  forallb no_mark pre = true -> is_Some (opens_sample py_float header) ->
  feed_lines py_float 0 excluded (pre ++ header :: suf) new_parser = Ok w ->
  feed_lines py_float (length pre) excluded (pre ++ header :: suf) new_parser = Ok r ->
  exists p, feed_lines py_float 0 excluded pre new_parser = Ok p /\ (finish w).1 = (finish p).1 ++ (finish r).1.
Proof.
  intros Hm Ho. rewrite !feed_lines_app. intros (p & Hp & Hw)%result_bind_ok (q & Hq & Hr)%result_bind_ok. exists p. split; [done|].
  pose proof (feed_lines_wf py_float _ _ _ _ _ new_parser_wf Hp) as Wp.
  assert (waiting new_parser new_parser) as W0 by (by split).
  pose proof (waiting_lines _ _ _ _ _ _ W0 Hm (le_n _) Hp Hq) as Ws.
  pose proof (feed_lines_index _ _ _ _ _ _ Hq) as Hi. simpl in Hw, Hr.
  apply result_bind_ok in Hw as (w1 & Hw1 & Hw). apply result_bind_ok in Hr as (r1 & Hr1 & Hr).
  pose proof (feed_line_index _ _ _ _ _ _ Hr1) as Hi1.
  simpl in Hi. assert (Hle : (length pre <= ps_line_index q)%nat) by lia.
  pose proof (waiting_opens _ _ _ _ _ _ Ws Ho Hle Hw1 Hr1) as Hs1.
  assert (Hle1 : (length pre <= ps_line_index r1)%nat) by lia.
  pose proof (same_lines _ _ _ _ _ _ _ _ Hs1 (Nat.le_0_l _) Hle1 Hw Hr) as Hs.
  unfold finish. simpl. rewrite (ss_cols _ _ _ Hs). apply records_app; [apply Wp|].
  eapply pw_square, feed_lines_wf, Hr. eapply feed_line_wf, Hr1. eapply feed_lines_wf, Hq. apply new_parser_wf.
Qed.
End resume.

(** ** Small files *)

Module Demo.
Local Open Scope string_scope.

(** [float] on whole numbers and infinities. *)
Definition demo_float (s : string) : option pyfloat :=
  if decide (s = "inf") then Some (FInf true) else z ← py_int s; Some (FFin z 1).

Definition dev_times (r : result (list stat_row * list proc_row)) : result (list (string * pyfloat * string * pyfloat)) :=
  match r with Ok x => Ok ((fun y => (sr_jid y, sr_time y, sr_dev y, sr_value y)) <$> x.1) | Raise e => Raise e end.

Definition proc_fields_of (r : result (list stat_row * list proc_row)) : result (list (dict string (option Z))) :=
  match r with Ok x => Ok (pr_fields <$> x.2) | Raise e => Raise e end.

Definition parse (start : nat) (lines : list string) := parse_stats_lines demo_float start exclude_types lines.

Definition plain : list string :=
  ["!cpu user,W=48 sys"; "100 7 h"; "cpu 0 1 2"; "host_proc sh/1 9 5"; "200 9 h"; "cpu 0 3 4"; "host_proc sh/1 9 3"].

Example parse_plain :
  dev_times (parse 0 plain) =
    Ok [("7", FFin 100 1, "0", FFin 1 1); ("7", FFin 100 1, "0", FFin 2 1); ("9", FFin 200 1, "0", FFin 3 1);
        ("9", FFin 200 1, "0", FFin 4 1)].
Proof. by vm_compute. Qed.


Lemma resume_emits_the_rest_witness :
  exists p w r, feed_lines demo_float 0 exclude_types (take 4 plain) new_parser = Ok p /\ (finish w).1 = ((finish p).1 ++ (finish r).1)%list.
Proof.
  destruct (feed_lines demo_float 0 exclude_types plain new_parser) as [w|] eqn:Ew; [|by vm_compute in Ew].
  destruct (feed_lines demo_float 4 exclude_types plain new_parser) as [r|] eqn:Er; [|by vm_compute in Er].
  destruct (resume_emits_the_rest demo_float exclude_types (take 4 plain) "200 9 h" (drop 5 plain) w r) as (p & Hp & E);
    [by vm_compute|by eexists; vm_compute|exact Ew|exact Er|]. by exists p, w, r.
Defined.

(** ** Where the code does not do what it means to *)

Definition shared_then_alone : list string :=
  ["!cpu user"; "%jobs jids=7"; "100 7 h"; "cpu 0 1"; "200 9 h"; "cpu 0 2"].

(** A header before the start is skipped, but not the mark before it: resumed at the second
    sample, which has no mark, the parse takes it for one of a shared node. *)
Example resume_keeps_arm :
  dev_times (parse 0 shared_then_alone) =
    Ok [("7", FFin 100 1, ("j:7" ++ JOB_STAMP_DEV_SEP ++ "0"), FFin 1 1); ("9", FFin 200 1, "0", FFin 2 1)] /\
  dev_times (parse 4 shared_then_alone) = Ok [("9", FFin 200 1, ("j:9" ++ JOB_STAMP_DEV_SEP ++ "0"), FFin 2 1)].
Proof. by vm_compute. Qed.

Definition two_marked : list string :=
  ["%affinity jid=7 cpus=0-1"; "100 7 h"; "%affinity jid=9 cpus=2-3"; "200 9 h"].

Definition mark_times (marks : list mark) : list (option pyfloat) := mk_time <$> marks.

(** Once a sample was seen, a mark is bound to the sample before it, where [collect_marks]
    binds it to the one it precedes. *)
Example marks_bind_previous :
  (fun p => mark_times (take_ready_marks p).1) <$> feed_lines demo_float 0 exclude_types two_marked new_parser =
    Ok [Some (FFin 100 1); Some (FFin 100 1)] /\
  mark_times (collect_marks demo_float two_marked) = [Some (FFin 100 1); Some (FFin 200 1)].
Proof. by vm_compute. Qed.

(** A header cut short does not close the sample before it. *)
Example torn_header_keeps_sample :
  dev_times (parse 0 ["!cpu user"; "100 7 h"; "cpu 0 1"; "200 9"; "cpu 0 2"]) =
    Ok [("7", FFin 100 1, "0", FFin 1 1); ("7", FFin 100 1, "0", FFin 2 1)].
Proof. by vm_compute. Qed.

(** A schema line cut short raises, although a data line cut short is skipped. *)
Example torn_schema_raises :
  parse 0 ["100 7 h"; "!cpu"] = Raise ValueError /\ parse 0 ["100 7 h"; "cpu"] = Ok ([], []).
Proof. by vm_compute. Qed.

(** A process value that is no number is [None], one that is infinite raises. *)
Example infinite_value_raises :
  parse 0 ["100 7 h"; "proc sh/1 inf"] = Raise OverflowError /\
  (exists rows procs, parse 0 ["100 7 h"; "proc sh/1 x"] = Ok (rows, procs)).
Proof. split; [by vm_compute|]. eexists _, _. by vm_compute. Qed.

(** The names of the process fields are cached before the schema that defines them comes. *)
Example stale_process_names :
  proc_fields_of (parse 0 ["100 7 h"; "proc sh/1 5"; "!host_proc threads"; "proc sh/1 6"]) = Ok [Dict [("uid", Some 6)]] /\
  proc_fields_of (parse 0 ["100 7 h"; "!host_proc threads"; "proc sh/1 6"]) = Ok [Dict [("threads", Some 6)]].
Proof. by vm_compute. Qed.

End Demo.
