(* ===== verification/StatsScan.v ===== *)
(** Looking for sample headers in a raw statistics file, from
    [dbload/lib/sync_timedb_parsing.py]: the first and the last header, the tail of the
    file read in blocks from its end, and the line a partly ingested file is resumed at.

    The text is ASCII, a character per byte; whether a second is in the database is the
    parameter [timestamp_present] or the set of known seconds; [float(text)] is [py_float]. *)
From S2P Require Import Prelude PyDict PyStr Json StatsSchema StatsParser.
From Stdlib Require Import Ascii.
Local Open Scope Z_scope.

Definition newline : ascii := "010".

Abbreviation identity := (string * string * string)%type.

(** The identity of a line that leads with a digit. *)
Definition header_identity (line : string) : option identity :=
  match py_lstrip line with
  | EmptyString => None
  | String c _ as s => if is_digit c then digit_line_identity s else None
  end.

Fixpoint parse_first_timestamp_line (lines : list string) : option identity :=
  match lines with
  | [] => None
  | l :: lines => match header_identity l with Some parsed => Some parsed | None => parse_first_timestamp_line lines end
  end.

Definition parse_last_timestamp_line (lines : list string) : option identity := parse_first_timestamp_line (rev lines).

(** ** The tail of a file *)

(** The blocks read from the end to the start, each with its offset.  [fuel] is the offset
    itself: a read takes at least one byte. *)
Fixpoint read_blocks (fuel : nat) (chunk_size : nat) (text : string) (offset : nat) : list (nat * string) :=
  match fuel with
  | O => []
  | S fuel =>
      match offset with
      | O => []
      | _ =>
          let read_size := Nat.min chunk_size offset in
          let offset := (offset - read_size)%nat in
          (offset, String.substring offset read_size text) :: read_blocks fuel chunk_size text offset
      end
  end.

Definition tail_pieces (tail_read_bytes : Z) (text : string) : list (nat * string) :=
  let size := String.length text in
  read_blocks size (Nat.max 4096 (Z.to_nat tail_read_bytes)) text size.

(** The complete lines of a block and what is carried to the block before it. *)
Definition block_parts (offset : nat) (block : string) : list string * string :=
  match py_split newline block with
  | carry :: parts => if (0 <? offset)%nat then (parts, carry) else (carry :: parts, EmptyString)
  | [] => ([], EmptyString)
  end.

Fixpoint scan_last (pieces : list (nat * string)) (carry : string) : option identity :=
  match pieces with
  | [] => None
  | (offset, raw_block) :: pieces =>
      let '(parts, carry) := block_parts offset (raw_block ++ carry) in
      match parse_first_timestamp_line (rev parts) with
      | Some parsed => Some parsed
      | None => scan_last pieces carry
      end
  end.

Definition parse_last_timestamp_line_streaming (tail_read_bytes : Z) (text : string) : option identity :=
  scan_last (tail_pieces tail_read_bytes text) EmptyString.

Definition digit_leading (line : string) : bool := match py_lstrip line with EmptyString => false | String c _ => is_digit c end.

(** The inner loop, from the end of a block. *)
Fixpoint collect_lines (max_lines : nat) (parts collected : list string) : list string :=
  match parts with
  | [] => collected
  | line :: parts =>
      if (max_lines <=? length collected)%nat then collected
      else collect_lines max_lines parts (if digit_leading line then collected ++ [line] else collected)
  end.

Fixpoint collect_pieces (max_lines : nat) (pieces : list (nat * string)) (carry : string) (collected : list string) : list string :=
  match pieces with
  | [] => collected
  | (offset, raw_block) :: pieces =>
      if (max_lines <=? length collected)%nat then collected
      else let '(parts, carry) := block_parts offset (raw_block ++ carry) in
           collect_pieces max_lines pieces carry (collect_lines max_lines (rev parts) collected)
  end.

Definition collect_tail_timestamp_lines (max_lines : nat) (tail_read_bytes : Z) (text : string) : list string :=
  if (max_lines =? 0)%nat then [] else collect_pieces max_lines (tail_pieces tail_read_bytes text) EmptyString [].

(** ** Duplicates *)

Section duplicates.
Context (py_float : string -> option pyfloat).
Context (itimes_set : list Z) (timestamp_present : option (Z -> bool)).

(** [int(float(t))]; not-a-number raises [ValueError], which is caught. *)
Definition digit_line_unix_second (s : string) : result (option Z) :=
  match digit_line_identity s with
  | None => Ok None
  | Some (t, _, _) =>
      match py_float t with
      | None | Some FNaN => Ok None
      | Some (FFin n d) => Ok (Some (Z.quot n (Zpos d)))
      | Some (FInf _) => Raise OverflowError
      end
  end.

Definition timestamp_present_for_duplicate (unix_second : Z) : bool :=
  match timestamp_present with
  | Some present => present unix_second
  | None => bool_decide (unix_second ∈ itimes_set)
  end.

(** The second of a line that leads with a digit. *)
Definition line_second (line : string) : result (option Z) :=
  match py_lstrip line with
  | EmptyString => Ok None
  | String c _ as s => if is_digit c then digit_line_unix_second s else Ok None
  end.

Fixpoint find_start (lines : list string) (i last_idx : Z) : result (Z * bool) :=
  match lines with
  | [] => Ok (-1, true)
  | line :: lines =>
      second ← line_second line;
      match second with
      | None => find_start lines (i + 1) last_idx
      | Some unix_sec =>
          if timestamp_present_for_duplicate unix_sec then find_start lines (i + 1) i
          else Ok (last_idx, true)
      end
  end.

Definition find_processing_start_index (lines : list string) : result (Z * bool) := find_start lines 0 0.

(** Over the collected lines. *)
Fixpoint all_present (lines : list string) : result bool :=
  match lines with
  | [] => Ok true
  | line :: lines =>
      second ← line_second line;
      match second with
      | None => all_present lines
      | Some unix_sec => if timestamp_present_for_duplicate unix_sec then all_present lines else Ok false
      end
  end.

Definition tail_window_timestamps_all_present (max_lines : nat) (text : string) : result bool :=
  match collect_tail_timestamp_lines max_lines 65536 text with
  | [] => Ok false
  | lines => all_present lines
  end.
End duplicates.
