(* ===== verification/StatsScanSpec.v ===== *)
(** Blocks read from the end of a file give its lines backwards, whatever the block size;
    where a partly ingested file is resumed. *)
From S2P Require Import Prelude PyDict PyStr Json StatsSchema StatsParser StatsParserSpec StatsScan.
From Stdlib Require Import Ascii.
Local Open Scope Z_scope.

(** ** Lines of a text in blocks *)

(** Only the first line of a text can continue one that ends before it. *)
Lemma py_split_prepend sep u w p ps : py_split sep w = p :: ps -> py_split sep (u ++ w) = (py_split sep (u ++ p) ++ ps)%list.
Proof.
  intros E. induction u as [|c u IH].
  - change (EmptyString ++ w)%string with w. change (EmptyString ++ p)%string with p. rewrite E.
    assert (no_char sep p = true) as Hp.
    { revert p ps E. induction w as [|c w IH]; intros p ps; simpl; [by intros [= <- <-]|].
      destruct (Ascii.eqb c sep) eqn:Ec; [by intros [= <- <-]|]. destruct (py_split_nonempty sep w) as (q & qs & Eq). rewrite Eq.
      intros [= <- <-]. unfold no_char. simpl. rewrite Ec. simpl. by apply (IH q qs). }
    by rewrite py_split_no_char.
  - change (String c u ++ w)%string with (String c (u ++ w)). change (String c u ++ p)%string with (String c (u ++ p)). simpl.
    rewrite IH. destruct (Ascii.eqb c sep); [done|]. by destruct (py_split_nonempty sep (u ++ p)) as (q & qs & ->).
Qed.

(** The lines in the order the blocks give them. *)
Fixpoint piece_lines (pieces : list (nat * string)) (carry : string) : list string :=
  match pieces with
  | [] => []
  | (offset, raw_block) :: pieces =>
      let '(parts, carry) := block_parts offset (raw_block ++ carry) in (rev parts ++ piece_lines pieces carry)%list
  end.

Lemma substring_split text offset n :
  (n <= offset <= String.length text)%nat ->
  (String.substring 0 (offset - n) text ++ String.substring (offset - n) n text)%string = String.substring 0 offset text.
Proof.
  revert text n. induction offset as [|offset IH]; intros text n Hn.
  - assert (n = 0)%nat as -> by lia. by destruct text.
  - destruct text as [|c text]; simpl in Hn; [lia|]. destruct (decide (n = S offset)) as [->|].
    + rewrite Nat.sub_diag. by destruct text.
    + replace (S offset - n)%nat with (S (offset - n)) by lia. simpl.
      transitivity (String c (String.substring 0 (offset - n) text ++ String.substring (offset - n) n text)); [done|].
      f_equal. apply IH. lia.
Qed.

(** The blocks give the lines from the last to the first. *)
Lemma piece_lines_spec fuel chunk text offset carry :
  (0 < chunk)%nat -> (offset <= fuel)%nat -> (0 < offset <= String.length text)%nat ->
  piece_lines (read_blocks fuel chunk text offset) carry = rev (py_split newline (String.substring 0 offset text ++ carry)).
Proof.
  intros Hc. revert offset carry. induction fuel as [|fuel IH]; intros offset carry Hf Ho; [lia|].
  simpl. destruct offset as [|n]; [lia|]. set (offset := S n) in *. set (size := Nat.min chunk offset).
  assert (0 < size <= offset)%nat as Hs by (unfold size; lia). clearbody size.
  rewrite <- (substring_split text offset size), <- string_app_assoc by lia. cbn [piece_lines].
  set (raw := String.substring (offset - size) size text). unfold block_parts.
  destruct (py_split_nonempty newline (raw ++ carry)) as (p & ps & E). rewrite (py_split_prepend _ _ _ _ _ E), E.
  destruct (0 <? offset - size)%nat eqn:El.
  - apply Nat.ltb_lt in El. rewrite IH by lia. by rewrite rev_app_distr.
  - apply Nat.ltb_ge in El. replace (offset - size)%nat with 0%nat by lia.
    replace (String.substring 0 0 text) with EmptyString by (by destruct text).
    assert (piece_lines (read_blocks fuel chunk text 0) EmptyString = []) as -> by (by destruct fuel).
    rewrite app_nil_r. change (EmptyString ++ p)%string with p.
    pose proof (py_split_prepend newline EmptyString _ _ _ E) as E'. change (EmptyString ++ (raw ++ carry))%string with (raw ++ carry)%string in E'.
    change (EmptyString ++ p)%string with p in E'. rewrite E in E'. by rewrite <- E'.
Qed.

Lemma tail_pieces_lines n text : text <> EmptyString -> piece_lines (tail_pieces n text) EmptyString = rev (py_split newline text).
Proof.
  intros Ht. unfold tail_pieces. rewrite piece_lines_spec; [by rewrite substring_all, string_app_nil_r by done|lia|lia|].
  destruct text; [done|simpl; lia].
Qed.

(** ** The last header *)

Lemma parse_first_app l l' :
  parse_first_timestamp_line (l ++ l') =
    match parse_first_timestamp_line l with Some parsed => Some parsed | None => parse_first_timestamp_line l' end.
Proof. induction l as [|x l IH]; simpl; [done|]. by destruct (header_identity x). Qed.

Lemma scan_last_lines pieces carry : scan_last pieces carry = parse_first_timestamp_line (piece_lines pieces carry).
Proof.
  revert carry. induction pieces as [|[offset raw] pieces IH]; intros carry; simpl; [done|].
  destruct (block_parts _ _) as [parts carry']. rewrite parse_first_app. by destruct (parse_first_timestamp_line (rev parts)).
Qed.

(** [C36] Reading the file in blocks from its end, of any size, finds the header that reading
    all its lines finds. *)
Theorem last_header_streaming n text :
  parse_last_timestamp_line_streaming n text = parse_last_timestamp_line (py_split newline text).
Proof.
  unfold parse_last_timestamp_line_streaming. rewrite scan_last_lines. destruct text as [|c text]; [done|].
  by rewrite tail_pieces_lines.
Qed.

(** ** The last lines *)

Lemma collect_lines_spec max parts collected :
  (length collected <= max)%nat ->
  collect_lines max parts collected = take max (collected ++ filter (fun l => digit_leading l = true) parts).
Proof.
  revert collected. induction parts as [|line parts IH]; intros collected Hle; simpl.
  { rewrite app_nil_r. by rewrite take_ge. }
  destruct (max <=? length collected)%nat eqn:El; [apply Nat.leb_le in El; rewrite take_app_le, take_ge by lia; done|].
  apply Nat.leb_gt in El. rewrite filter_cons. destruct (digit_leading line) eqn:Ed.
  - rewrite decide_True by done. rewrite IH by (rewrite length_app; simpl; lia). by rewrite <- app_assoc.
  - rewrite decide_False by done. apply IH. lia.
Qed.

Lemma collect_pieces_spec max pieces carry collected :
  (length collected <= max)%nat ->
  collect_pieces max pieces carry collected =
    take max (collected ++ filter (fun l => digit_leading l = true) (piece_lines pieces carry)).
Proof.
  revert carry collected. induction pieces as [|[offset raw] pieces IH]; intros carry collected Hle; simpl.
  { rewrite app_nil_r. by rewrite take_ge. }
  destruct (max <=? length collected)%nat eqn:El; [apply Nat.leb_le in El; rewrite take_app_le, take_ge by lia; done|].
  destruct (block_parts _ _) as [parts carry']. rewrite IH by (rewrite collect_lines_spec, length_take by lia; lia).
  rewrite collect_lines_spec by lia. rewrite filter_app, app_assoc.
  destruct (decide (max <= length (collected ++ filter (fun l => digit_leading l = true) (rev parts)))%nat) as [Hm|Hm].
  - rewrite (take_app_le _ _ max) by (rewrite length_take; lia). rewrite take_take, Nat.min_id. symmetry. by apply take_app_le.
  - by rewrite (take_ge (collected ++ _)) by lia.
Qed.

(** The tail window is the last lines that lead with a digit, the last one first. *)
Theorem tail_window_last_lines max n text :
  collect_tail_timestamp_lines max n text = take max (filter (fun l => digit_leading l = true) (rev (py_split newline text))).
Proof.
  unfold collect_tail_timestamp_lines. destruct (max =? 0)%nat eqn:E; [by apply Nat.eqb_eq in E as ->|].
  rewrite collect_pieces_spec by (simpl; lia). simpl. destruct text as [|c text]; [done|]. by rewrite tail_pieces_lines.
Qed.

(** ** Where to resume *)

Section duplicates.
Context (py_float : string -> option pyfloat) (itimes_set : list Z) (timestamp_present : option (Z -> bool)).
Abbreviation present := (timestamp_present_for_duplicate itimes_set timestamp_present).
Abbreviation second := (line_second py_float).

(** A header that is, and one that is not, in the database. *)
Definition known (line : string) : Prop := exists s, second line = Ok (Some s) /\ present s = true.
Definition fresh (line : string) : Prop := exists s, second line = Ok (Some s) /\ present s = false.
Definition no_header (line : string) : Prop := second line = Ok None.

(** [i] is the last known header before the first fresh one at [j]. *)
Definition resume_point (lines : list string) (last i : Z) (j : nat) : Prop :=
  (exists line, lines !! j = Some line /\ fresh line) /\
  (forall k line, (k < j)%nat -> lines !! k = Some line -> known line \/ no_header line) /\
  ((i = last /\ forall k line, (k < j)%nat -> lines !! k = Some line -> no_header line) \/
   exists k line, i = Z.of_nat k /\ (k < j)%nat /\ lines !! k = Some line /\ known line /\
     forall k' line', (k < k' < j)%nat -> lines !! k' = Some line' -> no_header line').

Lemma find_start_spec lines i0 last_idx r :
  find_start py_float itimes_set timestamp_present lines i0 last_idx = Ok r ->
  (r = (-1, true) /\ forall line, line ∈ lines -> known line \/ no_header line) \/
  exists j i, r = (i, true) /\ (exists line, lines !! j = Some line /\ fresh line) /\
    (forall k line, (k < j)%nat -> lines !! k = Some line -> known line \/ no_header line) /\
    ((i = last_idx /\ forall k line, (k < j)%nat -> lines !! k = Some line -> no_header line) \/
     exists k line, i = i0 + Z.of_nat k /\ (k < j)%nat /\ lines !! k = Some line /\ known line /\
       forall k' line', (k < k' < j)%nat -> lines !! k' = Some line' -> no_header line').
Proof.
  revert i0 last_idx. induction lines as [|line lines IH]; intros i0 last_idx; simpl.
  { intros [= <-]. left. split; [done|]. by intros line ?%elem_of_nil. }
  intros (s & Hs & Hr)%result_bind_ok. destruct s as [s|].
  - destruct (present s) eqn:Ep.
    + assert (known line) as Hk by (by exists s). apply IH in Hr as [[-> Hall]|(j & i & -> & Hf & Hb & Hi)].
      { left. split; [done|]. intros l [->|Hl]%elem_of_cons; auto. }
      right. exists (S j), i. split_and!; [done|done| |].
      * intros [|k] l Hlt; simpl; [intros [= <-]; by left|]. apply Hb. lia.
      * right. destruct Hi as [[-> Hn]|(k & l & -> & Hlt & Hl & Hkn & Hn)].
        -- exists 0%nat, line. split_and!; [lia|lia|done|done|]. intros [|k'] l' Hlt; [lia|]. simpl. apply Hn. lia.
        -- exists (S k), l. split_and!; [lia|lia|done|done|]. intros [|k'] l' Hlt'; [lia|]. simpl. apply Hn. lia.
    + injection Hr as <-. right. exists 0%nat, last_idx. split_and!; [done| |intros; lia|left; split; [done|intros; lia]].
      exists line. split; [done|]. by exists s.
  - assert (no_header line) as Hk by done. apply IH in Hr as [[-> Hall]|(j & i & -> & Hf & Hb & Hi)].
    { left. split; [done|]. intros l [->|Hl]%elem_of_cons; auto. }
    right. exists (S j), i. split_and!; [done|done| |].
    + intros [|k] l Hlt; simpl; [intros [= <-]; by right|]. apply Hb. lia.
    + destruct Hi as [[-> Hn]|(k & l & -> & Hlt & Hl & Hkn & Hn)]; [left; split; [done|]|right; exists (S k), l].
      * intros [|k] l Hlt; simpl; [by intros [= <-]|]. apply Hn. lia.
      * split_and!; [lia|lia|done|done|]. intros [|k'] l' Hlt'; [lia|]. simpl. apply Hn. lia.
Qed.

(** The index is -1 exactly when no header is missing; else it is that of the last known
    header before the first missing one, or 0 when the first header is missing. *)
Theorem start_index_is_resume_point lines r :
  find_processing_start_index py_float itimes_set timestamp_present lines = Ok r ->
  (r = (-1, true) /\ forall line, line ∈ lines -> known line \/ no_header line) \/
  (exists j i, r = (i, true) /\ 0 <= i /\ resume_point lines 0 i j).
Proof.
  intros [?|(j & i & -> & Hf & Hb & Hi)]%find_start_spec; [by left|right]. exists j, i. split; [done|].
  split; [destruct Hi as [[-> _]|(k & l & -> & _)]; lia|]. split_and!; [done|done|].
  destruct Hi as [?|(k & l & -> & Hi)]; [by left|right; exists k, l]. by rewrite Z.add_0_l.
Qed.

Lemma all_present_spec lines :
  all_present py_float itimes_set timestamp_present lines = Ok true <-> forall line, line ∈ lines -> known line \/ no_header line.
Proof.
  induction lines as [|line lines IH]; simpl; [split; [by intros _ line ?%elem_of_nil|done]|].
  destruct (second line) as [[s|]|e] eqn:E; simpl.
  - destruct (present s) eqn:Ep; [rewrite IH|].
    + split; [|by intros H l Hl; apply H; set_solver]. intros H l [->|Hl]%elem_of_cons; [left; by exists s|auto].
    + split; [done|]. intros H. destruct (H line) as [(s' & E' & Ep')|E']; [set_solver|congruence|]. unfold no_header in E'. congruence.
  - rewrite IH. split; [|by intros H l Hl; apply H; set_solver]. intros H l [->|Hl]%elem_of_cons; [by right|auto].
  - split; [done|]. intros H. destruct (H line) as [(s' & E' & Ep')|E']; [set_solver|congruence|]. unfold no_header in E'. congruence.
Qed.

(** The tail window says the file is in the database exactly when it has a line that leads
    with a digit and, of the last of them, each that is a header is known. *)
Theorem tail_window_complete max text :
  tail_window_timestamps_all_present py_float itimes_set timestamp_present max text = Ok true <->
  let tail := take max (filter (fun l => digit_leading l = true) (rev (py_split newline text))) in
  tail <> [] /\ forall line, line ∈ tail -> known line \/ no_header line.
Proof.
  unfold tail_window_timestamps_all_present. rewrite tail_window_last_lines. cbv zeta.
  destruct (take max _) as [|line lines]; [split; [done|by intros [? _]]|]. rewrite all_present_spec. naive_solver.
Qed.
End duplicates.

(** ** Small files *)

Module ScanDemo.
Local Open Scope string_scope.

(** [float] on whole numbers, and on one that is out of range. *)
Definition demo_float (s : string) : option pyfloat :=
  if decide (s = "1e999") then Some (FInf false) else z ← py_int s; Some (FFin z 1).

Definition lines : list string := ["!cpu user"; "100 7 h"; "cpu 0 1"; "200 7 h"; "cpu 0 2"; "300 7 h"; "cpu 0 3"].

Lemma start_index_is_resume_point_witness :
  find_processing_start_index demo_float [100; 200] None lines = Ok (3, true) /\
  exists j, resume_point demo_float [100; 200] None lines 0 3 j.
Proof.
  split; [by vm_compute|].
  destruct (start_index_is_resume_point demo_float [100; 200] None lines (3, true) ltac:(by vm_compute))
    as [[E _]|(j & i & E & _ & Hj)]; [done|]. injection E as <-. by exists j.
Defined.

(** Lines that lead with a digit and are no headers count as ingested: nothing of this file is. *)
Example tail_window_vacuous :
  tail_window_timestamps_all_present demo_float [] None 8 ("1x" ++ String newline "2y z") = Ok true.
Proof. by vm_compute. Qed.

(** A time out of range drops its sample in the parser and raises in the search. *)
Example huge_time_raises :
  find_processing_start_index demo_float [] None ["1e999 7 h"] = Raise OverflowError /\
  parse_stats_lines demo_float 0 [] ["1e999 7 h"] = Ok ([], []).
Proof. by vm_compute. Qed.

End ScanDemo.
