(* ===== verification/CounterDelta.v ===== *)
(** From counters to rates, from [dbload/lib/sync_timedb_parsing.py]: the differences of
    a counter between samples, corrected when it wrapped, and the rates over time, with the
    carry that continues both from one window of a file to the next.

    A frame is the list of its rows.  The vectorised passes are read row by row: a shifted
    difference within a group is the difference with the row before it, a mask is a test.
    [float64] arithmetic is the class [FloatArith]; the collapse between the two passes,
    which sums over devices, is not modelled. *)
From S2P Require Import Prelude PyDict PyStr.
From Stdlib Require Import Ascii.
Local Open Scope Z_scope.

(** The operations of [float64] the passes use. *)
Class FloatArith (F : Type) := {
  f_zero : F;
  f_nan : F;
  f_add : F -> F -> F;
  f_sub : F -> F -> F;
  f_mul : F -> F -> F;
  f_opp : F -> F;
  f_half : F -> F;
  f_pow2 : Z -> F;
  f_lt : F -> F -> bool;
  f_le : F -> F -> bool;
  f_finite : F -> bool;
}.

Class FloatDiv (F : Type) := f_div : F -> F -> F.

(** [_COUNTER_GROUP_COLS], [_ARC_GROUP_COLS]: host, type, device, event. *)
Abbreviation group := (string * string * string * string)%type.

(** Text order by code points. *)
Fixpoint str_le (a b : string) : bool :=
  match a, b with
  | EmptyString, _ => true
  | String _ _, EmptyString => false
  | String x a, String y b =>
      (nat_of_ascii x <? nat_of_ascii y)%nat || ((nat_of_ascii x =? nat_of_ascii y)%nat && str_le a b)
  end.

Definition str_lt (a b : string) : bool := str_le a b && negb (String.eqb a b).

(** The order of the category codes: column by column. *)
Definition group_le (g h : group) : bool :=
  let '(a, b, c, d) := g in
  let '(a', b', c', d') := h in
  str_lt a a' || (String.eqb a a' && (str_lt b b' || (String.eqb b b' && (str_lt c c' || (String.eqb c c' && str_le d d'))))).

(** ** Scans by group *)

Section scan.
Context {R A B : Type} (key : R -> group) (keep : R -> A).
Context (first : option A -> R -> B) (next : A -> R -> B).

(** The rows in order: the first of a group takes the carry, another the row before it. *)
Fixpoint scan (carry : dict group A) (prev : option (group * A)) (rows : list R) : list B :=
  match rows with
  | [] => []
  | r :: rows =>
      let b := match prev with
               | Some (g, a) => if decide (g = key r) then next a r else first (carry !! key r) r
               | None => first (carry !! key r) r
               end in
      b :: scan carry (Some (key r, keep r)) rows
  end.

(** The last row of each group. *)
Fixpoint group_lasts (rows : list R) : list R :=
  match rows with
  | [] => []
  | r :: rest =>
      match rest with
      | r' :: _ => if decide (key r = key r') then group_lasts rest else r :: group_lasts rest
      | [] => [r]
      end
  end.

Definition carry_on (carry : dict group A) (rows : list R) : dict group A :=
  foldl (fun c r => <[key r := keep r]> c) carry (group_lasts rows).
End scan.

Section delta.
Context {F : Type} `{FloatArith F}.

Record delta_row := DeltaRow {
  dr_group : group;
  dr_jid : string;
  dr_unit : string;
  dr_time : F;
  dr_value : F;
  dr_wid : Z;
  dr_mult : F;
}.

(** [np.lexsort((times, gid))], which is stable. *)
Definition row_le (r s : delta_row) : bool :=
  if decide (dr_group r = dr_group s) then f_le (dr_time r) (dr_time s) else group_le (dr_group r) (dr_group s).

Fixpoint insert_row (r : delta_row) (rows : list delta_row) : list delta_row :=
  match rows with
  | [] => [r]
  | s :: rest => if row_le r s then r :: rows else s :: insert_row r rest
  end.

Definition sort_rows (rows : list delta_row) : list delta_row := foldr insert_row [] rows.

(** A negative difference is a wrap when the counter was in its upper half. *)
Definition fix_wrap (value : F) (wid : Z) (delta : F) : F :=
  if f_lt delta f_zero && f_finite delta then
    let modulus := f_pow2 wid in
    let prev := f_sub value delta in
    if f_finite prev && f_le (f_half modulus) prev && f_lt (f_opp modulus) delta then f_add modulus delta else f_nan
  else delta.

(** The row with its scaled difference. *)
Definition with_delta (r : delta_row) (delta : F) : delta_row * F :=
  (r, f_mul (fix_wrap (dr_value r) (dr_wid r) delta) (dr_mult r)).

Definition next_delta (prev : F) (r : delta_row) : delta_row * F := with_delta r (f_sub (dr_value r) prev).

Definition first_delta (prev : option F) (r : delta_row) : delta_row * F :=
  with_delta r (match prev with Some p => if f_finite p then f_sub (dr_value r) p else f_nan | None => f_nan end).

(** The frame with its differences, and the carry for the next window. *)
Definition apply_counter_deltas (rows : list delta_row) (carry : dict group F) : list (delta_row * F) * dict group F :=
  let rows := sort_rows rows in
  (scan dr_group dr_value first_delta next_delta carry None rows, carry_on dr_group dr_value carry rows).

(** ** Rates *)

Context `{FloatDiv F}.

Record arc_row := ArcRow { ar_group : group; ar_unit : string; ar_time : F; ar_value : F; ar_delta : F }.

Definition next_arc (prev : F) (r : arc_row) : arc_row * F :=
  let dt := f_sub (ar_time r) prev in (r, if f_lt f_zero dt && f_finite dt then f_div (ar_delta r) dt else f_nan).

Definition first_arc (prev : option F) (r : arc_row) : arc_row * F :=
  (r, match prev with
      | Some p => let dt := f_sub (ar_time r) p in
                  if f_lt f_zero dt && f_finite (ar_delta r) then f_div (ar_delta r) dt else f_nan
      | None => f_nan
      end).

(** Nothing but not-a-number differs from itself. *)
Definition not_nan (x : F) : bool := f_le x x.

(** On a frame the collapse has sorted by group and time; rows without time or value go. *)
Definition apply_arc_and_finalize (rows : list arc_row) (carry : dict group F) : list (arc_row * F) * dict group F :=
  (filter (fun x => not_nan (ar_time x.1) && not_nan (ar_value x.1) = true) (scan ar_group ar_time first_arc next_arc carry None rows),
   carry_on ar_group ar_time carry rows).

(** Window after window. *)
Fixpoint chunk_deltas (chunks : list (list delta_row)) (carry : dict group F) : list (delta_row * F) :=
  match chunks with
  | [] => []
  | rows :: chunks =>
      let '(out, carry) := apply_counter_deltas rows carry in out ++ chunk_deltas chunks carry
  end.

Fixpoint chunk_arcs (chunks : list (list arc_row)) (carry : dict group F) : list (arc_row * F) :=
  match chunks with
  | [] => []
  | rows :: chunks =>
      let '(out, carry) := apply_arc_and_finalize rows carry in out ++ chunk_arcs chunks carry
  end.
End delta.
Arguments delta_row : clear implicits.
Arguments arc_row : clear implicits.
