(* ===== verification/CounterDeltaSpec.v ===== *)
(** Differences and rates do not depend on how a file is cut into windows, and the wrap
    correction recovers the true increment of a counter. *)
From S2P Require Import Prelude PyDict PyStr CounterDelta.
From Stdlib Require Import Ascii SpecFloat.
Local Open Scope Z_scope.

(** ** The order of the groups *)

Lemma str_le_refl a : str_le a a = true.
Proof. induction a as [|x a IH]; simpl; [done|]. rewrite IH, Nat.eqb_refl. by rewrite orb_true_r. Qed.

Lemma str_le_total a b : str_le a b = true \/ str_le b a = true.
Proof.
  revert b. induction a as [|x a IH]; intros [|y b]; simpl; auto.
  destruct (Nat.lt_trichotomy (nat_of_ascii x) (nat_of_ascii y)) as [H|[H|H]].
  - left. by rewrite (proj2 (Nat.ltb_lt _ _) H).
  - rewrite H, Nat.eqb_refl, Nat.ltb_irrefl. simpl. apply IH.
  - right. by rewrite (proj2 (Nat.ltb_lt _ _) H).
Qed.

Lemma str_le_trans a b c : str_le a b = true -> str_le b c = true -> str_le a c = true.
Proof.
  revert b c. induction a as [|x a IH]; intros [|y b] [|z c]; simpl; try done.
  rewrite !orb_true_iff, !andb_true_iff, !Nat.ltb_lt, !Nat.eqb_eq. intros [?|[? ?]] [?|[? ?]]; [left; lia|left; lia|left; lia|].
  right. split; [congruence|eauto].
Qed.

Lemma str_le_antisym a b : str_le a b = true -> str_le b a = true -> a = b.
Proof.
  revert b. induction a as [|x a IH]; intros [|y b]; simpl; try done.
  rewrite !orb_true_iff, !andb_true_iff, !Nat.ltb_lt, !Nat.eqb_eq. intros [?|[E ?]] [?|[? ?]]; try lia.
  f_equal; [|by apply IH]. rewrite <- (ascii_nat_embedding x), <- (ascii_nat_embedding y). by rewrite E.
Qed.

Lemma str_lt_spec a b : str_lt a b = true <-> str_le a b = true /\ a <> b.
Proof. unfold str_lt. rewrite andb_true_iff, negb_true_iff, String.eqb_neq. done. Qed.

Lemma str_cases a b : str_lt a b = true \/ a = b \/ str_lt b a = true.
Proof.
  rewrite !str_lt_spec. destruct (decide (a = b)); [auto|]. destruct (str_le_total a b); [left|right; right]; split; congruence.
Qed.

Lemma str_lt_trans a b c : str_lt a b = true -> str_lt b c = true -> str_lt a c = true.
Proof.
  rewrite !str_lt_spec. intros [H1 N1] [H2 N2]. split; [by eapply str_le_trans|]. intros ->. apply N1. by apply str_le_antisym.
Qed.

(** Lexicographic combination of a strict order and an order. *)
Section lex.
Context {T : Type} (le : T -> T -> bool).
Definition lex_le (x y : string * T) : bool := str_lt x.1 y.1 || (String.eqb x.1 y.1 && le x.2 y.2).

Lemma lex_le_iff x y : lex_le x y = true <-> str_lt x.1 y.1 = true \/ (x.1 = y.1 /\ le x.2 y.2 = true).
Proof. unfold lex_le. by rewrite orb_true_iff, andb_true_iff, String.eqb_eq. Qed.

Lemma lex_total : (forall x y, le x y = true \/ le y x = true) -> forall x y, lex_le x y = true \/ lex_le y x = true.
Proof. intros Hl x y. rewrite !lex_le_iff. destruct (str_cases x.1 y.1) as [|[E|]]; auto. destruct (Hl x.2 y.2); auto. Qed.

Lemma lex_trans :
  (forall x y z, le x y = true -> le y z = true -> le x z = true) ->
  forall x y z, lex_le x y = true -> lex_le y z = true -> lex_le x z = true.
Proof.
  intros Hl x y z. rewrite !lex_le_iff. intros [H1|[E1 H1]] [H2|[E2 H2]]; [left; by eapply str_lt_trans|left; congruence|left; congruence|].
  right. split; [congruence|eauto].
Qed.

Lemma lex_antisym :
  (forall x y, le x y = true -> le y x = true -> x = y) -> forall x y, lex_le x y = true -> lex_le y x = true -> x = y.
Proof.
  intros Hl [a x] [b y]. rewrite !lex_le_iff. simpl. intros [H1|[-> H1]] [H2|[E2 H2]].
  - apply str_lt_spec in H1 as [H1 N]. apply str_lt_spec in H2 as [H2 _]. destruct N. by apply str_le_antisym.
  - subst. apply str_lt_spec in H1 as [_ []]. done.
  - apply str_lt_spec in H2 as [_ []]. done.
  - f_equal. auto.
Qed.
End lex.

Definition nest (g : group) : string * (string * (string * string)) := let '(a, b, c, d) := g in (a, (b, (c, d))).

Lemma group_le_lex g h : group_le g h = lex_le (lex_le (lex_le str_le)) (nest g) (nest h).
Proof. destruct g as [[[a b] c] d], h as [[[a' b'] c'] d']. done. Qed.

Lemma group_le_total g h : group_le g h = true \/ group_le h g = true.
Proof. rewrite !group_le_lex. apply lex_total. apply lex_total. apply lex_total, str_le_total. Qed.

Lemma group_le_trans g h i : group_le g h = true -> group_le h i = true -> group_le g i = true.
Proof. rewrite !group_le_lex. apply lex_trans. apply lex_trans. apply lex_trans, str_le_trans. Qed.

Lemma group_le_antisym g h : group_le g h = true -> group_le h g = true -> g = h.
Proof.
  rewrite !group_le_lex. intros H1 H2. assert (nest g = nest h) as E.
  { revert H1 H2. apply lex_antisym. apply lex_antisym. apply lex_antisym, str_le_antisym. }
  destruct g as [[[a b] c] d], h as [[[a' b'] c'] d']. by injection E as -> -> -> ->.
Qed.

(** ** Scans, group by group *)

Section scan.
Context {R A B : Type} (key : R -> group) (keep : R -> A).
Context (first : option A -> R -> B) (next : A -> R -> B).

(** One group alone. *)
Fixpoint walk (prev : option A) (rows : list R) : list B :=
  match rows with
  | [] => []
  | r :: rows => first prev r :: walk (Some (keep r)) rows
  end.

Lemma walk_app prev l l' : walk prev (l ++ l') = walk prev l ++ walk (match last l with Some r => Some (keep r) | None => prev end) l'.
Proof.
  revert prev. induction l as [|r l IH]; intros prev; [done|].
  change ((r :: l) ++ l') with (r :: (l ++ l')). cbn [walk]. rewrite IH. cbn [app]. do 3 f_equal.
  rewrite last_cons. by destruct (last l).
Qed.

Definition grouped (rows : list R) : Prop := StronglySorted (fun r s => group_le (key r) (key s) = true) rows.
Abbreviation in_group g := (filter (fun r => key r = g)).
Context (key_of_out : B -> group) (Hout : forall p r, key_of_out (first p r) = key r).
Context (good : R -> Prop) (Hgood : forall s r, good s -> good r -> first (Some (keep s)) r = next (keep s) r).

Lemma out_of_group g r b l : key_of_out b = key r -> filter (fun x => key_of_out x = g) (b :: l) =
  if decide (key r = g) then b :: filter (fun x => key_of_out x = g) l else filter (fun x => key_of_out x = g) l.
Proof. intros E. rewrite filter_cons. rewrite <- E. done. Qed.

(** Before a sorted rest: the row before it is in its first group, or in none it has. *)
Lemma scan_group carry prev g rows :
  grouped rows -> Forall good rows ->
  match prev with Some (g0, a) => (exists s, good s /\ keep s = a /\ key s = g0) /\ Forall (fun r => group_le g0 (key r) = true) rows
                | None => True end ->
  filter (fun x => key_of_out x = g) (scan key keep first next carry prev rows) =
    walk (match prev with Some (g0, a) => if decide (g0 = g) then Some a else carry !! g | None => carry !! g end) (in_group g rows).
Proof.
  revert prev. induction rows as [|r rows IH]; intros prev Hs Hg Hp; simpl; [done|].
  apply StronglySorted_inv in Hs as [Hs Hr]. apply Forall_cons in Hg as [Hgr Hg].
  assert (Hb : match prev with Some (g0, a) => if decide (g0 = key r) then next a r else first (carry !! key r) r
                             | None => first (carry !! key r) r end =
               first (match prev with Some (g0, a) => if decide (g0 = key r) then Some a else carry !! key r | None => carry !! key r end) r).
  { destruct prev as [[g0 a]|]; [|done]. case_decide; [|done]. destruct Hp as [(s & Hsg & <- & _) _]. by rewrite Hgood. }
  rewrite Hb. rewrite (out_of_group g r) by apply Hout. rewrite filter_cons.
  rewrite IH; [|done|done|split; [by exists r|done]]. destruct (decide (key r = g)) as [E|E]; [by subst g|].
  destruct prev as [[g0 a]|]; [|done]. destruct (decide (g0 = g)) as [->|]; [|done]. destruct Hp as [_ [Hle Hall]%Forall_cons].
  (* the group of the row before has no row left *)
  assert (in_group g rows = []) as ->; [|done]. apply filter_nothing. intros s Hin <-. rewrite Forall_forall in Hr.
  apply E, group_le_antisym; [by apply Hr|done].
Qed.

(** The carry then holds the last row of each group. *)
Lemma carry_on_lookup carry g rows :
  grouped rows ->
  carry_on key keep carry rows !! g = match last (in_group g rows) with Some r => Some (keep r) | None => carry !! g end.
Proof using key keep.
  clear Hout Hgood good key_of_out first next B. unfold carry_on. revert carry. induction rows as [|r rows IH]; intros carry Hs; [done|].
  apply StronglySorted_inv in Hs as [Hs Hr]. rewrite filter_cons.
  destruct rows as [|r' rows]; [simpl; rewrite dict_lookup_insert; by repeat case_decide|].
  cbn [group_lasts]. destruct (decide (key r = key r')) as [E|E].
  - rewrite IH by done. case_decide as Eg; [|done]. rewrite last_cons.
    destruct (last (in_group g (r' :: rows))) eqn:El; [done|]. apply last_None in El. rewrite filter_cons, decide_True in El by congruence. done.
  - cbn [foldl]. rewrite IH by done. rewrite dict_lookup_insert. case_decide as Eg; [|done]. rewrite last_cons.
    assert (in_group g (r' :: rows) = []) as ->; [|done]. apply filter_nothing. intros s Hin Es. rewrite Forall_forall in Hr.
    apply E, group_le_antisym; [apply Hr; set_solver|]. rewrite Eg, <- Es. apply elem_of_cons in Hin as [->|Hin].
    + destruct (group_le_total (key r') (key r')); done.
    + apply StronglySorted_inv in Hs as [_ Hs]. rewrite Forall_forall in Hs. by apply Hs.
Qed.
End scan.

(** ** Differences *)

(** Finite floats are ordered. *)
Class FloatOrder (F : Type) `{FloatArith F} := {
  f_le_total x y : f_finite x = true -> f_finite y = true -> f_le x y = true \/ f_le y x = true;
  f_le_trans x y z : f_finite x = true -> f_finite y = true -> f_finite z = true -> f_le x y = true -> f_le y z = true -> f_le x z = true;
}.

Section delta.
Context {F : Type} `{FloatOrder F}.
Implicit Types (r s : delta_row F) (rows : list (delta_row F)).

Definition finite_row r : Prop := f_finite (dr_time r) = true /\ f_finite (dr_value r) = true.

Lemma row_le_total r s : finite_row r -> finite_row s -> row_le r s = true \/ row_le s r = true.
Proof.
  intros [Hr _] [Hs _]. unfold row_le. destruct (decide (dr_group r = dr_group s)) as [E|E].
  - rewrite decide_True by done. by apply f_le_total.
  - rewrite decide_False by done. apply group_le_total.
Qed.

Lemma row_le_group r s : row_le r s = true -> group_le (dr_group r) (dr_group s) = true.
Proof.
  unfold row_le. case_decide as E; [intros _; rewrite E|done]. by destruct (group_le_total (dr_group s) (dr_group s)).
Qed.

Lemma row_le_trans r s t : finite_row r -> finite_row s -> finite_row t -> row_le r s = true -> row_le s t = true -> row_le r t = true.
Proof.
  intros [Hr _] [Hs _] [Ht _] H1 H2. pose proof (row_le_group _ _ H1) as G1. pose proof (row_le_group _ _ H2) as G2. unfold row_le in *.
  destruct (decide (dr_group r = dr_group t)) as [E|E]; [|by eapply group_le_trans].
  assert (dr_group r = dr_group s) as Es by (apply group_le_antisym; [done|by rewrite E]).
  rewrite decide_True in H1 by done. rewrite decide_True in H2 by congruence. by apply (f_le_trans (dr_time r) (dr_time s) (dr_time t)).
Qed.

Abbreviation sorted := (StronglySorted (fun r s => row_le r s = true)).

Lemma insert_row_elem r rows s : s ∈ insert_row r rows <-> s = r \/ s ∈ rows.
Proof. induction rows as [|t rows IH]; simpl; [set_solver|]. destruct (row_le r t); [set_solver|]. rewrite elem_of_cons, IH. set_solver. Qed.

Lemma sort_rows_elem rows s : s ∈ sort_rows rows <-> s ∈ rows.
Proof. induction rows as [|t rows IH]; simpl; [done|]. rewrite insert_row_elem, IH. set_solver. Qed.

Lemma insert_row_sorted r rows : finite_row r -> Forall finite_row rows -> sorted rows -> sorted (insert_row r rows).
Proof.
  intros Hr. induction rows as [|t rows IH]; intros Hf Hs; simpl; [by repeat constructor|].
  apply Forall_cons in Hf as [Ht Hf]. apply StronglySorted_inv in Hs as [Hs Hall]. destruct (row_le r t) eqn:E.
  - constructor; [by constructor|]. constructor; [done|]. rewrite Forall_forall in Hall, Hf |- *. intros s Hin.
    apply (row_le_trans r t s); auto.
  - constructor; [by apply IH|]. apply Forall_forall. intros s [->|Hin]%insert_row_elem.
    + destruct (row_le_total r t Hr Ht); [congruence|done].
    + rewrite Forall_forall in Hall. auto.
Qed.

Lemma sort_rows_sorted rows : Forall finite_row rows -> sorted (sort_rows rows).
Proof.
  induction 1 as [|r rows Hr Hrows IH]; simpl; [constructor|]. apply insert_row_sorted; [done| |done].
  rewrite Forall_forall in Hrows |- *. intros s. rewrite sort_rows_elem. auto.
Qed.

Lemma sorted_grouped rows : sorted rows -> grouped dr_group rows.
Proof. unfold grouped. induction 1 as [|r rows _ IH Hall]; constructor; [done|]. eapply Forall_impl; [exact Hall|]. apply row_le_group. Qed.

Abbreviation in_group g := (filter (fun r => dr_group r = g)).

Lemma insert_row_filter g r rows :
  finite_row r -> Forall finite_row rows -> sorted rows ->
  in_group g (insert_row r rows) = if decide (dr_group r = g) then insert_row r (in_group g rows) else in_group g rows.
Proof.
  intros Hr. induction rows as [|t rows IH]; intros Hf Hs; simpl; [rewrite filter_cons; by case_decide|].
  apply Forall_cons in Hf as [Ht Hf]. apply StronglySorted_inv in Hs as [Hs Hall]. rewrite (filter_cons _ t).
  destruct (row_le r t) eqn:E.
  - rewrite !filter_cons. destruct (decide (dr_group r = g)) as [Er|Er]; [|done].
    destruct (decide (dr_group t = g)) as [Et|Et]; [simpl; by rewrite E|].
    assert (Hle : Forall (fun s => row_le r s = true) (in_group g rows)).
    { rewrite Forall_forall in Hall, Hf |- *. intros s [_ Hin]%list_elem_of_filter. apply (row_le_trans r t s); auto. }
    destruct (in_group g rows) as [|s l]; [done|]. simpl. by rewrite (Forall_inv Hle).
  - rewrite filter_cons, IH by done. destruct (decide (dr_group r = g)) as [Er|Er]; [|done].
    destruct (decide (dr_group t = g)) as [Et|Et]; [|done]. simpl. by rewrite E.
Qed.

Lemma sort_rows_filter g rows : Forall finite_row rows -> in_group g (sort_rows rows) = sort_rows (in_group g rows).
Proof.
  induction 1 as [|r rows Hr Hrows IH]; simpl; [done|].
  rewrite insert_row_filter; [|done| |by apply sort_rows_sorted].
  - rewrite filter_cons, IH. by case_decide.
  - rewrite Forall_forall in Hrows |- *. intros s. rewrite sort_rows_elem. auto.
Qed.

Lemma sort_rows_app rows rows' :
  (forall r s, r ∈ rows -> s ∈ rows' -> row_le r s = true) -> sort_rows (rows ++ rows') = sort_rows rows ++ sort_rows rows'.
Proof.
  induction rows as [|r rows IH]; intros Hle; [done|]. simpl. rewrite IH by set_solver.
  assert (Hr : forall s, s ∈ sort_rows rows' -> row_le r s = true) by (intros s; rewrite sort_rows_elem; set_solver).
  clear Hle IH. induction (sort_rows rows) as [|t l IH]; simpl.
  - destruct (sort_rows rows') as [|s l']; [done|]. simpl. by rewrite Hr by set_solver.
  - destruct (row_le r t); [done|]. by rewrite IH.
Qed.

(** Later windows do not go back in time within a group. *)
Definition in_time_order (chunks : list (list (delta_row F))) : Prop :=
  forall i j ci cj r s, (i < j)%nat -> chunks !! i = Some ci -> chunks !! j = Some cj -> r ∈ ci -> s ∈ cj ->
    dr_group r = dr_group s -> f_le (dr_time r) (dr_time s) = true.

Lemma in_time_order_cons rows chunks : in_time_order (rows :: chunks) -> in_time_order chunks.
Proof. intros Hc i j ci cj r s Hij Hi Hj. apply (Hc (S i) (S j)); [lia|done|done]. Qed.

Abbreviation walk_deltas := (walk dr_value first_delta).

Lemma apply_deltas_group carry g rows :
  Forall finite_row rows ->
  filter (fun x => dr_group x.1 = g) (apply_counter_deltas rows carry).1 = walk_deltas (carry !! g) (sort_rows (in_group g rows)) /\
  (apply_counter_deltas rows carry).2 !! g =
    match last (sort_rows (in_group g rows)) with Some r => Some (dr_value r) | None => carry !! g end.
Proof.
  intros Hf. pose proof (sort_rows_sorted rows Hf) as Hs. unfold apply_counter_deltas. simpl. rewrite <- sort_rows_filter by done. split.
  - apply (scan_group dr_group dr_value first_delta next_delta (fun x => dr_group x.1)) with (good := finite_row) (prev := None);
      [done| |by apply sorted_grouped| |done].
    + intros s r [_ Hv] _. unfold first_delta, next_delta. by rewrite Hv.
    + rewrite Forall_forall in Hf |- *. intros s. rewrite sort_rows_elem. auto.
  - apply carry_on_lookup. by apply sorted_grouped.
Qed.

Lemma chunk_deltas_group chunks carry g :
  Forall finite_row (concat chunks) -> in_time_order chunks ->
  filter (fun x => dr_group x.1 = g) (chunk_deltas chunks carry) = walk_deltas (carry !! g) (sort_rows (in_group g (concat chunks))).
Proof.
  revert carry. induction chunks as [|rows chunks IH]; intros carry Hf Ht; [done|]. cbn [chunk_deltas concat].
  simpl in Hf. apply Forall_app in Hf as [Hr Hf]. destruct (apply_deltas_group carry g rows Hr) as [E1 E2].
  destruct (apply_counter_deltas rows carry) as [out carry']. cbn [fst snd] in E1, E2. rewrite !filter_app, E1.
  rewrite IH, E2 by (done || by eapply in_time_order_cons). rewrite sort_rows_app, walk_app; [done|].
  intros r s [Er Hin]%list_elem_of_filter [Es Hin']%list_elem_of_filter. unfold row_le. rewrite decide_True by congruence.
  apply elem_concat in Hin' as (c & Hsc & [j Hj]%list_elem_of_lookup).
  apply (Ht 0%nat (S j) rows c r s); [lia|done|done|done|done|congruence].
Qed.

(** A file whose windows go forward in time has the same differences, counter by counter,
    however it is cut into windows: the carry is enough. *)
Theorem deltas_independent_of_windows chunks g :
  Forall finite_row (concat chunks) -> in_time_order chunks ->
  filter (fun x => dr_group x.1 = g) (chunk_deltas chunks ∅) =
    filter (fun x => dr_group x.1 = g) (apply_counter_deltas (concat chunks) ∅).1.
Proof. intros Hf Ht. rewrite chunk_deltas_group by done. by rewrite (proj1 (apply_deltas_group ∅ g _ Hf)). Qed.

End delta.

(** ** Rates *)

Section rates.
Context {F : Type} `{FloatArith F, !FloatDiv F}.
Context (nan_div : forall x, f_div f_nan x = f_nan).
Implicit Types (rows : list (arc_row F)).

Abbreviation arcs_in g := (filter (fun r : arc_row F => ar_group r = g)).
Abbreviation walk_arcs := (walk ar_time first_arc).

(** Every difference is a number or missing, and times are not too far apart to subtract. *)
Definition rateable (all : list (arc_row F)) : Prop :=
  forall r, r ∈ all -> (f_finite (ar_delta r) = true \/ ar_delta r = f_nan) /\
    forall s, s ∈ all -> f_finite (f_sub (ar_time r) (ar_time s)) = true.

Abbreviation whole_row := (fun x : arc_row F * F => not_nan (ar_time x.1) && not_nan (ar_value x.1) = true).

Lemma apply_arc_group all carry g rows :
  rateable all -> (forall r, r ∈ rows -> r ∈ all) -> grouped ar_group rows ->
  filter (fun x => ar_group x.1 = g) (apply_arc_and_finalize rows carry).1 = filter whole_row (walk_arcs (carry !! g) (arcs_in g rows)) /\
  (apply_arc_and_finalize rows carry).2 !! g = match last (arcs_in g rows) with Some r => Some (ar_time r) | None => carry !! g end.
Proof.
  intros Hall Hin Hs. unfold apply_arc_and_finalize. cbn [fst snd]. split; [|by apply carry_on_lookup].
  rewrite filter_comm. f_equal.
  apply (scan_group ar_group ar_time first_arc next_arc (fun x => ar_group x.1)) with (good := fun r => r ∈ all) (prev := None);
    [done| |done|by apply Forall_forall|done].
  intros s r Hs' Hr. unfold first_arc, next_arc. cbv zeta. f_equal. destruct (Hall r Hr) as [Hd Hf]. rewrite (Hf s Hs').
  destruct Hd as [-> | E]; [done|]. rewrite E. repeat case_match; try done; symmetry; apply nan_div.
Qed.

Lemma chunk_arcs_group all chunks carry g :
  rateable all -> (forall r, r ∈ concat chunks -> r ∈ all) -> Forall (grouped ar_group) chunks ->
  filter (fun x => ar_group x.1 = g) (chunk_arcs chunks carry) =
    filter whole_row (walk_arcs (carry !! g) (concat (arcs_in g <$> chunks))).
Proof.
  intros Hall. revert carry. induction chunks as [|rows chunks IH]; intros carry Hin Hs; [done|].
  apply Forall_cons in Hs as [Hr Hs]. cbn [chunk_arcs concat fmap list_fmap] in *.
  destruct (apply_arc_group all carry g rows Hall) as [E1 E2]; [set_solver|done|].
  destruct (apply_arc_and_finalize rows carry) as [out carry']. cbn [fst snd] in E1, E2. rewrite !filter_app, E1.
  rewrite IH, E2 by (done || set_solver). by rewrite walk_app, filter_app.
Qed.

(** [C35] The windows' frames are sorted and together have the whole frame's rows, group by
    group: then the rates are those of the whole frame. *)
Theorem rates_independent_of_windows whole chunks g :
  rateable whole -> grouped ar_group whole -> Forall (grouped ar_group) chunks ->
  (forall h, concat (arcs_in h <$> chunks) = arcs_in h whole) ->
  filter (fun x => ar_group x.1 = g) (chunk_arcs chunks ∅) = filter (fun x => ar_group x.1 = g) (apply_arc_and_finalize whole ∅).1.
Proof.
  intros Hall Hw Hc E. rewrite (chunk_arcs_group whole), E; [|done| |done].
  - by rewrite (proj1 (apply_arc_group whole ∅ g whole Hall (fun r Hr => Hr) Hw)).
  - intros r [c [Hrc Hcc]]%elem_concat. assert (r ∈ concat (arcs_in (ar_group r) <$> chunks)) as Hr.
    { apply elem_concat. exists (arcs_in (ar_group r) c). split; [by apply list_elem_of_filter|]. by apply list_elem_of_fmap_2. }
    rewrite E in Hr. by apply list_elem_of_filter in Hr as [_ ?].
Qed.
End rates.

(** ** Wrapped counters *)

Definition lift2 (f : Z -> Z -> Z) (x y : option Z) : option Z := a ← x; b ← y; Some (f a b).
Definition test2 (f : Z -> Z -> bool) (x y : option Z) : bool := match x, y with Some a, Some b => f a b | _, _ => false end.

(** Arithmetic where no operation rounds: whole numbers, and not-a-number. *)
#[export] Instance exact_arith : FloatArith (option Z) := {
  f_zero := Some 0;
  f_nan := None;
  f_add := lift2 Z.add;
  f_sub := lift2 Z.sub;
  f_mul := lift2 Z.mul;
  f_opp := fmap Z.opp;
  f_half := fmap Z.div2;
  f_pow2 w := Some (2 ^ w);
  f_lt := test2 Z.ltb;
  f_le := test2 Z.leb;
  f_finite x := match x with Some _ => true | None => false end;
}.

#[export] Instance exact_order : FloatOrder (option Z).
Proof.
  split; simpl.
  - intros [x|] [y|]; simpl; try done. intros _ _. rewrite !Z.leb_le. lia.
  - intros [x|] [y|] [z|]; simpl; try done. intros _ _ _. rewrite !Z.leb_le. lia.
Qed.


(** [in_time_order], decided. *)
Fixpoint time_order_check (chunks : list (list (delta_row (option Z)))) : bool :=
  match chunks with
  | [] => true
  | c :: chunks =>
      forallb (fun r => forallb (fun s => negb (bool_decide (dr_group r = dr_group s)) || f_le (dr_time r) (dr_time s)) (concat chunks)) c
      && time_order_check chunks
  end.

Lemma in_time_order_check chunks : time_order_check chunks = true -> in_time_order chunks.
Proof.
  induction chunks as [|c chunks IH]; intros Hc; [by intros ? ? ? ? ? ? ? ?|]. simpl in Hc. apply andb_true_iff in Hc as [Hc1 Hc2].
  intros [|i] [|j] ci cj r s Hij Hi Hj Hr Hs E; try lia; simpl in Hi, Hj; [|apply (IH Hc2 i j ci cj r s); auto; lia].
  injection Hi as <-. rewrite forallb_forall in Hc1. apply list_elem_of_In in Hr. specialize (Hc1 r Hr). rewrite forallb_forall in Hc1.
  specialize (Hc1 s). rewrite <- list_elem_of_In, elem_concat in Hc1. specialize (Hc1 (ex_intro _ cj (conj Hs (list_elem_of_lookup_2 _ _ _ Hj)))).
  rewrite bool_decide_true in Hc1 by done. done.
Qed.

(** ** On [float64] *)

Module DeltaDemo.

Definition of_Z (z : Z) : spec_float := binary_normalize 53 1024 z 0 false.

Definition spec_finite (x : spec_float) : bool := match x with S754_zero _ | S754_finite _ _ _ => true | _ => false end.

(** [float64]. *)
#[local] Instance binary64 : FloatArith spec_float := {
  f_zero := S754_zero false;
  f_nan := S754_nan;
  f_add := SFadd 53 1024;
  f_sub := SFsub 53 1024;
  f_mul := SFmul 53 1024;
  f_opp := SFopp;
  f_half := SFmul 53 1024 (SFdiv 53 1024 (of_Z 1) (of_Z 2));
  f_pow2 w := binary_normalize 53 1024 1 w false;
  f_lt := SFltb;
  f_le := SFleb;
  f_finite := spec_finite;
}.

(** A 48-bit counter that grew by 11 over its end. *)
Example wrap_48 : fix_wrap (of_Z 5) 48 (f_sub (of_Z 5) (of_Z (2 ^ 48 - 6))) = of_Z 11.
Proof. by vm_compute. Qed.

(** A 64-bit counter, the default width, that grew by 11 over its end: the value before
    is rounded to 2^64, and the wrap is taken for a reset. *)
Example wrap_64_lost : fix_wrap (of_Z 5) 64 (f_sub (of_Z 5) (of_Z (2 ^ 64 - 6))) = S754_nan.
Proof. by vm_compute. Qed.

(** ** Windows *)

Definition row (dev : string) (time value : Z) : delta_row (option Z) :=
  DeltaRow ("h", "cpu", dev, "user")%string "7" "#" (Some time) (Some value) 48 (Some 1).

Definition windows : list (list (delta_row (option Z))) :=
  [[row "0" 100 5; row "1" 100 7]; [row "0" 200 9; row "1" 200 (2 ^ 48 - 1)]; [row "1" 300 3; row "0" 300 4]].

Lemma deltas_independent_of_windows_witness :
  snd <$> filter (fun x => dr_group x.1 = ("h", "cpu", "1", "user")%string) (chunk_deltas windows ∅) = [None; Some (2 ^ 48 - 8); Some 4] /\
  filter (fun x => dr_group x.1 = ("h", "cpu", "1", "user")%string) (chunk_deltas windows ∅) =
    filter (fun x => dr_group x.1 = ("h", "cpu", "1", "user")%string) (apply_counter_deltas (concat windows) ∅).1.
Proof.
  split; [by vm_compute|]. refine (deltas_independent_of_windows windows _ _ _).
  - by repeat constructor.
  - apply in_time_order_check. by vm_compute.
Defined.


(** Whole quotients. *)
#[local] Instance exact_div : FloatDiv (option Z) := lift2 Z.div.

Definition rate_row (time delta : Z) : arc_row (option Z) := ArcRow ("h", "cpu", "", "user")%string "#" (Some time) (Some 1) (Some delta).

Lemma rates_independent_of_windows_witness :
  snd <$> filter (fun x => ar_group x.1 = ("h", "cpu", "", "user")%string)
    (apply_arc_and_finalize [rate_row 100 5; rate_row 200 800; rate_row 300 900] ∅).1 = [None; Some 8; Some 9] /\
  filter (fun x => ar_group x.1 = ("h", "cpu", "", "user")%string) (chunk_arcs [[rate_row 100 5]; [rate_row 200 800; rate_row 300 900]] ∅) =
    filter (fun x => ar_group x.1 = ("h", "cpu", "", "user")%string)
      (apply_arc_and_finalize [rate_row 100 5; rate_row 200 800; rate_row 300 900] ∅).1.
Proof.
  split; [by vm_compute|]. refine (rates_independent_of_windows _ _ _ _ _ _ _ _).
  - by intros x.
  - intros r Hr. rewrite !elem_of_cons, elem_of_nil in Hr. split; [left; naive_solver|].
    intros s Hs. rewrite !elem_of_cons, elem_of_nil in Hs. naive_solver.
  - by repeat constructor.
  - by repeat constructor.
  - intros h. simpl. rewrite !filter_cons, filter_nil. simpl. by case_decide.
Defined.

End DeltaDemo.
