(* ===== verification/WindowedIngest.v ===== *)
(** From a raw file to the differences of its counters: the parse in windows and the
    difference pass with its carry, composed as the ingest loop composes them. *)
From S2P Require Import Prelude PyDict PyStr Json StatsSchema StatsParser StatsRows StatsParserSpec CounterDelta CounterDeltaSpec.
Local Open Scope Z_scope.

Section ingest.
Context (py_float : string -> option pyfloat).
Context {F : Type} `{FloatOrder F} (to_float : pyfloat -> F).

(** A row of the frame [build_stats_dataframes] makes of the columns. *)
Definition frame_row (r : stat_row) : delta_row F :=
  DeltaRow (sr_host r, sr_type r, sr_dev r, sr_event r) (sr_jid r) (sr_unit r) (to_float (sr_time r)) (to_float (sr_value r))
    (sr_wid r) (to_float (sr_mult r)).

Definition chunk_frame (ch : chunk) : list (delta_row F) := frame_row <$> stats_payload_to_records ch.1.

Lemma concat_chunk_frames (chunks : list chunk) :
  concat (chunk_frame <$> chunks) = frame_row <$> concat ((fun ch => stats_payload_to_records ch.1) <$> chunks).
Proof. induction chunks as [|ch chunks IH]; [done|]. rewrite !fmap_cons. simpl concat. by rewrite fmap_app, IH. Qed.

(** [C11] A file whose values are finite and whose windows go forward in time gives, for each
    counter, the differences that parsing it whole gives. *)
Theorem windowed_deltas_of_file start excluded limit batches em rows procs g :
  parse_stats_file_streaming_incremental py_float start excluded limit batches = Ok em ->
  parse_stats_lines py_float start excluded (concat batches.*1) = Ok (rows, procs) ->
  Forall finite_row (frame_row <$> rows) -> in_time_order (chunk_frame <$> em_chunks em) ->
  filter (fun x => dr_group x.1 = g) (chunk_deltas (chunk_frame <$> em_chunks em) ∅) =
    filter (fun x => dr_group x.1 = g) (apply_counter_deltas (frame_row <$> rows) ∅).1.
Proof.
  intros Hem (p & Hp & [= <- <-])%result_bind_ok Hf Ht.
  pose proof (windows_of_file py_float start excluded limit batches) as Hw. rewrite Hem, Hp in Hw. destruct Hw as (Hrows & _ & _).
  cbn [finish fst] in Hrows. rewrite <- Hrows in Hf |- *. rewrite <- concat_chunk_frames in Hf |- *.
  rewrite (chunk_deltas_group (chunk_frame <$> em_chunks em)) by done. by rewrite (proj1 (apply_deltas_group ∅ g _ Hf)).
Qed.
End ingest.

(** ** A small file *)

Module IngestDemo.
Local Open Scope string_scope.

Definition demo_float (s : string) : option pyfloat := z ← py_int s; Some (FFin z 1).

Definition to_exact (x : pyfloat) : option Z := match x with FFin n 1 => Some n | _ => None end.

(** Two batches, a window per sample; the counter has 48 bits and wraps. *)
Definition batches : list (list string * Z) :=
  [(["!cpu user,W=48"; "100 7 h"; "cpu 0 5"; "cpu 1 7"; "200 7 h"], 40); (["cpu 0 281474976710655"; "cpu 1 9"; "300 7 h"; "cpu 0 3"], 90)]%Z.

Lemma windowed_deltas_of_file_witness :
  exists em rows procs,
    parse_stats_file_streaming_incremental demo_float 0 [] (FlushRows 1) batches = Ok em /\ length (em_chunks em) = 3%nat /\
    parse_stats_lines demo_float 0 [] (concat batches.*1) = Ok (rows, procs) /\
    snd <$> filter (fun x => dr_group x.1 = ("h", "cpu", "0", "user"))
      (chunk_deltas (chunk_frame to_exact <$> em_chunks em) ∅) = [None; Some 281474976710650; Some 4]%Z /\
    filter (fun x => dr_group x.1 = ("h", "cpu", "0", "user")) (chunk_deltas (chunk_frame to_exact <$> em_chunks em) ∅) =
      filter (fun x => dr_group x.1 = ("h", "cpu", "0", "user")) (apply_counter_deltas (frame_row to_exact <$> rows) ∅).1.
Proof.
  eexists _, _, _. split_and!; [by vm_compute..|].
  refine (windowed_deltas_of_file demo_float to_exact 0 [] (FlushRows 1) batches _ _ _ _ _ _ _ _).
  - by vm_compute.
  - by vm_compute.
  - by repeat constructor.
  - apply in_time_order_check. by vm_compute.
Defined.
End IngestDemo.
