(* ===== verification/IngestScore.v ===== *)
(** Ingest scores: the number that orders the ingest queue.

    Models the score functions of [dbload/lib/sync_timedb_job_store.py]
    ([encode_ingest_score], [penalize_ingest_score], [decode_ingest_band],
    [decode_catchup_calendar_day], [ingest_score_range], ...), the slot caps
    and the configuration floors, and [discover_ingest_capacity_limit] of
    [sync_timedb_job_discover.py].

    A score is held as a Python [float]; every score the code builds is an
    integer, and [encode_ingest_score_exact] shows it is below 2^53, where
    floats are exact, so scores are [Z] here.  A calendar day is its proleptic
    ordinal ([date.toordinal]).  [sha1] is the standard library's digest and
    a configuration getter is [option Z], [None] when it raises. *)
From S2P Require Import Prelude PyStr.
Local Open Scope Z_scope.

Definition HOT_SCORE_BASE : Z := 0.
Definition CATCHUP_SCORE_BASE : Z := 10 ^ 15.
Definition SCORE_STRIDE : Z := 10 ^ 6.
Definition INGEST_PENALTY_STEP : Z := SCORE_STRIDE / 4.
Definition JOB_ATTEMPT_MAX_DEFAULT : Z := 5.
Definition QUEUE_MAX_MEMBERS_FLOOR : Z := 1000.
Definition JOB_LEASE_TTL_FLOOR_S : Z := 60.
Definition INFLIGHT_REAP_GRACE_FLOOR_S : Z := 30.

(** ** Days *)

(** [date.max.toordinal()]. *)
Definition MAX_ORDINAL : Z := 3652059.

Definition valid_day (d : Z) : bool := (1 <=? d) && (d <=? MAX_ORDINAL).

(** [date.fromordinal], [None] for its [ValueError] / [OverflowError]. *)
Definition date_fromordinal (o : Z) : option Z := if valid_day o then Some o else None.

(** ** Score bounds *)

(** An inclusive score bound: a float that may be infinite. *)
Inductive bound := NegInf | Fin (z : Z) | PosInf.

#[export] Instance bound_eq_dec : EqDecision bound.
Proof. solve_decision. Defined.

Definition bound_le (a b : bound) : bool :=
  match a, b with
  | NegInf, _ => true
  | _, PosInf => true
  | Fin x, Fin y => x <=? y
  | _, _ => false
  end.

(** [lo <= score <= hi]. *)
Definition in_range (r : bound * bound) (s : Z) : bool := bound_le r.1 (Fin s) && bound_le (Fin s) r.2.

Definition ingest_score_range (band : string) : result (bound * bound) :=
  let text := py_lower (py_strip band) in
  if decide (text = "hot") then Ok (NegInf, Fin (CATCHUP_SCORE_BASE - 1))
  else if decide (text = "catchup") then Ok (Fin CATCHUP_SCORE_BASE, PosInf)
  else Raise ValueError.

(** A bound as a caller passes it: a number, a text, or nothing. *)
Inductive bound_arg := BNone | BText (s : string) | BNum (b : bound).

(** [py_float] is the [float] constructor on a text that is not one of the two
    infinities the code spells out. *)
Definition bound_to_float (py_float : string -> result bound) (value : bound_arg) (default : bound)
    : result bound :=
  match value with
  | BNone => Ok default
  | BText s =>
      if decide (s = "") then Ok default
      else if decide (s = "-inf") then Ok NegInf
      else if decide (s = "+inf") then Ok PosInf
      else py_float s
  | BNum b => Ok b
  end.

(** ** Encoding and decoding *)

Section with_sha1.
Variable sha1 : string -> list Z.

(** [int.from_bytes(bytes, "big")]. *)
Definition from_bytes_big (l : list Z) : Z := foldl (fun acc b => acc * 256 + b) 0 l.

Definition tie_break_from_identity (identity : string) : Z :=
  from_bytes_big (take 4 (sha1 identity)) mod SCORE_STRIDE.

Definition encode_ingest_score (band : string) (day today : Z) (identity : string) : result Z :=
  let tie := tie_break_from_identity identity in
  let text := py_lower (py_strip band) in
  if decide (text = "hot") then
    let raw := HOT_SCORE_BASE + (today - day) * SCORE_STRIDE + tie in
    Ok (Z.max HOT_SCORE_BASE raw)
  else if decide (text = "catchup") then
    Ok (CATCHUP_SCORE_BASE + day * SCORE_STRIDE + tie)
  else Raise ValueError.
End with_sha1.

Definition penalize_ingest_score (score : option Z) : Z :=
  let value := default CATCHUP_SCORE_BASE score in
  let last_in_day := value - value mod SCORE_STRIDE + SCORE_STRIDE - 1 in
  Z.min (value + INGEST_PENALTY_STEP) last_in_day.

Definition decode_ingest_band (score : Z) : string :=
  if score <? CATCHUP_SCORE_BASE then "hot" else "catchup".

Definition decode_catchup_calendar_day (score : Z) : option Z :=
  if decide (decode_ingest_band score = "catchup")
  then date_fromordinal ((score - CATCHUP_SCORE_BASE) / SCORE_STRIDE)
  else None.

(** ** Capacities and configuration floors *)

(** [int(cfg.get_...())], the default when the getter raises. *)
Definition cfg_int (cfg : option Z) (dflt : Z) : Z := default dflt cfg.

Definition job_lease_ttl_seconds (cfg : option Z) : Z :=
  let raw := cfg_int cfg 86400 in
  if raw <? JOB_LEASE_TTL_FLOOR_S then JOB_LEASE_TTL_FLOOR_S else raw.

Definition queue_capacity_limit (cfg : option Z) : Z :=
  Z.max QUEUE_MAX_MEMBERS_FLOOR (cfg_int cfg 2000000).

Definition discover_ingest_capacity_limit (members ingest : option Z) : Z :=
  Z.min (queue_capacity_limit members) (Z.max 1 (cfg_int ingest 50000)).

Definition job_max_attempts (cfg : option Z) : Z :=
  Z.max 1 (cfg_int cfg JOB_ATTEMPT_MAX_DEFAULT).

Definition ingest_band_slot_caps (pool_size : Z) : result (Z * Z) :=
  let pool := pool_size in
  if pool <? 1 then Raise ValueError
  else if pool =? 1 then Ok (1, 0)
  else
    let hot_cap := Z.max 1 ((2 * pool) / 3) in
    let catchup_cap := pool - hot_cap in
    if catchup_cap <? 1 then Ok (pool - 1, 1) else Ok (hot_cap, catchup_cap).

Definition ingest_claim_probe_depth (hot_q pool : option Z) : Z :=
  let base := 8 in
  if num_or hot_q 0 <=? num_or pool 1 then base
  else
    let elevated := Z.max base (default 0 hot_q / Z.max 1 (default 1 pool)) in
    Z.min 64 elevated.

(** ** Lemmas *)

(** The slot of a score: one calendar day inside a band. *)
Definition score_slot (s : Z) : Z := s / SCORE_STRIDE.

(** Replaces the constants by numerals, so that [lia] sees them. *)
Ltac score_lia :=
  unfold score_slot, penalize_ingest_score in *; simpl default in *;
  change CATCHUP_SCORE_BASE with 1000000000000000 in *;
  change SCORE_STRIDE with 1000000 in *;
  change INGEST_PENALTY_STEP with 250000 in *;
  change HOT_SCORE_BASE with 0 in *;
  change MAX_ORDINAL with 3652059 in *;
  Z.to_euclidean_division_equations; lia.

Lemma stride_divides_base : CATCHUP_SCORE_BASE = 10 ^ 9 * SCORE_STRIDE.
Proof. reflexivity. Qed.

Lemma band_cases s :
  s < CATCHUP_SCORE_BASE /\ decode_ingest_band s = "hot" \/
  CATCHUP_SCORE_BASE <= s /\ decode_ingest_band s = "catchup".
Proof. unfold decode_ingest_band. destruct (Z.ltb_spec s CATCHUP_SCORE_BASE); auto. Qed.

Lemma band_slot s t :
  score_slot s = score_slot t -> decode_ingest_band s = decode_ingest_band t.
Proof.
  intros E. destruct (band_cases s) as [[Hs ->]|[Hs ->]], (band_cases t) as [[Ht ->]|[Ht ->]];
    try done; exfalso; score_lia.
Qed.

Lemma decode_day_slot s t :
  score_slot s = score_slot t ->
  decode_catchup_calendar_day s = decode_catchup_calendar_day t.
Proof.
  intros E. unfold decode_catchup_calendar_day. rewrite (band_slot s t E).
  case_decide; [|done]. f_equal. rewrite stride_divides_base.
  unfold score_slot in E. rewrite <- !Z.add_opp_r, <- !Z.mul_opp_l.
  rewrite !Z.div_add by done. by rewrite E.
Qed.

Lemma penalize_slot s : score_slot (penalize_ingest_score (Some s)) = score_slot s.
Proof. score_lia. Qed.

Lemma penalize_ge s : s <= penalize_ingest_score (Some s).
Proof. score_lia. Qed.

(** [n] penalties in a row. *)
Definition penalize_n (n : nat) (s : Z) : Z := Nat.iter n (fun s => penalize_ingest_score (Some s)) s.

Lemma penalize_n_slot n s : score_slot (penalize_n n s) = score_slot s.
Proof. induction n as [|n IH]; [done|]. simpl. by rewrite penalize_slot. Qed.

Lemma score_slot_lt s t : score_slot s < score_slot t -> s < t.
Proof. intros. score_lia. Qed.

Lemma tie_break_range sha1 i : 0 <= tie_break_from_identity sha1 i < SCORE_STRIDE.
Proof. apply Z.mod_pos_bound. done. Qed.

Lemma encode_catchup_slot sha1 d today i s :
  encode_ingest_score sha1 "catchup" d today i = Ok s -> score_slot s = 10 ^ 9 + d.
Proof.
  unfold encode_ingest_score. rewrite decide_False by done. rewrite decide_True by done.
  intros [= <-]. unfold score_slot. pose proof (tie_break_range sha1 i).
  symmetry. apply Z.div_unique with (tie_break_from_identity sha1 i); [by left|].
  rewrite stride_divides_base. lia.
Qed.

Lemma decode_day_Some s d :
  decode_catchup_calendar_day s = Some d ->
  decode_ingest_band s = "catchup" /\ d = (s - CATCHUP_SCORE_BASE) / SCORE_STRIDE /\ valid_day d = true.
Proof.
  unfold decode_catchup_calendar_day, date_fromordinal. case_decide; [|done].
  destruct (valid_day _) eqn:E; [|done]. by intros [= <-].
Qed.

Lemma decode_day_mono s t d e :
  s <= t -> decode_catchup_calendar_day s = Some d -> decode_catchup_calendar_day t = Some e -> d <= e.
Proof.
  intros Hle (_ & -> & _)%decode_day_Some (_ & -> & _)%decode_day_Some.
  apply Z.div_le_mono; [done|lia].
Qed.

Section score_properties.
Variable sha1 : string -> list Z.

Lemma encode_catchup_ok d today i :
  encode_ingest_score sha1 "catchup" d today i =
    Ok (CATCHUP_SCORE_BASE + d * SCORE_STRIDE + tie_break_from_identity sha1 i).
Proof. reflexivity. Qed.

Lemma encode_hot_ok d today i :
  encode_ingest_score sha1 "hot" d today i =
    Ok (Z.max HOT_SCORE_BASE (HOT_SCORE_BASE + (today - d) * SCORE_STRIDE + tie_break_from_identity sha1 i)).
Proof. reflexivity. Qed.

Lemma valid_day_bounds d : valid_day d = true -> 1 <= d <= MAX_ORDINAL.
Proof. unfold valid_day. rewrite andb_true_iff, !Z.leb_le. done. Qed.

Lemma slot_day s : (s - CATCHUP_SCORE_BASE) / SCORE_STRIDE = score_slot s - 10 ^ 9.
Proof. score_lia. Qed.

Lemma decode_of_slot s d :
  valid_day d = true -> score_slot s = 10 ^ 9 + d ->
  decode_ingest_band s = "catchup" /\ decode_catchup_calendar_day s = Some d.
Proof.
  intros Hd Hs. pose proof (valid_day_bounds d Hd).
  assert (decode_ingest_band s = "catchup") as Hb.
  { destruct (band_cases s) as [[Hlt _]|[_ E]]; [exfalso; score_lia|done]. }
  split; [done|]. unfold decode_catchup_calendar_day. rewrite decide_True by done.
  rewrite slot_day, Hs. replace (10 ^ 9 + d - 10 ^ 9) with d by lia. unfold date_fromordinal. by rewrite Hd.
Qed.

(** Backfill round trip: the score of a calendar day decodes to the backfill band and
    to that day, whatever the identity, and still does after any number of penalties. *)
Theorem catchup_score_roundtrip d today i s n :
  valid_day d = true -> encode_ingest_score sha1 "catchup" d today i = Ok s ->
  decode_ingest_band (penalize_n n s) = "catchup" /\ decode_catchup_calendar_day (penalize_n n s) = Some d.
Proof.
  intros Hd Hs. apply decode_of_slot; [done|]. rewrite penalize_n_slot. by eapply encode_catchup_slot.
Qed.

(** Oldest day first, for good: no number of penalties moves a file of an older day
    behind a file of a younger one, and penalties only defer inside a day. *)
Theorem penalties_keep_day_order d e today i j s t n m :
  d < e -> encode_ingest_score sha1 "catchup" d today i = Ok s ->
  encode_ingest_score sha1 "catchup" e today j = Ok t ->
  penalize_n n s < penalize_n m t /\ s <= penalize_n n s.
Proof.
  intros Hlt Hs%encode_catchup_slot Ht%encode_catchup_slot. split.
  - apply score_slot_lt. rewrite !penalize_n_slot. lia.
  - clear. induction n as [|n IH]; simpl; [lia|]. etrans; [exact IH|apply penalize_ge].
Qed.

(** The hot band: a live file's score is non-negative and hot, also after penalties,
    so it sorts before all backfill; and of two live days the newer comes first. *)
Theorem hot_scores_newest_first d e today i j s t n :
  valid_day today = true -> valid_day d = true -> d < e <= today ->
  encode_ingest_score sha1 "hot" d today i = Ok s -> encode_ingest_score sha1 "hot" e today j = Ok t ->
  0 <= t < s /\ decode_ingest_band (penalize_n n s) = "hot".
Proof.
  intros Hto%valid_day_bounds Hd%valid_day_bounds Hlt. rewrite !encode_hot_ok. intros [= <-] [= <-].
  pose proof (tie_break_range sha1 i) as Ti. pose proof (tie_break_range sha1 j) as Tj.
  set (x := tie_break_from_identity sha1 i) in *. set (y := tie_break_from_identity sha1 j) in *.
  split; [score_lia|].
  rewrite (band_slot _ _ (penalize_n_slot n _)).
  match goal with |- decode_ingest_band ?v = _ => destruct (band_cases v) as [[_ E]|[Hge _]] end; [done|].
  exfalso. score_lia.
Qed.

(** Every score of a valid day is a non-negative integer below 2^53, so the [float]
    the code stores is exact, also after a penalty. *)
Theorem encode_ingest_score_exact band d today i s :
  valid_day d = true -> valid_day today = true -> encode_ingest_score sha1 band d today i = Ok s ->
  0 <= s < 2 ^ 53 /\ 0 <= penalize_ingest_score (Some s) < 2 ^ 53.
Proof.
  intros Hd%valid_day_bounds Hto%valid_day_bounds. unfold encode_ingest_score.
  pose proof (tie_break_range sha1 i) as Ti. set (x := tie_break_from_identity sha1 i) in *.
  change (2 ^ 53) with 9007199254740992. repeat case_decide; intros [= <-]; score_lia.
Qed.
End score_properties.

(** The worker slots of a pool are all handed out: every pool of at least one worker
    gets at least one hot slot, a pool of two or more at least one backfill slot, and
    the slots add up to the pool; an empty pool is refused. *)
Theorem band_slots_partition pool :
  match ingest_band_slot_caps pool with
  | Ok (h, c) => 1 <= pool /\ 1 <= h /\ h + c = pool /\ (2 <= pool -> 1 <= c) /\ (3 <= pool -> c <= h)
  | Raise e => pool < 1 /\ e = ValueError
  end.
Proof.
  unfold ingest_band_slot_caps. destruct (Z.ltb_spec pool 1); [done|].
  destruct (Z.eqb_spec pool 1); [lia|].
  assert (0 <= (2 * pool) / 3 < pool) as Hb by (Z.to_euclidean_division_equations; lia).
  assert (3 <= pool -> pool - (2 * pool) / 3 <= (2 * pool) / 3) as Hc by (Z.to_euclidean_division_equations; lia).
  destruct (Z.ltb_spec (pool - Z.max 1 ((2 * pool) / 3)) 1); lia.
Qed.

(** ** Concrete instances *)

Definition demo_sha1 (s : string) : list Z := [1; 2; 3; Z.of_nat (String.length s)].

Lemma catchup_score_roundtrip_witness :
  let s := CATCHUP_SCORE_BASE + 738000 * SCORE_STRIDE + tie_break_from_identity demo_sha1 "/raw/a" in
  decode_ingest_band (penalize_n 5 s) = "catchup" /\ decode_catchup_calendar_day (penalize_n 5 s) = Some 738000.
Proof. apply (catchup_score_roundtrip demo_sha1 738000 738010 "/raw/a" _ 5); reflexivity. Defined.

Lemma penalties_keep_day_order_witness :
  let s := CATCHUP_SCORE_BASE + 738000 * SCORE_STRIDE + tie_break_from_identity demo_sha1 "/raw/a" in
  let t := CATCHUP_SCORE_BASE + 738001 * SCORE_STRIDE + tie_break_from_identity demo_sha1 "/raw/b" in
  penalize_n 9 s < penalize_n 0 t /\ s <= penalize_n 9 s.
Proof. apply (penalties_keep_day_order demo_sha1 738000 738001 738010 "/raw/a" "/raw/b" _ _ 9 0); [lia|reflexivity..]. Defined.

Lemma hot_scores_newest_first_witness :
  exists s t, 0 <= t < s /\ decode_ingest_band (penalize_n 3 s) = "hot".
Proof.
  eexists _, _. apply (hot_scores_newest_first demo_sha1 738000 738001 738002 "/raw/a" "/raw/b" _ _ 3);
    [reflexivity|reflexivity|lia|reflexivity|reflexivity].
Defined.

Lemma encode_ingest_score_exact_witness :
  let s := CATCHUP_SCORE_BASE + 738000 * SCORE_STRIDE + tie_break_from_identity demo_sha1 "/raw/a" in
  0 <= s < 2 ^ 53 /\ 0 <= penalize_ingest_score (Some s) < 2 ^ 53.
Proof. apply (encode_ingest_score_exact demo_sha1 "catchup" 738000 738010 "/raw/a"); reflexivity. Defined.
