(* ===== verification/PyDate.v ===== *)
(** Calendar dates: the part of [datetime.date] the modelled code uses.

    A date is its proleptic Gregorian ordinal ([date.toordinal]).  Here are the
    conversion from and to year, month and day, [date.isoformat], and the two readers of
    [YYYY-MM-DD]: [datetime.strptime(text, "%Y-%m-%d")] on a text of ten characters and
    [date.fromisoformat]. *)
From S2P Require Import Prelude PyStr IngestScore.
From Stdlib Require Import Ascii.
Local Open Scope Z_scope.

(** ** Year, month and day *)

Definition is_leap (y : Z) : bool := (y mod 4 =? 0) && (negb (y mod 100 =? 0) || (y mod 400 =? 0)).

Definition days_in_month (leap : bool) (m : Z) : Z :=
  if m =? 2 then if leap then 29 else 28
  else if (m =? 4) || (m =? 6) || (m =? 9) || (m =? 11) then 30 else 31.

(** The days of the year before the first of month [m]. *)
Definition days_before_month (leap : bool) (m : Z) : Z :=
  foldr Z.add 0 (days_in_month leap <$> take (Z.to_nat (m - 1)) [1; 2; 3; 4; 5; 6; 7; 8; 9; 10; 11; 12]).

Definition days_before_year (y : Z) : Z := (y - 1) * 365 + (y - 1) / 4 - (y - 1) / 100 + (y - 1) / 400.

(** [date(y, m, d)], [None] for its [ValueError]. *)
Definition date_of_ymd (y m d : Z) : option Z :=
  if (1 <=? y) && (y <=? 9999) && (1 <=? m) && (m <=? 12) && (1 <=? d) && (d <=? days_in_month (is_leap y) m)
  then Some (days_before_year y + days_before_month (is_leap y) m + d) else None.

(** The year of an ordinal: 400-, 100-, 4- and 1-year cycles, the last day of a
    leap cycle belonging to the year before. *)
Definition year_of (o : Z) : Z :=
  let n := o - 1 in
  let n400 := n / 146097 in let n := n mod 146097 in
  let n100 := Z.min 3 (n / 36524) in let n := n - n100 * 36524 in
  let n4 := n / 1461 in let n := n mod 1461 in
  n400 * 400 + n100 * 100 + n4 * 4 + Z.min 3 (n / 365) + 1.

(** The month and the day of the month of day [k] of the year, from 0. *)
Fixpoint month_from (leap : bool) (fuel : nat) (m k : Z) : Z * Z :=
  match fuel with
  | O => (m, k + 1)
  | S fuel => let n := days_in_month leap m in if k <? n then (m, k + 1) else month_from leap fuel (m + 1) (k - n)
  end.

Definition month_day (leap : bool) (k : Z) : Z * Z := month_from leap 11 1 k.

Definition ymd_of (o : Z) : Z * Z * Z :=
  let y := year_of o in
  let '(m, d) := month_day (is_leap y) (o - days_before_year y - 1) in (y, m, d).

(** ** Texts *)

Definition digit (v : Z) : ascii := ascii_of_nat (Z.to_nat (48 + v)).
Definition digit_val (c : ascii) : option Z :=
  if is_digit c then Some (Z.of_nat (nat_of_ascii c) - 48) else None.

Definition two (a b : ascii) : option Z := x ← digit_val a; y ← digit_val b; Some (10 * x + y).

Definition show2 (v : Z) : string := String (digit (v / 10)) (String (digit (v mod 10)) "").
Definition show4 (v : Z) : string := (show2 (v / 100) ++ show2 (v mod 100))%string.

(** [date.isoformat]. *)
Definition isoformat (o : Z) : string :=
  let '(y, m, d) := ymd_of o in (show4 y ++ "-" ++ show2 m ++ "-" ++ show2 d)%string.

Definition four (a b c d : ascii) : option Z := x ← two a b; y ← two c d; Some (100 * x + y).

Definition dash : ascii := "-"%char.

(** [%m] and [%d] of [strptime] on two characters: the day may have a leading blank. *)
Definition strp_month (a b : ascii) : option Z := m ← two a b; if (1 <=? m) && (m <=? 12) then Some m else None.
Definition strp_day (a b : ascii) : option Z :=
  d ← (if Ascii.eqb a " "%char then digit_val b else two a b);
  if (1 <=? d) && (d <=? 31) then Some d else None.

(** [datetime.strptime(text, "%Y-%m-%d").date()] on ten characters, [None] for its
    [ValueError]. *)
Definition strptime_ymd (s : string) : option Z :=
  match s with
  | String y1 (String y2 (String y3 (String y4 (String s1 (String m1 (String m2 (String s2
      (String d1 (String d2 EmptyString))))))))) =>
      if Ascii.eqb s1 dash && Ascii.eqb s2 dash then
        y ← four y1 y2 y3 y4; m ← strp_month m1 m2; d ← strp_day d1 d2; date_of_ymd y m d
      else None
  | _ => None
  end.

(** [date.fromisoformat], [None] for its [ValueError]; [week_form] reads the forms with
    an ISO week number. *)
Definition fromisoformat (week_form : string -> option Z) (s : string) : option Z :=
  match s with
  | String y1 (String y2 (String y3 (String y4 (String a (String b (String c (String d r))))))) =>
      match r with
      | EmptyString =>
          if Ascii.eqb a dash || Ascii.eqb a "W"%char then week_form s
          else y ← four y1 y2 y3 y4; m ← two a b; e ← two c d; date_of_ymd y m e
      | String d1 (String d2 EmptyString) =>
          if Ascii.eqb a dash && negb (Ascii.eqb b "W"%char) then
            if Ascii.eqb d dash then
              y ← four y1 y2 y3 y4; m ← two b c; e ← two d1 d2; date_of_ymd y m e
            else None
          else week_form s
      | _ => None
      end
  | _ => week_form s
  end.

(** ** Lemmas *)

(** Every day of a year lies in the month found for it. *)
Lemma month_day_ok leap k :
  0 <= k < (if leap : bool then 366 else 365) ->
  let '(m, d) := month_day leap k in
  1 <= m <= 12 /\ 1 <= d <= days_in_month leap m /\ days_before_month leap m + d = k + 1.
Proof.
  assert (forallb (fun i => let k := Z.of_nat i in let '(m, d) := month_day leap k in
    (1 <=? m) && (m <=? 12) && (1 <=? d) && (d <=? days_in_month leap m) &&
    (days_before_month leap m + d =? k + 1)) (seq 0 (if leap then 366 else 365)) = true) as Hall
    by (destruct leap; vm_compute; reflexivity).
  intros Hk. rewrite forallb_forall in Hall.
  assert (In (Z.to_nat k) (seq 0 (if leap then 366 else 365)%nat)) as Hin by (apply in_seq; destruct leap; lia).
  specialize (Hall _ Hin). cbv zeta in Hall. rewrite Z2Nat.id in Hall by lia.
  destruct (month_day leap k) as [m d]. rewrite !andb_true_iff, !Z.leb_le, Z.eqb_eq in Hall. lia.
Qed.

(** The cycles of an ordinal, as linear facts. *)
Lemma cycles n :
  0 <= n -> exists a c b d r, 
    n = 146097 * a + 36524 * c + 1461 * b + 365 * d + r /\
    year_of (n + 1) - 1 = 400 * a + 100 * c + 4 * b + d /\
    0 <= a /\ 0 <= c <= 3 /\ 0 <= b <= 24 /\ 0 <= d <= 3 /\ 0 <= r < 366 /\
    (d < 3 -> r < 365) /\ (b = 24 -> c < 3 -> r < 365).
Proof.
  intros Hn. unfold year_of. replace (n + 1 - 1) with n by lia.
  exists (n / 146097), (Z.min 3 (n mod 146097 / 36524)).
  set (c := Z.min 3 (n mod 146097 / 36524)). set (r2 := n mod 146097 - c * 36524).
  assert (0 <= c <= 3 /\ 0 <= r2 /\ (c < 3 -> r2 < 36524) /\ r2 <= 36524) as (Hc & H0 & H3 & Hr2).
  { unfold r2, c. Z.to_euclidean_division_equations. lia. }
  exists (r2 / 1461), (Z.min 3 (r2 mod 1461 / 365)), (r2 mod 1461 - 365 * Z.min 3 (r2 mod 1461 / 365)).
  assert (n = 146097 * (n / 146097) + n mod 146097) as En by (by apply Z.div_mod).
  assert (0 <= n / 146097) as Ha by (by apply Z.div_pos).
  set (a := n / 146097) in *. set (m := n mod 146097) in *. clearbody c a. 
  assert (m = r2 + c * 36524) as Em by (unfold r2; lia). clearbody r2 m. clear Hn.
  split_and!; Z.to_euclidean_division_equations; lia.
Qed.

(** The year of an ordinal contains it. *)
Lemma year_of_ok o :
  valid_day o = true ->
  1 <= year_of o <= 9999 /\ 0 <= o - days_before_year (year_of o) - 1 < (if is_leap (year_of o) then 366 else 365).
Proof.
  intros Ho%valid_day_bounds. change MAX_ORDINAL with 3652059 in Ho.
  destruct (cycles (o - 1) ltac:(lia)) as (a & c & b & d & r & En & Ey & Ha & Hc & Hb & Hd & Hr & H1 & H2).
  replace (o - 1 + 1) with o in Ey by lia.
  assert (year_of o = 400 * a + 100 * c + 4 * b + d + 1) as -> by lia. clear Ey.
  unfold days_before_year. replace (400 * a + 100 * c + 4 * b + d + 1 - 1) with (400 * a + 100 * c + 4 * b + d) by lia.
  assert ((400 * a + 100 * c + 4 * b + d) / 4 = 100 * a + 25 * c + b) as -> by (Z.to_euclidean_division_equations; lia).
  assert ((400 * a + 100 * c + 4 * b + d) / 100 = 4 * a + c) as -> by (Z.to_euclidean_division_equations; lia).
  assert ((400 * a + 100 * c + 4 * b + d) / 400 = a) as -> by (Z.to_euclidean_division_equations; lia).
  assert (is_leap (400 * a + 100 * c + 4 * b + d + 1) = (d =? 3) && (negb (b =? 24) || (c =? 3))) as ->.
  { unfold is_leap. destruct (Z.eqb_spec d 3) as [->|Hd3]; cbn [andb].
    - assert ((400 * a + 100 * c + 4 * b + 3 + 1) mod 4 = 0) as -> by (Z.to_euclidean_division_equations; lia).
      cbn [andb Z.eqb]. destruct (Z.eqb_spec b 24) as [->|Hb24]; cbn [negb orb].
      + assert ((400 * a + 100 * c + 4 * 24 + 3 + 1) mod 100 = 0) as -> by (Z.to_euclidean_division_equations; lia).
        cbn [negb orb Z.eqb]. apply eq_bool_prop_intro. rewrite !Is_true_true, !Z.eqb_eq.
        Z.to_euclidean_division_equations. lia.
      + apply orb_true_intro. left. apply negb_true_iff, Z.eqb_neq. Z.to_euclidean_division_equations. lia.
    - apply andb_false_intro1, Z.eqb_neq. Z.to_euclidean_division_equations. lia. }
  destruct (Z.eqb_spec d 3), (Z.eqb_spec b 24), (Z.eqb_spec c 3); cbn; lia.
Qed.

Lemma days_before_next leap m :
  1 <= m <= 11 -> days_before_month leap (m + 1) = days_before_month leap m + days_in_month leap m.
Proof.
  intros Hm. assert (m = 1 \/ m = 2 \/ m = 3 \/ m = 4 \/ m = 5 \/ m = 6 \/ m = 7 \/ m = 8 \/ m = 9 \/ m = 10 \/ m = 11)
    as Hc by lia. destruct leap; repeat destruct Hc as [->|Hc]; try reflexivity; by rewrite Hc.
Qed.

(** The calendar round trip: a day is the date of its year, month and day. *)
Lemma date_of_ymd_of o :
  valid_day o = true -> let '(y, m, d) := ymd_of o in date_of_ymd y m d = Some o.
Proof.
  intros Ho. unfold ymd_of. destruct (year_of_ok o Ho) as [Hy Hk].
  pose proof (month_day_ok _ _ Hk) as Hm. destruct (month_day _ _) as [m d]. unfold date_of_ymd.
  destruct Hm as (Hm & Hd & E).
  assert ((1 <=? year_of o) && (year_of o <=? 9999) && (1 <=? m) && (m <=? 12) && (1 <=? d) &&
    (d <=? days_in_month (is_leap (year_of o)) m) = true) as -> by (rewrite !andb_true_iff, !Z.leb_le; lia).
  f_equal. lia.
Qed.

Lemma digit_val_digit v : 0 <= v <= 9 -> digit_val (digit v) = Some v.
Proof.
  intros Hv. assert (v = 0 \/ v = 1 \/ v = 2 \/ v = 3 \/ v = 4 \/ v = 5 \/ v = 6 \/ v = 7 \/ v = 8 \/ v = 9)
    as Hc by lia. repeat destruct Hc as [->|Hc]; try reflexivity. by rewrite Hc.
Qed.

Lemma two_digits v : 0 <= v <= 99 -> two (digit (v / 10)) (digit (v mod 10)) = Some v.
Proof.
  intros Hv. unfold two. rewrite !digit_val_digit by (Z.to_euclidean_division_equations; lia). cbn.
  f_equal. Z.to_euclidean_division_equations. lia.
Qed.

Lemma four_digits v :
  0 <= v <= 9999 ->
  four (digit (v / 100 / 10)) (digit (v / 100 mod 10)) (digit (v mod 100 / 10)) (digit (v mod 100 mod 10)) = Some v.
Proof.
  intros Hv. unfold four. rewrite !two_digits by (Z.to_euclidean_division_equations; lia). cbn.
  f_equal. Z.to_euclidean_division_equations. lia.
Qed.

Lemma digit_not_blank v : 0 <= v <= 9 -> Ascii.eqb (digit v) " "%char = false.
Proof.
  intros Hv. assert (v = 0 \/ v = 1 \/ v = 2 \/ v = 3 \/ v = 4 \/ v = 5 \/ v = 6 \/ v = 7 \/ v = 8 \/ v = 9)
    as Hc by lia. repeat destruct Hc as [->|Hc]; try reflexivity. by rewrite Hc.
Qed.

Lemma date_of_ymd_Some y m d o :
  date_of_ymd y m d = Some o -> 1 <= y <= 9999 /\ 1 <= m <= 12 /\ 1 <= d <= 31.
Proof.
  unfold date_of_ymd. destruct (_ && _) eqn:E; [|done]. rewrite !andb_true_iff, !Z.leb_le in E.
  assert (days_in_month (is_leap y) m <= 31) by (unfold days_in_month; repeat case_match; lia). lia.
Qed.

(** Both readers give back the day that was written. *)
Lemma read_isoformat wf o :
  valid_day o = true -> strptime_ymd (isoformat o) = Some o /\ fromisoformat wf (isoformat o) = Some o.
Proof.
  intros Ho. pose proof (date_of_ymd_of o Ho) as E. unfold isoformat. destruct (ymd_of o) as [[y m] d].
  destruct (date_of_ymd_Some y m d o E) as (Hy & Hm & Hd).
  assert (two (digit (m / 10)) (digit (m mod 10)) = Some m) as Em by (apply two_digits; lia).
  assert (two (digit (d / 10)) (digit (d mod 10)) = Some d) as Ed by (apply two_digits; lia).
  pose proof (four_digits y ltac:(lia)) as Ey.
  split; [change (strptime_ymd (show4 y +:+ "-" +:+ show2 m +:+ "-" +:+ show2 d)) with
    (if Ascii.eqb dash dash && Ascii.eqb dash dash then
       y ← four (digit (y / 100 / 10)) (digit (y / 100 mod 10)) (digit (y mod 100 / 10)) (digit (y mod 100 mod 10));
       m ← strp_month (digit (m / 10)) (digit (m mod 10)); d ← strp_day (digit (d / 10)) (digit (d mod 10));
       date_of_ymd y m d
     else None)
   |change (fromisoformat wf (show4 y +:+ "-" +:+ show2 m +:+ "-" +:+ show2 d)) with
    (if Ascii.eqb dash dash && negb (Ascii.eqb (digit (m / 10)) "W"%char) then
       if Ascii.eqb dash dash then
         y ← four (digit (y / 100 / 10)) (digit (y / 100 mod 10)) (digit (y mod 100 / 10)) (digit (y mod 100 mod 10));
         m ← two (digit (m / 10)) (digit (m mod 10)); e ← two (digit (d / 10)) (digit (d mod 10)); date_of_ymd y m e
       else None
     else wf (show4 y +:+ "-" +:+ show2 m +:+ "-" +:+ show2 d))]; rewrite Ey.
  - unfold strp_month, strp_day. rewrite digit_not_blank, Em, Ed by (Z.to_euclidean_division_equations; lia).
    cbn -[Z.leb date_of_ymd]. destruct (Z.leb_spec 1 m), (Z.leb_spec m 12), (Z.leb_spec 1 d), (Z.leb_spec d 31);
      try lia. exact E.
  - assert (Ascii.eqb (digit (m / 10)) "W"%char = false) as ->.
    { assert (m / 10 = 0 \/ m / 10 = 1) as [-> | ->] by (Z.to_euclidean_division_equations; lia); reflexivity. }
    cbn -[digit two four date_of_ymd Z.div Z.modulo]. by rewrite Em, Ed.
Qed.

Lemma date_of_ymd_valid y m d o : date_of_ymd y m d = Some o -> valid_day o = true.
Proof.
  unfold date_of_ymd. destruct (_ && _) eqn:E; [|done]. rewrite !andb_true_iff, !Z.leb_le in E. intros [= <-].
  unfold valid_day, days_before_year. rewrite andb_true_iff, !Z.leb_le. change MAX_ORDINAL with 3652059.
  assert (0 <= days_before_month (is_leap y) m /\
    days_before_month (is_leap y) m + days_in_month (is_leap y) m <= (if is_leap y then 366 else 365)) as [H0 H1].
  { assert (m = 1 \/ m = 2 \/ m = 3 \/ m = 4 \/ m = 5 \/ m = 6 \/ m = 7 \/ m = 8 \/ m = 9 \/ m = 10 \/ m = 11 \/ m = 12)
      as Hc by lia.
    destruct (is_leap y); repeat destruct Hc as [->|Hc]; try (by vm_compute); subst; by vm_compute. }
  assert (is_leap y = true -> y <= 9996) as Hl.
  { unfold is_leap. rewrite andb_true_iff, Z.eqb_eq. intros [H4 _]. Z.to_euclidean_division_equations. lia. }
  destruct (is_leap y); [specialize (Hl eq_refl)|clear Hl]; Z.to_euclidean_division_equations; lia.
Qed.
