(* ===== verification/StatsFind.v ===== *)
(** Finding raw statistics files: [dbload/lib/sync_timedb_stats_find.py].

    A walk of the raw archive is a pipeline [fd -X stat --printf ...], sorted by file
    name in the daemon, whose output is parsed as it arrives.  Here are the command
    lines, the parser, the name filters and the selections by date and by job window.
    What [fd] and [stat] print is an argument.  Paths are ASCII texts, a floating point
    number is a [binary64] of [SpecFloat], a [datetime] is its local wall clock in
    microseconds. *)
From S2P Require Import Prelude PyDict PyStr PosixPath.
From Stdlib Require Import Ascii SpecFloat.
Local Open Scope Z_scope.

Abbreviation float64 := spec_float.
Definition float_of_Z (z : Z) : float64 := binary_normalize 53 1024 z 0 false.

(** [int(x)], for a float: towards zero. *)
Definition int_of_float (x : float64) : result Z :=
  match x with
  | S754_zero _ => Ok 0
  | S754_infinity _ => Raise OverflowError
  | S754_nan => Raise ValueError
  | S754_finite s m e =>
      let v := if 0 <=? e then Z.pos m * 2 ^ e else Z.pos m / 2 ^ (- e) in
      Ok (if s then - v else v)
  end.

(** [round(x)], for a float: ties to even. *)
Definition round_float (x : float64) : result Z :=
  match x with
  | S754_finite s m e =>
      let v := if 0 <=? e then Z.pos m * 2 ^ e
               else let d := 2 ^ (- e) in let q := Z.pos m / d in let r := Z.pos m mod d in
                    if (d <? 2 * r) || ((2 * r =? d) && Z.odd q) then q + 1 else q in
      Ok (if s then - v else v)
  | _ => int_of_float x
  end.

Record FindStatsRecord := { rec_path : string; rec_mtime : float64; rec_size : Z; rec_inode : Z }.

#[export] Instance spec_float_eq_dec : EqDecision spec_float.
Proof. solve_decision. Defined.
#[export] Instance FindStatsRecord_eq_dec : EqDecision FindStatsRecord.
Proof. solve_decision. Defined.

(** ** Names *)

Definition ends_with (suffix s : string) : bool := bool_decide (is_Some (strip_suffix suffix s)).

Definition is_lock_name (name : string) : bool := ends_with ".fnctl.lock" name || ends_with ".lock" name.

Definition host_dir_is_internal_for_stats_discovery (host_dir : string) : bool :=
  let base := path_basename (normpath host_dir) in
  if decide (base = "" \/ base = "." \/ base = "..") then true else String.prefix "." base.

Definition is_internal_archive_stats_path (path : string) : bool :=
  if decide (path = "") then false else host_dir_is_internal_for_stats_discovery (path_dirname path).

(** ** Command lines *)

Definition NUL : ascii := "000"%char.
Definition TAB : ascii := "009"%char.
Definition STAT_PRINTF_FORMAT : string := "%n\0%Y\0%s\0%i\0".
Definition STAT_SORT_PRINTF_FORMAT : string := "%n\t%Y\t%s\t%i\0".
Definition STAT_CURRENT_INODE_PRINTF : string := "%n\0%i\0".
Definition FD_THREADS : Z := 4.
Definition FD_THREADS_WHOLE_ARCHIVE : Z := 16.

(** [os.path.abspath], from the working directory. *)
Definition abspath (cwd p : string) : string :=
  normpath (if String.prefix "/" p then p else path_join cwd p).

Section argv.
Context (cwd : string).

Definition fd_x_stat_argv (find_bin stat_bin search_path : string) (min_depth max_depth : Z) (printf_format pattern : string)
    (glob : bool) (exclude : option string) (mtime_days : option Z) (threads : Z) : list string :=
  [find_bin; "--threads"; str_of_Z threads; "--no-ignore"; "--absolute-path"; "--max-depth"; str_of_Z max_depth;
   "--min-depth"; str_of_Z min_depth; "--type"; "f"] ++
  (if glob then ["--glob"] else []) ++
  (match exclude with Some e => if decide (e = "") then [] else ["--exclude"; e] | None => [] end) ++
  (match mtime_days with
   | Some d => if 0 <? d then ["--changed-within"; (str_of_Z d ++ "d")%string] else []
   | None => []
   end) ++
  [pattern; abspath cwd search_path; "-X"; stat_bin; ("--printf=" ++ printf_format)%string].

Definition build_find_stats_argv (archive_dir : string) (mtime_days : option Z) (find_bin stat_bin printf_format : string)
    : list string :=
  fd_x_stat_argv find_bin stat_bin archive_dir 2 2 printf_format "." false (Some "current*") mtime_days
    (match mtime_days with None => FD_THREADS_WHOLE_ARCHIVE | Some _ => FD_THREADS end).

Definition build_find_current_inode_argv (archive_dir find_bin stat_bin : string) : list string :=
  fd_x_stat_argv find_bin stat_bin archive_dir 2 2 STAT_CURRENT_INODE_PRINTF "current" true None None FD_THREADS.

Definition build_find_host_scoped_argv (host_dir find_bin stat_bin : string) : list string :=
  fd_x_stat_argv find_bin stat_bin host_dir 1 1 STAT_PRINTF_FORMAT "." false None None FD_THREADS.
End argv.

(** ** The record stream *)

Section stream.

(** [float(text)], [None] when it raises [ValueError]. *)
Context (py_float : string -> option float64).

(** The four tokens of a record.  The code's [FindStatsDiscoveryError] is a
    [RuntimeError]. *)
Definition read_record (fields : list string) : result FindStatsRecord :=
  match fields with
  | [path; mtime; size; inode] =>
      match py_float mtime, py_int size, py_int inode with
      | Some m, Some s, Some i => Ok {| rec_path := path; rec_mtime := m; rec_size := s; rec_inode := i |}
      | _, _, _ => Raise RuntimeError
      end
  | _ => Raise RuntimeError
  end.

(** The tokens that end in [buf], taken in order: the records yielded, and the pending
    fields or the exception. *)
Fixpoint take_fields (tokens fields : list string) : list FindStatsRecord * result (list string) :=
  match tokens with
  | [] => ([], Ok fields)
  | t :: tokens =>
      let fields := fields ++ [t] in
      if (length fields <? 4)%nat then take_fields tokens fields
      else match read_record fields with
           | Raise e => ([], Raise e)
           | Ok r => let '(out, rest) := take_fields tokens [] in (r :: out, rest)
           end
  end.

(** The records yielded before the end, or before the exception. *)
Fixpoint iter_chunks (chunks : list string) (buf : string) (fields : list string)
    : list FindStatsRecord * option py_exn :=
  match chunks with
  | [] => ([], if decide (fields = [] /\ buf = "") then None else Some RuntimeError)
  | chunk :: chunks =>
      let tokens := py_split NUL (buf +:+ chunk) in
      match take_fields (removelast tokens) fields with
      | (out, Raise e) => (out, Some e)
      | (out, Ok fields) =>
          let '(out', e) := iter_chunks chunks (List.last tokens "") fields in (out ++ out', e)
      end
  end.

Definition iter_find_printf_records_streaming (chunks : list string) : list FindStatsRecord * option py_exn :=
  iter_chunks chunks "" [].

(** A generator run to its end. *)
Definition run_generator (g : list FindStatsRecord * option py_exn) : result (list FindStatsRecord) :=
  match g.2 with Some e => Raise e | None => Ok g.1 end.

Definition parse_find_printf_records (data : string) : result (list FindStatsRecord) :=
  run_generator (iter_find_printf_records_streaming (if decide (data = "") then [] else [data])).
End stream.

(** ** The inodes of [current] *)

Fixpoint drop_last_empty (l : list string) : list string :=
  match l with
  | [] => []
  | x :: l' => match drop_last_empty l' with
               | [] => if decide (x = "") then [] else [x]
               | r => x :: r
               end
  end.

Fixpoint inode_pairs (parts : list string) (out : gmap string Z) : result (gmap string Z) :=
  match parts with
  | path :: inode :: parts =>
      match py_int inode with
      | Some i => inode_pairs parts (<[path_dirname (normpath path) := i]> out)
      | None => Raise ValueError
      end
  | _ => Ok out
  end.

Definition parse_current_inode_records (data : string) : result (gmap string Z) :=
  if decide (data = "") then Ok ∅
  else
    let parts := drop_last_empty (py_split NUL data) in
    if Nat.odd (length parts) then Raise RuntimeError else inode_pairs parts ∅.

(** ** Fingerprint caches *)

(** [_path_fp_cache] and [_host_fp_cache]. *)
Record fp_caches := FpCaches { path_fp : gmap string (Z * Z); host_fp : gmap string (Z * Z) }.

Definition clear_fingerprint_caches (c : fp_caches) : fp_caches := FpCaches ∅ ∅.
Definition lookup_path_fingerprint (path : string) (c : fp_caches) : option (Z * Z) := path_fp c !! normpath path.
Definition lookup_host_dir_fingerprint (dir : string) (c : fp_caches) : option (Z * Z) := host_fp c !! normpath dir.

(** The newest time and the count of a host's records. *)
Definition note_record (c : result fp_caches) (r : FindStatsRecord) : result fp_caches :=
  c ← c;
  let norm := normpath (rec_path r) in
  t ← int_of_float (rec_mtime r);
  let host := path_dirname norm in
  Ok (FpCaches (<[norm := (t, rec_size r)]> (path_fp c))
        (<[host := match host_fp c !! host with
                   | Some (newest, n) => (Z.max newest t, n + 1)
                   | None => (t, 1)
                   end]> (host_fp c))).

Definition update_fingerprint_caches_from_records (records : list FindStatsRecord) : result fp_caches :=
  foldl note_record (Ok (FpCaches ∅ ∅)) records.

(** ** Selections *)

(** [sorted(items, key=...)], stable. *)
Fixpoint insert_epoch (x : FindStatsRecord * Z) (l : list (FindStatsRecord * Z)) : list (FindStatsRecord * Z) :=
  match l with
  | [] => [x]
  | y :: l' => if x.2 <=? y.2 then x :: y :: l' else y :: insert_epoch x l'
  end.

Definition sort_epoch (l : list (FindStatsRecord * Z)) : list (FindStatsRecord * Z) := foldr insert_epoch [] l.

(** A start date: one of the words for everything, or a date and time. *)
Inductive date_range := Everything | Between (startdate enddate : Z).

Definition DAY_US : Z := 86400000000.

Section select.

(** [datetime.fromtimestamp(t)]. *)
Context (fromtimestamp : Z -> result Z).

(** The tests both selections share: not internal, not [current], not a lock, not the
    inode a host still writes to. *)
Definition closed_record (current_inodes : gmap string Z) (r : FindStatsRecord) : bool :=
  let name := path_basename (rec_path r) in
  let host_dir := path_dirname (rec_path r) in
  negb (host_dir_is_internal_for_stats_discovery host_dir) &&
  negb (String.prefix "." name || String.prefix "current" name) && negb (is_lock_name name) &&
  bool_decide (current_inodes !! host_dir <> Some (rec_inode r)).

Definition in_dates (startdate enddate : Z) (ts : option Z) : bool :=
  match ts with
  | None => false
  | Some ts => negb ((ts <=? startdate - DAY_US) || (enddate <? ts))
  end.

(** One record: [None] when it is left out. *)
Definition select_record (range : date_range) (r : FindStatsRecord) : result (option (FindStatsRecord * Z)) :=
  mt ← int_of_float (rec_mtime r);
  at_mtime ← fromtimestamp mt;
  '(at_name, epoch) ←
    (match py_int (path_basename (rec_path r)) with
     | None => Ok (None, mt)
     | Some n => match fromtimestamp n with
                 | Ok d => Ok (Some d, n)
                 | Raise ValueError | Raise TypeError => Ok (None, mt)
                 | Raise e => Raise e
                 end
     end);
  Ok (match range with
      | Everything => Some (r, epoch)
      | Between s e => if in_dates s e (Some at_mtime) || in_dates s e at_name then Some (r, epoch) else None
      end).

Fixpoint select_records (range : date_range) (l : list FindStatsRecord) : result (list (FindStatsRecord * Z)) :=
  match l with
  | [] => Ok []
  | r :: l => x ← select_record range r; out ← select_records range l;
              Ok (match x with Some p => p :: out | None => out end)
  end.

Definition filter_and_sort_find_records (records : list FindStatsRecord) (host_name_ext : string) (range : date_range)
    (current_inodes : gmap string Z) (newest_first : bool) : result (list FindStatsRecord) :=
  let suffix := py_strip host_name_ext in
  if decide (suffix = "") then Ok []
  else
    selected ← select_records range
      (filter (fun r => closed_record current_inodes r = true /\
                        ends_with suffix (path_basename (path_dirname (rec_path r))) = true) records);
    let sorted := (sort_epoch selected).*1 in
    Ok (if newest_first then reverse sorted else sorted).

(** ** Job windows *)

Definition JID_NEIGHBOR_FILES : Z := 1.

(** The indices of the epochs in the window. *)
Definition core_indices (start_ts end_ts : Z) (epochs : list Z) : list nat :=
  filter (fun i => start_ts <= nth i epochs 0 <= end_ts) (seq 0 (length epochs)).

(** The loop taken when no epoch is: the last before, and the first after. *)
Fixpoint edge_loop (i : nat) (start_ts end_ts : Z) (epochs : list Z) (last_before : option nat)
    : option nat * option nat :=
  match epochs with
  | [] => (last_before, None)
  | ep :: epochs =>
      if ep <? start_ts then edge_loop (S i) start_ts end_ts epochs (Some i)
      else if end_ts <? ep then (last_before, Some i)
      else edge_loop (S i) start_ts end_ts epochs last_before
  end.

(** The indices taken; a window's bounds are in microseconds, like [epochs]. *)
Definition window_indices (start_ts end_ts : Z) (n : nat) (epochs : list Z) : list nat :=
  match core_indices start_ts end_ts epochs with
  | lo :: core =>
      let hi := List.last core lo in
      seq lo (hi + 1 - lo) ++
      concat ((fun k => (if (k <=? lo)%nat then [(lo - k)%nat] else []) ++
                        (if (hi + k <? length epochs)%nat then [(hi + k)%nat] else [])) <$> seq 1 n)
  | [] =>
      let '(last_before, first_after) := edge_loop 0 start_ts end_ts epochs None in
      option_list last_before ++ option_list first_after
  end.

(** A window of [None]: its [timestamp()] raises. *)
Definition expand_sorted_records_with_window_neighbors (sorted_items : list (FindStatsRecord * Z))
    (window : option (Z * Z)) (neighbor_files : Z) : list FindStatsRecord :=
  match window with
  | None => []
  | Some (start_ts, end_ts) =>
      let taken := window_indices start_ts end_ts (Z.to_nat neighbor_files)
                     ((fun p : FindStatsRecord * Z => p.2 * 1000000) <$> sorted_items) in
      omap (fun i => sorted_items.*1 !! i) (filter (fun i => i ∈ taken) (seq 0 (length sorted_items)))
  end.

(** [int(name)], the modification time when it raises. *)
Definition sort_epoch_of (r : FindStatsRecord) : result Z :=
  match py_int (path_basename (rec_path r)) with Some n => Ok n | None => int_of_float (rec_mtime r) end.

Fixpoint with_epochs (l : list FindStatsRecord) : result (list (FindStatsRecord * Z)) :=
  match l with
  | [] => Ok []
  | r :: l => e ← sort_epoch_of r; out ← with_epochs l; Ok ((r, e) :: out)
  end.

(** The records by host directory name, hosts in order of appearance. *)
Definition by_host (l : list (FindStatsRecord * Z)) : dict string (list (FindStatsRecord * Z)) :=
  foldl (fun d p => let h := path_basename (path_dirname (rec_path p.1)) in <[h := default [] (d !! h) ++ [p]]> d) ∅ l.

Definition filter_host_scoped_window_records (records : list FindStatsRecord) (host_fqdns : list string)
    (window : option (Z * Z)) (current_inodes : gmap string Z) (neighbor_files : Z) : result (list FindStatsRecord) :=
  let allow := filter (fun h => h <> "") (py_strip <$> host_fqdns) in
  if decide (allow = []) then Ok []
  else
    items ← with_epochs (filter (fun r => closed_record current_inodes r = true /\
                                  path_basename (path_dirname (rec_path r)) ∈ allow) records);
    selected ← with_epochs (mjoin ((fun l => expand_sorted_records_with_window_neighbors (sort_epoch l) window neighbor_files)
                                     <$> dict_values (by_host items)));
    Ok (sort_epoch selected).*1.
End select.
