(* ===== verification/StatsFindSpec.v ===== *)
(** Correctness of the raw file finder: what [fd] and [stat] print is read back however
    it is cut into chunks, and a job window gets every file that overlaps it. *)
From S2P Require Import Prelude PyDict PyStr PosixPath StatsFind.
From Stdlib Require Import Ascii SpecFloat.
Local Open Scope Z_scope.

(** ** Chunks *)

Section stream.
Context (py_float : string -> option float64).

Lemma take_fields_app t1 t2 fields :
  take_fields py_float (t1 ++ t2) fields =
    match take_fields py_float t1 fields with
    | (out, Raise e) => (out, Raise e)
    | (out, Ok fields') => let '(out', r) := take_fields py_float t2 fields' in (out ++ out', r)
    end.
Proof.
  revert fields. induction t1 as [|t t1 IH]; intros fields; cbn [app take_fields].
  - by destruct (take_fields py_float t2 fields).
  - destruct (_ <? 4)%nat; [apply IH|]. destruct (read_record _ _) as [r|]; [|done]. rewrite IH.
    destruct (take_fields py_float t1 []) as [out [f|e]]; [|done]. by destruct (take_fields py_float t2 f).
Qed.

Lemma removelast_cons {A} (x : A) l : l <> [] -> removelast (x :: l) = x :: removelast l.
Proof. by destruct l. Qed.

Lemma last_cons_default {A} (x y : A) l : List.last (x :: l) y = List.last l x.
Proof.
  revert x y. induction l as [|z l IH]; intros x y; [done|]. change (List.last (z :: l) y = List.last (z :: l) x).
  by rewrite (IH z y), (IH z x).
Qed.

Lemma last_cons_ne {A} (x : A) l d : l <> [] -> List.last (x :: l) d = List.last l d.
Proof. by destruct l. Qed.

(** Splitting a text that grows at its end. *)
Lemma split_grow sep a b :
  py_split sep (a +:+ b) = removelast (py_split sep a) ++ py_split sep (List.last (py_split sep a) "" +:+ b).
Proof.
  induction a as [|c a IH]; [done|]. change (String c a +:+ b) with (String c (a +:+ b)). cbn [py_split].
  pose proof (py_split_not_nil sep a) as Hn. rewrite IH.
  destruct (Ascii.eqb c sep) eqn:Ec.
  - rewrite removelast_cons, last_cons_ne by done. done.
  - destruct (py_split sep a) as [|x [|y l]]; [done| |].
    + cbn [removelast List.last app]. change (String c x +:+ b) with (String c (x +:+ b)). cbn [py_split]. by rewrite Ec.
    + rewrite !removelast_cons, !last_cons_ne by done. done.
Qed.

Lemma split_grow_removelast sep a b :
  removelast (py_split sep (a +:+ b)) =
    removelast (py_split sep a) ++ removelast (py_split sep (List.last (py_split sep a) "" +:+ b)).
Proof. rewrite split_grow. apply removelast_app, py_split_not_nil. Qed.

Lemma split_grow_last sep a b :
  List.last (py_split sep (a +:+ b)) "" = List.last (py_split sep (List.last (py_split sep a) "" +:+ b)) "".
Proof.
  rewrite split_grow at 1. pose proof (py_split_not_nil sep (List.last (py_split sep a) "" +:+ b)) as Hn.
  induction (removelast (py_split sep a)) as [|x l IH]; [done|]. cbn [app]. rewrite last_cons_ne; [exact IH|].
  by intros [_ ?]%app_eq_nil.
Qed.

(** Two chunks are read like one. *)
Lemma iter_chunks_merge a b chunks buf fields :
  iter_chunks py_float (a :: b :: chunks) buf fields = iter_chunks py_float ((a +:+ b) :: chunks) buf fields.
Proof.
  cbn [iter_chunks].
  rewrite (string_app_assoc buf a b), (split_grow_removelast NUL (buf +:+ a) b), (split_grow_last NUL (buf +:+ a) b), take_fields_app.
  destruct (take_fields py_float (removelast (py_split NUL (buf +:+ a))) fields) as [out [f|e]]; [|done].
  destruct (take_fields py_float _ f) as [out' [f'|e]]; [|done].
  destruct (iter_chunks _ _ _ _) as [out'' e]. by rewrite app_assoc.
Qed.

Lemma iter_chunks_concat a chunks buf fields :
  iter_chunks py_float (a :: chunks) buf fields = iter_chunks py_float [foldr String.append "" (a :: chunks)] buf fields.
Proof.
  revert a. induction chunks as [|b chunks IH]; intros a.
  - cbn [foldr]. by rewrite string_app_nil_r.
  - rewrite iter_chunks_merge, IH. cbn [foldr]. by rewrite string_app_assoc.
Qed.

(** A chunk that completes the records it holds, and nothing else. *)
Lemma iter_one_chunk text buf fields :
  iter_chunks py_float [text] buf fields =
    match take_fields py_float (removelast (py_split NUL (buf +:+ text))) fields with
    | (out, Raise e) => (out, Some e)
    | (out, Ok fields') =>
        (out, if decide (fields' = [] /\ List.last (py_split NUL (buf +:+ text)) "" = "") then None else Some RuntimeError)
    end.
Proof.
  cbn [iter_chunks]. destruct (take_fields _ _ _) as [out [f|e]]; [|done]. by rewrite app_nil_r.
Qed.

(** ** What is printed is read back *)

(** [stat --printf='%n\0%Y\0%s\0%i\0'] on a file whose time prints as [mtime]. *)
Definition printed (x : FindStatsRecord * string) : string :=
  let nul := String NUL "" in
  rec_path x.1 +:+ nul +:+ x.2 +:+ nul +:+ str_of_Z (rec_size x.1) +:+ nul +:+ str_of_Z (rec_inode x.1) +:+ nul.

(** A name has no NUL in it, and the printed time is read as the time. *)
Definition printable (x : FindStatsRecord * string) : Prop :=
  no_char NUL (rec_path x.1) = true /\ no_char NUL x.2 = true /\ py_float x.2 = Some (rec_mtime x.1).

Lemma str_of_Z_no_nul z : no_char NUL (str_of_Z z) = true.
Proof. by apply str_of_Z_no_char. Qed.

Lemma split_printed x text : printable x ->
  py_split NUL (printed x +:+ text) =
    rec_path x.1 :: x.2 :: str_of_Z (rec_size x.1) :: str_of_Z (rec_inode x.1) :: py_split NUL text.
Proof.
  intros (Hp & Ht & _). unfold printed. cbv zeta. rewrite <- !string_app_assoc.
  do 4 (rewrite py_split_sep by (done || apply str_of_Z_no_nul); f_equal).
Qed.

Lemma split_all_printed l : Forall printable l ->
  py_split NUL (foldr String.append "" (printed <$> l)) =
    concat ((fun x => [rec_path x.1; x.2; str_of_Z (rec_size x.1); str_of_Z (rec_inode x.1)]) <$> l) ++ [""].
Proof.
  induction 1 as [|x l Hx _ IH]; [done|]. rewrite fmap_cons. cbn [foldr concat fmap]. by rewrite split_printed, IH by done.
Qed.

Lemma take_printed l : Forall printable l ->
  take_fields py_float (concat ((fun x => [rec_path x.1; x.2; str_of_Z (rec_size x.1); str_of_Z (rec_inode x.1)]) <$> l)) [] =
    (l.*1, Ok []).
Proof.
  induction 1 as [|x l (_ & _ & Hf) _ IH]; [done|]. rewrite !fmap_cons. cbn [concat app take_fields length Nat.ltb Nat.leb].
  unfold read_record. rewrite Hf, !py_int_str_of_Z. setoid_rewrite IH. by destruct x as [[] ?].
Qed.


(** Where the output is cut never matters: all chunks together give the same records and
    the same error, torn records included. *)
Theorem chunks_do_not_matter (chunks : list string) :
  iter_find_printf_records_streaming py_float chunks =
  iter_find_printf_records_streaming py_float [foldr String.append "" chunks].
Proof. destruct chunks as [|a chunks]; [done|]. apply iter_chunks_concat. Qed.
End stream.

(** ** Sorting by epoch *)

Definition epoch_le (x y : FindStatsRecord * Z) : Prop := x.2 <= y.2.

Lemma insert_epoch_perm x l : insert_epoch x l ≡ₚ x :: l.
Proof.
  induction l as [|y l IH]; [done|]. cbn [insert_epoch]. destruct (_ <=? _); [done|]. rewrite IH. apply Permutation_swap.
Qed.

Lemma sort_epoch_perm l : sort_epoch l ≡ₚ l.
Proof. induction l as [|x l IH]; [done|]. cbn [sort_epoch foldr]. by rewrite insert_epoch_perm, IH. Qed.

Lemma insert_epoch_sorted x l : StronglySorted epoch_le l -> StronglySorted epoch_le (insert_epoch x l).
Proof.
  induction 1 as [|y l Hs IH Hy]; [repeat constructor|]. cbn [insert_epoch].
  destruct (x.2 <=? y.2) eqn:E.
  - constructor; [by constructor|]. constructor; [unfold epoch_le; lia|].
    eapply Forall_impl; [exact Hy|]. unfold epoch_le. intros z. lia.
  - constructor; [exact IH|]. rewrite insert_epoch_perm. constructor; [unfold epoch_le; lia|exact Hy].
Qed.

Lemma sort_epoch_sorted l : StronglySorted epoch_le (sort_epoch l).
Proof. induction l as [|x l IH]; [constructor|]. by apply insert_epoch_sorted. Qed.

Lemma sorted_lookup l i j x y :
  StronglySorted epoch_le l -> l !! i = Some x -> l !! j = Some y -> (i <= j)%nat -> x.2 <= y.2.
Proof.
  intros Hs. revert i j. induction Hs as [|z l Hs IH Hz]; intros i j; [done|].
  destruct i as [|i], j as [|j]; simpl; intros Hi Hj Hij; simplify_eq; [lia| |lia|].
  - rewrite Forall_forall in Hz. by apply Hz, (list_elem_of_lookup_2 _ j).
  - apply (IH i j); [done|done|lia].
Qed.

(** ** Job windows *)

Lemma seq_filter_head (P : nat -> Prop) `{forall i, Decision (P i)} a n lo core i :
  filter P (seq a n) = lo :: core -> P i -> (a <= i < a + n)%nat ->
  P lo /\ (lo <= i <= List.last core lo)%nat /\ (a <= lo < a + n)%nat.
Proof.
  revert a lo core i. induction n as [|n IH]; intros a lo core i; [done|]. cbn [seq]. rewrite filter_cons.
  case_decide as Ha.
  - intros [= <- <-] Hi Hr. split; [done|]. split; [|lia].
    destruct (decide (i = a)) as [->|Hne].
    + split; [lia|]. destruct (filter P (seq (S a) n)) as [|c core] eqn:E; [done|].
      assert (a < List.last core c)%nat; [|rewrite last_cons_default; lia].
      assert (c ∈ filter P (seq (S a) n)) as Hc by (rewrite E; set_solver).
      apply list_elem_of_filter in Hc as [Hc Hc']. apply elem_of_seq in Hc'.
      destruct (IH (S a) c core c E Hc) as (_ & ? & ?); lia.
    + destruct (filter P (seq (S a) n)) as [|c core] eqn:E.
      * exfalso. assert (i ∈ filter P (seq (S a) n)) as Hin by (apply list_elem_of_filter; rewrite elem_of_seq; split; [done|lia]).
        rewrite E in Hin. set_solver.
      * destruct (IH (S a) c core i E Hi ltac:(lia)) as (_ & ? & ?). rewrite last_cons_default. lia.
  - intros E Hi Hr. destruct (decide (i = a)) as [->|]; [done|]. destruct (IH (S a) lo core i E Hi); [lia|]. split; [done|lia].
Qed.

Lemma edge_loop_last start_ts end_ts pre e post k last_before :
  Forall (fun x => x < start_ts) pre -> e < start_ts -> Forall (fun x => start_ts <= x /\ end_ts < x) post ->
  (edge_loop k start_ts end_ts (pre ++ e :: post) last_before).1 = Some (k + length pre)%nat.
Proof.
  intros Hpre He Hpost. revert k last_before.
  induction Hpre as [|x pre Hx _ IH]; intros k last_before; cbn [app edge_loop].
  - replace (e <? start_ts) with true by lia. destruct Hpost as [|y post [? ?] _]; cbn [edge_loop]; [simpl; f_equal; lia|].
    replace (y <? start_ts) with false by lia. replace (end_ts <? y) with true by lia. simpl. f_equal. lia.
  - replace (x <? start_ts) with true by lia. rewrite IH. f_equal. simpl. lia.
Qed.

(** A file that is open when the window opens, or begins within it, is taken. *)
Lemma window_takes start_ts end_ts n (epochs : list Z) i e :
  (1 <= n)%nat -> (forall j k x y, epochs !! j = Some x -> epochs !! k = Some y -> (j <= k)%nat -> x <= y) ->
  epochs !! i = Some e -> e <= end_ts -> (forall j x, (i < j)%nat -> epochs !! j = Some x -> start_ts <= x) ->
  i ∈ window_indices start_ts end_ts n epochs.
Proof.
  intros Hn Hs Hi He Hnext. unfold window_indices. pose proof (lookup_lt_Some _ _ _ Hi) as Hlen.
  assert (forall j x, epochs !! j = Some x -> nth j epochs 0 = x) as Hnth.
  { intros j x Hj. rewrite nth_lookup, Hj. done. }
  unfold core_indices. destruct (filter _ (seq 0 _)) as [|lo core] eqn:E.
  - assert (forall j x, epochs !! j = Some x -> ~ (start_ts <= x <= end_ts)) as Hnone.
    { intros j x Hj Hx. assert (j ∈ @nil nat) as Hin; [|by apply elem_of_nil in Hin]. rewrite <- E.
      apply list_elem_of_filter. rewrite (Hnth j x Hj), elem_of_seq. apply lookup_lt_Some in Hj. split; [done|lia]. }
    destruct (edge_loop 0 start_ts end_ts epochs None) as [before after] eqn:El.
    assert (before = Some i) as ->; [|simpl; set_solver].
    change before with (before, after).1. rewrite <- El, <- (take_drop_middle _ _ _ Hi).
    rewrite edge_loop_last; [rewrite length_take; f_equal; lia| | |].
    + apply Forall_lookup. intros j x [Hj ?]%lookup_take_Some. pose proof (Hs j i x e Hj Hi ltac:(lia)).
      pose proof (Hnone i e Hi). lia.
    + pose proof (Hnone i e Hi). lia.
    + apply Forall_lookup. intros j x Hj. rewrite lookup_drop in Hj. pose proof (Hnext (S i + j)%nat x ltac:(lia) Hj).
      pose proof (Hnone _ _ Hj). lia.
  - assert (forall j x, epochs !! j = Some x -> start_ts <= x <= end_ts ->
              (lo <= j <= List.last core lo)%nat /\ start_ts <= nth lo epochs 0 <= end_ts /\ (lo < length epochs)%nat) as Hcore.
    { intros j x Hj Hx. apply lookup_lt_Some in Hj as Hlt.
      destruct (seq_filter_head _ _ _ _ _ j E) as (Hlo & ? & ?); [by rewrite (Hnth j x Hj)|lia|]. split; [done|]. split; [exact Hlo|lia]. }
    destruct (decide (start_ts <= e)) as [Hin|Hout].
    + destruct (Hcore i e Hi) as (? & _ & _); [lia|]. apply elem_of_app. left. apply elem_of_seq. lia.
    + assert (lo ∈ lo :: core) as Hlo by set_solver. rewrite <- E in Hlo. apply list_elem_of_filter in Hlo as [Hlo Hlt].
      apply elem_of_seq in Hlt. destruct (lookup_lt_is_Some_2 epochs lo) as [x Hx]; [lia|]. rewrite (Hnth lo x Hx) in Hlo.
      assert (i < lo)%nat as Hil. { destruct (decide (lo <= i)%nat); [|lia]. pose proof (Hs lo i x e Hx Hi). lia. }
      destruct (lookup_lt_is_Some_2 epochs (S i)) as [y Hy]; [lia|].
      pose proof (Hnext (S i) y ltac:(lia) Hy). pose proof (Hs (S i) lo y x Hy Hx ltac:(lia)).
      destruct (Hcore (S i) y Hy) as (? & _ & _); [lia|].
      apply elem_of_app. right. apply list_elem_of_In, in_concat. exists ((if (1 <=? lo)%nat then [(lo - 1)%nat] else []) ++
        (if (List.last core lo + 1 <? length epochs)%nat then [(List.last core lo + 1)%nat] else [])).
      split; [apply list_elem_of_In, list_elem_of_fmap; exists 1%nat; split; [done|apply elem_of_seq; lia]|].
      apply in_or_app. left. replace (1 <=? lo)%nat with true by (symmetry; apply Nat.leb_le; lia). left. lia.
Qed.

(** ** Selection by host and window *)

Lemma with_epochs_spec l out : with_epochs l = Ok out ->
  out.*1 = l /\ forall p, p ∈ out -> sort_epoch_of p.1 = Ok p.2.
Proof.
  revert out. induction l as [|r l IH]; intros out; cbn [with_epochs]; [intros [= <-]; split; [done|set_solver]|].
  destruct (sort_epoch_of r) as [e|] eqn:E; [|done]. cbn [mbind result_bind]. destruct (with_epochs l) as [out'|]; [|done].
  intros [= <-]. destruct (IH out' eq_refl) as [<- IH']. split; [done|]. intros p [->|Hp]%elem_of_cons; [done|by apply IH'].
Qed.

Definition host_of (r : FindStatsRecord) : string := path_basename (path_dirname (rec_path r)).

Lemma by_host_lookup l h :
  by_host l !! h = match filter (fun p => host_of p.1 = h) l with [] => None | l' => Some l' end.
Proof.
  unfold by_host. induction l as [|p l IH] using rev_ind; [done|].
  rewrite foldl_app, filter_app. cbn [foldl]. cbv zeta. rewrite dict_lookup_insert, filter_cons.
  fold (host_of p.1). unfold filter at 2. cbn [list_filter].
  destruct (decide (host_of p.1 = h)) as [<-|Hne].
  - rewrite IH. destruct (filter _ l) as [|q l']; [done|]. done.
  - rewrite IH, app_nil_r. done.
Qed.

Lemma expand_takes items start_ts end_ts n i p :
  items !! i = Some p -> i ∈ window_indices start_ts end_ts (Z.to_nat n) ((fun q : FindStatsRecord * Z => q.2 * 1000000) <$> items) ->
  p.1 ∈ expand_sorted_records_with_window_neighbors items (Some (start_ts, end_ts)) n.
Proof.
  intros Hi Ht. unfold expand_sorted_records_with_window_neighbors. apply list_elem_of_omap. exists i. split.
  - apply list_elem_of_filter. split; [exact Ht|]. apply elem_of_seq. apply lookup_lt_Some in Hi. lia.
  - by rewrite list_lookup_fmap, Hi.
Qed.

(** The last place of an element. *)
Lemma last_place {A} `{EqDecision A} (x : A) (l : list A) : x ∈ l ->
  exists i, l !! i = Some x /\ forall j y, (i < j)%nat -> l !! j = Some y -> y <> x.
Proof.
  induction l as [|a l IH] using rev_ind; [set_solver|]. intros Hx. destruct (decide (a = x)) as [->|Hne].
  - exists (length l). split; [by rewrite lookup_app_r, Nat.sub_diag by done|]. intros j y Hj Hy.
    apply lookup_lt_Some in Hy. rewrite length_app in Hy. simpl in Hy. lia.
  - destruct IH as (i & Hi & Hl); [set_solver|]. exists i. split; [by apply lookup_app_l_Some|].
    intros j y Hj [Hy|[Hlen Hy]]%lookup_app_Some; [by apply (Hl j)|].
    apply list_lookup_singleton_Some in Hy as [_ <-]. done.
Qed.

(** [C27] Every file of an allowed host that covers part of the window is found: one that begins
    within it, or that begins before and is not followed, at its host, by another file
    that begins before the window does. *)
Theorem window_gets_overlapping_files (records : list FindStatsRecord) (host_fqdns : list string) (start_ts end_ts : Z)
    (current_inodes : gmap string Z) (neighbor_files : Z) (out : list FindStatsRecord) (r : FindStatsRecord) (e : Z) :
  filter_host_scoped_window_records records host_fqdns (Some (start_ts, end_ts)) current_inodes neighbor_files = Ok out ->
  1 <= neighbor_files -> r ∈ records -> closed_record current_inodes r = true ->
  host_of r <> "" -> host_of r ∈ py_strip <$> host_fqdns ->
  sort_epoch_of r = Ok e -> e * 1000000 <= end_ts ->
  start_ts <= e * 1000000 \/
  (forall r' e', r' ∈ records -> closed_record current_inodes r' = true -> host_of r' = host_of r ->
     sort_epoch_of r' = Ok e' -> r' <> r -> e' < e \/ start_ts <= e' * 1000000) ->
  r ∈ out.
Proof.
  intros Hf Hn Hr Hc Hh Ha He Hend Hnext. unfold filter_host_scoped_window_records in Hf.
  assert (host_of r ∈ filter (fun h => h <> "") (py_strip <$> host_fqdns)) as Hallow by by apply list_elem_of_filter.
  rewrite decide_False in Hf by (intros E; rewrite E in Hallow; set_solver).
  apply result_bind_ok in Hf as (items & Hitems & Hf). apply result_bind_ok in Hf as (selected & Hsel & [= <-]).
  apply with_epochs_spec in Hitems as [Hi1 Hi2], Hsel as [Hs1 _].
  rewrite sort_epoch_perm, Hs1. set (mine := filter (fun p => host_of p.1 = host_of r) items).
  assert ((r, e) ∈ mine) as Hmine.
  { apply list_elem_of_filter. split; [done|]. assert (r ∈ items.*1) as Hin.
    - rewrite Hi1. apply list_elem_of_filter. split; [by split|done].
    - apply list_elem_of_fmap in Hin as ([r' e'] & -> & Hin). pose proof (Hi2 _ Hin) as E. cbn [fst snd] in *.
      rewrite He in E. by injection E as <-. }
  destruct (last_place (r, e) (sort_epoch mine)) as (i & Hi & Hlast); [by rewrite sort_epoch_perm|].
  apply list_elem_of_join.
  exists (expand_sorted_records_with_window_neighbors (sort_epoch mine) (Some (start_ts, end_ts)) neighbor_files). split.
  - apply (expand_takes _ _ _ _ i (r, e) Hi). apply (window_takes _ _ _ _ _ (e * 1000000)); [lia| |by rewrite list_lookup_fmap, Hi|done|].
    + intros j k x y. rewrite !list_lookup_fmap. intros Hj Hk Hjk.
      destruct (sort_epoch mine !! j) as [p|] eqn:Ej; [|done]. destruct (sort_epoch mine !! k) as [q|] eqn:Ek; [|done].
      pose proof (sorted_lookup _ _ _ _ _ (sort_epoch_sorted mine) Ej Ek Hjk). simplify_eq/=. lia.
    + intros j x Hj. rewrite list_lookup_fmap. destruct (sort_epoch mine !! j) as [[r' e']|] eqn:Ej; [|done]. intros [= <-].
      pose proof (sorted_lookup _ _ _ _ _ (sort_epoch_sorted mine) Hi Ej ltac:(lia)) as Hle. simpl in *.
      pose proof (Hlast j (r', e') Hj Ej) as Hne.
      apply list_elem_of_lookup_2 in Ej. rewrite sort_epoch_perm in Ej. apply list_elem_of_filter in Ej as [Eh Ej].
      pose proof (Hi2 _ Ej) as Ee. simpl in *.
      assert (r' ∈ items.*1) as Hr' by (apply list_elem_of_fmap; by exists (r', e')). rewrite Hi1 in Hr'.
      apply list_elem_of_filter in Hr' as [[Hc' _] Hr'].
      destruct Hnext as [?|Hnext]; [lia|]. destruct (Hnext r' e' Hr' Hc' Eh Ee) as [?|?]; [congruence|lia..].
  - apply list_elem_of_fmap. exists mine. split; [done|]. apply list_elem_of_fmap. exists (host_of r, mine). split; [done|].
    apply dict_lookup_elem. rewrite by_host_lookup. fold mine. by destruct mine; [apply elem_of_nil in Hmine|].
Qed.

(** ** A concrete walk *)

Module FindDemo.

(** [float(text)] on whole numbers. *)
Definition read_float (s : string) : option float64 := float_of_Z <$> py_int s.

(** [datetime.fromtimestamp] in UTC: years up to 9999, 64 bit seconds. *)
Definition utc_datetime (t : Z) : result Z :=
  if (t <? - 2 ^ 63) || (2 ^ 63 <=? t) then Raise OverflowError
  else if 253402300800 <=? t then Raise ValueError else Ok (t * 1000000).

Definition file (path : string) (mtime size inode : Z) : FindStatsRecord :=
  {| rec_path := path; rec_mtime := float_of_Z mtime; rec_size := size; rec_inode := inode |}.

Definition f1 : FindStatsRecord := file "/raw/n1.x/1600000000" 1600000599 10 1.
Definition f2 : FindStatsRecord := file "/raw/n1.x/1600000600" 1600001199 20 2.
Definition f3 : FindStatsRecord := file "/raw/n2.x/1600000000" 1600000599 30 3.

Definition nul : string := String NUL "".
Definition output : list string :=
  [("/raw/n1.x/1600000000" +:+ nul +:+ "16000")%string; "";
   ("00599" +:+ nul +:+ "10" +:+ nul +:+ "1" +:+ nul +:+ "/raw/n1.x/1600000600" +:+ nul +:+ "1600001199" +:+ nul)%string;
   ("20" +:+ nul +:+ "2" +:+ nul)%string].


(** The window opens after the first file began: that file is found with the second. *)
Lemma window_gets_overlapping_files_witness :
  filter_host_scoped_window_records [f2; f1; f3] [" n1.x"] (Some (1600000300 * 1000000, 1600000700 * 1000000)) ∅ 1 = Ok [f1; f2] /\
  f1 ∈ [f1; f2].
Proof.
  assert (filter_host_scoped_window_records [f2; f1; f3] [" n1.x"] (Some (1600000300 * 1000000, 1600000700 * 1000000)) ∅ 1
            = Ok [f1; f2]) as H by (vm_compute; reflexivity).
  split; [exact H|].
  refine (window_gets_overlapping_files _ _ _ _ _ _ _ f1 1600000000 H _ _ _ _ _ _ _ _).
  - lia.
  - set_solver.
  - vm_compute; reflexivity.
  - by vm_compute.
  - apply list_elem_of_In. left. vm_compute. reflexivity.
  - vm_compute; reflexivity.
  - lia.
  - right. intros r' e' Hr _ Hh He Hne. apply list_elem_of_In in Hr. destruct Hr as [<-|[<-|[<-|[]]]]; [|done|].
    + right. vm_compute in He. injection He as <-. lia.
    + exfalso. vm_compute in Hh. discriminate Hh.
Defined.

(** [stat --printf='%n\t%Y\t%s\t%i\0'] through [tr '\t' '\0']: what the sorted walk reads. *)
Definition printed_for_sort (path mtime : string) (size inode : Z) : string :=
  let tab := String TAB "" in
  path +:+ tab +:+ mtime +:+ tab +:+ str_of_Z size +:+ tab +:+ str_of_Z inode +:+ nul.
Definition tr_tabs (s : string) : string := py_replace TAB NUL s.

(** One file with a tab in its name stops the sorted walk, and hides the files after it.
    Without the sort the same file is read like any other. *)
Example tab_stops_sorted_walk :
  let name := ("/raw/n1.x/a" +:+ String TAB "b")%string in
  iter_find_printf_records_streaming read_float
    [(tr_tabs (printed_for_sort name "1600000599" 10 1) +:+ tr_tabs (printed_for_sort "/raw/n1.x/1600000600" "1600001199" 20 2))%string]
  = ([], Some RuntimeError) /\
  iter_find_printf_records_streaming read_float [(printed (file name 1600000599 10 1, "1600000599") +:+ printed (f2, "1600001199"))%string]
  = ([file name 1600000599 10 1; f2], None).
Proof. vm_compute. done. Qed.

(** A file whose name is a number of twenty digits stops the whole selection: the
    conversion raises [OverflowError], and only [TypeError] and [ValueError] are caught. *)
Example huge_name_stops_selection :
  filter_and_sort_find_records utc_datetime [f1; file "/raw/n1.x/99999999999999999999" 1600000599 5 9] "x" Everything ∅ true =
    Raise OverflowError /\
  filter_and_sort_find_records utc_datetime [f1; f2] "x" Everything ∅ true = Ok [f2; f1].
Proof. vm_compute. done. Qed.
End FindDemo.
