(* ===== verification/WriteStage.v ===== *)
(** The ingest write stage: [dbload/lib/sync_timedb_ingest_write_stage.py].

    Parser threads hand the rows of a file to a few writer threads through one bounded
    queue, and wait on the payload for the outcome.  The stage can be stopped and started
    again while callers are at work.  [_STAGE_LOCK] covers starting and stopping only, so
    what callers and writers read ([_STARTED], [_WRITE_QUEUE], [_SHUTDOWN]) can change
    between any two of their reads: every thread is a program counter here and a step is
    one read, one queue operation or one write.  A [queue.Queue] object is its place in
    [queues], a thread its place in [workers], a payload its key.

    What [_write_stats_payload_to_db] answers is an argument of the step that calls it.
    Times are microseconds.  Connections and thread titles are left out. *)
From S2P Require Import Prelude.
From stdpp Require Import gmap.

(** ** Payloads and queues *)

(** [payload.error]: the class of its own, or what the write raised. *)
Inductive write_error := IngestWriteStageShutdownError | WriteFailed (e : py_exn).

#[export] Instance write_error_eq_dec : EqDecision write_error.
Proof. solve_decision. Defined.

Record IngestWritePayload := {
  done : bool;
  error : option write_error;
  archival_out : bool;
  ingest_ok : bool;
}.

#[export] Instance payload_eq_dec : EqDecision IngestWritePayload.
Proof. solve_decision. Defined.

Definition new_payload : IngestWritePayload :=
  {| done := false; error := None; archival_out := true; ingest_ok := false |}.

(** What the database write does: [(archival, ok)], or an exception. *)
Definition outcome := result (bool * bool).

Definition finished (o : outcome) : IngestWritePayload :=
  match o with
  | Ok (archival, ok) => {| done := true; error := None; archival_out := archival; ingest_ok := ok |}
  | Raise e => {| done := true; error := Some (WriteFailed e); archival_out := true; ingest_ok := false |}
  end.

Definition refused : IngestWritePayload :=
  {| done := true; error := Some IngestWriteStageShutdownError; archival_out := true; ingest_ok := false |}.

Inductive item := Work (p : nat) | Sentinel.

#[export] Instance item_eq_dec : EqDecision item.
Proof. solve_decision. Defined.

Record wqueue := WQueue { wq_items : list item; wq_max : nat }.

#[export] Instance wqueue_eq_dec : EqDecision wqueue.
Proof. solve_decision. Defined.

Definition full (Q : wqueue) : bool := wq_max Q <=? length (wq_items Q).
Definition push (x : item) (Q : wqueue) : wqueue := WQueue (wq_items Q ++ [x]) (wq_max Q).

(** ** Threads *)

(** [_write_worker_main]: before the test of [_SHUTDOWN], before the read of
    [_WRITE_QUEUE], in [q.get], in [_execute_write_payload], and returned. *)
Inductive worker_pc := AtTop | Fetch | Get (q : nat) | Writing (p : nat) | Exited.

#[export] Instance worker_pc_eq_dec : EqDecision worker_pc.
Proof. solve_decision. Defined.

(** A call of [submit_ingest_write] or, when it waits, [submit_ingest_write_and_wait]:
    the two tests on entry, the inline write, the top of the loop, the read of the queue,
    the [put] on it, the two tests before the wait, the wait, and the two ends. *)
Inductive caller_pc :=
| Begin | BeginQueue | Inline | Loop | Put | PutOn (q : nat) | After | AfterQueue | Waiting | Returned | Raised.

#[export] Instance caller_pc_eq_dec : EqDecision caller_pc.
Proof. solve_decision. Defined.

Record caller := Caller { waits : bool; pc : caller_pc }.

#[export] Instance caller_eq_dec : EqDecision caller.
Proof. solve_decision. Defined.

(** [stop_ingest_write_stage] under the lock: sentinels still to put, the join, and the
    assignments after it. *)
Inductive stop_pc := StopPut (k : nat) | StopJoin | StopUnset | StopClear.

#[export] Instance stop_pc_eq_dec : EqDecision stop_pc.
Proof. solve_decision. Defined.

(** ** The stage *)

Record stage := Stage {
  started : bool;
  shutdown : bool;
  write_queue : option nat;
  write_threads : list nat;
  queues : list wqueue;
  workers : list worker_pc;
  callers : gmap nat caller;
  payloads : gmap nat IngestWritePayload;
  writers_busy : Z;
  stopper : option stop_pc;
  executed : list nat;
}.

Definition new_stage : stage := Stage false false None [] [] [] ∅ ∅ 0 None [].

Definition with_queues (l : list wqueue) (s : stage) : stage :=
  Stage (started s) (shutdown s) (write_queue s) (write_threads s) l (workers s) (callers s) (payloads s) (writers_busy s)
    (stopper s) (executed s).
Definition set_worker (w : nat) (x : worker_pc) (s : stage) : stage :=
  Stage (started s) (shutdown s) (write_queue s) (write_threads s) (queues s) (<[w := x]> (workers s)) (callers s) (payloads s)
    (writers_busy s) (stopper s) (executed s).
Definition set_caller (p : nat) (c : caller) (s : stage) : stage :=
  Stage (started s) (shutdown s) (write_queue s) (write_threads s) (queues s) (workers s) (<[p := c]> (callers s)) (payloads s)
    (writers_busy s) (stopper s) (executed s).
Definition set_payload (p : nat) (y : IngestWritePayload) (s : stage) : stage :=
  Stage (started s) (shutdown s) (write_queue s) (write_threads s) (queues s) (workers s) (callers s) (<[p := y]> (payloads s))
    (writers_busy s) (stopper s) (executed s).
Definition add_busy (d : Z) (s : stage) : stage :=
  Stage (started s) (shutdown s) (write_queue s) (write_threads s) (queues s) (workers s) (callers s) (payloads s)
    (writers_busy s + d) (stopper s) (executed s).
Definition set_globals (st sh : bool) (q : option nat) (ths : list nat) (sp : option stop_pc) (s : stage) : stage :=
  Stage st sh q ths (queues s) (workers s) (callers s) (payloads s) (writers_busy s) sp (executed s).

(** [_execute_write_payload]: the write is made once, and [done] is set last. *)
Definition execute_write_payload (p : nat) (o : outcome) (s : stage) : stage :=
  Stage (started s) (shutdown s) (write_queue s) (write_threads s) (queues s) (workers s) (callers s)
    (<[p := finished o]> (payloads s)) (writers_busy s) (stopper s) (executed s ++ [p]).

(** [start_ingest_write_stage]: one step, for nothing it assigns is looked at before
    [_STARTED] is set, except by a caller that was in its loop already. *)
Definition start_ingest_write_stage (write_workers queue_max : Z) (s : stage) : option stage :=
  match stopper s with
  | Some _ => None
  | None =>
      if started s then Some s
      else
        let n := Z.to_nat (Z.max 1 write_workers) in
        let q := WQueue [] (Z.to_nat (Z.max 1 queue_max)) in
        Some (Stage true false (Some (length (queues s))) (seq (length (workers s)) n) (queues s ++ [q])
          (workers s ++ replicate n AtTop) (callers s) (payloads s) (writers_busy s) None (executed s))
  end.

(** The call of [stop_ingest_write_stage], to the first sentinel. *)
Definition stop_begin (s : stage) : option stage :=
  match stopper s with
  | Some _ => None
  | None =>
      if started s
      then Some (set_globals true true (write_queue s) (write_threads s) (Some (StopPut (length (write_threads s)))) s)
      else Some s
  end.

(** Its next step.  The join may time out, so it can end at any moment. *)
Definition stop_step (s : stage) : option stage :=
  let go sp := set_globals (started s) (shutdown s) (write_queue s) (write_threads s) (Some sp) s in
  match stopper s with
  | None => None
  | Some (StopPut 0) => Some (go StopJoin)
  | Some (StopPut (S k)) =>
      match write_queue s with
      | None => Some (go StopJoin)
      | Some q =>
          match queues s !! q with
          | None => None
          | Some Q => if full Q then Some (go StopJoin) else Some (with_queues (<[q := push Sentinel Q]> (queues s)) (go (StopPut k)))
          end
      end
  | Some StopJoin => Some (set_globals (started s) (shutdown s) None [] (Some StopUnset) s)
  | Some StopUnset => Some (set_globals false (shutdown s) (write_queue s) (write_threads s) (Some StopClear) s)
  | Some StopClear => Some (set_globals (started s) false (write_queue s) (write_threads s) None s)
  end.

(** The next step of a writer thread. *)
Definition worker_step (w : nat) (o : outcome) (s : stage) : option stage :=
  match workers s !! w with
  | None | Some Exited => None
  | Some AtTop => Some (set_worker w (if shutdown s then Exited else Fetch) s)
  | Some Fetch => Some (set_worker w (match write_queue s with None => Exited | Some q => Get q end) s)
  | Some (Get q) =>
      match queues s !! q with
      | None => None
      | Some Q =>
          match wq_items Q with
          | [] => Some (set_worker w AtTop s)
          | Sentinel :: l => Some (set_worker w Exited (with_queues (<[q := WQueue l (wq_max Q)]> (queues s)) s))
          | Work p :: l => Some (add_busy 1 (set_worker w (Writing p) (with_queues (<[q := WQueue l (wq_max Q)]> (queues s)) s)))
          end
      end
  | Some (Writing p) => Some (add_busy (-1) (set_worker w AtTop (execute_write_payload p o s)))
  end.

(** A new call. *)
Definition submit_begin (p : nat) (wait : bool) (s : stage) : option stage :=
  match callers s !! p with
  | Some _ => None
  | None => Some (set_payload p new_payload (set_caller p (Caller wait Begin) s))
  end.

(** The end of [submit_ingest_write]. *)
Definition submitted (wait : bool) : caller := Caller wait (if wait then After else Returned).

(** The next step of a call. *)
Definition caller_step (p : nat) (o : outcome) (s : stage) : option stage :=
  match callers s !! p with
  | None => None
  | Some c =>
      let go x := Some (set_caller p (Caller (waits c) x) s) in
      match pc c with
      | Begin => go (if started s then BeginQueue else Inline)
      | BeginQueue => go (match write_queue s with None => Inline | Some _ => Loop end)
      | Inline => Some (set_caller p (submitted (waits c)) (execute_write_payload p o s))
      | Loop => if shutdown s then Some (set_payload p refused (set_caller p (submitted (waits c)) s)) else go Put
      | Put => go (match write_queue s with None => Raised | Some q => PutOn q end)
      | PutOn q =>
          match queues s !! q with
          | None => None
          | Some Q =>
              if full Q then go Loop
              else Some (set_caller p (submitted (waits c)) (with_queues (<[q := push (Work p) Q]> (queues s)) s))
          end
      | After => go (if started s then AfterQueue else Returned)
      | AfterQueue => go (match write_queue s with None => Returned | Some _ => Waiting end)
      | Waiting => match payloads s !! p with
                   | Some y => if done y then go Returned else None
                   | None => None
                   end
      | Returned | Raised => None
      end
  end.

(** ** The program *)

Inductive step : stage -> stage -> Prop :=
| step_start n m s s' : start_ingest_write_stage n m s = Some s' -> step s s'
| step_stop s s' : stop_begin s = Some s' -> step s s'
| step_stopping s s' : stop_step s = Some s' -> step s s'
| step_worker w o s s' : worker_step w o s = Some s' -> step s s'
| step_submit p wait s s' : submit_begin p wait s = Some s' -> step s s'
| step_caller p o s s' : caller_step p o s = Some s' -> step s s'.

Definition reachable (s : stage) : Prop := rtc step new_stage s.

(** ** Questions *)

Definition write_queue_qsize (s : stage) : nat :=
  match write_queue s with
  | None => 0
  | Some q => match queues s !! q with Some Q => length (wq_items Q) | None => 0 end
  end.

Definition write_stage_started (s : stage) : bool := started s.
Definition ingest_write_stage_started (s : stage) : bool := started s.

(** [configured]: the setting used when the argument is [None]. *)
Definition refuse_new_parse_when_queue_full (queue_max : option Z) (configured : Z) (s : stage) : bool :=
  let cap := Z.max 1 (default configured queue_max) in
  if negb (write_stage_started s) then false else (cap <=? Z.of_nat (write_queue_qsize s))%Z.

(** ** Time blocked in [put] *)

Record put_block := PutBlock { put_block_sum : Z; put_block_max : Z; put_block_n : Z }.

Definition PUT_BLOCK_EPS : Z := 1000.

Definition record_put_block_wait (wait : Z) (b : put_block) : put_block :=
  let wait := Z.max 0 wait in
  PutBlock (put_block_sum b + wait) (Z.max (put_block_max b) wait)
    (put_block_n b + if (PUT_BLOCK_EPS <? wait)%Z then 1 else 0).

Definition reset_put_block_window (b : put_block) : put_block := PutBlock 0 0 0.
Definition snapshot_put_block_window (b : put_block) : Z * Z * Z := (put_block_sum b, put_block_max b, put_block_n b).
