(* ===== verification/WriteStageSpec.v ===== *)
(** Correctness of the ingest write stage: every payload is written at most once, what a
    caller is told about it is what happened, and a stage that nobody stops writes what
    is queued; a stage that is stopped can strand it. *)
From S2P Require Import Prelude WriteStage.
From stdpp Require Import gmap.

(** ** Where the payloads are *)

Definition works (l : list item) : list nat := omap (fun x => match x with Work p => Some p | Sentinel => None end) l.
Definition in_queue (Q : wqueue) : list nat := works (wq_items Q).
Definition in_worker (x : worker_pc) : list nat := match x with Writing p => [p] | _ => [] end.

(** Queued, being written, written. *)
Definition tasks (s : stage) : list nat :=
  concat (in_queue <$> queues s) ++ concat (in_worker <$> workers s) ++ executed s.

(** The call can still hand its payload over. *)
Definition before_put (x : caller_pc) : bool :=
  match x with Begin | BeginQueue | Inline | Loop | Put | PutOn _ => true | _ => false end.

(** The counters a thread holds name things that exist. *)
Definition valid_worker (s : stage) (x : worker_pc) : Prop :=
  match x with Get q => q < length (queues s) | _ => True end.

(** A writer of the running stage: alive, and at work for its queue. *)
Definition serves (s : stage) (q : nat) (x : worker_pc) : Prop :=
  match x with AtTop | Fetch | Writing _ => True | Get q' => q' = q | Exited => False end.

(** What callers know about payloads, [ts] being the tasks and [ex] those written. *)
Record ledger (ts ex : list nat) (cs : gmap nat caller) (ps : gmap nat IngestWritePayload) : Prop := {
  lg_once : NoDup ts;
  lg_known p : p ∈ ts -> is_Some (cs !! p);
  lg_fresh p c : cs !! p = Some c -> before_put (pc c) = true -> p ∉ ts /\ ps !! p = Some new_payload;
  lg_domain p : is_Some (ps !! p) <-> is_Some (cs !! p);
  lg_answer p y : ps !! p = Some y ->
    (y = new_payload /\ p ∉ ex) \/ (p ∈ ex /\ exists o, y = finished o) \/
    (y = refused /\ p ∉ ts /\ exists c, cs !! p = Some c /\ before_put (pc c) = false);
  lg_written p : p ∈ ex -> p ∈ ts;
}.

Record stage_wf (s : stage) : Prop := {
  wf_ledger : ledger (tasks s) (executed s) (callers s) (payloads s);
  wf_queues q Q : queues s !! q = Some Q -> length (wq_items Q) <= wq_max Q;
  wf_current q : write_queue s = Some q -> q < length (queues s);
  wf_put p c q : callers s !! p = Some c -> pc c = PutOn q -> q < length (queues s);
  wf_workers w x : workers s !! w = Some x -> valid_worker s x;
  wf_shutdown : stopper s = None -> shutdown s = false;
  wf_phase : stopper s = Some StopClear -> started s = false;
  wf_running : started s = true -> stopper s = None -> exists q Q,
    write_queue s = Some q /\ queues s !! q = Some Q /\ Sentinel ∉ wq_items Q /\ write_threads s <> [] /\
    forall w, w ∈ write_threads s -> exists x, workers s !! w = Some x /\ serves s q x;
}.

(** ** The ledger *)

Section ledger.
Context (ts ex : list nat) (cs : gmap nat caller) (ps : gmap nat IngestWritePayload) (L : ledger ts ex cs ps).

Lemma ledger_perm ts' : ts' ≡ₚ ts -> ledger ts' ex cs ps.
Proof.
  intros E. destruct L as [H1 H2 H3 H4 H5 H6].
  split; [by rewrite E|intros p; rewrite E; auto|intros p c; rewrite E; eauto|done| |intros p; rewrite E; auto].
  intros p y Hy. rewrite E. by apply H5.
Qed.

(** A call goes on. *)
Lemma ledger_pc p c c' : cs !! p = Some c -> (before_put (pc c') = true -> before_put (pc c) = true) ->
  ledger ts ex (<[p := c']> cs) ps.
Proof.
  intros Hc Hb. destruct L as [H1 H2 H3 H4 H5 H6]. split; [done| | | | |done].
  - intros q Hq. destruct (decide (p = q)) as [<-|]; [by rewrite lookup_insert_eq|rewrite lookup_insert_ne by done; auto].
  - intros q d Hd Hp. destruct (decide (p = q)) as [<-|]; [|rewrite lookup_insert_ne in Hd by done; eauto].
    rewrite lookup_insert_eq in Hd. simplify_eq. by apply (H3 p c Hc), Hb.
  - intros q. destruct (decide (p = q)) as [<-|]; [rewrite lookup_insert_eq, H4, Hc; split; eauto|by rewrite lookup_insert_ne by done].
  - intros q y Hy. destruct (H5 q y Hy) as [?|[?|(? & ? & d & Hd & ?)]]; [auto..|]. right; right. split; [done|]. split; [done|].
    destruct (decide (p = q)) as [<-|]; [|exists d; by rewrite lookup_insert_ne by done].
    exists c'. rewrite lookup_insert_eq. split; [done|]. rewrite Hc in Hd. simplify_eq. destruct (before_put (pc c')); [|done]. by rewrite Hb in *.
Qed.

(** A call hands its payload over. *)
Lemma ledger_hand p c c' : cs !! p = Some c -> before_put (pc c) = true -> before_put (pc c') = false ->
  ledger (p :: ts) ex (<[p := c']> cs) ps.
Proof.
  intros Hc Hb Hb'. destruct (lg_fresh _ _ _ _ L p c Hc Hb) as [Hp Hn].
  destruct (ledger_pc p c c' Hc) as [H1 H2 H3 H4 H5 H6]; [by rewrite Hb'|]. split.
  - by constructor.
  - intros q [->|Hq]%elem_of_cons; [by rewrite lookup_insert_eq|auto].
  - intros q d Hd Hq. destruct (H3 q d Hd Hq) as [? ?]. split; [|done]. apply not_elem_of_cons. split; [|done].
    intros ->. rewrite lookup_insert_eq in Hd. simplify_eq. by rewrite Hb' in Hq.
  - exact H4.
  - intros q y Hy. destruct (H5 q y Hy) as [?|[?|(-> & ? & Hd)]]; [auto..|]. right; right. split; [done|]. split; [|done].
    apply not_elem_of_cons. split; [|done]. intros ->. rewrite Hn in Hy. by simplify_eq.
  - intros q Hq. apply elem_of_cons. auto.
Qed.

(** A payload is written. *)
Lemma ledger_write p o : p ∈ ts -> p ∉ ex -> ledger ts (ex ++ [p]) cs (<[p := finished o]> ps).
Proof.
  intros Hp Hx. destruct L as [H1 H2 H3 H4 H5 H6]. split; [done|done| | | |].
  - intros q c Hc Hb. destruct (H3 q c Hc Hb) as [? ?]. split; [done|]. rewrite lookup_insert_ne by congruence. done.
  - intros q. destruct (decide (p = q)) as [<-|]; [|by rewrite lookup_insert_ne by done].
    rewrite lookup_insert_eq. pose proof (H2 p Hp). split; eauto.
  - intros q y. destruct (decide (p = q)) as [<-|].
    + rewrite lookup_insert_eq. intros [= <-]. right; left. split; [set_solver|eauto].
    + rewrite lookup_insert_ne by done. intros Hy. destruct (H5 q y Hy) as [[? ?]|[[? ?]|?]]; [left|right; left|right; right]; set_solver.
  - intros q [?|?%list_elem_of_singleton]%elem_of_app; [auto|by subst].
Qed.

(** A call is refused. *)
Lemma ledger_refuse p c c' : cs !! p = Some c -> before_put (pc c) = true -> before_put (pc c') = false ->
  ledger ts ex (<[p := c']> cs) (<[p := refused]> ps).
Proof.
  intros Hc Hb Hb'. destruct (lg_fresh _ _ _ _ L p c Hc Hb) as [Hp Hn].
  destruct (ledger_pc p c c' Hc) as [H1 H2 H3 H4 H5 H6]; [by rewrite Hb'|]. split; [done|done| | | |done].
  - intros q d Hd Hq. destruct (H3 q d Hd Hq) as [? ?]. split; [done|]. rewrite lookup_insert_ne; [done|].
    intros ->. rewrite lookup_insert_eq in Hd. simplify_eq. by rewrite Hb' in Hq.
  - intros q. rewrite <- H4. destruct (decide (p = q)) as [<-|]; [rewrite lookup_insert_eq, Hn; split; eauto|by rewrite lookup_insert_ne by done].
  - intros q y. destruct (decide (p = q)) as [<-|]; [|rewrite lookup_insert_ne by done; apply H5].
    rewrite lookup_insert_eq. intros [= <-]. right; right. split; [done|]. split; [done|]. exists c'. by rewrite lookup_insert_eq.
Qed.

(** A new call. *)
Lemma ledger_new p c : cs !! p = None -> ledger ts ex (<[p := c]> cs) (<[p := new_payload]> ps).
Proof.
  intros Hc. destruct L as [H1 H2 H3 H4 H5 H6].
  assert (p ∉ ts) as Hp by (intros Hp; destruct (H2 p Hp); congruence). split; [done| | | | |done].
  - intros q Hq. rewrite lookup_insert_ne by congruence. auto.
  - intros q d. destruct (decide (p = q)) as [<-|]; [rewrite !lookup_insert_eq; done|rewrite !lookup_insert_ne by done; apply H3].
  - intros q. destruct (decide (p = q)) as [<-|]; [rewrite !lookup_insert_eq; split; eauto|by rewrite !lookup_insert_ne by done].
  - intros q y. destruct (decide (p = q)) as [<-|].
    + rewrite lookup_insert_eq. intros [= <-]. left. split; [done|]. intros Hx. by apply Hp, H6.
    + rewrite lookup_insert_ne by done. intros Hy. destruct (H5 q y Hy) as [?|[?|(? & ? & d & ? & ?)]]; [auto..|].
      right; right. split; [done|]. split; [done|]. exists d. by rewrite lookup_insert_ne by done.
Qed.
End ledger.

(** ** Moves of a task *)

Lemma concat_insert {A} (l : list (list A)) i x y : l !! i = Some x -> concat (<[i := y]> l) ++ x ≡ₚ concat l ++ y.
Proof.
  intros Hi. pose proof (lookup_lt_Some _ _ _ Hi) as Hlt. rewrite insert_take_drop by done.
  rewrite <- (take_drop_middle l i x Hi) at 3. rewrite !concat_app. cbn [concat]. solve_Permutation.
Qed.

Lemma concat_fmap_insert {A B} (f : A -> list B) (l : list A) i x y :
  l !! i = Some x -> concat (f <$> <[i := y]> l) ++ f x ≡ₚ concat (f <$> l) ++ f y.
Proof. intros Hi. rewrite list_fmap_insert. apply concat_insert. by rewrite list_lookup_fmap, Hi. Qed.

Lemma concat_fmap_insert_same {A B} (f : A -> list B) (l : list A) i x y :
  l !! i = Some x -> f x = f y -> concat (f <$> <[i := y]> l) = concat (f <$> l).
Proof. intros Hi E. rewrite list_fmap_insert, list_insert_id; [done|]. by rewrite list_lookup_fmap, Hi, <- E. Qed.

Lemma works_app l l' : works (l ++ l') = works l ++ works l'.
Proof. apply omap_app. Qed.

Lemma tasks_set_worker w x x' s : workers s !! w = Some x -> in_worker x = in_worker x' -> tasks (set_worker w x' s) = tasks s.
Proof. intros Hw E. unfold tasks. cbn. by rewrite (concat_fmap_insert_same in_worker _ _ x x'). Qed.

Lemma tasks_sentinel q Q s : queues s !! q = Some Q -> tasks (with_queues (<[q := push Sentinel Q]> (queues s)) s) = tasks s.
Proof.
  intros Hq. unfold tasks. cbn. rewrite (concat_fmap_insert_same in_queue _ _ Q); [done|done|].
  unfold in_queue, push. cbn. by rewrite works_app, app_nil_r.
Qed.

Lemma tasks_drop_sentinel q Q l s : queues s !! q = Some Q -> wq_items Q = Sentinel :: l ->
  tasks (with_queues (<[q := WQueue l (wq_max Q)]> (queues s)) s) = tasks s.
Proof.
  intros Hq E. unfold tasks. cbn. rewrite (concat_fmap_insert_same in_queue _ _ Q); [done|done|].
  unfold in_queue. by rewrite E.
Qed.

Lemma tasks_put q Q p s : queues s !! q = Some Q ->
  tasks (with_queues (<[q := push (Work p) Q]> (queues s)) s) ≡ₚ p :: tasks s.
Proof.
  intros Hq. unfold tasks. cbn. pose proof (concat_fmap_insert in_queue _ _ _ (push (Work p) Q) Hq) as E.
  unfold in_queue at 2 4, push in E. cbn in E. rewrite works_app in E. cbn in E.
  assert (concat (in_queue <$> <[q:=push (Work p) Q]> (queues s)) ≡ₚ p :: concat (in_queue <$> queues s)) as ->; [|done].
  apply (Permutation_app_inv_r (works (wq_items Q))). unfold push. rewrite E. solve_Permutation.
Qed.

Lemma tasks_take q Q p l w x s : queues s !! q = Some Q -> wq_items Q = Work p :: l -> workers s !! w = Some x -> in_worker x = [] ->
  tasks (set_worker w (Writing p) (with_queues (<[q := WQueue l (wq_max Q)]> (queues s)) s)) ≡ₚ tasks s.
Proof.
  intros Hq El Hw Ex. unfold tasks. cbn. pose proof (concat_fmap_insert in_queue _ _ _ (WQueue l (wq_max Q)) Hq) as E.
  pose proof (concat_fmap_insert in_worker _ _ _ (Writing p) Hw) as E'. rewrite Ex, app_nil_r in E'. rewrite E'.
  unfold in_queue at 2 4 in E. rewrite El in E. cbn in E.
  assert (concat (in_queue <$> queues s) ≡ₚ p :: concat (in_queue <$> <[q:=WQueue l (wq_max Q)]> (queues s))) as ->;
    [|cbn [in_worker]; solve_Permutation].
  apply (Permutation_app_inv_r (works l)). rewrite <- E. solve_Permutation.
Qed.

Lemma tasks_written w p o s : workers s !! w = Some (Writing p) ->
  tasks (set_worker w AtTop (execute_write_payload p o s)) ≡ₚ tasks s.
Proof.
  intros Hw. unfold tasks. cbn. pose proof (concat_fmap_insert in_worker _ _ _ AtTop Hw) as E. cbn [in_worker] in E.
  rewrite app_nil_r in E. rewrite <- E. solve_Permutation.
Qed.

Lemma writing_task w p s : workers s !! w = Some (Writing p) -> NoDup (tasks s) -> p ∈ tasks s /\ p ∉ executed s.
Proof.
  intros Hw. unfold tasks. assert (p ∈ concat (in_worker <$> workers s)) as Hp.
  { apply list_elem_of_In, in_concat. exists [p]. split; [|by left]. apply list_elem_of_In, list_elem_of_fmap.
    exists (Writing p). split; [done|by eapply list_elem_of_lookup_2]. }
  intros (_ & _ & (_ & Hd & _)%NoDup_app)%NoDup_app. split; [set_solver|by apply Hd].
Qed.

(** ** Every step keeps the invariant *)

#[local] Arguments tasks : simpl never.

(** A change of a thread or a queue that touches no global. *)
Lemma structure_keeps s s' :
  stage_wf s -> ledger (tasks s') (executed s') (callers s') (payloads s') ->
  started s' = started s -> shutdown s' = shutdown s -> write_queue s' = write_queue s -> write_threads s' = write_threads s ->
  stopper s' = stopper s -> length (queues s') = length (queues s) ->
  (forall q Q', queues s' !! q = Some Q' -> exists Q, queues s !! q = Some Q /\ wq_max Q' = wq_max Q /\
     (length (wq_items Q') <= wq_max Q) /\ (Sentinel ∈ wq_items Q' -> Sentinel ∈ wq_items Q)) ->
  (forall p c q, callers s' !! p = Some c -> pc c = PutOn q -> q < length (queues s)) ->
  (forall w x', workers s' !! w = Some x' -> exists x, workers s !! w = Some x /\ valid_worker s x' /\
     forall q Q, write_queue s = Some q -> queues s !! q = Some Q -> Sentinel ∉ wq_items Q -> shutdown s = false -> serves s q x -> serves s q x') ->
  (forall w, is_Some (workers s !! w) -> is_Some (workers s' !! w)) ->
  stage_wf s'.
Proof.
  intros [_ W1 W2 W3 W4 W5 W6 W7] L Es Eh Ew Et Ep El Hq Hp Hw Hk. split; [done| | | | | | |]; rewrite ?Es, ?Eh, ?Ew, ?Et, ?Ep, ?El; [|done|exact Hp| |done|done|].
  - intros q Q' HQ. destruct (Hq q Q' HQ) as (Q & ? & -> & ? & ?). done.
  - intros w x' Hx. destruct (Hw w x' Hx) as (x & _ & Hv & _). destruct x'; [done|done|by simpl; rewrite El|done|done].
  - intros Hs Hn. destruct (W7 Hs Hn) as (q & Q & Hc & HQ & Hsent & Hne & Hall). exists q.
    assert (is_Some (queues s' !! q)) as [Q' HQ'] by (apply lookup_lt_is_Some; rewrite El; by eapply lookup_lt_Some).
    exists Q'. split; [done|]. split; [done|]. destruct (Hq q Q' HQ') as (Q0 & HQ0 & _ & _ & Hi). simplify_eq.
    split; [auto|]. split; [done|]. intros w Hin. destruct (Hall w Hin) as (x & Hx & Hserves).
    destruct (Hk w) as [x' Hx']; [eauto|]. destruct (Hw w x' Hx') as (x0 & Hx0 & _ & Himp). simplify_eq.
    exists x'. split; [done|]. by eapply Himp; eauto.
Qed.

Lemma same_queues s : stage_wf s -> forall q Q', queues s !! q = Some Q' -> exists Q, queues s !! q = Some Q /\ wq_max Q' = wq_max Q /\
  (length (wq_items Q') <= wq_max Q) /\ (Sentinel ∈ wq_items Q' -> Sentinel ∈ wq_items Q).
Proof. intros Hs q Q' HQ. exists Q'. split_and!; [done|done|by eapply wf_queues|done]. Qed.

Lemma same_workers s : stage_wf s -> forall w x', workers s !! w = Some x' -> exists x, workers s !! w = Some x /\ valid_worker s x' /\
  forall q Q, write_queue s = Some q -> queues s !! q = Some Q -> Sentinel ∉ wq_items Q -> shutdown s = false -> serves s q x -> serves s q x'.
Proof. intros Hs w x' Hw. exists x'. split_and!; [done|by eapply wf_workers|done]. Qed.

(** One queue becomes another with no more sentinels. *)
Lemma one_queue s q Q Q1 : stage_wf s -> queues s !! q = Some Q -> wq_max Q1 = wq_max Q -> (length (wq_items Q1) <= wq_max Q) ->
  (Sentinel ∈ wq_items Q1 -> Sentinel ∈ wq_items Q) ->
  forall q' Q', <[q := Q1]> (queues s) !! q' = Some Q' -> exists Q, queues s !! q' = Some Q /\ wq_max Q' = wq_max Q /\
  (length (wq_items Q') <= wq_max Q) /\ (Sentinel ∈ wq_items Q' -> Sentinel ∈ wq_items Q).
Proof.
  intros Hs HQ Hm Hl Hse q' Q' [(<- & <- & _)|(Hne & HQ')]%list_lookup_insert_Some; [by exists Q|by apply same_queues].
Qed.

(** One thread goes on. *)
Lemma one_worker s w x x1 : stage_wf s -> workers s !! w = Some x -> valid_worker s x1 ->
  (forall q Q, write_queue s = Some q -> queues s !! q = Some Q -> Sentinel ∉ wq_items Q -> shutdown s = false -> serves s q x -> serves s q x1) ->
  forall w' x', <[w := x1]> (workers s) !! w' = Some x' -> exists x, workers s !! w' = Some x /\ valid_worker s x' /\
  forall q Q, write_queue s = Some q -> queues s !! q = Some Q -> Sentinel ∉ wq_items Q -> shutdown s = false -> serves s q x -> serves s q x'.
Proof.
  intros Hs Hw Hv Hi w' x' [(<- & <- & _)|(Hne & Hw')]%list_lookup_insert_Some; [by exists x|by apply same_workers].
Qed.

Lemma worker_kept s w x1 : forall w', is_Some (workers s !! w') -> is_Some (<[w := x1]> (workers s) !! w').
Proof. intros w'. rewrite !lookup_lt_is_Some, length_insert. done. Qed.

Lemma worker_step_wf w o s s' : stage_wf s -> worker_step w o s = Some s' -> stage_wf s'.
Proof.
  intros Hs E. pose proof (wf_ledger s Hs) as L. unfold worker_step in E. destruct (workers s !! w) as [[| |q|p|]|] eqn:Hw; simplify_eq.
  - apply (structure_keeps s); [exact Hs| |try done; cbn..].
    + rewrite (tasks_set_worker w AtTop) by (done || by destruct (shutdown s)). done.
    + by apply same_queues.
    + by apply wf_put.
    + eapply one_worker; [done|done|by destruct (shutdown s)|]. by intros ? ? _ _ _ ->.
    + apply worker_kept.
  - apply (structure_keeps s); [exact Hs| |try done; cbn..].
    + rewrite (tasks_set_worker w Fetch) by (done || by destruct (write_queue s)). done.
    + by apply same_queues.
    + by apply wf_put.
    + eapply one_worker; [done|done| |by intros ? ? -> _].
      destruct (write_queue s) as [q|] eqn:Eq; [by apply (wf_current s Hs)|done].
    + apply worker_kept.
  - destruct (queues s !! q) as [Q|] eqn:HQ; [|done]. pose proof (wf_queues s Hs q Q HQ) as Hlen.
    destruct (wq_items Q) as [|[p|] l] eqn:El; simplify_eq.
    + apply (structure_keeps s); [exact Hs| |try done; cbn..].
      * rewrite (tasks_set_worker w (Get q)) by done. done.
      * by apply same_queues.
      * by apply wf_put.
      * by eapply one_worker.
      * apply worker_kept.
    + apply (structure_keeps s); [exact Hs| |try done; cbn..].
      * eapply ledger_perm; [exact L|]. by apply (tasks_take q Q p l w (Get q)).
      * by rewrite length_insert.
      * eapply one_queue; cbn; [done..|simpl in Hlen; lia|]. rewrite El. set_solver.
      * by apply wf_put.
      * by eapply one_worker.
      * apply worker_kept.
    + apply (structure_keeps s); [exact Hs| |try done; cbn..].
      * rewrite (tasks_set_worker w (Get q)) by done. by rewrite (tasks_drop_sentinel q Q l).
      * by rewrite length_insert.
      * eapply one_queue; cbn; [done..|simpl in Hlen; lia|]. rewrite El. set_solver.
      * by apply wf_put.
      * eapply one_worker; [done|done|done|]. intros q' Q' Hq' HQ' Hn _ Hv. simpl in Hv. simplify_eq. rewrite El in Hn. set_solver.
      * apply worker_kept.
  - destruct (writing_task w p s Hw (lg_once _ _ _ _ L)) as [Hp Hx].
    apply (structure_keeps s); [exact Hs| |try done; cbn..].
    + eapply ledger_perm; [by apply ledger_write; [exact L|..]|]. by apply tasks_written.
    + by apply same_queues.
    + by apply wf_put.
    + by eapply one_worker.
    + apply worker_kept.
Qed.

(** The place a call has in the queue list stays good. *)
Lemma one_caller s p c1 : stage_wf s -> (forall q, pc c1 = PutOn q -> q < length (queues s)) ->
  forall p' c q, <[p := c1]> (callers s) !! p' = Some c -> pc c = PutOn q -> q < length (queues s).
Proof. intros Hs Hc p' c q [[<- <-]|[Hne Hp]]%lookup_insert_Some; [apply Hc|by eapply wf_put]. Qed.

Lemma submitted_past wait : before_put (pc (submitted wait)) = false.
Proof. by destruct wait. Qed.

(** A call that only goes on. *)
Lemma caller_goes_wf s p c x : stage_wf s -> callers s !! p = Some c -> (before_put x = true -> before_put (pc c) = true) ->
  (forall q, x = PutOn q -> q < length (queues s)) -> stage_wf (set_caller p (Caller (waits c) x) s).
Proof.
  intros Hs Hc Hb Hq. apply (structure_keeps s); [exact Hs| |try done; cbn..].
  - exact (ledger_pc _ _ _ _ (wf_ledger s Hs) p c (Caller (waits c) x) Hc Hb).
  - by apply same_queues.
  - by apply one_caller.
  - by apply same_workers.
Qed.

Lemma tasks_inline p c o s : tasks (set_caller p c (execute_write_payload p o s)) ≡ₚ p :: tasks s.
Proof. unfold tasks. cbn. solve_Permutation. Qed.

Lemma caller_step_wf p o s s' : stage_wf s -> caller_step p o s = Some s' -> stage_wf s'.
Proof.
  intros Hs E. pose proof (wf_ledger s Hs) as L. unfold caller_step in E. destruct (callers s !! p) as [c|] eqn:Hc; [|done].
  destruct (pc c) as [| | | | |q| | | | |] eqn:Hpc; simplify_eq.
  - apply caller_goes_wf; [done|done|by rewrite Hpc|by intros ?; case_match].
  - apply caller_goes_wf; [done|done|by rewrite Hpc|by intros ?; case_match].
  - (* inline *)
    pose proof (lg_fresh _ _ _ _ L p c Hc) as Hf. rewrite Hpc in Hf. destruct (Hf eq_refl) as [Hp _].
    apply (structure_keeps s); [exact Hs| |try done; cbn..].
    + eapply ledger_perm; [|by apply tasks_inline]. apply ledger_write; [|set_solver|intros Hx; by apply Hp, (lg_written _ _ _ _ L)].
      apply (ledger_hand _ _ _ _ L p c); [done|by rewrite Hpc|apply submitted_past].
    + by apply same_queues.
    + apply one_caller; [done|]. by destruct (waits c).
    + by apply same_workers.
  - (* loop *)
    destruct (shutdown s); simplify_eq; [|by apply caller_goes_wf; [..|rewrite Hpc|]].
    apply (structure_keeps s); [exact Hs| |try done; cbn..].
    + apply (ledger_refuse _ _ _ _ L p c); [done|by rewrite Hpc|apply submitted_past].
    + by apply same_queues.
    + apply one_caller; [done|]. by destruct (waits c).
    + by apply same_workers.
  - (* put *)
    apply caller_goes_wf; [done|done|by rewrite Hpc|]. intros q. destruct (write_queue s) eqn:Eq; intros [= ->]. by apply (wf_current s Hs).
  - (* put on *)
    destruct (queues s !! q) as [Q|] eqn:HQ; [|done]. destruct (full Q) eqn:Hf; simplify_eq; [by apply caller_goes_wf; [..|rewrite Hpc|]|].
    apply (structure_keeps s); [exact Hs| |try done; cbn..].
    + eapply ledger_perm; [|by apply (tasks_put q Q p)]. apply (ledger_hand _ _ _ _ L p c); [done|by rewrite Hpc|apply submitted_past].
    + by rewrite length_insert.
    + eapply one_queue; cbn; [done..| |]; [|set_solver].
      unfold full in Hf. apply Nat.leb_gt in Hf. rewrite length_app. simpl. lia.
    + apply one_caller; [done|]. by destruct (waits c).
    + by apply same_workers.
  - apply caller_goes_wf; [done|done|by case_match|by intros ?; case_match].
  - apply caller_goes_wf; [done|done|by case_match|by intros ?; case_match].
  - (* waiting *)
    destruct (payloads s !! p) as [y|]; [|done]. destruct (done y); simplify_eq. by apply caller_goes_wf.
Qed.

Lemma submit_begin_wf p wait s s' : stage_wf s -> submit_begin p wait s = Some s' -> stage_wf s'.
Proof.
  intros Hs E. unfold submit_begin in E. destruct (callers s !! p) eqn:Hc; simplify_eq.
  apply (structure_keeps s); [exact Hs| |try done; cbn..].
  - apply ledger_new; [exact (wf_ledger s Hs)|done].
  - by apply same_queues.
  - by apply one_caller.
  - by apply same_workers.
Qed.

Lemma tasks_start n q s st sh wq ths sp :
  wq_items q = [] ->
  tasks (Stage st sh wq ths (queues s ++ [q]) (workers s ++ replicate n AtTop) (callers s) (payloads s) (writers_busy s) sp (executed s))
    = tasks s.
Proof.
  intros Eq. unfold tasks. cbn. rewrite !fmap_app, !concat_app. cbn. unfold in_queue at 2. rewrite Eq, app_nil_r. cbn. do 2 f_equal.
  rewrite <- (app_nil_r (concat (in_worker <$> workers s))) at 2. f_equal. induction n; [done|exact IHn].
Qed.

Lemma start_wf n m s s' : stage_wf s -> start_ingest_write_stage n m s = Some s' -> stage_wf s'.
Proof.
  intros Hs E. unfold start_ingest_write_stage in E. destruct (stopper s) eqn:Hp; [done|]. destruct (started s) eqn:Hst; simplify_eq; [done|].
  destruct Hs as [L W1 W2 W3 W4 W5 W6 W7].
  set (k := Z.to_nat (Z.max 1 n)). set (Q := WQueue [] (Z.to_nat (Z.max 1 m))). split; cbn.
  - by rewrite (tasks_start k Q).
  - intros q Q' [HQ|[_ HQ]]%lookup_app_Some; [by eapply W1|]. apply list_lookup_singleton_Some in HQ as [_ <-]. simpl. lia.
  - intros q [= <-]. rewrite length_app. simpl. lia.
  - intros p c q Hc Hq. rewrite length_app. simpl. pose proof (W3 p c q Hc Hq). lia.
  - intros w x [Hx|[_ Hx]]%lookup_app_Some.
    + pose proof (W4 w x Hx) as Hv. destruct x; try done. simpl in *. rewrite length_app. simpl. lia.
    + apply lookup_replicate in Hx as [-> _]. done.
  - done.
  - done.
  - intros _ _. exists (length (queues s)), Q. split; [done|].
    split; [by rewrite lookup_app_r, Nat.sub_diag by done|]. split; [set_solver|]. split.
    + assert (0 < k) by lia. destruct k; [lia|done].
    + intros w Hw. apply elem_of_seq in Hw. exists AtTop. split; [|done]. rewrite lookup_app_r by lia. apply lookup_replicate. split; [done|lia].
Qed.

(** Assignments to the globals. *)
Lemma globals_wf s st sh q ths sp : stage_wf s -> (forall q', q = Some q' -> q' < length (queues s)) ->
  sp <> None -> (sp = Some StopClear -> st = false) -> stage_wf (set_globals st sh q ths sp s).
Proof. intros [L W1 W2 W3 W4 W5 W6 W7] Hq Hsp Hc. by split; cbn. Qed.

Lemma stop_begin_wf s s' : stage_wf s -> stop_begin s = Some s' -> stage_wf s'.
Proof.
  intros Hs E. unfold stop_begin in E. destruct (stopper s); [done|]. destruct (started s); simplify_eq; [|done].
  apply globals_wf; try done. apply (wf_current s Hs).
Qed.

Lemma stop_step_wf s s' : stage_wf s -> stop_step s = Some s' -> stage_wf s'.
Proof.
  intros Hs E. pose proof (wf_current s Hs) as Hcur. unfold stop_step in E. destruct (stopper s) as [[[|k]| | |]|] eqn:Hp; simplify_eq.
  - by apply globals_wf.
  - destruct (write_queue s) as [q|] eqn:Hq; simplify_eq; [|by apply globals_wf].
    destruct (queues s !! q) as [Q|] eqn:HQ; [|done]. destruct (full Q) eqn:Hf; simplify_eq; [by apply globals_wf|].
    assert (stage_wf (set_globals (started s) (shutdown s) (Some q) (write_threads s) (Some (StopPut k)) s)) as Hg by by apply globals_wf.
    destruct Hg as [L W1 W2 W3 W4 W5 W6 W7]. split; try done.
    + pose proof (tasks_sentinel q Q (set_globals (started s) (shutdown s) (Some q) (write_threads s) (Some (StopPut k)) s) HQ) as Et.
      cbn [queues set_globals] in Et. by rewrite Et.
    + intros q' Q' [(<- & <- & _)|(Hne & HQ')]%list_lookup_insert_Some; [|by eapply W1].
      unfold full in Hf. apply Nat.leb_gt in Hf. cbn. rewrite length_app. simpl. lia.
    + cbn. rewrite length_insert. exact W2.
    + cbn. rewrite length_insert. exact W3.
    + intros w x Hx. pose proof (W4 w x Hx) as Hv. destruct x; try done. cbn. by rewrite length_insert.
  - by apply globals_wf.
  - apply globals_wf; by try done.
  - destruct Hs as [L W1 W2 W3 W4 W5 W6 W7]. split; try done. cbn. intros Hst. pose proof (W6 Hp). congruence.
Qed.

Lemma stage_step_wf s s' : stage_wf s -> step s s' -> stage_wf s'.
Proof.
  intros Hs Hst. revert Hs. destruct Hst; intros Hs; eauto using start_wf, stop_begin_wf, stop_step_wf, worker_step_wf, submit_begin_wf, caller_step_wf.
Qed.

Lemma new_stage_wf : stage_wf new_stage.
Proof.
  split; try done. change (tasks new_stage) with (@nil nat). split; try done; [apply NoDup_nil_2|set_solver|].
  intros p. cbn. rewrite !lookup_empty. split; by intros [].
Qed.

Lemma reachable_stage_wf s : reachable s -> stage_wf s.
Proof. apply rtc_invariant; [|exact new_stage_wf]. intros x y Hxy Hx. by eapply stage_step_wf. Qed.

(** ** Answers *)

Lemma known_answer s p y : stage_wf s -> payloads s !! p = Some y -> done y = true ->
  (p ∈ executed s /\ exists o, y = finished o) \/ (y = refused /\ p ∉ tasks s).
Proof.
  intros Hs Hy Hd. destruct (lg_answer _ _ _ _ (wf_ledger s Hs) p y Hy) as [[-> _]|[?|(? & ? & _)]]; [done|auto..].
Qed.

(** A payload that is answered is no longer in anybody's hands. *)
Lemma not_pending s p y c : stage_wf s -> payloads s !! p = Some y -> done y = true ->
  callers s !! p = Some c -> before_put (pc c) = false.
Proof.
  intros Hs Hy Hd Hc. destruct (before_put (pc c)) eqn:Hb; [|done].
  destruct (lg_fresh _ _ _ _ (wf_ledger s Hs) p c Hc Hb) as [_ Hn]. rewrite Hn in Hy. by simplify_eq.
Qed.

Lemma not_writing s p y w : stage_wf s -> payloads s !! p = Some y -> done y = true -> workers s !! w <> Some (Writing p).
Proof.
  intros Hs Hy Hd Hw. destruct (writing_task w p s Hw (lg_once _ _ _ _ (wf_ledger s Hs))) as [Hp Hx].
  destruct (known_answer s p y Hs Hy Hd) as [[? _]|[_ ?]]; done.
Qed.

Lemma answer_stable s s' p y : stage_wf s -> step s s' -> payloads s !! p = Some y -> done y = true -> payloads s' !! p = Some y.
Proof.
  intros Hs Hst Hy Hd. destruct Hst as [n m s s' E|s s' E|s s' E|w o s s' E|p' wait s s' E|p' o s s' E].
  - unfold start_ingest_write_stage in E. repeat case_match; by simplify_eq.
  - unfold stop_begin in E. repeat case_match; by simplify_eq.
  - unfold stop_step in E. repeat case_match; by simplify_eq.
  - unfold worker_step in E. destruct (workers s !! w) as [[| |q|p'|]|] eqn:Hw; [..|done]; try (repeat case_match; by simplify_eq).
    simplify_eq. cbn. rewrite lookup_insert_ne; [done|]. intros ->. by apply (not_writing s p y w).
  - unfold submit_begin in E. destruct (callers s !! p') eqn:Hc; simplify_eq. cbn. rewrite lookup_insert_ne; [done|]. intros ->.
    destruct (proj1 (lg_domain _ _ _ _ (wf_ledger s Hs) p)); [eauto|congruence].
  - unfold caller_step in E. destruct (callers s !! p') as [c|] eqn:Hc; [|done]. destruct (decide (p' = p)) as [->|Hne].
    + pose proof (not_pending s p y c Hs Hy Hd Hc) as Hb. destruct (pc c); try done; repeat case_match; by simplify_eq.
    + destruct (pc c); repeat case_match; simplify_eq; try done; cbn; by rewrite lookup_insert_ne.
Qed.

(** [C20] An answer is final and true: whatever the threads do from then on, restarts of the
    stage included, the payload keeps it, the rows were written exactly once if it is the
    outcome of a write, and never if the caller was told that the stage shuts down. *)
Theorem answer_is_final (s s' : stage) (p : nat) (y : IngestWritePayload) :
  reachable s -> payloads s !! p = Some y -> done y = true -> rtc step s s' ->
  payloads s' !! p = Some y /\ (p ∈ executed s' <-> y <> refused) /\ NoDup (executed s').
Proof.
  intros Hr%reachable_stage_wf Hy Hd Hrun. induction Hrun as [s|s s1 s2 H1 _ IH].
  - split; [done|]. pose proof (wf_ledger s Hr) as L. split.
    + destruct (known_answer s p y Hr Hy Hd) as [[? [o ->]]|[-> Hn]].
      * split; [|done]. intros _. by destruct o as [[]|].
      * split; [intros Hx; by destruct Hn; apply (lg_written _ _ _ _ L)|done].
    + pose proof (lg_once _ _ _ _ L) as Hn. unfold tasks in Hn. by apply NoDup_app in Hn as (_ & _ & (_ & _ & ?)%NoDup_app).
  - apply IH; [by eapply stage_step_wf|by eapply answer_stable].
Qed.

(** ** A stage nobody stops *)

(** A writer thread that runs alone; the outcomes of its writes are the elements. *)
Fixpoint worker_run (w : nat) (os : list outcome) (s : stage) : option stage :=
  match os with
  | [] => Some s
  | o :: os => worker_step w o s ≫= worker_run w os
  end.

(** How many of its steps away from the write of [p] the writer is. *)
Definition before (p : nat) (l : list item) : nat := from_option fst (length l) (list_find (.= Work p) l).
Definition steps_to (p : nat) (x : worker_pc) (l : list item) : nat :=
  match x with
  | Writing p' => if decide (p' = p) then 1 else 4 * before p l + 5
  | AtTop => 4 * before p l + 4
  | Fetch => 4 * before p l + 3
  | _ => 4 * before p l + 2
  end.

(** The writer at work, [p] before it or done. *)
Record at_work (w q p : nat) (s : stage) (x : worker_pc) (l : list item) : Prop := {
  aw_queue : write_queue s = Some q;
  aw_items : exists m, queues s !! q = Some (WQueue l m);
  aw_open : shutdown s = false;
  aw_sentinel : Sentinel ∉ l;
  aw_pc : workers s !! w = Some x;
  aw_serves : serves s q x;
}.

Lemma before_cons p y l : y <> Work p -> before p (y :: l) = S (before p l).
Proof.
  intros Hy. unfold before. cbn [list_find]. rewrite decide_False by done. by destruct (list_find _ l) as [[]|].
Qed.

Lemma before_here p l : before p (Work p :: l) = 0.
Proof. unfold before. cbn [list_find]. by rewrite decide_True. Qed.

Lemma before_bound p l : Work p ∈ l -> before p l < length l.
Proof.
  induction l as [|y l IH]; [set_solver|]. intros Hp. destruct (decide (y = Work p)) as [->|Hy]; [rewrite before_here; simpl; lia|].
  rewrite before_cons by done. simpl. assert (Work p ∈ l) as Hl by (apply elem_of_cons in Hp as [|]; congruence). specialize (IH Hl). lia.
Qed.

Lemma set_worker_at (s : stage) w x x' : workers s !! w = Some x -> <[w := x']> (workers s) !! w = Some x'.
Proof. intros Hw. apply list_lookup_insert_eq. by eapply lookup_lt_Some. Qed.

(** Each step brings it nearer, or makes the write. *)
Lemma at_work_step w q p o s x l : at_work w q p s x l -> (Work p ∈ l \/ x = Writing p) ->
  exists s', worker_step w o s = Some s' /\ (forall p', p' ∈ executed s -> p' ∈ executed s') /\
    (p ∈ executed s' \/ exists x' l', at_work w q p s' x' l' /\ (Work p ∈ l' \/ x' = Writing p) /\ steps_to p x l = S (steps_to p x' l')).
Proof.
  intros [Hq [m HQ] Ho Hn Hw Hv] Hp. unfold worker_step. rewrite Hw. destruct x as [| |q'|p'|]; [| | | |done].
  - destruct Hp as [Hp|]; [|done]. rewrite Ho. eexists. split; [done|]. split; [done|]. right. exists Fetch, l.
    split; [|split; [by left|simpl; lia]]. split; cbn; eauto using set_worker_at.
  - destruct Hp as [Hp|]; [|done]. rewrite Hq. eexists. split; [done|]. split; [done|]. right. exists (Get q), l.
    split; [|split; [by left|simpl; lia]]. split; cbn; eauto using set_worker_at.
  - destruct Hp as [Hp|]; [|done]. simpl in Hv. subst q'. rewrite HQ. cbn. destruct l as [|[p'|] l]; [set_solver| |set_solver].
    eexists. split; [done|]. split; [done|]. right. exists (Writing p'), l. pose proof (lookup_lt_Some _ _ _ HQ) as Hlt. split.
    + split; cbn; eauto using set_worker_at; try (exists m; by rewrite list_lookup_insert_eq); set_solver.
    + destruct (decide (p' = p)) as [->|Hne].
      * split; [by right|]. simpl. rewrite before_here, decide_True by done. done.
      * split; [left; apply elem_of_cons in Hp as [|]; [congruence|done]|]. simpl. rewrite before_cons, decide_False by congruence. lia.
  - eexists. split; [done|]. split; [cbn; set_solver|]. destruct (decide (p' = p)) as [->|Hne]; [left; cbn; set_solver|].
    destruct Hp as [Hp|]; [|congruence]. right. exists AtTop, l. split; [|split; [by left|simpl; rewrite decide_False by done; lia]].
    split; cbn; eauto using set_worker_at.
Qed.

(** A live writer never stops by itself, and writes stay made. *)
Lemma worker_runs w q p o s x l : at_work w q p s x l ->
  exists s' x' l', worker_step w o s = Some s' /\ at_work w q p s' x' l' /\ (forall p', p' ∈ executed s -> p' ∈ executed s').
Proof.
  intros [Hq [m HQ] Ho Hn Hw Hv]. unfold worker_step. rewrite Hw. destruct x as [| |q'|p'|]; [| | | |done].
  - rewrite Ho. eexists _, Fetch, l. split; [done|]. split; [|done]. split; cbn; eauto using set_worker_at.
  - rewrite Hq. eexists _, (Get q), l. split; [done|]. split; [|done]. split; cbn; eauto using set_worker_at.
  - simpl in Hv. subst q'. rewrite HQ. cbn. pose proof (lookup_lt_Some _ _ _ HQ) as Hlt. destruct l as [|[p'|] l]; [| |set_solver].
    + eexists _, AtTop, []. split; [done|]. split; [|done]. split; cbn; eauto using set_worker_at.
    + eexists _, (Writing p'), l. split; [done|]. split; [|done].
      split; cbn; eauto using set_worker_at; try (exists m; by rewrite list_lookup_insert_eq); set_solver.
  - eexists _, AtTop, l. split; [done|]. split; [|cbn; set_solver]. split; cbn; eauto using set_worker_at.
Qed.

Lemma run_keeps w q p os s x l : at_work w q p s x l -> p ∈ executed s ->
  exists s', worker_run w os s = Some s' /\ p ∈ executed s'.
Proof.
  revert s x l. induction os as [|o os IH]; intros s x l Ha Hp; [eauto|]. cbn [worker_run].
  destruct (worker_runs w q p o s x l Ha) as (s' & x' & l' & -> & Ha' & Hex). cbn. eapply IH; eauto.
Qed.

Lemma run_writes w q p os s x l : at_work w q p s x l -> (Work p ∈ l \/ x = Writing p) -> steps_to p x l <= length os ->
  exists s', worker_run w os s = Some s' /\ p ∈ executed s'.
Proof.
  revert s x l. induction os as [|o os IH]; intros s x l Ha Hp Hl.
  - exfalso. destruct x; simpl in Hl; try lia. case_decide; lia.
  - cbn [worker_run]. destruct (at_work_step w q p o s x l Ha Hp) as (s' & E & _ & Hs'). rewrite E. cbn.
    destruct Hs' as [Hx|(x' & l' & Ha' & Hp' & Hst)]; [|eapply IH; eauto; simpl in Hl; lia].
    destruct (worker_runs w q p o s x l Ha) as (s1 & x1 & l1 & E1 & Ha1 & _). simplify_eq. by eapply run_keeps.
Qed.


(** ** A stage that is stopped *)

(** The payload lies in a queue that nobody reads any more. *)
Definition stranded (q p : nat) (s : stage) : Prop :=
  (exists Q, queues s !! q = Some Q /\ Work p ∈ wq_items Q) /\ write_queue s <> Some q /\ forall w, workers s !! w <> Some (Get q).

Lemma stranded_same q p s s' : queues s' = queues s -> write_queue s' = write_queue s -> workers s' = workers s ->
  stranded q p s -> stranded q p s'.
Proof. unfold stranded. by intros -> -> ->. Qed.

Lemma stranded_step q p s s' : stage_wf s -> stranded q p s -> step s s' -> stranded q p s'.
Proof.
  intros Hs Hstr Hst. pose proof Hstr as [[Q [HQ Hin]] [Hc Hw]]. pose proof (lookup_lt_Some _ _ _ HQ) as Hlt.
  destruct Hst as [n m s s' E|s s' E|s s' E|w o s s' E|p' wait s s' E|p' o s s' E].
  - unfold start_ingest_write_stage in E. repeat case_match; simplify_eq; [by split; eauto|]. split; [|split]; cbn.
    + exists Q. split; [by apply lookup_app_l_Some|done].
    + intros [= <-]. lia.
    + intros w [Hx|[_ Hx]]%lookup_app_Some; [by apply (Hw w)|by apply lookup_replicate in Hx as [? _]].
  - unfold stop_begin in E. repeat case_match; simplify_eq; by split; eauto.
  - unfold stop_step in E. repeat case_match; simplify_eq; try by split; eauto.
    split; [|by split]. cbn. rewrite list_lookup_insert_ne by congruence. eauto.
  - unfold worker_step in E. destruct (workers s !! w) as [[| |q'|p'|]|] eqn:Ew; [..|done]; [| |destruct (queues s !! q') as [Q'|] eqn:HQ'; [|done]; destruct (wq_items Q') as [|[p'|] l] eqn:El| |done]; simplify_eq; cbn.
    all: split; [|split; [done|]]; cbn.
    all: try (rewrite list_lookup_insert_ne; [by eauto|intros ->; by apply (Hw w)]).
    all: try (by eauto).
    all: intros w' [(<- & E & _)|(? & E)]%list_lookup_insert_Some; [|by apply (Hw w')].
    all: repeat case_match; congruence.
  - unfold submit_begin in E. repeat case_match; simplify_eq; by apply (stranded_same _ _ s).
  - unfold caller_step in E. destruct (callers s !! p') as [c|] eqn:Hcl; [|done]. destruct (pc c) as [| | | | |q'| | | | |] eqn:Hpc.
    6: { destruct (queues s !! q') as [Q'|] eqn:HQ'; [|done]. destruct (full Q'); simplify_eq; [by split; eauto|]. split; [|by split].
         cbn. destruct (decide (q' = q)) as [->|Hne]; [|rewrite list_lookup_insert_ne by done; eauto].
         rewrite list_lookup_insert_eq by done. simplify_eq. eexists. split; [done|]. cbn. set_solver. }
    all: repeat case_match; simplify_eq; by apply (stranded_same _ _ s).
Qed.

(** What a stop leaves in its queue is lost: a payload in a queue that is not the stage's
    and that no writer reads is never written, and its waiter waits for ever, whatever
    the threads do, a restart of the stage included. *)
Theorem stranded_forever (q p : nat) (s s' : stage) :
  reachable s -> stranded q p s -> rtc step s s' -> p ∉ executed s' /\ payloads s' !! p = Some new_payload.
Proof.
  intros Hr%reachable_stage_wf Hst Hrun.
  assert (stage_wf s' /\ stranded q p s') as [Hwf [[Q [HQ Hin]] _]].
  { induction Hrun as [s|s s1 s2 H1 _ IH]; [done|]. apply IH; [by eapply stage_step_wf|by eapply stranded_step]. }
  pose proof (wf_ledger s' Hwf) as L.
  assert (p ∈ concat (in_queue <$> queues s')) as Hp.
  { apply list_elem_of_In, in_concat. exists (in_queue Q). split; apply list_elem_of_In; [apply list_elem_of_fmap; exists Q; split; [done|by eapply list_elem_of_lookup_2]|].
    unfold in_queue, works. apply list_elem_of_omap. by exists (Work p). }
  assert (p ∈ tasks s') as Ht by (unfold tasks; set_solver).
  assert (p ∉ executed s') as Hx.
  { pose proof (lg_once _ _ _ _ L) as Hn. unfold tasks in Hn. apply NoDup_app in Hn as (_ & Hd & _). specialize (Hd p Hp). set_solver. }
  split; [done|]. destruct (proj2 (lg_domain _ _ _ _ L p) (lg_known _ _ _ _ L p Ht)) as [y Hy].
  destruct (lg_answer _ _ _ _ L p y Hy) as [[-> _]|[[? _]|(_ & ? & _)]]; done.
Qed.

(** ** Concrete runs *)

Module StageDemo.

Inductive thread := AStart (n m : Z) | AStop | AStopping | AWorker (w : nat) | ASubmit (p : nat) | ACaller (p : nat).

Definition written : outcome := Ok (true, true).

Definition act (a : thread) (s : stage) : option stage :=
  match a with
  | AStart n m => start_ingest_write_stage n m s
  | AStop => stop_begin s
  | AStopping => stop_step s
  | AWorker w => worker_step w written s
  | ASubmit p => submit_begin p true s
  | ACaller p => caller_step p written s
  end.

Fixpoint run (l : list thread) (s : stage) : option stage :=
  match l with [] => Some s | a :: l => act a s ≫= run l end.

Lemma run_steps l s s' : run l s = Some s' -> rtc step s s'.
Proof.
  revert s. induction l as [|a l IH]; intros s; [by intros [= ->]|]. cbn [run]. destruct (act a s) as [s1|] eqn:E; [|done].
  intros Hr. apply rtc_l with s1; [|by apply IH].
  destruct a; [eapply step_start|eapply step_stop|eapply step_stopping|eapply step_worker|eapply step_submit|eapply step_caller]; exact E.
Qed.

(** A state reached by a run. *)
Definition after (l : list thread) : stage := default new_stage (run l new_stage).

Lemma after_reachable l : is_Some (run l new_stage) -> reachable (after l).
Proof. intros [s Hs]. unfold after. rewrite Hs. by apply (run_steps l). Qed.

(** One writer, room for one payload; the first payload is put, the second waits for room. *)
Definition put_one : list thread := [AStart 1 1; ASubmit 0] ++ replicate 5 (ACaller 0).
Definition two_calls : list thread := put_one ++ [ACaller 0; ACaller 0; ASubmit 1] ++ replicate 5 (ACaller 1).
Definition write_first : list thread := replicate 4 (AWorker 0).

Lemma answer_is_final_witness :
  payloads (after (two_calls ++ write_first)) !! 0 = Some (finished written) /\
  (0 ∈ executed (after (two_calls ++ write_first)) <-> finished written <> refused) /\ NoDup (executed (after (two_calls ++ write_first))).
Proof.
  refine (answer_is_final _ _ 0 (finished written) _ _ _ _).
  - apply (after_reachable (two_calls ++ write_first)). vm_compute. eauto.
  - vm_compute. reflexivity.
  - reflexivity.
  - apply rtc_refl.
Defined.


(** The first payload is in the queue, its caller waits, and the stage is stopped before
    the writer takes it. *)
Definition stop_now : list thread := [AStop; AStopping; AWorker 0; AStopping; AStopping; AStopping].
Definition stranding : list thread := put_one ++ [ACaller 0; ACaller 0] ++ stop_now.

Lemma stranded_forever_witness :
  callers (after stranding) !! 0 = Some (Caller true Waiting) /\
  0 ∉ executed (after stranding) /\ payloads (after stranding) !! 0 = Some new_payload.
Proof.
  split; [vm_compute; reflexivity|]. refine (stranded_forever 0 0 (after stranding) (after stranding) _ _ _).
  - apply (after_reachable stranding). vm_compute. eauto.
  - split; [exists (WQueue [Work 0] 1); split; [vm_compute; reflexivity|apply list_elem_of_here]|]. split; [vm_compute; discriminate|].
    intros [|w]; vm_compute; [discriminate|]. destruct w; discriminate.
  - apply rtc_refl.
Defined.

(** A call that is past the test of [_SHUTDOWN] when the stage is stopped and gone reads
    [_WRITE_QUEUE], now [None], and raises [AttributeError] out of [submit_ingest_write]. *)
Example put_on_no_queue :
  callers (after ([AStart 1 1; ASubmit 0] ++ replicate 3 (ACaller 0) ++ stop_now ++ [ACaller 0])) !! 0 = Some (Caller true Raised).
Proof. vm_compute. reflexivity. Qed.

(** The call returns because the stage is gone, with no error and [ingest_ok] false,
    while the writer still has the payload: its rows are written after the caller was
    told that they were not. *)
Definition early : list thread := put_one ++ [AWorker 0; AWorker 0; AWorker 0; AStop; AStopping; AStopping; AStopping; AStopping; AStopping; ACaller 0].

Example returned_before_written :
  (callers (after early) !! 0, payloads (after early) !! 0, executed (after early)) =
    (Some (Caller true Returned), Some new_payload, []) /\
  executed (after (early ++ [AWorker 0])) = [0].
Proof. vm_compute. done. Qed.
End StageDemo.
