(* ===== verification/Coverage.v ===== *)
(** The ingest coverage sweep: [dbload/lib/ingest_coverage.py], its loop in
    [dbload/ingest_coverage_sweeper.py], and the rotation records of
    [lib/ingest_rotation.py].

    Once per interval a daemon looks every host up in the database, the one scanned
    longest ago first, compares it with the rotation records the listener keeps, and
    stores a document per host.  The documents live in Valkey; [kv_get] and [kv_set] are
    that server, so a document is [None] when it expired or is no object.  What the
    database answers ([latest_fn], [scan_fn]), the clock and SHA-1 are arguments.

    Sample times are microseconds, whole numbers of seconds are seconds.  A number in a
    rotation record is exact below 2^53, as a float is. *)
From S2P Require Import Prelude PyDict PyStr Json.
From Stdlib Require Import Ascii.
Local Open Scope Z_scope.

Definition KEY_PREFIX : string := "ingest_coverage:v1:".
Definition HOST_KEY_PREFIX : string := KEY_PREFIX +:+ "host:".
Definition SIG_KEY_PREFIX : string := KEY_PREFIX +:+ "sig:".
Definition SWEEP_KEY : string := KEY_PREFIX +:+ "sweep".
Definition RECENT_DATA_DAYS : Z := 7.
Definition HEARTBEAT_EVERY_HOSTS : Z := 50.
Definition STATUS_CURRENT : string := "current".
Definition STATUS_INGEST_BEHIND : string := "ingest_behind".
Definition STATUS_UNKNOWN : string := "unknown".
Definition STATUS_INCOMPLETE : string := "incomplete".
Definition STATUS_NO_RECENT_DATA : string := "no_recent_data".
Definition INGEST_ROTATION_KEY_PREFIX : string := "ingest_rotation:v1:".
Definition ROTATION_HISTORY_LEN : Z := 8.

Definition host_key (fqdn : string) : string := HOST_KEY_PREFIX +:+ fqdn.
Definition sig_key (signature : string) : string := SIG_KEY_PREFIX +:+ signature.
Definition ingest_rotation_key (fqdn : string) : string := INGEST_ROTATION_KEY_PREFIX +:+ fqdn.

(** ** Documents *)

(** What [derive_host_status] adds to a record. *)
Record freshness := Freshness {
  status : string;
  status_reason : string;
  closed_until : option Z;
  closed_last_sample_at : option Z;
  open_segment_age_s : option Z;
  ingest_backlog_s : option Z;
  prev_closed_last_sample_at : option Z;
  prev_backlog_s : option Z;
}.

(** What became of the host in a sweep. *)
Inductive scan_result :=
| NoRecentData
| Incomplete (error : string)
| Scanned (sig : string) (pair_count : Z) (all_zero_pairs : list (string * string)) (f : freshness).

Record host_doc := HostDoc {
  fqdn : string;
  scanned_at : Z;
  newest_sample : option Z;
  window_minutes : Z;
  lag_vs_fleet_s : option Z;
  scan : scan_result;
}.

Record beat := Beat {
  pid : Z;
  started_at : Z;
  finished_at : option Z;
  interval_s : Z;
  beat_window : Z;
  hosts_done : Z;
  hosts_total : Z;
  incomplete : Z;
  no_recent_data : Z;
  last_error : option string;
}.

Inductive doc := DHost (d : host_doc) | DSig (pairs : list (string * string)) | DBeat (b : beat).

#[export] Instance freshness_eq_dec : EqDecision freshness.
Proof. solve_decision. Defined.
#[export] Instance scan_result_eq_dec : EqDecision scan_result.
Proof. solve_decision. Defined.
#[export] Instance host_doc_eq_dec : EqDecision host_doc.
Proof. solve_decision. Defined.
#[export] Instance beat_eq_dec : EqDecision beat.
Proof. solve_decision. Defined.
#[export] Instance doc_eq_dec : EqDecision doc.
Proof. solve_decision. Defined.

(** What a host's document says of the fields the next sweep reads. *)
Definition doc_scanned_at (d : option host_doc) : Z := match d with Some d => scanned_at d | None => 0 end.
Definition doc_closed_last (d : option host_doc) : option Z :=
  match d with Some (HostDoc _ _ _ _ _ (Scanned _ _ _ f)) => closed_last_sample_at f | _ => None end.
Definition doc_backlog (d : option host_doc) : option Z :=
  match d with Some (HostDoc _ _ _ _ _ (Scanned _ _ _ f)) => ingest_backlog_s f | _ => None end.

(** ** Freshness of a host *)

(** [int(datetime.timestamp())]. *)
Definition seconds_of (t : Z) : Z := Z.quot t 1000000.

Section freshness.

(** [float(text)], truncated; [None] when it raises [ValueError]. *)
Context (py_float_int : string -> result Z).

(** [epoch_seconds], on a value of a JSON record. *)
Definition epoch_seconds (v : json) : result (option Z) :=
  match v with
  | JNull => Ok None
  | JStr s => Some <$> py_float_int s
  | _ => Some <$> json_int v
  end.

(** [parse_rotation_entries]: [None] is a text that is no JSON. *)
Definition parse_rotation_entries (raw : list (option json)) : list jdict :=
  omap (fun j => match j with
                 | Some (JDict d) => match json_get "rotated_at" d with JNull => None | _ => Some d end
                 | _ => None
                 end) raw.

(** [max((epoch_seconds(r.get("rotated_at")) or 0 for r in rotations), default=None)]. *)
Fixpoint newest_rotation (rotations : list jdict) (acc : option Z) : result (option Z) :=
  match rotations with
  | [] => Ok acc
  | r :: rotations =>
      t ← epoch_seconds (json_get "rotated_at" r);
      let t := default 0 t in
      newest_rotation rotations (Some (match acc with None => t | Some a => Z.max a t end))
  end.

(** The first record with a closed sample time. *)
Fixpoint closed_last (rotations : list jdict) : result (option Z) :=
  match rotations with
  | [] => Ok None
  | r :: rotations =>
      match json_get "closed_last_sample_at" r with
      | JNull => closed_last rotations
      | v => epoch_seconds v
      end
  end.

(** [newest] and [now] are seconds. *)
Definition derive_host_status (rotations : list jdict) (newest : option Z) (previous : option host_doc) (now : Z) : result freshness :=
  closed_until ← newest_rotation rotations None;
  last ← closed_last rotations;
  let backlog := match last, newest with Some c, Some n => Some (Z.max 0 (c - n)) | _, _ => None end in
  let '(st, reason) :=
    match backlog with
    | None => (STATUS_UNKNOWN, "no rotation with a closed sample time"%string)
    | Some b =>
        if b =? 0 then (STATUS_CURRENT, "closed segments are in host_data"%string)
        else if bool_decide (doc_closed_last previous = last) && (0 <? default 0 (doc_backlog previous))
        then (STATUS_INGEST_BEHIND, "closed file not ingested"%string)
        else (STATUS_UNKNOWN, "backlog seen once; confirming"%string)
    end in
  Ok (Freshness st reason closed_until last
        (match closed_until with Some c => if c =? 0 then None else Some (Z.max 0 (now - c)) | None => None end)
        backlog (doc_closed_last previous) (doc_backlog previous)).
End freshness.

(** ** Pairs *)

Definition pair_le (x y : string * string) : Prop := if decide (x.1 = y.1) then String.le x.2 y.2 else String.le x.1 y.1.

#[export] Instance pair_le_dec : RelDecision pair_le.
Proof. intros x y. unfold pair_le. case_decide; apply _. Defined.

(** [sorted(set(pairs))]. *)
Definition sorted_pairs (l : list (string * string)) : list (string * string) := merge_sort pair_le (remove_dups l).

Definition tab : string := String "009"%char "".
Definition nl : string := String "010"%char "".

(** ** The sweep *)

(** Scanned longest ago first, by name within a second. *)
Definition host_before (x y : Z * string) : Prop := if decide (x.1 = y.1) then String.le x.2 y.2 else x.1 < y.1.

#[export] Instance host_before_dec : RelDecision host_before.
Proof. intros x y. unfold host_before. case_decide; apply _. Defined.

Section sweep.
Context {V : Type} (kv_get : V -> string -> option doc) (kv_set : V -> string -> doc -> Z -> V * option py_exn).
Context (sha1 : string -> string) (py_float_int : string -> result Z) (describe : py_exn -> string).

(** What one sweep asks of the world: the inventory, the newest sample of each host, the
    scan of a host between two times, the rotation records of a host, and the clock, in
    microseconds, by the number of times it was read. *)
Record inputs := Inputs {
  in_pid : Z;
  in_fqdns : list string;
  in_interval : Z;
  in_window : Z;
  latest_fn : Z -> result (dict string (option Z));
  scan_fn : string -> Z -> Z -> result (list (string * string * Z * bool));
  rotations_raw : string -> list (option json);
  clock : nat -> Z;
}.

(** [_set_json]: what the server answers, or the exception of the call. *)
Definition set_json (c : V) (key : string) (d : doc) (ttl : Z) : V * option py_exn := kv_set c key d (Z.max 1 ttl).

Definition load_host (c : V) (h : string) : option host_doc :=
  match kv_get c (host_key h) with Some (DHost d) => Some d | _ => None end.

Definition load_beat (c : V) : option beat :=
  match kv_get c SWEEP_KEY with Some (DBeat b) => Some b | _ => None end.

Definition pair_set_signature (pairs : list (string * string)) : string :=
  sha1 (py_join nl (merge_sort String.le (remove_dups ((fun p => p.1 +:+ tab +:+ p.2) <$> pairs)))).

(** The order a sweep takes the hosts in. *)
Definition sweep_order (c : V) (fqdns : list string) : list string :=
  (merge_sort host_before ((fun h => (doc_scanned_at (load_host c h), h)) <$> fqdns)).*2.

Section one_sweep.
Context (I : inputs).

Definition ttl : Z := 3 * in_interval I.
Definition started : Z := clock I 0.
Definition deadline : Z := started + in_interval I * 1000000.
Definition since : Z := started - RECENT_DATA_DAYS * 86400000000.

(** The loop's variables. *)
Record sweep_state := Sweep { sw_client : V; sw_beat : beat; sw_sigs : gset string }.

Definition with_client (c : V) (s : sweep_state) : sweep_state := Sweep c (sw_beat s) (sw_sigs s).

Definition count_host (r : scan_result) (b : beat) : beat :=
  Beat (pid b) (started_at b) (finished_at b) (interval_s b) (beat_window b) (hosts_done b) (hosts_total b)
    (match r with Incomplete _ => incomplete b + 1 | _ => incomplete b end)
    (match r with NoRecentData => no_recent_data b + 1 | _ => no_recent_data b end)
    (match r with Incomplete e => Some e | _ => last_error b end).

Definition one_more (b : beat) : beat :=
  Beat (pid b) (started_at b) (finished_at b) (interval_s b) (beat_window b) (hosts_done b + 1) (hosts_total b)
    (incomplete b) (no_recent_data b) (last_error b).

Definition finish_beat (error : option string) (at_ : Z) (b : beat) : beat :=
  Beat (pid b) (started_at b) (Some at_) (interval_s b) (beat_window b) (hosts_done b) (hosts_total b)
    (incomplete b) (no_recent_data b) (match error with Some e => Some e | None => last_error b end).

(** The rows of a scan become a record: the pair list is stored once, and the rotation
    records are read. *)
Definition scan_record (previous : option host_doc) (host : string) (newest now : Z) (rows : list (string * string * Z * bool)) (s : sweep_state)
    : sweep_state * result scan_result :=
  let pairs := sorted_pairs ((fun r => r.1.1) <$> rows) in
  let sig := pair_set_signature pairs in
  let '(s, failed) :=
    if decide (sig ∈ sw_sigs s) then (s, None)
    else let '(c, e) := set_json (sw_client s) (sig_key sig) (DSig pairs) ttl in
         (match e with None => Sweep c (sw_beat s) ({[sig]} ∪ sw_sigs s) | Some _ => with_client c s end, e) in
  match failed with
  | Some e => (s, Raise e)
  | None =>
      (s, f ← derive_host_status py_float_int (parse_rotation_entries (rotations_raw I host)) (Some (seconds_of newest)) previous (seconds_of now);
          Ok (Scanned sig (Z.of_nat (length pairs)) (merge_sort pair_le (omap (fun r => if r.2 : bool then None else Some r.1.1) rows)) f))
  end.

(** The body of the loop, for the host at the head of the order. *)
Definition sweep_host (previous : string -> option host_doc) (latest : dict string (option Z)) (fleet_newest : option Z)
    (host : string) (now : Z) (s : sweep_state) : sweep_state * option py_exn :=
  let newest := default None (latest !! host) in
  let newest_s := seconds_of <$> newest in
  let '(s, r) :=
    match newest with
    | None => (s, Ok NoRecentData)
    | Some t =>
        match scan_fn I host (Z.max (t - in_window I * 60000000) since) t with
        | Raise e => (s, Ok (Incomplete (describe e)))
        | Ok rows => scan_record (previous host) host t now rows s
        end
    end in
  match r with
  | Raise e => (s, Some e)
  | Ok r =>
      let b := count_host r (sw_beat s) in
      let d := HostDoc host (seconds_of now) newest_s (in_window I)
                 (match newest_s, fleet_newest with Some n, Some f => Some (f - n) | _, _ => None end) r in
      let '(c, e) := set_json (sw_client s) (host_key host) (DHost d) ttl in
      match e with
      | Some e => (Sweep c b (sw_sigs s), Some e)
      | None =>
          let b := one_more b in
          if hosts_done b mod HEARTBEAT_EVERY_HOSTS =? 0
          then let '(c, e) := set_json c SWEEP_KEY (DBeat b) ttl in (Sweep c b (sw_sigs s), e)
          else (Sweep c b (sw_sigs s), None)
      end
  end.

(** The loop; [n] is the number of readings of the clock before it. *)
Fixpoint sweep_hosts (previous : string -> option host_doc) (latest : dict string (option Z)) (fleet_newest : option Z)
    (n : nat) (order : list string) (s : sweep_state) : sweep_state * nat * option py_exn :=
  match order with
  | [] => (s, n, None)
  | host :: order =>
      let now := clock I n in
      if deadline <=? now then (s, S n, None)
      else match sweep_host previous latest fleet_newest host now s with
           | (s, Some e) => (s, S n, Some e)
           | (s, None) => sweep_hosts previous latest fleet_newest (S n) order s
           end
  end.

Definition finish_sweep (error : option string) (n : nat) (s : sweep_state) : V * result beat :=
  let b := finish_beat error (seconds_of (clock I n)) (sw_beat s) in
  let '(c, e) := set_json (sw_client s) SWEEP_KEY (DBeat b) ttl in
  (c, match e with None => Ok b | Some e => Raise e end).

Definition run_sweep (c : V) : V * result beat :=
  let b := Beat (in_pid I) (seconds_of started) (load_beat c ≫= finished_at) (in_interval I) (in_window I) 0
             (Z.of_nat (length (in_fqdns I))) 0 0 None in
  match set_json c SWEEP_KEY (DBeat b) ttl with
  | (c, Some e) => (c, Raise e)
  | (c, None) =>
      let s := Sweep c b ∅ in
      if decide (in_fqdns I = []) then finish_sweep (Some "empty recent_host inventory") 1 s
      else match latest_fn I since with
      | Raise e => finish_sweep (Some ("latest_sample_time_by_host: " +:+ describe e)) 1 s
      | Ok latest =>
          let fleet_newest := foldr (fun t acc => match t with
                                                  | Some t => Some (match acc with None => seconds_of t | Some a => Z.max a (seconds_of t) end)
                                                  | None => acc
                                                  end) None (dict_values latest) in
          let order := sweep_order c (in_fqdns I) in
          match sweep_hosts (load_host c) latest fleet_newest 1 order s with
          | (s, n, Some e) => (sw_client s, Raise e)
          | (s, n, None) => finish_sweep None n s
          end
      end
  end.
End one_sweep.
End sweep.

(** How long the daemon waits after a sweep that took [elapsed], in microseconds. *)
Definition next_sweep_wait (interval elapsed : Z) : Z := Z.max 1000000 (interval * 1000000 - elapsed).
