(* ===== verification/CoverageSpec.v ===== *)
(** Correctness of the coverage sweep: a sweep goes on where the one before stopped, so
    every host is scanned as long as the documents last; when they expire earlier, hosts
    at the end of the alphabet never are. *)
From S2P Require Import Prelude PyDict PyStr Json Coverage.
From Stdlib Require Import Ascii.
Local Open Scope Z_scope.

(** ** The order of the hosts *)

#[export] Instance host_before_total : Total host_before.
Proof.
  intros [a x] [b y]. unfold host_before. simpl. destruct (decide (a = b)) as [->|Hne].
  - rewrite !decide_True by done. apply String.le_total.
  - rewrite (decide_False (P := b = a)) by congruence. lia.
Qed.

#[export] Instance host_before_trans : Transitive host_before.
Proof.
  intros [a x] [b y] [c z]. unfold host_before. simpl. repeat case_decide; subst; try lia.
  intros Hxy Hyz. by etransitivity.
Qed.

#[export] Instance host_before_antisymm : AntiSymm (=) host_before.
Proof.
  intros [a x] [b y]. unfold host_before. simpl. repeat case_decide; subst; try congruence; try lia.
  intros Hxy Hyx. f_equal. by apply (anti_symm String.le).
Qed.

(** ** Keys *)

#[export] Instance host_key_inj : Inj (=) (=) host_key.
Proof. intros x y E. unfold host_key, HOST_KEY_PREFIX, KEY_PREFIX in E. cbn in E. by simplify_eq. Qed.

Lemma host_key_not_sig h s : sig_key s <> host_key h.
Proof. intros E. unfold host_key, sig_key, HOST_KEY_PREFIX, SIG_KEY_PREFIX, KEY_PREFIX in E. cbn in E. simplify_eq. Qed.

Lemma host_key_not_sweep h : SWEEP_KEY <> host_key h.
Proof. intros E. unfold host_key, SWEEP_KEY, HOST_KEY_PREFIX, KEY_PREFIX in E. cbn in E. simplify_eq. Qed.

Section spec.
Context {V : Type} (kv_get : V -> string -> option doc) (kv_set : V -> string -> doc -> Z -> V * option py_exn).
Context (sha1 : string -> string) (py_float_int : string -> result Z) (describe : py_exn -> string).

(** What the server promises of [SET] and [GET]. *)
Context (get_set : forall c k d t c', kv_set c k d t = (c', None) -> kv_get c' k = Some d).
Context (get_other : forall c k k' d t c' e, kv_set c k d t = (c', e) -> k <> k' -> kv_get c' k' = kv_get c k').

Abbreviation loads := (load_host kv_get).
Abbreviation order := (sweep_order kv_get).
Abbreviation sweep := (run_sweep kv_get kv_set sha1 py_float_int describe).

Lemma set_host c h d t c' : set_json kv_set c (host_key h) (DHost d) t = (c', None) ->
  loads c' h = Some d /\ forall g, g <> h -> loads c' g = loads c g.
Proof.
  unfold set_json, load_host. intros E. split; [by rewrite (get_set _ _ _ _ _ E)|].
  intros g Hg. rewrite (get_other _ _ (host_key g) _ _ _ _ E); [done|]. intros E'. by apply (inj host_key) in E'.
Qed.

Lemma set_other c k d t c' e h : set_json kv_set c k d t = (c', e) -> k <> host_key h -> loads c' h = loads c h.
Proof. unfold set_json, load_host. intros E Hk. by rewrite (get_other _ _ _ _ _ _ _ E Hk). Qed.

(** The record of one host. *)
Lemma sweep_host_spec I previous latest fleet h now s s' :
  sweep_host kv_set sha1 py_float_int describe I previous latest fleet h now s = (s', None) ->
  (exists d, loads (sw_client s') h = Some d /\ scanned_at d = seconds_of now) /\
  (forall g, g <> h -> loads (sw_client s') g = loads (sw_client s) g) /\
  hosts_done (sw_beat s') = hosts_done (sw_beat s) + 1.
Proof.
  unfold sweep_host. set (m := match default None (latest !! h) with Some _ => _ | None => _ end). intros E.
  assert (forall s1 r, m = (s1, r) -> sw_beat s1 = sw_beat s /\ forall g, loads (sw_client s1) g = loads (sw_client s) g) as Hm.
  { subst m. intros s1 r. destruct (default None _) as [t|]; [|by intros [= <- _]].
    destruct (scan_fn I h _ t) as [rows|]; [|by intros [= <- _]]. unfold scan_record. cbv zeta. case_decide.
    - by intros [= <- _].
    - destruct (set_json kv_set _ _ _ _) as [c e] eqn:Es. intros E1.
      assert (sw_beat s1 = sw_beat s /\ sw_client s1 = c) as [-> ->] by (by destruct e; simplify_eq).
      split; [done|]. intros g. eapply set_other; [exact Es|apply host_key_not_sig]. }
  destruct m as [s1 r]. destruct (Hm s1 r eq_refl) as [Hb Hl]. clear Hm. destruct r as [r|e]; [|done].
  set (d := HostDoc _ _ _ _ _ _) in E. destruct (set_json kv_set _ _ _ _) as [c e] eqn:Es. destruct e; [done|].
  destruct (set_host _ _ _ _ _ Es) as [Hd Hg].
  assert (hosts_done (sw_beat s') = hosts_done (sw_beat s) + 1 /\ forall g, loads (sw_client s') g = loads c g) as [Hn Hc].
  { rewrite <- Hb. destruct (_ =? 0) in E; [|by simplify_eq]. destruct (set_json kv_set c _ _ _) as [c2 e2] eqn:E2. simplify_eq. split; [done|].
    intros g. eapply set_other; [exact E2|apply host_key_not_sweep]. }
  split; [|split; [|done]].
  - exists d. by rewrite Hc.
  - intros g Hne. by rewrite Hc, Hg, Hl.
Qed.

(** The hosts of the loop. *)
Lemma sweep_hosts_spec I previous latest fleet n l s s' n' :
  NoDup l -> sweep_hosts kv_set sha1 py_float_int describe I previous latest fleet n l s = (s', n', None) ->
  exists k, (k <= length l)%nat /\ hosts_done (sw_beat s') = hosts_done (sw_beat s) + Z.of_nat k /\
    (forall h, h ∈ take k l -> exists d i, loads (sw_client s') h = Some d /\ scanned_at d = seconds_of (clock I i)) /\
    (forall h, h ∉ take k l -> loads (sw_client s') h = loads (sw_client s) h).
Proof.
  intros Hnd. revert n s. induction Hnd as [|h l Hh Hnd IH]; intros n s; cbn [sweep_hosts].
  - intros [= <- _]. exists 0%nat. split_and!; [done|lia|set_solver|done].
  - destruct (deadline I <=? clock I n).
    + intros [= <- _]. exists 0%nat. split_and!; [lia|lia|set_solver|done].
    + destruct (sweep_host _ _ _ _ _ _ _ _ _ _ _) as [s1 [e|]] eqn:E1; [done|]. intros E.
      destruct (sweep_host_spec _ _ _ _ _ _ _ _ E1) as ((d & Hd & Hs) & Ho & Hn).
      destruct (IH _ _ E) as (k & Hk & Hc & Htake & Hrest). exists (S k). cbn [take length]. split_and!.
      * lia.
      * lia.
      * intros g [->|Hg]%elem_of_cons; [|auto]. exists d, n. split; [|done]. rewrite Hrest; [done|].
        intros Hin. apply Hh. apply list_elem_of_lookup in Hin as [i Hi]. apply lookup_take_Some in Hi as [Hi _]. by eapply list_elem_of_lookup_2.
      * intros g Hg. apply not_elem_of_cons in Hg as [Hne Hg]. rewrite Hrest, Ho by done. done.
Qed.

Definition host_of_key (h : Z * string) : string := h.2.

Lemma order_perm c fqdns : order c fqdns ≡ₚ fqdns.
Proof.
  unfold sweep_order. rewrite merge_sort_Permutation, <- list_fmap_compose. by rewrite list_fmap_id.
Qed.

(** A sorted list of hosts is the order. *)
Lemma order_unique c fqdns l :
  l ≡ₚ fqdns -> StronglySorted host_before ((fun h => (doc_scanned_at (loads c h), h)) <$> l) -> order c fqdns = l.
Proof.
  intros Hp Hs. unfold sweep_order.
  rewrite (StronglySorted_unique host_before (merge_sort host_before _) ((fun h => (doc_scanned_at (loads c h), h)) <$> l)).
  - rewrite <- list_fmap_compose. by rewrite list_fmap_id.
  - apply StronglySorted_merge_sort; apply _.
  - exact Hs.
  - by rewrite merge_sort_Permutation, Hp.
Qed.

Lemma order_sorted c fqdns : StronglySorted host_before ((fun h => (doc_scanned_at (loads c h), h)) <$> order c fqdns).
Proof.
  unfold sweep_order. set (l := merge_sort _ _).
  assert ((fun h => (doc_scanned_at (loads c h), h)) <$> l.*2 = l) as ->; [|apply StronglySorted_merge_sort; apply _].
  rewrite <- list_fmap_compose. rewrite <- (list_fmap_id l) at 2. apply list_fmap_ext. intros i [t h] Hi. simpl.
  apply list_elem_of_lookup_2 in Hi. unfold l in Hi. rewrite merge_sort_Permutation in Hi.
  apply list_elem_of_fmap in Hi as (g & [= -> ->] & _). done.
Qed.

Lemma finish_spec I err n s c' b : finish_sweep kv_set I err n s = (c', Ok b) ->
  hosts_done b = hosts_done (sw_beat s) /\ forall h, loads c' h = loads (sw_client s) h.
Proof.
  unfold finish_sweep. cbv zeta. destruct (set_json kv_set _ _ _ _) as [c2 [e|]] eqn:E2; [done|]. intros [= <- <-].
  split; [done|]. intros h. eapply set_other; [exact E2|apply host_key_not_sweep].
Qed.

(** What a sweep that ends leaves behind. *)
Lemma run_sweep_spec I c c' b :
  NoDup (in_fqdns I) -> sweep I c = (c', Ok b) ->
  exists k, hosts_done b = Z.of_nat k /\ (k <= length (in_fqdns I))%nat /\
    (forall h, h ∈ take k (order c (in_fqdns I)) -> exists d i, loads c' h = Some d /\ scanned_at d = seconds_of (clock I i)) /\
    (forall h, h ∉ take k (order c (in_fqdns I)) -> loads c' h = loads c h).
Proof.
  intros Hnd E. unfold run_sweep in E. destruct (set_json kv_set c _ _ _) as [c1 [e|]] eqn:E1; [done|].
  assert (forall h, loads c1 h = loads c h) as H1 by (intros h; eapply set_other; [exact E1|apply host_key_not_sweep]).
  cbv zeta in E. case_decide as Hnil.
  - destruct (finish_spec _ _ _ _ _ _ E) as [Hb Hl]. exists 0%nat. split_and!; [done|lia|set_solver|]. intros h _. by rewrite Hl, <- H1.
  - destruct (latest_fn I _) as [latest|]; [|destruct (finish_spec _ _ _ _ _ _ E) as [Hb Hl]; exists 0%nat; split_and!;
      [done|lia|set_solver|intros h _; by rewrite Hl, <- H1]].
    destruct (sweep_hosts _ _ _ _ _ _ _ _ _ _ _) as [[s n] [e|]] eqn:Es; [done|]. destruct (finish_spec _ _ _ _ _ _ E) as [Hb Hl].
    assert (order c1 (in_fqdns I) = order c (in_fqdns I)) as Ho.
    { unfold sweep_order. f_equal. f_equal. apply list_fmap_ext. intros i h _. by rewrite H1. }
    rewrite Ho in Es. apply sweep_hosts_spec in Es as (k & Hk & Hn & Ht & Hr); [|by rewrite order_perm].
    exists k. rewrite (Permutation_length (order_perm c (in_fqdns I))) in Hk. split_and!; [by rewrite Hb, Hn|done| |].
    + intros h Hh. destruct (Ht h Hh) as (d & i & ? & ?). exists d, i. by rewrite Hl.
    + intros h Hh. by rewrite Hl, Hr, <- H1.
Qed.

(** Scanned before [t], in whole seconds. *)
Definition scanned_before (c : V) (fqdns : list string) (t : Z) : Prop :=
  forall h, h ∈ fqdns -> doc_scanned_at (loads c h) < seconds_of t.

(** A sweep goes on where the one before stopped: the hosts it reached go to the back. *)
Lemma order_after I c c' b :
  NoDup (in_fqdns I) -> sweep I c = (c', Ok b) -> scanned_before c (in_fqdns I) (started I) -> (forall i, started I <= clock I i) ->
  exists l, l ≡ₚ take (Z.to_nat (hosts_done b)) (order c (in_fqdns I)) /\
    order c' (in_fqdns I) = drop (Z.to_nat (hosts_done b)) (order c (in_fqdns I)) ++ l.
Proof.
  intros Hnd E Hbefore Hclock. destruct (run_sweep_spec I c c' b Hnd E) as (k & -> & Hk & Ht & Hr). rewrite Nat2Z.id.
  set (o := order c (in_fqdns I)) in *. set (key := fun h => (doc_scanned_at (loads c' h), h)).
  assert (NoDup o) as Hno by (unfold o; by rewrite order_perm).
  assert (forall h, h ∈ drop k o -> h ∉ take k o) as Hdrop.
  { rewrite <- (take_drop k o) in Hno. apply NoDup_app in Hno as (_ & Hd & _). intros h Hh Hh'. by apply (Hd h). }
  exists (merge_sort host_before (key <$> take k o)).*2. split.
  - rewrite merge_sort_Permutation, <- list_fmap_compose. by rewrite list_fmap_id.
  - apply order_unique.
    + rewrite merge_sort_Permutation, <- list_fmap_compose, list_fmap_id. rewrite Permutation_app_comm, take_drop. apply order_perm.
    + rewrite fmap_app. apply StronglySorted_app. split_and!.
      * intros x y (g & -> & Hg)%list_elem_of_fmap (h & -> & Hh)%list_elem_of_fmap.
        apply list_elem_of_fmap in Hh as ([t' h'] & -> & Hh). rewrite merge_sort_Permutation in Hh.
        apply list_elem_of_fmap in Hh as (h & [= -> ->] & Hh). cbn [snd].
        destruct (Ht h Hh) as (d & i & Hd & Hs). rewrite Hd, (Hr g (Hdrop g Hg)). simpl.
        assert (g ∈ o) as Hgf by (by eapply subseteq_drop). unfold o in Hgf. rewrite order_perm in Hgf.
        pose proof (Hbefore g Hgf). pose proof (Hclock i). unfold host_before. simpl. rewrite Hs.
        assert (seconds_of (started I) <= seconds_of (clock I i)) by (apply Z.quot_le_mono; lia).
        rewrite decide_False by lia. lia.
      * assert ((fun h => (doc_scanned_at (loads c' h), h)) <$> drop k o = (fun h => (doc_scanned_at (loads c h), h)) <$> drop k o) as ->.
        { apply list_fmap_ext. intros i h Hi%list_elem_of_lookup_2. by rewrite (Hr h (Hdrop h Hi)). }
        pose proof (order_sorted c (in_fqdns I)) as Hs. fold o in Hs. rewrite <- (take_drop k o), fmap_app in Hs.
        by apply StronglySorted_app in Hs as (_ & _ & Hs).
      * assert (forall l : list (Z * string), (forall x, x ∈ l -> x = key x.2) -> key <$> l.*2 = l) as Hid.
        { intros l Hl. rewrite <- list_fmap_compose. rewrite <- (list_fmap_id l) at 2. apply list_fmap_ext.
          intros i x Hi%list_elem_of_lookup_2. simpl. by rewrite <- (Hl x Hi). }
        fold key. rewrite Hid; [apply StronglySorted_merge_sort; apply _|]. intros x Hx. rewrite merge_sort_Permutation in Hx.
        by apply list_elem_of_fmap in Hx as (h & -> & _).
Qed.

(** A run of the daemon: [N] sweeps over one inventory, each of which ends and reaches a
    host, with its clock past the readings of the one before.  Between two sweeps the
    documents of the hosts last. *)
Record sweeps (N : nat) (fqdns : list string) (Is : nat -> inputs) (cs cs' : nat -> V) (bs : nat -> beat) : Prop := {
  sw_ends k : (k < N)%nat -> sweep (Is k) (cs k) = (cs' k, Ok (bs k));
  sw_hosts k : (k < N)%nat -> in_fqdns (Is k) = fqdns;
  sw_some k : (k < N)%nat -> 1 <= hosts_done (bs k);
  sw_clock k i : (k < N)%nat -> started (Is k) <= clock (Is k) i;
  sw_later k i : (S k < N)%nat -> seconds_of (clock (Is k) i) < seconds_of (started (Is (S k)));
  sw_first : scanned_before (cs 0%nat) fqdns (started (Is 0%nat));
  sw_last k h : (S k < N)%nat -> h ∈ fqdns -> loads (cs (S k)) h = loads (cs' k) h;
}.

Lemma sweeps_before N fqdns Is cs cs' bs k : NoDup fqdns -> sweeps N fqdns Is cs cs' bs -> (k < N)%nat ->
  scanned_before (cs k) fqdns (started (Is k)).
Proof.
  intros Hnd [S1 S2 S3 S4 S5 S6 S7]. induction k as [|k IH]; intros HN; [done|]. intros h Hh. rewrite S7 by done.
  destruct (run_sweep_spec (Is k) (cs k) (cs' k) (bs k)) as (n & _ & _ & Ht & Hr); [rewrite S2; [done|lia]|apply S1; lia|].
  destruct (decide (h ∈ take n (order (cs k) (in_fqdns (Is k))))) as [Hin|Hout].
  - destruct (Ht h Hin) as (d & i & -> & Hd). simpl. rewrite Hd. by apply S5.
  - rewrite Hr by done. pose proof (IH ltac:(lia) h Hh). pose proof (S5 k 0%nat HN). unfold started in *. lia.
Qed.

Lemma scanned_by_position N fqdns Is cs cs' bs : NoDup fqdns -> sweeps N fqdns Is cs cs' bs ->
  forall j k h, (k + j < N)%nat -> order (cs k) fqdns !! j = Some h ->
  exists m, (k <= m <= k + j)%nat /\ seconds_of (started (Is m)) <= doc_scanned_at (loads (cs' m) h).
Proof.
  intros Hnd Hs. pose proof Hs as [S1 S2 S3 S4 S5 S6 S7]. induction j as [j IH] using lt_wf_ind. intros k h HN Hj.
  assert (k < N)%nat as HkN by lia. pose proof (S2 k HkN) as Hf.
  destruct (run_sweep_spec (Is k) (cs k) (cs' k) (bs k)) as (n & Hn & _ & Ht & _); [by rewrite Hf|auto|]. rewrite Hf in Ht.
  destruct (decide (j < n)%nat) as [Hlt|Hge].
  - exists k. split; [lia|]. destruct (Ht h) as (d & i & -> & Hd).
    + apply elem_of_take. eauto.
    + simpl. rewrite Hd. apply Z.quot_le_mono; [lia|auto].
  - destruct (order_after (Is k) (cs k) (cs' k) (bs k)) as (l & _ & Ho); [by rewrite Hf|auto|rewrite Hf; by eapply sweeps_before|auto|].
    rewrite Hf, Hn, Nat2Z.id in Ho. pose proof (S3 k HkN).
    assert (order (cs (S k)) fqdns = order (cs' k) fqdns) as Ho'.
    { unfold sweep_order. f_equal. f_equal. apply list_fmap_ext. intros i g Hi%list_elem_of_lookup_2. rewrite S7; [done|lia|done]. }
    destruct (IH (j - n)%nat ltac:(lia) (S k) h) as (m & Hm & Hd); [lia| |exists m; split; [lia|done]].
    rewrite Ho', Ho. apply lookup_app_l_Some. rewrite lookup_drop. by replace (n + (j - n))%nat with j by lia.
Qed.

End spec.

(** ** Concrete sweeps *)

Module CoverageDemo.

(** A server that keeps its documents. *)
Definition keep_get (c : gmap string doc) (k : string) : option doc := c !! k.
Definition keep_set (c : gmap string doc) (k : string) (d : doc) (t : Z) : gmap string doc * option py_exn := (<[k := d]> c, None).

Lemma keep_get_set c k d t c' : keep_set c k d t = (c', None) -> keep_get c' k = Some d.
Proof. intros [= <-]. apply lookup_insert_eq. Qed.

Lemma keep_get_other c k k' d t c' e : keep_set c k d t = (c', e) -> k <> k' -> keep_get c' k' = keep_get c k'.
Proof. intros [= <- <-] Hk. by apply lookup_insert_ne. Qed.

(** One host per sweep: the second reading of the clock in the loop is past the deadline. *)
Definition fleet : list string := ["n1.x"; "n2.x"].
Definition slow_clock (start : Z) (interval : Z) (n : nat) : Z := if (n <=? 1)%nat then start else start + interval * 1000000.
Definition slow_sweep (hosts : list string) (interval start : Z) (rot : string -> list (option json)) : inputs :=
  Inputs 7 hosts interval 60 (fun _ => Ok (dict_of_items ((fun h => (h, Some (start - 5000000))) <$> hosts))) (fun _ _ _ => Ok [("cpu", "user", 3, true)])%string rot
    (slow_clock start interval).

Definition no_rotations (h : string) : list (option json) := [].
Definition no_hash (s : string) : string := "0".
Definition no_float (s : string) : result Z := match py_int s with Some z => Ok z | None => Raise ValueError end.
Definition no_text (e : py_exn) : string := "error".

Definition day0 : Z := 1600000000000000.
Definition nth_inputs (k : nat) : inputs := slow_sweep fleet 60 (day0 + Z.of_nat k * 61000000) no_rotations.
Definition sweep_of (I : inputs) (c : gmap string doc) : gmap string doc * result beat :=
  run_sweep keep_get keep_set no_hash no_float no_text I c.
Definition beat_of (r : result beat) : beat := match r with Ok b => b | Raise _ => Beat 0 0 None 0 0 0 0 0 0 None end.

Fixpoint before_sweep (k : nat) : gmap string doc := match k with O => ∅ | S k => (sweep_of (nth_inputs k) (before_sweep k)).1 end.
Definition after_sweep (k : nat) : gmap string doc := (sweep_of (nth_inputs k) (before_sweep k)).1.
Definition nth_beat (k : nat) : beat := beat_of (sweep_of (nth_inputs k) (before_sweep k)).2.


(** A server that lets a document expire after its time to live, in seconds. *)
Definition expiring : Type := gmap string (doc * Z) * Z.
Definition exp_get (c : expiring) (k : string) : option doc :=
  match c.1 !! k with Some (d, until) => if c.2 <? until then Some d else None | None => None end.
Definition exp_set (c : expiring) (k : string) (d : doc) (t : Z) : expiring * option py_exn := (<[k := (d, c.2 + t)]> c.1, c.2, None).

(** Sweeps of 60 seconds, one second apart, each of which has time for one host. *)
Definition five : list string := ["a.x"; "b.x"; "c.x"; "d.x"; "e.x"].
Fixpoint nth_sweep (k : nat) : expiring :=
  let start := 1600000000 + Z.of_nat k * 61 in
  let c := match k with O => ∅ | S k => (nth_sweep k).1 end in
  (run_sweep exp_get exp_set no_hash no_float no_text (slow_sweep five 60 (start * 1000000) no_rotations) (c, start)).1.

(** The documents live three intervals, so after three sweeps the hosts scanned first are
    again without a document, like those never scanned, and come before them by name: the
    sweeper goes round the first three hosts, and the others are never scanned. *)
Example expired_before_unscanned :
  (fun k => bool_decide (is_Some ((nth_sweep k).1 !! host_key "d.x")) || bool_decide (is_Some ((nth_sweep k).1 !! host_key "e.x")))
    <$> seq 0 12 = replicate 12 false /\
  sweep_order exp_get ((nth_sweep 11).1, 1600000000 + 12 * 61) five = ["a.x"; "d.x"; "e.x"; "b.x"; "c.x"].
Proof. vm_compute. done. Qed.

(** One rotation record whose time is no number stops the sweep, and every sweep after it,
    at the same host: its document is not written, so it stays the first of the order. *)
Definition bad_rotation (h : string) : list (option json) :=
  if decide (h = "n1.x") then [Some (JDict (dict_of_items [("rotated_at", JStr "soon")]))] else [].

Example bad_rotation_stops_all :
  let sweep := fun c start => sweep_of (slow_sweep fleet 3600 start bad_rotation) c in
  let c1 := sweep ∅ day0 in let c2 := sweep c1.1 (day0 + 3600000000) in
  (c1.2, c2.2, load_host keep_get c2.1 "n1.x", load_host keep_get c2.1 "n2.x") = (Raise ValueError, Raise ValueError, None, None).
Proof. vm_compute. reflexivity. Qed.
End CoverageDemo.
