(* ===== verification/WriteBehind.v ===== *)
(** The write-behind writer: one thread that coalesces dirty marks into writes.

    Models [WriteBehindWriter] of [dbload/lib/sync_timedb_write_behind.py].
    Each block the code runs under the condition variable [_cv] is one function
    on the writer's fields; [_main] and the waiting half of [flush] are the
    step relation of [Module Threads], where the writer thread and any number of
    flushing callers interleave.  The clock is an integer the environment
    chooses at each step, so no property depends on timing. *)
From S2P Require Import Prelude.
Local Open Scope Z_scope.

Definition DEFAULT_WRITE_BEHIND_INTERVAL_S : Z := 60.
Definition FORCE_FLUSH_TIMEOUT_S : Z := 120.

(** The fields of [WriteBehindWriter].  [w_alive] is
    [_thread is not None and _thread.is_alive()], [w_registered] membership in
    the module's [_WRITERS]. *)
Record writer := Writer {
  w_interval : Z;
  w_dirty : bool;
  w_gen : Z;
  w_stop : bool;
  w_force : bool;
  w_force_done : Z;
  w_force_asked : Z;
  w_error : option py_exn;
  w_last : Z;
  w_alive : bool;
  w_registered : bool;
}.

#[export] Instance writer_eq_dec : EqDecision writer.
Proof. solve_decision. Defined.

Definition new_writer (interval : Z) : writer :=
  Writer interval false 0 false false 0 0 None 0 false false.

(** [start]: idempotent while the thread runs. *)
Definition start (now : Z) (w : writer) : writer :=
  if w_alive w then w
  else Writer (w_interval w) (w_dirty w) (w_gen w) false (w_force w) (w_force_done w)
         (w_force_asked w) (w_error w) now true true.

Definition mark_dirty (w : writer) : writer :=
  Writer (w_interval w) true (w_gen w + 1) (w_stop w) (w_force w) (w_force_done w)
    (w_force_asked w) (w_error w) (w_last w) (w_alive w) (w_registered w).

Definition clear_dirty (w : writer) : writer :=
  Writer (w_interval w) false (w_gen w) (w_stop w) (w_force w) (w_force_done w)
    (w_force_asked w) (w_error w) (w_last w) (w_alive w) (w_registered w).

(** The first half of [flush], when a thread runs: ask for a write and take a
    ticket. *)
Definition flush_request (w : writer) : Z * writer :=
  let ticket := w_force_asked w + 1 in
  (ticket,
   Writer (w_interval w) (w_dirty w) (w_gen w) (w_stop w) true (w_force_done w)
     ticket None (w_last w) (w_alive w) (w_registered w)).

(** The waiting half of [flush], one wake-up: [None] keeps waiting. [left] is
    the time to the deadline. *)
Definition flush_wake (ticket left : Z) (w : writer) : option (result unit) :=
  if w_force_done w <? ticket then
    if left <=? 0 then Some (Raise TimeoutError) else None
  else match w_error w with
       | Some e => Some (Raise e)
       | None => Some (Ok ())
       end.

(** [stop] up to the join. *)
Definition stop_request (final_flush : bool) (w : writer) : writer :=
  Writer (w_interval w) (if final_flush then w_dirty w else false) (w_gen w) true
    (w_force w) (w_force_done w) (w_force_asked w) (w_error w) (w_last w) (w_alive w)
    (w_registered w).

(** [stop] after the join: leave the registry. *)
Definition stop_unregister (w : writer) : writer :=
  Writer (w_interval w) (w_dirty w) (w_gen w) (w_stop w) (w_force w) (w_force_done w)
    (w_force_asked w) (w_error w) (w_last w) (w_alive w) false.

(** [_attempt] after [_write_fn]: the write of the state seen at generation
    [gen] returned ([Ok]) or raised. *)
Definition attempt_end (gen now : Z) (r : result unit) (w : writer) : writer :=
  match r with
  | Raise e =>
      Writer (w_interval w) (w_dirty w) (w_gen w) (w_stop w) (w_force w) (w_force_done w)
        (w_force_asked w) (Some e) (w_last w) (w_alive w) (w_registered w)
  | Ok _ =>
      Writer (w_interval w) (if w_gen w =? gen then false else w_dirty w) (w_gen w)
        (w_stop w) (w_force w) (w_force_done w) (w_force_asked w) None now (w_alive w)
        (w_registered w)
  end.

(** [flush(inline_ok)] when no thread runs: the caller writes. *)
Definition flush_inline (inline_ok : bool) (now : Z) (r : result unit) (w : writer)
    : result unit * writer :=
  if inline_ok then
    let w' := attempt_end (w_gen w) now r w in
    (match w_error w' with Some e => Raise e | None => Ok () end, w')
  else (Raise RuntimeError, w).

(** One pass of [_main]'s wait loop. *)
Inductive decision :=
| Wait (timeout : option Z)
| Exit
| Go.

Definition main_decide (now : Z) (w : writer) : decision :=
  if w_force w then Go
  else if w_stop w then (if w_dirty w then Go else Exit)
  else if w_dirty w then
    let left := w_interval w - (now - w_last w) in
    if left <=? 0 then Go else Wait (Some left)
  else Wait None.

(** What [_main] does under the lock once it leaves the wait loop: the pair is
    [(forced, asked)]. *)
Definition main_take (w : writer) : bool * Z * writer :=
  (w_force w, w_force_asked w,
   Writer (w_interval w) (w_dirty w) (w_gen w) (w_stop w) false (w_force_done w)
     (w_force_asked w) (w_error w) (w_last w) (w_alive w) (w_registered w)).

(** The block after [_attempt]; the flag says the thread returns. *)
Definition main_after (forced : bool) (asked : Z) (w : writer) : bool * writer :=
  let w' :=
    Writer (w_interval w) (w_dirty w) (w_gen w) (w_stop w) (w_force w)
      (if forced then Z.max (w_force_done w) asked else w_force_done w)
      (w_force_asked w) (w_error w) (w_last w) (w_alive w) (w_registered w) in
  (w_stop w' && bool_decide (w_error w' <> None), w').

Definition thread_gone (w : writer) : writer :=
  Writer (w_interval w) (w_dirty w) (w_gen w) (w_stop w) (w_force w) (w_force_done w)
    (w_force_asked w) (w_error w) (w_last w) false (w_registered w).

(** ** Threads *)
Module Threads.

(** Where the writer thread is in [_main]. *)
Inductive pc :=
| NotRunning
| Deciding
| Taken (forced : bool) (asked : Z)
| Writing (forced : bool) (asked gen : Z)
| Wrote (forced : bool) (asked : Z).

(** A flushing caller. [since] is the generation when it asked. *)
Inductive flusher :=
| Waiting (ticket since : Z)
| Returned (r : result unit) (since : Z).

(** [persisted] is the newest generation a completed write covers: [_write_fn]
    runs after [gen] was read, so it sees every mark up to [gen]. *)
Record sys := Sys {
  wr : writer;
  at_pc : pc;
  flushers : gmap nat flusher;
  persisted : Z;
}.

Definition initial (interval : Z) : sys := Sys (new_writer interval) NotRunning ∅ 0.

Inductive step : sys -> sys -> Prop :=
| step_start w fl p now :
    w_alive w = false ->
    step (Sys w NotRunning fl p) (Sys (start now w) Deciding fl p)
| step_mark w c fl p :
    step (Sys w c fl p) (Sys (mark_dirty w) c fl p)
| step_restore w c fl p :
    (** [clear_dirty] follows a reload: memory equals the disk. *)
    (forall f a g, c <> Writing f a g) ->
    step (Sys w c fl p) (Sys (clear_dirty w) c fl (w_gen w))
| step_flush_ask i w c fl p t w' :
    w_alive w = true ->
    (forall t' s, fl !! i <> Some (Waiting t' s)) ->
    flush_request w = (t, w') ->
    step (Sys w c fl p) (Sys w' c (<[i := Waiting t (w_gen w)]> fl) p)
| step_flush_return i t s left r w c fl p :
    fl !! i = Some (Waiting t s) ->
    flush_wake t left w = Some r ->
    step (Sys w c fl p) (Sys w c (<[i := Returned r s]> fl) p)
| step_stop w c fl p :
    step (Sys w c fl p) (Sys (stop_request true w) c fl p)
| step_unregister w c fl p :
    step (Sys w c fl p) (Sys (stop_unregister w) c fl p)
| step_exit now w fl p :
    main_decide now w = Exit ->
    step (Sys w Deciding fl p) (Sys (thread_gone w) NotRunning fl p)
| step_take now f a w w' fl p :
    main_decide now w = Go ->
    main_take w = (f, a, w') ->
    step (Sys w Deciding fl p) (Sys w' (Taken f a) fl p)
| step_read_gen f a w fl p :
    step (Sys w (Taken f a) fl p) (Sys w (Writing f a (w_gen w)) fl p)
| step_write_ok f a g now w fl p :
    step (Sys w (Writing f a g) fl p)
         (Sys (attempt_end g now (Ok ()) w) (Wrote f a) fl (Z.max p g))
| step_write_fail f a g now e w fl p :
    step (Sys w (Writing f a g) fl p)
         (Sys (attempt_end g now (Raise e) w) (Wrote f a) fl p)
| step_after f a w w' fl p :
    main_after f a w = (false, w') ->
    step (Sys w (Wrote f a) fl p) (Sys w' Deciding fl p)
| step_after_exit f a w w' fl p :
    main_after f a w = (true, w') ->
    step (Sys w (Wrote f a) fl p) (Sys (thread_gone w') NotRunning fl p).

(** Flushes do not overlap: no caller asks while another one waits. *)
Inductive step_one_flusher : sys -> sys -> Prop :=
| one_flusher s s' :
    step s s' ->
    (forall i j t sn t' sn', flushers s' !! i = Some (Waiting t sn) ->
       flushers s' !! j = Some (Waiting t' sn') -> i = j) ->
    step_one_flusher s s'.
End Threads.
