(* ===== verification/WriteBehindSpec.v ===== *)
(** What the write-behind writer promises: no dirty mark is lost, a flush that
    returns has persisted everything marked before it, as long as flushes do
    not overlap, and what happens when they do. *)
From S2P Require Import Prelude WriteBehind.
Import Threads.
Local Open Scope Z_scope.

(** Destructs a step and computes the writer functions it uses. *)
Ltac step_cases H :=
  destruct H; simplify_eq/=;
  repeat match goal with
  | E : flush_request _ = _ |- _ => unfold flush_request in E; simplify_eq/=
  | E : main_take _ = _ |- _ => unfold main_take in E; simplify_eq/=
  | E : main_after _ _ _ = _ |- _ => unfold main_after in E; simplify_eq/=
  end.

(** ** No mark is lost *)

Definition marks_inv (s : sys) : Prop :=
  (w_alive (wr s) = true <-> at_pc s <> NotRunning) /\
  persisted s <= w_gen (wr s) /\
  (w_dirty (wr s) = false -> persisted s = w_gen (wr s)) /\
  (forall f a g, at_pc s = Writing f a g -> g <= w_gen (wr s)).

Lemma marks_inv_initial n : marks_inv (initial n).
Proof. unfold marks_inv, initial; simpl. naive_solver lia. Qed.

Lemma marks_inv_step s s' : step s s' -> marks_inv s -> marks_inv s'.
Proof.
  intros H (Ha & Hp & Hd & Hg). unfold marks_inv. step_cases H;
    unfold start in *; repeat case_match; simplify_eq/=;
    try (split_and!; naive_solver lia).
  - split_and!; try naive_solver lia. intros f a g E. specialize (Hg f a g E). lia.
  - specialize (Hg f a g eq_refl).
    split_and!; [naive_solver|lia|intros Hw; specialize (Hd Hw); lia|naive_solver].
Qed.

Lemma marks_inv_reachable n s : rtc step (initial n) s -> marks_inv s.
Proof. apply rtc_invariant; [apply marks_inv_step|apply marks_inv_initial]. Qed.

(** ** A flush persists what came before it *)

(** What holds of a caller that waits with ticket [t] since generation [g0]. *)
Definition waiting_inv (w : writer) (c : pc) (p t g0 : Z) : Prop :=
  t = w_force_asked w /\ g0 <= w_gen w /\
  match c with
  | Taken _ a => a <= w_force_asked w
  | Writing true a g => a <= w_force_asked w /\ (t <= a \/ t <= w_force_done w -> g0 <= g)
  | Writing false a g => t <= w_force_done w -> g0 <= g
  | Wrote true a =>
      a <= w_force_asked w /\ (t <= a -> w_error w = None -> g0 <= p)
  | _ => True
  end /\
  (t <= w_force_done w -> w_error w = None -> g0 <= p).

Definition tickets_inv (s : sys) : Prop :=
  w_force_done (wr s) <= w_force_asked (wr s) /\
  match at_pc s with
  | Taken _ a | Writing _ a _ | Wrote _ a => a <= w_force_asked (wr s)
  | _ => True
  end.

Lemma tickets_inv_step s s' : step s s' -> tickets_inv s -> tickets_inv s'.
Proof.
  intros H [Hd Hc]. unfold tickets_inv. step_cases H; unfold start, attempt_end in *;
    repeat case_match; simplify_eq/=; split; try done; try lia.
Qed.

Definition flush_inv (s : sys) : Prop :=
  marks_inv s /\ tickets_inv s /\
  (forall i t g0, flushers s !! i = Some (Waiting t g0) ->
     waiting_inv (wr s) (at_pc s) (persisted s) t g0) /\
  (forall i g0, flushers s !! i = Some (Returned (Ok ()) g0) -> g0 <= persisted s).

Lemma persisted_mono s s' : step s s' -> marks_inv s -> persisted s <= persisted s'.
Proof. intros H (_ & Hp & _). step_cases H; lia. Qed.

(** Splits on the thread's position and on its boolean arguments. *)
Ltac pc_split :=
  unfold start in *;
  repeat match goal with
  | c : pc |- _ => destruct c
  | f : bool |- _ => destruct f
  | H : w_alive _ = false |- _ => rewrite H in *; clear H
  end; simpl in *.

Ltac wait_lia :=
  repeat match goal with
  | H : _ /\ _ |- _ => destruct H
  | |- _ /\ _ => split
  | |- _ -> _ => intro
  end; try done;
  repeat match goal with
  | H : ?P -> _, H' : ?P |- _ => specialize (H H')
  | H : ?P -> _ |- _ => assert_succeeds (assert P by lia); specialize (H ltac:(lia))
  end; try done; lia.

Lemma waiting_inv_step s s' i t g0 :
  step_one_flusher s s' -> flush_inv s ->
  flushers s' !! i = Some (Waiting t g0) ->
  waiting_inv (wr s') (at_pc s') (persisted s') t g0.
Proof.
  intros [s0 s1 H Hone] (Hm & Ht & Hw & _) Hi.
  assert (forall t0 g1, flushers s0 !! i = Some (Waiting t0 g1) ->
    waiting_inv (wr s0) (at_pc s0) (persisted s0) t0 g1) as Hwi by eauto.
  destruct Hm as (_ & Hp & Hd & Hg), Ht as [Hda Hc]. unfold waiting_inv in *.
  step_cases H.
  all: try (specialize (Hwi _ _ Hi); pc_split; by wait_lia).
  - apply lookup_insert_Some in Hi as [[<- E]|[Hne Hi]]; simplify_eq.
    + clear Hwi Hw Hone. pc_split; wait_lia.
    + exfalso. apply Hne. eapply Hone; [by apply lookup_insert_eq|rewrite lookup_insert_ne by done; done].
  - apply lookup_insert_Some in Hi as [[<- E]|[Hne Hi]]; simplify_eq. by apply Hwi.
  - specialize (Hwi _ _ Hi). destruct f; simpl in *; destruct (Z.le_gt_cases t a); wait_lia.
  - specialize (Hwi _ _ Hi). destruct f; simpl in *; destruct (Z.le_gt_cases t a); wait_lia.
Qed.

Lemma returned_inv_step s s' i g0 :
  step s s' -> flush_inv s ->
  flushers s' !! i = Some (Returned (Ok ()) g0) -> g0 <= persisted s'.
Proof.
  intros H (Hm & _ & Hw & Hr) Hi. pose proof (persisted_mono _ _ H Hm) as Hmono.
  step_cases H; try (by specialize (Hr _ _ Hi); lia).
  - apply lookup_insert_Some in Hi as [[_ E]|[_ Hi]]; [done|]. by eapply Hr.
  - apply lookup_insert_Some in Hi as [[<- E]|[_ Hi]]; [|by eapply Hr]. simplify_eq.
    specialize (Hw _ _ _ ltac:(eassumption)) as (_ & _ & _ & Hd).
    unfold flush_wake in *. destruct (Z.ltb_spec (w_force_done w) t); repeat case_match; simplify_eq.
    apply Hd; [lia|done].
Qed.

Lemma flush_inv_step s s' : step_one_flusher s s' -> flush_inv s -> flush_inv s'.
Proof.
  intros Hs Hi. assert (step s s') as H by (by destruct Hs). pose proof Hi as (Hm & Ht & _).
  split_and!; [by eapply marks_inv_step|by eapply tickets_inv_step|..]; intros;
    eauto using waiting_inv_step, returned_inv_step.
Qed.

Lemma flush_inv_initial n : flush_inv (initial n).
Proof. split_and!; [apply marks_inv_initial|done|done|done]. Qed.

(** ** Properties *)

(** [C30] No dirty mark is lost: in every reachable state of the writer thread and
    its callers, a clear dirty flag means that a completed write covers every
    mark made so far; a write that raced a mark leaves the flag set. *)
Theorem no_mark_lost n s :
  rtc step (initial n) s -> w_dirty (wr s) = false -> persisted s = w_gen (wr s).
Proof. intros H. by apply (marks_inv_reachable n s H). Qed.

(** The thread leaves its loop only when nothing is owed or its last write
    failed. *)
Theorem exit_owes_nothing n s s' :
  rtc step (initial n) s -> step s s' ->
  at_pc s <> NotRunning -> at_pc s' = NotRunning ->
  (w_dirty (wr s') = false /\ persisted s' = w_gen (wr s')) \/ w_error (wr s') <> None.
Proof.
  intros Hr H Hn Hn'. destruct (marks_inv_reachable n s Hr) as (_ & _ & Hd & _).
  step_cases H; try done.
  - left. unfold main_decide in *. repeat case_match; simplify_eq. auto.
  - right. match goal with E : _ && _ = true |- _ => apply andb_true_iff in E as [_ E] end.
    by case_bool_decide.
Qed.

(** A flush that returns normally has persisted every mark made before it was
    called, when flushes do not overlap. *)
Theorem flush_persists n s i g0 :
  rtc step_one_flusher (initial n) s ->
  flushers s !! i = Some (Returned (Ok ()) g0) -> g0 <= persisted s.
Proof.
  intros H Hi.
  eapply (rtc_invariant _ flush_inv _ _ flush_inv_step (flush_inv_initial n)) in H.
  destruct H as (_ & _ & _ & Hr). by eapply Hr.
Qed.

(** When flushes overlap the promise fails: the second request resets the error
    the first caller has not read yet, so the first flush returns normally
    although the write it asked for raised and nothing reached the disk. *)
Theorem overlapping_flush_swallows_error :
  exists s, rtc step (initial 60) s /\
    flushers s !! 0%nat = Some (Returned (Ok ()) 1) /\ persisted s = 0.
Proof.
  eexists. split; [|split].
  - eapply rtc_l; [by apply (step_start _ _ _ 0)|].
    eapply rtc_l; [apply step_mark|].
    eapply rtc_l; [by apply (step_flush_ask 0 _ _ _ _ 1)|].
    eapply rtc_l; [by apply (step_take 0 true 1)|].
    eapply rtc_l; [apply step_read_gen|].
    eapply rtc_l; [apply (step_write_fail _ _ _ 0 OSError)|].
    eapply rtc_l; [by apply (step_after true 1)|].
    eapply rtc_l; [by apply (step_flush_ask 1 _ _ _ _ 2)|].
    eapply rtc_l; [by apply (step_flush_return 0 1 1 100 (Ok ()))|].
    apply rtc_refl.
  - reflexivity.
  - reflexivity.
Qed.

(** ** A run of the thread, for the witnesses *)

(** One mark, one flush, one successful write. *)
Definition flushed (c : pc) (fl : gmap nat flusher) (done : Z) : sys :=
  Sys (Writer 60 false 1 false false done 1 None 0 true true) c fl 1.

Ltac one_flusher_done :=
  intros i j t sn t' sn' Hi Hj; simpl in Hi, Hj;
  repeat match goal with
  | H : <[_ := _]> _ !! _ = Some _ |- _ => apply lookup_insert_Some in H as [[? ?]|[? H]]; simplify_eq
  | H : ∅ !! _ = Some _ |- _ => by rewrite lookup_empty in H
  end; done.

Lemma flushed_reachable :
  rtc step_one_flusher (initial 60)
    (flushed Deciding (<[0%nat := Returned (Ok ()) 1]> (<[0%nat := Waiting 1 1]> ∅)) 1).
Proof.
  eapply rtc_l; [apply one_flusher; [by apply (step_start _ _ _ 0)|one_flusher_done]|].
  eapply rtc_l; [apply one_flusher; [apply step_mark|one_flusher_done]|].
  eapply rtc_l; [apply one_flusher; [by apply (step_flush_ask 0 _ _ _ _ 1)|one_flusher_done]|].
  eapply rtc_l; [apply one_flusher; [by apply (step_take 0 true 1)|one_flusher_done]|].
  eapply rtc_l; [apply one_flusher; [apply step_read_gen|one_flusher_done]|].
  eapply rtc_l; [apply one_flusher; [apply (step_write_ok _ _ _ 0)|one_flusher_done]|].
  eapply rtc_l; [apply one_flusher; [by apply (step_after true 1)|one_flusher_done]|].
  eapply rtc_l; [apply one_flusher; [by apply (step_flush_return 0 1 1 100 (Ok ()))|one_flusher_done]|].
  apply rtc_refl.
Qed.

Lemma step_one_flusher_step s s' : rtc step_one_flusher s s' -> rtc step s s'.
Proof. induction 1 as [|s s1 s' [] _ IH]; [apply rtc_refl|by eapply rtc_l]. Qed.

(** The state that run ends in. *)
Definition flushed_once : sys :=
  flushed Deciding (<[0%nat := Returned (Ok ()) 1]> (<[0%nat := Waiting 1 1]> ∅)) 1.

Lemma no_mark_lost_witness :
  persisted flushed_once = w_gen (wr flushed_once) /\ w_gen (wr flushed_once) = 1.
Proof.
  split; [|reflexivity].
  exact (no_mark_lost 60 flushed_once (step_one_flusher_step _ _ flushed_reachable) eq_refl).
Defined.

Lemma flush_persists_witness :
  flushers flushed_once !! 0%nat = Some (Returned (Ok ()) 1) /\ 1 <= persisted flushed_once.
Proof.
  split; [reflexivity|].
  exact (flush_persists 60 flushed_once 0 1 flushed_reachable eq_refl).
Defined.

(** A stop request, then the thread leaves. *)
Lemma exit_owes_nothing_witness :
  exists s', step (Sys (stop_request true (wr flushed_once)) Deciding (flushers flushed_once) 1) s' /\
    ((w_dirty (wr s') = false /\ persisted s' = w_gen (wr s')) \/ w_error (wr s') <> None).
Proof.
  eexists. split; [by apply (step_exit 0)|].
  eapply exit_owes_nothing; [|by apply (step_exit 0)|done|done].
  eapply rtc_r; [exact (step_one_flusher_step _ _ flushed_reachable)|apply step_stop].
Defined.
