(* ===== verification/LeaseOwner.v ===== *)
(** Owner tokens, fingerprints and identities of the job store.

    Models [make_lease_owner_token], [parse_lease_owner],
    [parse_lease_owner_pid], [lease_owner_is_locally_evaluable],
    [current_boot_id], [ingest_identity], [ingest_fingerprint] and
    [fingerprint_matches_path] of [dbload/lib/sync_timedb_job_store.py].  What
    the code asks of the machine (host name, boot id file, clock, process id,
    random nonce, [os.stat]) is an argument. *)
From S2P Require Import Prelude PyStr PosixPath.
From Stdlib Require Import Ascii String.
Local Open Scope string_scope.

Definition colon : ascii := ":"%char.
Definition bar : ascii := "|"%char.
Definition underscore : ascii := "_"%char.

Record LeaseOwner := {
  nonce : string;
  hostname : string;
  boot_id : string;
  pid : option Z;
}.

#[export] Instance LeaseOwner_eq_dec : EqDecision LeaseOwner.
Proof. solve_decision. Defined.

(** [s.replace(":", "_").replace("|", "_")]. *)
Definition sanitize (s : string) : string := py_replace bar underscore (py_replace colon underscore s).

(** [s or d] on strings. *)
Definition str_or (s d : string) : string := if decide (s = "") then d else s.

(** The first [n] characters, [text\[:n\]]. *)
Definition str_prefix (n : nat) (s : string) : string := substring 0 n s.

Fixpoint str_remove (c : ascii) (s : string) : string :=
  match s with
  | EmptyString => EmptyString
  | String d s' => if Ascii.eqb d c then str_remove c s' else String d (str_remove c s')
  end.

(** [current_boot_id] on a cold cache: [boot_file] is the content of
    [/proc/sys/kernel/random/boot_id] when it can be read, [uptime_epoch] the
    value of [int(time.time() - time.monotonic())] when that does not raise. *)
Definition current_boot_id (boot_file : option string) (uptime_epoch : option Z) : string :=
  let boot := match boot_file with
              | Some t => str_prefix 16 (str_remove "-"%char (py_strip t))
              | None => ""
              end in
  let boot := if decide (boot = "") then
                match uptime_epoch with
                | Some e => str_of_Z e
                | None => "unknown"
                end
              else boot in
  str_or (sanitize boot) "unknown".

(** [make_lease_owner_token] after its defaults are filled in. *)
Definition make_lease_owner_token (nonce host boot : string) (owner_pid : Z) : string :=
  nonce ++ ":" ++ sanitize (str_or host "unknown") ++ ":" ++
  sanitize (str_or boot "unknown") ++ ":" ++ str_of_Z owner_pid.

Definition parse_lease_owner (owner_token : string) : LeaseOwner :=
  let parts := py_split colon owner_token in
  let n := Datatypes.length parts in
  let p := if decide (2 <= n)%nat then last parts ≫= py_int else None in
  if decide (4 <= n)%nat then
    {| nonce := nth 0 parts ""; hostname := nth (n - 3) parts "";
       boot_id := nth (n - 2) parts ""; pid := p |}
  else {| nonce := nth 0 parts ""; hostname := ""; boot_id := ""; pid := p |}.

Definition parse_lease_owner_pid (owner_token : string) : option Z :=
  pid (parse_lease_owner owner_token).

Definition lease_owner_is_locally_evaluable (owner : LeaseOwner) (host boot : string) : bool :=
  if decide (hostname owner = "" \/ boot_id owner = "") then false
  else bool_decide (hostname owner = sanitize host /\ boot_id owner = sanitize boot).

Definition ingest_identity (path : string) : result string :=
  let text := py_strip path in
  if decide (text = "") then Raise ValueError else Ok (normpath text).

Definition ingest_fingerprint (size mtime_ns : Z) : string :=
  str_of_Z size ++ "|" ++ str_of_Z mtime_ns.

(** [stat] is [os.stat(path)] as [(st_size, st_mtime_ns)], [None] for its
    [OSError]. *)
Definition fingerprint_matches_path (path fingerprint : string) (stat : option (Z * Z)) : bool :=
  if decide (no_char bar fingerprint = true \/ path = "") then false
  else match stat with
       | None => false
       | Some (size, mtime_ns) => bool_decide (fingerprint = ingest_fingerprint size mtime_ns)
       end.

(** ** Lemmas *)

Lemma sanitize_no_colon s : no_char colon (sanitize s) = true.
Proof. apply py_replace_keeps_no_char; [done|]. by apply py_replace_no_char. Qed.

Lemma sanitize_no_bar s : no_char bar (sanitize s) = true.
Proof. by apply py_replace_no_char. Qed.

Lemma sanitize_idem s : sanitize (sanitize s) = sanitize s.
Proof.
  unfold sanitize at 1. rewrite (py_replace_id colon) by apply sanitize_no_colon.
  by rewrite py_replace_id by apply sanitize_no_bar.
Qed.

Lemma str_of_Z_no_colon z : no_char colon (str_of_Z z) = true.
Proof. by apply str_of_Z_no_char. Qed.

Lemma str_of_Z_no_bar z : no_char bar (str_of_Z z) = true.
Proof. by apply str_of_Z_no_char. Qed.

(** A token splits back into its four parts. *)
Lemma split_token n h b p :
  no_char colon n = true ->
  py_split colon (make_lease_owner_token n h b p) =
  [n; sanitize (str_or h "unknown"); sanitize (str_or b "unknown"); str_of_Z p].
Proof.
  intros Hn. unfold make_lease_owner_token.
  rewrite (py_split_sep colon n) by done.
  rewrite (py_split_sep colon (sanitize (str_or h _))) by apply sanitize_no_colon.
  rewrite (py_split_sep colon (sanitize (str_or b _))) by apply sanitize_no_colon.
  by rewrite py_split_no_char by apply str_of_Z_no_colon.
Qed.

(** A fingerprint splits back into its two numbers. *)
Lemma split_fingerprint size mtime :
  py_split bar (ingest_fingerprint size mtime) = [str_of_Z size; str_of_Z mtime].
Proof.
  unfold ingest_fingerprint. rewrite (py_split_sep bar) by apply str_of_Z_no_bar.
  by rewrite py_split_no_char by apply str_of_Z_no_bar.
Qed.

Lemma fingerprint_has_bar size mtime : no_char bar (ingest_fingerprint size mtime) = false.
Proof.
  unfold ingest_fingerprint, no_char. rewrite !str_all_app. simpl. by rewrite andb_false_r.
Qed.

(** ** Properties *)

(** A minted owner token parses back: the nonce, the sanitized host and boot
    id and the process id are recovered, so a claim can be traced to the
    process that holds it, whatever characters the host name has. *)
Theorem lease_owner_roundtrip n h b p :
  no_char colon n = true ->
  parse_lease_owner (make_lease_owner_token n h b p) =
  {| nonce := n; hostname := sanitize (str_or h "unknown");
     boot_id := sanitize (str_or b "unknown"); pid := Some p |}.
Proof.
  intros Hn. unfold parse_lease_owner. rewrite split_token by done. simpl.
  by rewrite py_int_str_of_Z.
Qed.

Lemma lease_owner_roundtrip_witness :
  parse_lease_owner (make_lease_owner_token "af01" "node:3|a" "b" 42) =
  {| nonce := "af01"; hostname := "node_3_a"; boot_id := "b"; pid := Some 42%Z |}.
Proof. rewrite (lease_owner_roundtrip "af01") by reflexivity. reflexivity. Defined.

(** A process judges the liveness of exactly the tokens minted on its own host
    and boot. *)
Theorem minted_token_evaluable_iff n h b p h' b' :
  no_char colon n = true -> h <> "" -> b <> "" ->
  lease_owner_is_locally_evaluable (parse_lease_owner (make_lease_owner_token n h b p)) h' b' = true
  <-> sanitize h = sanitize h' /\ sanitize b = sanitize b'.
Proof.
  intros Hn Hh Hb. unfold parse_lease_owner. rewrite split_token by done. simpl.
  unfold lease_owner_is_locally_evaluable, str_or; simpl.
  rewrite (decide_False (P := h = "")), (decide_False (P := b = "")) by done.
  assert (forall s, s <> "" -> sanitize s <> "") as Hs by (by intros []).
  rewrite decide_False by naive_solver. by rewrite bool_decide_eq_true.
Qed.

Lemma minted_token_evaluable_iff_witness :
  lease_owner_is_locally_evaluable (parse_lease_owner (make_lease_owner_token "af" "h" "b" 7)) "h" "b" = true
  /\ sanitize "h" = sanitize "h".
Proof.
  split; [|reflexivity].
  apply (minted_token_evaluable_iff "af" "h" "b" 7 "h" "b"); [reflexivity|done|done|split; reflexivity].
Defined.

(** A stored fingerprint matches a path exactly when both the size and the
    modification time are unchanged. *)
Theorem fingerprint_matches_iff path size mtime size' mtime' :
  path <> "" ->
  fingerprint_matches_path path (ingest_fingerprint size mtime) (Some (size', mtime')) = true
  <-> size = size' /\ mtime = mtime'.
Proof.
  intros Hp. unfold fingerprint_matches_path. rewrite fingerprint_has_bar.
  rewrite decide_False by naive_solver. rewrite bool_decide_eq_true.
  split; [|by intros [-> ->]]. intros E.
  apply (f_equal (py_split bar)) in E. rewrite !split_fingerprint in E.
  by simplify_eq.
Qed.

Lemma fingerprint_matches_iff_witness :
  fingerprint_matches_path "/raw/a" (ingest_fingerprint 10 20) (Some (10%Z, 20%Z)) = true.
Proof. apply (fingerprint_matches_iff "/raw/a" 10 20 10 20); [done|split; reflexivity]. Defined.

(** The ingest identity of a path is canonical: taking it again changes
    nothing, for a path without white space. *)
Theorem ingest_identity_canonical path i :
  str_all (fun c => negb (is_space c)) path = true ->
  ingest_identity path = Ok i ->
  i = normpath path /\ normpath i = i.
Proof.
  intros Hs. unfold ingest_identity. rewrite py_strip_id by done.
  case_decide; [done|]. intros [= <-]. split; [done|apply normpath_idem].
Qed.

Lemma ingest_identity_canonical_witness :
  ingest_identity "/a/../b//c/." = Ok "/b/c" /\ normpath "/b/c" = "/b/c".
Proof.
  split; [reflexivity|].
  exact (proj2 (ingest_identity_canonical "/a/../b//c/." "/b/c" eq_refl eq_refl)).
Defined.
