(* ===== verification/JobStore.v ===== *)
(** The in-process job store: state and operations.

    Models [SyncTimedbJobStore] and the functions around it of
    [dbload/lib/sync_timedb_job_store.py].  Each method is one definition on
    the record [store]; the code runs each under the store's re-entrant lock, so
    a method is one step.  A kind is the string the code passes; the maps indexed
    by kind are read with [!!!], which is the code's [.get(kind, {})].
    Dictionaries the code iterates over keep their insertion order ([dict]).
    The three [heapq] heaps are any [PriorityQueue]. *)
From S2P Require Import Prelude PyDict PriorityQueue PyStr IngestScore LeaseOwner WriteBehind.
Local Open Scope Z_scope.

Definition JOB_KIND_DISCOVER : string := "discover".
Definition JOB_KIND_INGEST : string := "ingest".
Definition JOB_KIND_APPEND : string := "append".
Definition JOB_KIND_DAY_CLOSE : string := "day_close".
Definition JOB_KINDS_LIST : list string := [JOB_KIND_DISCOVER; JOB_KIND_APPEND; JOB_KIND_DAY_CLOSE].
Definition JOB_KINDS_ALL : list string := JOB_KIND_INGEST :: JOB_KINDS_LIST.

(** One claimed job. *)
Record ClaimedJob := {
  cj_kind : string;
  cj_identity : string;
  cj_owner_token : string;
  cj_deadline : Z;
  cj_score : option Z;
  cj_fingerprint : string;
  cj_emit : string;
}.

#[export] Instance ClaimedJob_eq_dec : EqDecision ClaimedJob.
Proof. solve_decision. Defined.

(** An in-flight entry: deadline, owner token and recorded score. *)
Abbreviation inflight_entry := (Z * string * option Z)%type.
Definition entry_owner (e : inflight_entry) : string := e.1.2.

(** A payload row: string fields by name. *)
Abbreviation fields := (gmap string string).

(** [str(fields.get(name) or "")]. *)
Definition field (name : string) (f : fields) : string := str_or_empty (f !! name).

(** The persisted document ([job_store_snapshot]). *)
Record document := Document {
  doc_ingest : dict string Z;
  doc_lists : gmap string (list string);
  doc_pending : gmap string (list string);
  doc_payloads : gmap string fields;
}.

Definition empty_document : document := Document ∅ ∅ ∅ ∅.

(** The configuration getters the store reads; [None] when one raises. *)
Record config := Config {
  sync_job_queue_max_members : option Z;
  sync_ingest_queue_max_size : option Z;
  sync_ingest_per_file_timeout_max_s : option Z;
}.

Definition default_config : config := Config None None None.

Section JobStore.
Context {H : Type} `{PQ : !PriorityQueue H}.

(** ** State *)

(** The ingest queue: the score map, its lazy heaps and its counters. *)
Record ingest_queue := IngestQueue {
  ingest : dict string Z;
  heap_hot : H;
  heap_catchup : H;
  heap_catchup_max : H;
  ingest_hot_n : Z;
  ingest_catchup_n : Z;
}.

(** The incremental durable shadow that snapshots are copied from. *)
Record shadow := Shadow {
  shadow_ingest : dict string Z;
  shadow_lists : gmap string (list string);
  shadow_pending : gmap string (gset string);
  shadow_payloads : gmap (string * string) fields;
}.

Record store := Store {
  archive_dir : string;
  iq : ingest_queue;
  lists : gmap string (list string);
  pending : gmap string (gset string);
  inflight : gmap string (dict string inflight_entry);
  leases : dict (string * string) string;
  payloads : gmap (string * string) fields;
  shd : shadow;
  wr : writer;
}.

Definition with_iq q s := Store (archive_dir s) q (lists s) (pending s) (inflight s) (leases s) (payloads s) (shd s) (wr s).
Definition with_lists l s := Store (archive_dir s) (iq s) l (pending s) (inflight s) (leases s) (payloads s) (shd s) (wr s).
Definition with_pending p s := Store (archive_dir s) (iq s) (lists s) p (inflight s) (leases s) (payloads s) (shd s) (wr s).
Definition with_inflight i s := Store (archive_dir s) (iq s) (lists s) (pending s) i (leases s) (payloads s) (shd s) (wr s).
Definition with_leases l s := Store (archive_dir s) (iq s) (lists s) (pending s) (inflight s) l (payloads s) (shd s) (wr s).
Definition with_payloads p s := Store (archive_dir s) (iq s) (lists s) (pending s) (inflight s) (leases s) p (shd s) (wr s).
Definition with_shadow h s := Store (archive_dir s) (iq s) (lists s) (pending s) (inflight s) (leases s) (payloads s) h (wr s).
Definition with_writer w s := Store (archive_dir s) (iq s) (lists s) (pending s) (inflight s) (leases s) (payloads s) (shd s) w.

Definition with_ingest i q := IngestQueue i (heap_hot q) (heap_catchup q) (heap_catchup_max q) (ingest_hot_n q) (ingest_catchup_n q).
Definition with_heap_hot h q := IngestQueue (ingest q) h (heap_catchup q) (heap_catchup_max q) (ingest_hot_n q) (ingest_catchup_n q).
Definition with_heap_catchup h q := IngestQueue (ingest q) (heap_hot q) h (heap_catchup_max q) (ingest_hot_n q) (ingest_catchup_n q).
Definition with_heap_max h q := IngestQueue (ingest q) (heap_hot q) (heap_catchup q) h (ingest_hot_n q) (ingest_catchup_n q).
Definition with_counts a b q := IngestQueue (ingest q) (heap_hot q) (heap_catchup q) (heap_catchup_max q) a b.

Definition with_shadow_ingest i h := Shadow i (shadow_lists h) (shadow_pending h) (shadow_payloads h).
Definition with_shadow_lists l h := Shadow (shadow_ingest h) l (shadow_pending h) (shadow_payloads h).
Definition with_shadow_pending p h := Shadow (shadow_ingest h) (shadow_lists h) p (shadow_payloads h).
Definition with_shadow_payloads p h := Shadow (shadow_ingest h) (shadow_lists h) (shadow_pending h) p.

(** [__init__] before the reload. *)
Definition empty_queue : ingest_queue := IngestQueue ∅ pq_empty pq_empty pq_empty 0 0.

Definition per_list_kind {A} (a : A) : gmap string A :=
  list_to_map ((fun k => (k, a)) <$> JOB_KINDS_LIST).
Definition per_kind {A} (a : A) : gmap string A :=
  list_to_map ((fun k => (k, a)) <$> JOB_KINDS_ALL).

Definition empty_store (dir : string) (interval : Z) : store :=
  Store dir empty_queue (per_list_kind []) (per_list_kind ∅) (per_kind ∅) ∅ ∅
    (Shadow ∅ (per_list_kind []) (per_list_kind ∅) ∅) (new_writer interval).

(** ** The ingest queue *)

(** [_ingest_heap_for_band_locked]: any band but ["hot"] is the catchup heap. *)
Definition ingest_heap_for_band (band : string) (q : ingest_queue) : H :=
  if decide (band = "hot") then heap_hot q else heap_catchup q.

Definition set_heap_for_band (band : string) (h : H) (q : ingest_queue) : ingest_queue :=
  if decide (band = "hot") then with_heap_hot h q else with_heap_catchup h q.

(** The live catchup items, negated: what the max-heap is rebuilt from. *)
Definition catchup_items_neg (q : ingest_queue) : list qkey :=
  (fun p => (- p.2, p.1)) <$>
    filter (fun p => decode_ingest_band p.2 = "catchup") (dict_items (ingest q)).

Definition ingest_heap_push (identity : string) (score : Z) (q : ingest_queue) : ingest_queue :=
  let band := decode_ingest_band score in
  let q := set_heap_for_band band (pq_push (score, identity) (ingest_heap_for_band band q)) q in
  if decide (band = "catchup") then
    let heap := heap_catchup_max q in
    let heap :=
      if decide (2 * dict_len (ingest q) + 1024 < pq_len heap)%nat
      then pq_heapify (catchup_items_neg q) else heap in
    with_heap_max (pq_push (- score, identity) heap) q
  else q.

Definition ingest_band_inc (score : Z) (q : ingest_queue) : ingest_queue :=
  if decide (decode_ingest_band score = "hot")
  then with_counts (ingest_hot_n q + 1) (ingest_catchup_n q) q
  else with_counts (ingest_hot_n q) (ingest_catchup_n q + 1) q.

Definition ingest_band_dec (score : Z) (q : ingest_queue) : ingest_queue :=
  if decide (decode_ingest_band score = "hot")
  then with_counts (Z.max 0 (ingest_hot_n q - 1)) (ingest_catchup_n q) q
  else with_counts (ingest_hot_n q) (Z.max 0 (ingest_catchup_n q - 1)) q.

Definition rebuild_ingest_band_counts (q : ingest_queue) : ingest_queue :=
  let '(h, c) := foldl (fun hc s => if decide (decode_ingest_band s = "hot")
                                    then (hc.1 + 1, hc.2) else (hc.1, hc.2 + 1))
                       (0, 0) (dict_values (ingest q)) in
  with_counts h c q.

Definition ingest_rebuild_heaps (q : ingest_queue) : ingest_queue :=
  foldl (fun q p => ingest_heap_push p.1 p.2 q)
    (IngestQueue (ingest q) pq_empty pq_empty pq_empty (ingest_hot_n q) (ingest_catchup_n q))
    (dict_items (ingest q)).

(** ** The durable shadow and the payloads *)

Definition identity_is_queued (kind identity : string) (s : store) : bool :=
  if decide (kind = JOB_KIND_INGEST) then bool_decide (is_Some (ingest (iq s) !! identity))
  else match pending s !! kind with
       | Some p => bool_decide (identity ∈ p)
       | None => false
       end.

Definition shadow_sync_payload (kind identity : string) (s : store) : store :=
  let key := (kind, identity) in
  with_shadow (with_shadow_payloads
    (match payloads s !! key with
     | Some f => if identity_is_queued kind identity s
                 then <[key := f]> (shadow_payloads (shd s))
                 else delete key (shadow_payloads (shd s))
     | None => delete key (shadow_payloads (shd s))
     end) (shd s)) s.

(** [_queued_identities_locked]. *)
Definition queued_identities (s : store) : gset (string * string) :=
  list_to_set ((fun i => (JOB_KIND_INGEST, i)) <$> dict_keys (ingest (iq s))) ∪
  ⋃ ((fun k => list_to_set ((fun i => (k, i)) <$> lists s !!! k)) <$> JOB_KINDS_LIST).

(** [_inflight_identities_locked]. *)
Definition inflight_identities (s : store) : gset (string * string) :=
  ⋃ ((fun k => list_to_set ((fun i => (k, i)) <$> dict_keys (inflight s !!! k))) <$> JOB_KINDS_ALL).

Definition prune_orphan_payloads (active : gset (string * string)) (s : store) : store :=
  with_payloads (filter (fun kf => kf.1 ∈ active) (payloads s)) s.

Definition prune_shadow_payloads (queued : gset (string * string)) (s : store) : store :=
  with_shadow (with_shadow_payloads
    (filter (fun kf => kf.1 ∈ queued) (shadow_payloads (shd s))) (shd s)) s.

Definition rebuild_shadow (s : store) : store :=
  with_shadow (Shadow (ingest (iq s)) (lists s) (pending s)
    (filter (fun kf => kf.1 ∈ queued_identities s) (payloads s))) s.

Definition mark_dirty_locked (s : store) : store := with_writer (mark_dirty (wr s)) s.

(** The queue half of [_ingest_set_locked]. *)
Definition queue_set (identity : string) (score : Z) (q : ingest_queue) : ingest_queue :=
  let q := match ingest q !! identity with
           | Some old => ingest_band_dec old q
           | None => q
           end in
  let q := with_ingest (<[identity := score]> (ingest q)) q in
  let q := ingest_band_inc score q in
  ingest_heap_push identity score q.

Definition ingest_set (identity : string) (score : Z) (s : store) : store :=
  let s := with_iq (queue_set identity score (iq s)) s in
  let s := with_shadow (with_shadow_ingest (<[identity := score]> (shadow_ingest (shd s))) (shd s)) s in
  shadow_sync_payload JOB_KIND_INGEST identity s.

Definition ingest_pop (identity : string) (s : store) : option Z * store :=
  let q := iq s in
  match ingest q !! identity with
  | None => (None, s)
  | Some old =>
      let q := ingest_band_dec old (with_ingest (delete identity (ingest q)) q) in
      let h := with_shadow_ingest (delete identity (shadow_ingest (shd s))) (shd s) in
      let h := with_shadow_payloads (delete (JOB_KIND_INGEST, identity) (shadow_payloads h)) h in
      (Some old, with_shadow h (with_iq q s))
  end.

(** ** Snapshot and reload *)

(** The payload key [f"{kind}|{ident}"] and its first-bar split. *)
Definition payload_key (k : string * string) : string := k.1 +:+ "|" +:+ k.2.

Fixpoint split_bar (s : string) : option (string * string) :=
  match s with
  | EmptyString => None
  | String c s' =>
      if Ascii.eqb c bar then Some (EmptyString, s')
      else match split_bar s' with
           | Some (a, b) => Some (String c a, b)
           | None => None
           end
  end.

(** JSON is written with sorted keys. *)
Definition sort_by_key (d : dict string Z) : dict string Z :=
  Dict (merge_sort (fun a b => String.le a.1 b.1) (dict_items d)).

(** [_persist_write]: prune, copy the shadow, and hand the document to the
    sidecar writer.  [None] when no directory is set. *)
Definition persist_write (s : store) : option document * store :=
  if decide (archive_dir s = EmptyString) then (None, s)
  else
    let queued := queued_identities s in
    let live := queued ∪ inflight_identities s in
    let s := prune_orphan_payloads live s in
    let s := prune_shadow_payloads queued s in
    let h := shd s in
    (Some (Document (sort_by_key (shadow_ingest h)) (shadow_lists h)
             ((fun p => merge_sort String.le (elements p)) <$> shadow_pending h)
             (list_to_map ((fun kf => (payload_key kf.1, kf.2)) <$> map_to_list (shadow_payloads h)))),
     s).

(** [load]: replace the durable queues by the document's. A missing or rejected
    sidecar reads as [empty_document]. *)
Definition load (doc : document) (s : store) : store :=
  if decide (archive_dir s = EmptyString) then s
  else
    let lists_built := list_to_map ((fun k => (k, doc_lists doc !!! k)) <$> JOB_KINDS_LIST) in
    let pending_built :=
      list_to_map ((fun k => (k, list_to_set (doc_pending doc !!! k))) <$> JOB_KINDS_LIST) in
    let payloads_built :=
      list_to_map (omap (fun kf => (fun k => (k, kf.2)) <$> split_bar kf.1)
                        (map_to_list (doc_payloads doc))) in
    let q := ingest_rebuild_heaps (with_ingest (doc_ingest doc) (iq s)) in
    let s := with_iq q s in
    let s := with_payloads payloads_built (with_pending pending_built (with_lists lists_built s)) in
    let s := with_leases ∅ (with_inflight (per_kind ∅) s) in
    let s := prune_orphan_payloads (queued_identities s) s in
    let s := rebuild_shadow s in
    let s := with_iq (rebuild_ingest_band_counts (iq s)) s in
    with_writer (clear_dirty (wr s)) s.

(** [__init__]. *)
Definition open_store (dir : string) (interval now : Z) (doc : document) : store :=
  let s := empty_store dir interval in
  if decide (dir = EmptyString) then s
  else let s := load doc s in with_writer (start now (wr s)) s.

(** ** Queue operations *)

(** [_has_capacity_locked]. *)
Definition has_capacity (kind : string) (cap : Z) (s : store) : bool :=
  if decide (kind = JOB_KIND_INGEST) then Z.of_nat (dict_len (ingest (iq s))) <? cap
  else Z.of_nat (length (lists s !!! kind)) <? cap.

(** [_payloads.setdefault(key, {})\[name\] = value]. *)
Definition payload_put (key : string * string) (name value : string) (s : store) : store :=
  with_payloads (<[key := <[name := value]> (payloads s !!! key)]> (payloads s)) s.

Definition zadd_ingest (cfg : config) (identity : string) (score : Z)
    (fingerprint : option string) (over_cap : bool) (s : store) : Z * store :=
  let cap := discover_ingest_capacity_limit (sync_job_queue_max_members cfg)
               (sync_ingest_queue_max_size cfg) in
  if decide (is_Some ((inflight s !!! JOB_KIND_INGEST) !! identity)) then (0, s)
  else
    let existed := bool_decide (is_Some (ingest (iq s) !! identity)) in
    if negb existed && negb over_cap && negb (has_capacity JOB_KIND_INGEST cap s)
       && bool_decide (decode_ingest_band score <> "hot")
    then (0, s)
    else
      let s := ingest_set identity score s in
      let s := match fingerprint with
               | Some fp =>
                   if decide (fp = EmptyString) then s
                   else shadow_sync_payload JOB_KIND_INGEST identity
                          (payload_put (JOB_KIND_INGEST, identity) "fingerprint" fp s)
               | None => s
               end in
      (if existed then 0 else 1, mark_dirty_locked s).

(** The [while heap] loop of [evict_youngest_catchup_ingest]. *)
Fixpoint evict_loop (fuel : nat) (older_day : Z) (s : store) : option (option string * store) :=
  match fuel with
  | O => None
  | S fuel =>
      match pq_pop (heap_catchup_max (iq s)) with
      | None => Some (None, s)
      | Some ((neg_score, ident), heap') =>
          if decide (ingest (iq s) !! ident = Some (- neg_score)) then
            match decode_catchup_calendar_day (- neg_score) with
            | None => Some (None, s)
            | Some day =>
                if day <=? older_day then Some (None, s)
                else
                  let s := with_iq (with_heap_max heap' (iq s)) s in
                  let s := (ingest_pop ident s).2 in
                  let s := with_payloads (delete (JOB_KIND_INGEST, ident) (payloads s)) s in
                  Some (Some ident, mark_dirty_locked s)
            end
          else evict_loop fuel older_day (with_iq (with_heap_max heap' (iq s)) s)
      end
  end.

Definition evict_youngest_catchup_ingest (older_day : Z) (s : store) : option (option string * store) :=
  evict_loop (S (pq_len (heap_catchup_max (iq s)))) older_day s.

(** Appends to a LIST queue, its dedupe set and their shadows. *)
Definition list_push (kind identity : string) (s : store) : store :=
  let s := with_lists (<[kind := lists s !!! kind ++ [identity]]> (lists s)) s in
  let s := with_pending (<[kind := {[identity]} ∪ pending s !!! kind]> (pending s)) s in
  let h := with_shadow_lists
             (<[kind := shadow_lists (shd s) !!! kind ++ [identity]]> (shadow_lists (shd s))) (shd s) in
  let h := with_shadow_pending
             (<[kind := {[identity]} ∪ shadow_pending h !!! kind]> (shadow_pending h)) h in
  shadow_sync_payload kind identity (with_shadow h s).

Definition enqueue_list (cfg : config) (kind identity : string) (dedupe : bool) (s : store)
    : result (Z * store) :=
  if decide (kind ∈ JOB_KINDS_LIST) then
    let cap := queue_capacity_limit (sync_job_queue_max_members cfg) in
    if dedupe && bool_decide (identity ∈ pending s !!! kind \/
                              is_Some ((inflight s !!! kind) !! identity))
    then Ok (0, s)
    else if negb (has_capacity kind cap s) then Ok (0, s)
    else
      let s := mark_dirty_locked (list_push kind identity s) in
      Ok (Z.of_nat (length (lists s !!! kind)), s)
  else Raise ValueError.

(** Records a claim: in-flight entry and lease. *)
Definition record_claim (kind identity owner_token : string) (deadline : Z) (score : option Z)
    (s : store) : store :=
  let s := with_inflight
             (<[kind := <[identity := (deadline, owner_token, score)]> (inflight s !!! kind)]> (inflight s)) s in
  with_leases (<[(kind, identity) := owner_token]> (leases s)) s.

(** Forgets a claim. *)
Definition drop_claim (kind identity : string) (s : store) : store :=
  let s := with_inflight (<[kind := delete identity (inflight s !!! kind)]> (inflight s)) s in
  with_leases (delete (kind, identity) (leases s)) s.

(** The claim loop of [claim_ingest]: [None] when the fuel runs out. *)
Fixpoint claim_loop (fuel : nat) (band : string) (range : bound * bound) (owner_token : string)
    (deadline : Z) (want : nat) (s : store) : option (list ClaimedJob * store) :=
  match want, fuel with
  | O, _ => Some ([], s)
  | S _, O => None
  | S want', S fuel =>
      match pq_pop (ingest_heap_for_band band (iq s)) with
      | None => Some ([], s)
      | Some ((snap_score, ident), heap') =>
          let s := with_iq (set_heap_for_band band heap' (iq s)) s in
          let again := claim_loop fuel band range owner_token deadline want in
          if decide (is_Some ((inflight s !!! JOB_KIND_INGEST) !! ident)) then again s
          else match ingest (iq s) !! ident with
          | None => again s
          | Some live =>
              if decide (live <> snap_score) then
                again (with_iq (ingest_heap_push ident live (iq s)) s)
              else if negb (in_range range live) then
                again (with_iq (ingest_heap_push ident live (iq s)) s)
              else
                let s := (ingest_pop ident s).2 in
                let s := record_claim JOB_KIND_INGEST ident owner_token deadline (Some live) s in
                let f := payloads s !!! (JOB_KIND_INGEST, ident) in
                let job := {| cj_kind := JOB_KIND_INGEST; cj_identity := ident;
                              cj_owner_token := owner_token; cj_deadline := deadline;
                              cj_score := Some live; cj_fingerprint := field "fingerprint" f;
                              cj_emit := field "emit" f |} in
                match claim_loop fuel band range owner_token deadline want' s with
                | Some (jobs, s) => Some (job :: jobs, s)
                | None => None
                end
          end
      end
  end.

(** Fuel: twice the items of the heap claimed from, and one. *)
Definition claim_fuel (band : string) (s : store) : nat :=
  S (2 * pq_len (ingest_heap_for_band band (iq s)))%nat.

Definition claim_ingest_with (fuel : nat) (cfg : config) (band owner_token : string)
    (ttl_s : option Z) (now : Z) (max_n : Z) (s : store) : option (result (list ClaimedJob * store)) :=
  if decide (owner_token = EmptyString) then Some (Raise ValueError)
  else if max_n <? 1 then Some (Raise ValueError)
  else match ingest_score_range band with
  | Raise e => Some (Raise e)
  | Ok range =>
      let ttl := default (job_lease_ttl_seconds (sync_ingest_per_file_timeout_max_s cfg)) ttl_s in
      let deadline := now + ttl in
      match claim_loop fuel band range owner_token deadline (Z.to_nat max_n) s with
      | None => None
      | Some (jobs, s) => Some (Ok (jobs, if decide (jobs = []) then s else mark_dirty_locked s))
      end
  end.

Definition claim_ingest (cfg : config) (band owner_token : string) (ttl_s : option Z) (now : Z)
    (max_n : Z) (s : store) : option (result (list ClaimedJob * store)) :=
  claim_ingest_with (claim_fuel band s) cfg band owner_token ttl_s now max_n s.

(** [list.remove]: the first occurrence. *)
Fixpoint remove_first (x : string) (l : list string) : list string :=
  match l with
  | [] => []
  | y :: l' => if decide (x = y) then l' else y :: remove_first x l'
  end.

Definition shadow_list_drop (ident : string) (l : list string) : list string :=
  if decide (head l = Some ident) then tail l
  else if decide (ident ∈ l) then remove_first ident l
  else l.

(** [popleft] with every mirror of the popped identity. *)
Definition list_pop (kind ident : string) (rest : list string) (s : store) : store :=
  let s := with_lists (<[kind := rest]> (lists s)) s in
  let s := with_pending (<[kind := pending s !!! kind ∖ {[ident]}]> (pending s)) s in
  let h := shd s in
  let h := with_shadow_lists
             (<[kind := shadow_list_drop ident (shadow_lists h !!! kind)]> (shadow_lists h)) h in
  let h := with_shadow_pending
             (<[kind := shadow_pending h !!! kind ∖ {[ident]}]> (shadow_pending h)) h in
  let h := with_shadow_payloads (delete (kind, ident) (shadow_payloads h)) h in
  with_shadow h s.

(** The [while self._lists\[kind\]] loop, on the queue it consumes. *)
Fixpoint claim_list_loop (queue : list string) (kind owner_token : string) (deadline : Z)
    (s : store) : option ClaimedJob * store :=
  match queue with
  | [] => (None, s)
  | ident :: rest =>
      let s := list_pop kind ident rest s in
      if decide (is_Some ((inflight s !!! kind) !! ident))
      then claim_list_loop rest kind owner_token deadline s
      else
        let s := mark_dirty_locked (record_claim kind ident owner_token deadline None s) in
        (Some {| cj_kind := kind; cj_identity := ident; cj_owner_token := owner_token;
                 cj_deadline := deadline; cj_score := None; cj_fingerprint := EmptyString;
                 cj_emit := EmptyString |}, s)
  end.

Definition claim_list (cfg : config) (kind owner_token : string) (ttl_s : option Z) (now : Z)
    (s : store) : result (option ClaimedJob * store) :=
  if decide (kind ∈ JOB_KINDS_LIST) then
    if decide (owner_token = EmptyString) then Raise ValueError
    else
      let ttl := default (job_lease_ttl_seconds (sync_ingest_per_file_timeout_max_s cfg)) ttl_s in
      Ok (claim_list_loop (lists s !!! kind) kind owner_token (now + ttl) s)
  else Raise ValueError.

(** The caller still owns the claim. *)
Definition owns (kind identity owner_token : string) (s : store) : bool :=
  bool_decide (owner_token <> EmptyString) &&
  match (inflight s !!! kind) !! identity with
  | Some e => bool_decide (entry_owner e = owner_token)
  | None => false
  end.

Definition ack (kind identity owner_token : string) (s : store) : bool * store :=
  if owns kind identity owner_token s then
    let s := drop_claim kind identity s in
    let s := with_payloads (delete (kind, identity) (payloads s)) s in
    let s := match pending s !! kind with
             | Some p => with_pending (<[kind := p ∖ {[identity]}]> (pending s)) s
             | None => s
             end in
    (true, s)
  else (false, s).

(** A recovered identity goes back to its queue: the ingest map with [score], or
    the tail of its list. *)
Definition put_back (kind identity : string) (score : Z) (s : store) : store :=
  if decide (kind = JOB_KIND_INGEST) then ingest_set identity score s
  else list_push kind identity s.

Definition requeue (kind identity owner_token : string) (score : option Z) (s : store) : bool * store :=
  if owns kind identity owner_token s then
    let s := drop_claim kind identity s in
    let s := put_back kind identity (default CATCHUP_SCORE_BASE score) s in
    let s := if decide (kind = JOB_KIND_INGEST) then shadow_sync_payload kind identity s else s in
    (true, mark_dirty_locked s)
  else (false, s).

Definition renew_job_lease (cfg : config) (kind identity owner_token : string) (ttl_s : option Z)
    (now : Z) (s : store) : bool * store :=
  if owns kind identity owner_token s then
    match (inflight s !!! kind) !! identity with
    | Some (_, owner, score) =>
        let ttl := default (job_lease_ttl_seconds (sync_ingest_per_file_timeout_max_s cfg)) ttl_s in
        let s := with_inflight
          (<[kind := <[identity := (now + ttl, owner, score)]> (inflight s !!! kind)]> (inflight s)) s in
        (true, with_leases (<[(kind, identity) := owner_token]> (leases s)) s)
    | None => (false, s)
    end
  else (false, s).

Definition extend_inflight_deadline (kind identity : string) (extend_s now : Z) (s : store) : bool * store :=
  match (inflight s !!! kind) !! identity with
  | None => (false, s)
  | Some (_, owner, score) =>
      (true, with_inflight
        (<[kind := <[identity := (now + extend_s, owner, score)]> (inflight s !!! kind)]> (inflight s)) s)
  end.

(** ** Recovery of claims *)

(** The loop of [reap_expired_inflight] over the copied items. *)
Fixpoint reap_loop (items : list (string * inflight_entry)) (want : nat) (kind : string)
    (cutoff : Z) (s : store) : list string * store :=
  match items, want with
  | [], _ | _, O => ([], s)
  | (ident, (deadline, _, score)) :: items', S want' =>
      if cutoff <? deadline then reap_loop items' want kind cutoff s
      else
        let s := drop_claim kind ident s in
        let s := put_back kind ident (penalize_ingest_score score) s in
        let s := mark_dirty_locked s in
        let '(out, s) := reap_loop items' want' kind cutoff s in
        (ident :: out, s)
  end.

Definition reap_expired_inflight (kind : string) (now limit : Z) (s : store) : list string * store :=
  let cutoff := now - INFLIGHT_REAP_GRACE_FLOOR_S in
  reap_loop (dict_items (inflight s !!! kind)) (Z.to_nat (Z.max 1 limit)) kind cutoff s.

(** [pid_alive] and the local host and boot are the process's view of the
    machine. *)
Definition owner_is_dead (pid_alive : Z -> bool) (host boot : string) (owner_token : string) : bool :=
  let owner := parse_lease_owner owner_token in
  match pid owner with
  | None => false
  | Some p => lease_owner_is_locally_evaluable owner host boot && negb (pid_alive p)
  end.

Fixpoint steal_loop (items : list (string * string * string)) (pid_alive : Z -> bool)
    (host boot : string) (s : store) : Z * store :=
  match items with
  | [] => (0, s)
  | ((kind, ident), owner_token) :: items' =>
      if owner_is_dead pid_alive host boot owner_token then
        let '(ok, s) := requeue kind ident owner_token None s in
        let '(n, s) := steal_loop items' pid_alive host boot s in
        ((if ok : bool then n + 1 else n), s)
      else steal_loop items' pid_alive host boot s
  end.

Definition steal_dead_owner_leases (pid_alive : Z -> bool) (host boot : string) (s : store) : Z * store :=
  steal_loop (dict_items (leases s)) pid_alive host boot s.

Definition steal_job_lease_if_owner_dead (kind identity : string) (pid_alive : Z -> bool)
    (host boot : string) (s : store) : bool * store :=
  match leases s !! (kind, identity) with
  | None => (false, s)
  | Some owner_token =>
      if decide (owner_token = EmptyString) then (false, s)
      else if negb (owner_is_dead pid_alive host boot owner_token) then (false, s)
      else
        let '(ok, s) := requeue kind identity owner_token None s in
        if ok : bool then (true, s)
        else if decide (leases s !! (kind, identity) = Some owner_token)
        then (true, with_leases (delete (kind, identity) (leases s)) s)
        else (false, s)
  end.

Fixpoint reconcile_loop (items : list (string * inflight_entry)) (kind : string)
    (known : gset string) (owner_token : string) (s : store) : Z * store :=
  match items with
  | [] => (0, s)
  | (ident, (_, owner, score)) :: items' =>
      if decide (ident ∈ known \/ owner <> owner_token)
      then reconcile_loop items' kind known owner_token s
      else
        let '(ok, s) := requeue kind ident owner score s in
        let '(n, s) := reconcile_loop items' kind known owner_token s in
        ((if ok : bool then n + 1 else n), s)
  end.

Definition reconcile_this_owner_orphan_leases (kind : string) (local_identities : list string)
    (owner_token : string) (s : store) : Z * store :=
  reconcile_loop (dict_items (inflight s !!! kind)) kind (list_to_set local_identities) owner_token s.

(** ** The function interface

    The module functions other components call. *)

Definition zadd_ingest_job (cfg : config) (s : store) (identity : string) (score : Z)
    (fingerprint : option string) (over_cap : bool) : Z * store :=
  zadd_ingest cfg identity score fingerprint over_cap s.

Definition enqueue_list_job (cfg : config) (s : store) (kind identity : string) (dedupe : bool)
    : result (Z * store) :=
  enqueue_list cfg kind identity dedupe s.

(** [jobs\[0\] if jobs else None]. *)
Definition claim_ingest_job (cfg : config) (s : store) (band owner_token : string)
    (ttl_s : option Z) (now : Z) : option (result (option ClaimedJob * store)) :=
  (fun r => '(jobs, s) ← r; Ok (head jobs, s)) <$> claim_ingest cfg band owner_token ttl_s now 1 s.

Definition claim_ingest_jobs (cfg : config) (s : store) (band owner_token : string) (max_n : Z)
    (ttl_s : option Z) (now : Z) : option (result (list ClaimedJob * store)) :=
  claim_ingest cfg band owner_token ttl_s now max_n s.

Definition claim_list_job (cfg : config) (s : store) (kind owner_token : string)
    (ttl_s : option Z) (now : Z) : result (option ClaimedJob * store) :=
  claim_list cfg kind owner_token ttl_s now s.

Definition ack_job (s : store) (kind identity owner_token : string) : bool * store :=
  ack kind identity owner_token s.

Definition requeue_job (s : store) (kind identity owner_token : string) (score : option Z) : bool * store :=
  requeue kind identity owner_token score s.

(** ** Payload fields *)

Definition write_job_fingerprint (kind identity fingerprint : string) (s : store) : store :=
  if decide (fingerprint = EmptyString) then s
  else
    let s := payload_put (kind, identity) "fingerprint" fingerprint s in
    if identity_is_queued kind identity s
    then mark_dirty_locked (shadow_sync_payload kind identity s) else s.

Definition write_job_payload_field (kind identity name value : string) (s : store) : store :=
  let s := payload_put (kind, identity) name value s in
  let s := if identity_is_queued kind identity s then shadow_sync_payload kind identity s else s in
  mark_dirty_locked s.

Definition read_job_payload_field (kind identity name : string) (s : store) : string :=
  field name (payloads s !!! (kind, identity)).

Definition read_job_fingerprint (kind identity : string) (s : store) : string :=
  read_job_payload_field kind identity "fingerprint" s.

(** [int(fields.get("attempt") or 0)], [None] when [int] raises. *)
Definition attempt_of (f : fields) : option Z :=
  match f !! "attempt" with
  | Some t => if decide (t = EmptyString) then Some 0 else py_int t
  | None => Some 0
  end.

Definition bump_job_attempt (kind identity : string) (s : store) : result Z * store :=
  let s := with_payloads (<[(kind, identity) := payloads s !!! (kind, identity)]> (payloads s)) s in
  match attempt_of (payloads s !!! (kind, identity)) with
  | None => (Raise ValueError, s)
  | Some a =>
      let nxt := a + 1 in
      let s := payload_put (kind, identity) "attempt" (str_of_Z nxt) s in
      (Ok nxt, if identity_is_queued kind identity s
               then mark_dirty_locked (shadow_sync_payload kind identity s) else s)
  end.

Definition read_job_attempt (kind identity : string) (s : store) : Z :=
  default 0 (attempt_of (payloads s !!! (kind, identity))).

(** ** Reading the store *)

(** A stable sort by score ([sorted(items, key=...)]). *)
Fixpoint insert_by_score (p : string * Z) (l : list (string * Z)) : list (string * Z) :=
  match l with
  | [] => [p]
  | q :: l' => if p.2 <=? q.2 then p :: q :: l' else q :: insert_by_score p l'
  end.

Definition sort_by_score (l : list (string * Z)) : list (string * Z) := foldr insert_by_score [] l.

Definition ingest_identities (s : store) : list string := (sort_by_score (dict_items (ingest (iq s)))).*1.

Definition inflight_count (kind : string) (s : store) : Z := Z.of_nat (dict_len (inflight s !!! kind)).

Definition snapshot_is_empty (s : store) : bool :=
  if decide (dict_items (ingest (iq s)) <> []) then false
  else forallb (fun kl => match kl.2 with [] => true | _ => false end) (map_to_list (lists s)).

Definition queued_count (kind : string) (s : store) : Z :=
  if decide (kind = JOB_KIND_INGEST) then Z.of_nat (dict_len (ingest (iq s)))
  else match lists s !! kind with
       | Some l => Z.of_nat (length l)
       | None => 0
       end.

Definition ingest_count_in_score_range (py_float : string -> result bound) (lo hi : bound_arg)
    (s : store) : result Z :=
  low ← bound_to_float py_float lo NegInf;
  high ← bound_to_float py_float hi PosInf;
  hot ← ingest_score_range "hot";
  catchup ← ingest_score_range "catchup";
  if decide (low = hot.1 /\ high = hot.2) then Ok (ingest_hot_n (iq s))
  else if decide (low = catchup.1 /\ high = catchup.2) then Ok (ingest_catchup_n (iq s))
  else Ok (Z.of_nat (length (filter (fun v => in_range (low, high) v = true) (dict_values (ingest (iq s)))))).

Definition ingest_score (identity : string) (s : store) : option Z := ingest (iq s) !! identity.

Definition lease_token (kind identity : string) (s : store) : option string := leases s !! (kind, identity).

Definition inflight_contains (kind identity : string) (s : store) : bool :=
  bool_decide (is_Some ((inflight s !!! kind) !! identity)).

Definition read_inflight_entry (kind identity : string) (s : store) : option inflight_entry :=
  (inflight s !!! kind) !! identity.

Definition read_inflight_entries (kind : string) (s : store) : dict string inflight_entry :=
  inflight s !!! kind.

Definition list_slice (kind : string) (start end_ : Z) (s : store) : list string :=
  let dq := lists s !!! kind in
  if decide (dq = []) then []
  else
    let n := Z.of_nat (length dq) in
    let end_i := if end_ =? -1 then n - 1 else end_ in
    let start_i := if start <? 0 then Z.max 0 (n + start) else start in
    let end_i := if end_i <? 0 then Z.max (-1) (n + end_i) else end_i in
    if (end_i <? start_i) || (n <=? start_i) then []
    else take (Z.to_nat (end_i + 1 - start_i)) (drop (Z.to_nat start_i) dq).

Definition reorder_list (kind : string) (ordered_idents : list string) (s : store) : bool * store :=
  match lists s !! kind with
  | None => (false, s)
  | Some current =>
      if negb (length current =? length ordered_idents)%nat then (false, s)
      else if decide (merge_sort String.le current <> merge_sort String.le ordered_idents) then (false, s)
      else if decide (current = ordered_idents) then (false, s)
      else
        let s := with_lists (<[kind := ordered_idents]> (lists s)) s in
        let s := with_shadow (with_shadow_lists
                   (<[kind := ordered_idents]> (shadow_lists (shd s))) (shd s)) s in
        (true, mark_dirty_locked s)
  end.

Definition queue_depth (kind : string) (s : store) : Z := queued_count kind s.

Definition queue_has_capacity (cfg : config) (kind : string) (limit : option Z) (s : store) : bool :=
  let cap := default (queue_capacity_limit (sync_job_queue_max_members cfg)) limit in
  queue_depth kind s <? cap.

Definition ingest_queue_census (py_float : string -> result bound) (s : store) : result (Z * Z * Z) :=
  hot ← ingest_score_range "hot";
  catchup ← ingest_score_range "catchup";
  h ← ingest_count_in_score_range py_float (BNum hot.1) (BNum hot.2) s;
  c ← ingest_count_in_score_range py_float (BNum catchup.1) (BNum catchup.2) s;
  Ok (h, c, queued_count JOB_KIND_INGEST s).

(** [kind -> (queued, inflight)] in the order of [JOB_KINDS_ALL]. *)
Definition queue_census (s : store) : list (string * (Z * Z)) :=
  (fun k => (k, (queue_depth k s, inflight_count k s))) <$> JOB_KINDS_ALL.

Definition count_inflight_by_band (s : store) : Z * Z :=
  foldl (fun hc e => if match e.2 with
                        | None => true
                        | Some sc => bool_decide (decode_ingest_band sc = "hot")
                        end
                     then (hc.1 + 1, hc.2) else (hc.1, hc.2 + 1))
    (0, 0) (dict_values (read_inflight_entries JOB_KIND_INGEST s)).
End JobStore.

Arguments ingest_queue : clear implicits.
Arguments store : clear implicits.

(** [format_queue_census]: kinds absent from the census are skipped. *)
Definition format_queue_census (census : gmap string (Z * Z)) : string :=
  py_join " " (omap (fun k => (fun e => k +:+ "=" +:+ str_of_Z e.2 +:+ "/" +:+ str_of_Z e.1) <$> census !! k)
    JOB_KINDS_ALL).
