(* ===== verification/JobStoreInv.v ===== *)
(** The representation invariant of the job store, and its preservation by the
    primitive state changes every operation is made of.

    [iq_wf]: the lazy heaps cover the score map, hold only their own band, and
    the O(1) counters count.  [store_wf]: the LIST queues hold no duplicate and
    agree with their dedupe sets, queued and in-flight identities are disjoint,
    a lease exists exactly for a claim and names its owner, and the durable
    shadow mirrors the live queues and their payload rows. *)
From S2P Require Import Prelude PyDict PriorityQueue PyStr IngestScore LeaseOwner WriteBehind JobStore.
Local Open Scope Z_scope.

Section inv.
Context {H : Type} `{PQ : !PriorityQueue H}.
Implicit Types (q : ingest_queue H) (s : store H).

(** ** The ingest queue *)

(** The entries the heaps owe one live score. *)
Definition covered q (i : string) (sc : Z) : Prop :=
  (sc, i) ∈ pq_items (ingest_heap_for_band (decode_ingest_band sc) q) /\
  (decode_ingest_band sc = "catchup" -> (- sc, i) ∈ pq_items (heap_catchup_max q)).

Definition heaps_cover q : Prop := forall i sc, ingest q !! i = Some sc -> covered q i sc.

(** Each heap holds scores of its own band. *)
Definition heaps_sep q : Prop :=
  (forall k, k ∈ pq_items (heap_hot q) -> decode_ingest_band k.1 = "hot") /\
  (forall k, k ∈ pq_items (heap_catchup q) -> decode_ingest_band k.1 = "catchup") /\
  (forall k, k ∈ pq_items (heap_catchup_max q) -> decode_ingest_band (- k.1) = "catchup").

Definition count_band (b : string) (d : dict string Z) : Z :=
  Z.of_nat (length (filter (fun p => decode_ingest_band p.2 = b) (dict_items d))).

Definition counts_ok q : Prop :=
  ingest_hot_n q = count_band "hot" (ingest q) /\
  ingest_catchup_n q = count_band "catchup" (ingest q).

Record iq_wf q : Prop := {
  iqw_dict : dict_wf (ingest q);
  iqw_cover : heaps_cover q;
  iqw_sep : heaps_sep q;
  iqw_counts : counts_ok q;
}.

Lemma band_hot_or_catchup sc : decode_ingest_band sc = "hot" \/ decode_ingest_band sc = "catchup".
Proof. destruct (band_cases sc) as [[_ ->]|[_ ->]]; auto. Qed.

Lemma ingest_push i sc q : ingest (ingest_heap_push i sc q) = ingest q.
Proof. unfold ingest_heap_push, set_heap_for_band. by repeat case_decide. Qed.

Lemma counts_push i sc q :
  ingest_hot_n (ingest_heap_push i sc q) = ingest_hot_n q /\
  ingest_catchup_n (ingest_heap_push i sc q) = ingest_catchup_n q.
Proof. unfold ingest_heap_push, set_heap_for_band. by repeat case_decide. Qed.

Lemma counts_ok_push i sc q : counts_ok q -> counts_ok (ingest_heap_push i sc q).
Proof. unfold counts_ok. rewrite ingest_push. by destruct (counts_push i sc q) as [-> ->]. Qed.

(** What a push adds to a band heap. *)
Lemma push_main i sc q b k :
  b = "hot" \/ b = "catchup" ->
  k ∈ pq_items (ingest_heap_for_band b (ingest_heap_push i sc q)) <->
  (k = (sc, i) /\ decode_ingest_band sc = b) \/ k ∈ pq_items (ingest_heap_for_band b q).
Proof.
  intros Hb. unfold ingest_heap_push, set_heap_for_band, ingest_heap_for_band.
  destruct (band_hot_or_catchup sc) as [->| ->]; destruct Hb as [->| ->]; simpl;
    rewrite ?pq_elem_push; naive_solver.
Qed.

(** The max-heap after a push: the pushed item, and every live item it held. *)
Lemma push_max_new i sc q :
  decode_ingest_band sc = "catchup" ->
  (- sc, i) ∈ pq_items (heap_catchup_max (ingest_heap_push i sc q)).
Proof. intros Hb. unfold ingest_heap_push. rewrite Hb. simpl. apply pq_elem_push. by left. Qed.

Lemma elem_catchup_items_neg q i sc :
  ingest q !! i = Some sc -> decode_ingest_band sc = "catchup" -> (- sc, i) ∈ catchup_items_neg q.
Proof.
  intros Hl Hb. unfold catchup_items_neg. apply list_elem_of_fmap. exists (i, sc).
  split; [done|]. apply list_elem_of_filter. split; [done|]. by apply dict_lookup_elem.
Qed.

Lemma push_max_old i sc q j t :
  ingest q !! j = Some t -> decode_ingest_band t = "catchup" ->
  (- t, j) ∈ pq_items (heap_catchup_max q) ->
  (- t, j) ∈ pq_items (heap_catchup_max (ingest_heap_push i sc q)).
Proof.
  intros Hl Hb Hin. unfold ingest_heap_push, set_heap_for_band.
  destruct (band_hot_or_catchup sc) as [->| ->]; simpl; [done|].
  apply pq_elem_push. right. case_decide; simpl; [|done].
  apply pq_elem_heapify. by apply elem_catchup_items_neg.
Qed.

Lemma push_max_sep i sc q k :
  k ∈ pq_items (heap_catchup_max (ingest_heap_push i sc q)) ->
  (forall k, k ∈ pq_items (heap_catchup_max q) -> decode_ingest_band (- k.1) = "catchup") ->
  decode_ingest_band (- k.1) = "catchup".
Proof.
  unfold ingest_heap_push, set_heap_for_band. intros Hin Hold.
  destruct (band_hot_or_catchup sc) as [E|E]; rewrite E in Hin; simpl in Hin; [by apply Hold|].
  apply pq_elem_push in Hin as [->|Hin]; simpl; [by rewrite Z.opp_involutive|].
  case_decide; [|by apply Hold]. rewrite pq_elem_heapify in Hin.
  unfold catchup_items_neg in Hin. apply list_elem_of_fmap in Hin as ([j t] & -> & Hf).
  apply list_elem_of_filter in Hf as [Hb _]. simpl in *. by rewrite Z.opp_involutive.
Qed.

Lemma heaps_sep_push i sc q : heaps_sep q -> heaps_sep (ingest_heap_push i sc q).
Proof.
  intros (Hh & Hc & Hm). split_and!.
  - intros k Hk. apply (push_main i sc q "hot") in Hk as [[-> ?]|Hk]; auto.
  - intros k Hk. apply (push_main i sc q "catchup") in Hk as [[-> ?]|Hk]; auto.
  - intros k Hk. by eapply push_max_sep.
Qed.

Lemma covered_push i sc q j t :
  ingest q !! j = Some t -> covered q j t -> covered (ingest_heap_push i sc q) j t.
Proof.
  intros Hl [Hm Hx]. split.
  - apply push_main; [apply band_hot_or_catchup|by right].
  - intros Hb. apply push_max_old; auto.
Qed.

Lemma covered_pushed i sc q : covered (ingest_heap_push i sc q) i sc.
Proof.
  split; [|apply push_max_new]. apply push_main; [apply band_hot_or_catchup|by left].
Qed.

(** A push covers its own item and keeps the others covered. *)
Lemma heaps_cover_push i sc q :
  ingest q !! i = Some sc ->
  (forall j t, j <> i -> ingest q !! j = Some t -> covered q j t) ->
  heaps_cover (ingest_heap_push i sc q).
Proof.
  intros Hi Hothers j t Hj. rewrite ingest_push in Hj.
  destruct (decide (j = i)) as [->|Hne].
  - simplify_eq. apply covered_pushed.
  - apply covered_push; auto.
Qed.

(** Taking the head off a band heap uncovers at most that very item. *)
Lemma heaps_after_pop b q sc i h' :
  b = "hot" \/ b = "catchup" -> heaps_sep q ->
  pq_pop (ingest_heap_for_band b q) = Some ((sc, i), h') ->
  decode_ingest_band sc = b /\ heaps_sep (set_heap_for_band b h' q) /\
  (forall j t, (j, t) <> (i, sc) -> covered q j t -> covered (set_heap_for_band b h' q) j t).
Proof.
  intros Hb (Hh & Hc & Hm) Hp.
  pose proof (fun y => pq_pop_elem _ _ _ y Hp) as He.
  unfold set_heap_for_band, ingest_heap_for_band, heaps_sep, covered in *.
  destruct Hb as [->| ->]; simpl in *;
    (split; [first [apply (Hh (sc, i))|apply (Hc (sc, i))]; apply He; by left|]); split.
  1,3: split_and!; intros k Hk;
    first [by apply Hm|by apply Hc|by apply Hh|apply Hh, He; by right|apply Hc, He; by right].
  all: intros j t Hne [Hin Hmax]; (split; [|done]); unfold ingest_heap_for_band in *;
    destruct (band_hot_or_catchup t) as [Et|Et]; rewrite Et in *; simpl in *; try done;
    apply He in Hin as [[= -> ->]|Hin]; [by destruct Hne|done].
Qed.

(** ** Counting *)

Lemma count_band_nonneg b d : 0 <= count_band b d.
Proof. unfold count_band. lia. Qed.

Lemma count_band_delete b d i sc :
  dict_wf d -> d !! i = Some sc ->
  count_band b (delete i d) = count_band b d - (if decide (decode_ingest_band sc = b) then 1 else 0).
Proof.
  intros Hw Hl. unfold count_band. rewrite (dict_items_delete_perm d i sc Hw Hl).
  rewrite filter_length_cons. simpl. case_decide; lia.
Qed.

Lemma count_band_insert_new b d i sc :
  d !! i = None ->
  count_band b (<[i := sc]> d) = count_band b d + (if decide (decode_ingest_band sc = b) then 1 else 0).
Proof.
  intros Hl. unfold count_band. rewrite dict_items_insert_None by done.
  rewrite filter_app, length_app, filter_length_cons. simpl. case_decide; simpl; lia.
Qed.

Lemma count_band_insert_old b d i old sc :
  dict_wf d -> d !! i = Some old ->
  count_band b (<[i := sc]> d) =
  count_band b d - (if decide (decode_ingest_band old = b) then 1 else 0)
                 + (if decide (decode_ingest_band sc = b) then 1 else 0).
Proof.
  intros Hw Hl. rewrite <- (count_band_delete b d i old) by done.
  unfold count_band.
  rewrite (dict_items_delete_perm (<[i := sc]> d) i sc)
    by (auto using dict_wf_insert, dict_lookup_insert_eq).
  assert (delete i (<[i:=sc]> d) ≡ delete i d) as He.
  { intros k. rewrite !dict_lookup_delete. case_decide; [done|]. by rewrite dict_lookup_insert_ne. }
  assert (dict_items (delete i (<[i:=sc]> d)) ≡ₚ dict_items (delete i d)) as Hp
    by (apply dict_equiv_items_perm; auto using dict_wf_insert, dict_wf_delete).
  rewrite filter_length_cons.
  assert (forall P `{forall x, Decision (P x)}, length (filter P (dict_items (delete i (<[i:=sc]> d)))) =
    length (filter P (dict_items (delete i d)))) as -> by (intros; by rewrite Hp).
  simpl. case_decide; lia.
Qed.

Lemma ingest_queue_set i sc q : ingest (queue_set i sc q) = <[i := sc]> (ingest q).
Proof.
  unfold queue_set. rewrite ingest_push. unfold ingest_band_inc, ingest_band_dec.
  destruct (ingest q !! i); by repeat case_decide.
Qed.

Lemma heaps_ext q q' :
  heap_hot q = heap_hot q' -> heap_catchup q = heap_catchup q' ->
  heap_catchup_max q = heap_catchup_max q' ->
  (forall i sc, covered q i sc <-> covered q' i sc) /\ (heaps_sep q <-> heaps_sep q').
Proof. destruct q, q'; simpl; intros; subst. by split. Qed.

Lemma iq_wf_set i sc q : iq_wf q -> iq_wf (queue_set i sc q).
Proof.
  intros [Hw Hc Hs Hn].
  pose (q1 := ingest_band_inc sc (with_ingest (<[i := sc]> (ingest q))
    (match ingest q !! i with Some old => ingest_band_dec old q | None => q end))).
  assert (queue_set i sc q = ingest_heap_push i sc q1) as Eq.
  { unfold queue_set, q1, ingest_band_dec. destruct (ingest q !! i); by repeat case_decide. }
  assert (ingest q1 = <[i := sc]> (ingest q)) as Ei.
  { unfold q1, ingest_band_inc. by case_decide. }
  assert (heap_hot q = heap_hot q1 /\ heap_catchup q = heap_catchup q1 /\
    heap_catchup_max q = heap_catchup_max q1) as (E1 & E2 & E3).
  { unfold q1, ingest_band_inc, ingest_band_dec. destruct (ingest q !! i); by repeat case_decide. }
  destruct (heaps_ext q q1 E1 E2 E3) as [Hcov Hsep].
  rewrite Eq. constructor.
  - rewrite ingest_push, Ei. by apply dict_wf_insert.
  - apply heaps_cover_push; [by rewrite Ei, dict_lookup_insert_eq|].
    intros j t Hne Hj. rewrite Ei, dict_lookup_insert_ne in Hj by done. apply Hcov, Hc, Hj.
  - apply heaps_sep_push. by apply Hsep.
  - apply counts_ok_push. unfold counts_ok. rewrite Ei. destruct Hn as [Hh Hcc].
    pose proof (count_band_nonneg "hot" (ingest q)). pose proof (count_band_nonneg "catchup" (ingest q)).
    assert (forall b old, ingest q !! i = Some old ->
      0 <= count_band b (ingest q) - (if decide (decode_ingest_band old = b) then 1 else 0)) as Hpos.
    { intros b old Ho. rewrite <- (count_band_delete b _ i) by done. apply count_band_nonneg. }
    unfold q1, ingest_band_inc, ingest_band_dec.
    destruct (ingest q !! i) as [old|] eqn:Eo.
    + rewrite !(count_band_insert_old _ _ i old sc) by done.
      pose proof (Hpos "hot" old eq_refl). pose proof (Hpos "catchup" old eq_refl).
      destruct (band_hot_or_catchup old) as [Eb|Eb], (band_hot_or_catchup sc) as [Eb'|Eb'];
        rewrite Eb, Eb' in *; simpl in *; lia.
    + rewrite !count_band_insert_new by done.
      destruct (band_hot_or_catchup sc) as [Eb|Eb]; rewrite Eb; simpl; lia.
Qed.

Lemma iq_wf_delete i old q :
  iq_wf q -> ingest q !! i = Some old ->
  iq_wf (ingest_band_dec old (with_ingest (delete i (ingest q)) q)).
Proof.
  intros [Hw Hc Hs [Hh Hcc]] Hl.
  set (q1 := ingest_band_dec old (with_ingest (delete i (ingest q)) q)).
  assert (ingest q1 = delete i (ingest q)) as Ei by (unfold q1, ingest_band_dec; by case_decide).
  assert (heap_hot q = heap_hot q1 /\ heap_catchup q = heap_catchup q1 /\
    heap_catchup_max q = heap_catchup_max q1) as (E1 & E2 & E3)
    by (unfold q1, ingest_band_dec; by case_decide).
  destruct (heaps_ext q q1 E1 E2 E3) as [Hcov Hsep]. constructor.
  - rewrite Ei. by apply dict_wf_delete.
  - intros j t Hj. rewrite Ei, dict_lookup_delete in Hj. case_decide; [done|].
    apply Hcov, Hc, Hj.
  - by apply Hsep.
  - unfold counts_ok. rewrite Ei, !(count_band_delete _ _ i old) by done.
    pose proof (count_band_nonneg "hot" (delete i (ingest q))) as P1.
    pose proof (count_band_nonneg "catchup" (delete i (ingest q))) as P2.
    rewrite (count_band_delete _ _ i old) in P1 by done. rewrite (count_band_delete _ _ i old) in P2 by done.
    unfold q1, ingest_band_dec.
    destruct (band_hot_or_catchup old) as [Eb|Eb]; rewrite Eb in *; simpl in *; lia.
Qed.
End inv.

Section store_inv.
Context {H : Type} `{PQ : !PriorityQueue H}.
Implicit Types (q : ingest_queue H) (s : store H).

(** ** The store *)

(** On a durable queue. *)
Definition queued s (k i : string) : Prop :=
  (k = JOB_KIND_INGEST /\ is_Some (ingest (iq s) !! i)) \/ i ∈ lists s !!! k.

#[export] Instance queued_dec s k i : Decision (queued s k i).
Proof. unfold queued. apply _. Defined.

(** Claimed. *)
Definition claimed s (k i : string) : Prop := is_Some ((inflight s !!! k) !! i).

#[export] Instance claimed_dec s k i : Decision (claimed s k i).
Proof. unfold claimed. apply _. Defined.

(** Everything but the payload mirror. *)
Record store_core s : Prop := {
  sw_iq : iq_wf (iq s);
  sw_nodup : forall k, NoDup (lists s !!! k);
  sw_pending : forall k, pending s !!! k = list_to_set (lists s !!! k);
  sw_kinds : forall k, lists s !!! k <> [] -> k ∈ JOB_KINDS_LIST;
  sw_claim_kinds : forall k i, claimed s k i -> k ∈ JOB_KINDS_ALL;
  sw_disjoint : forall k i, claimed s k i -> ~ queued s k i;
  sw_inflight_dict : forall k, dict_wf (inflight s !!! k);
  sw_leases_dict : dict_wf (leases s);
  sw_leases : forall k i, leases s !! (k, i) = entry_owner <$> (inflight s !!! k) !! i;
  sw_shadow_ingest : shadow_ingest (shd s) = ingest (iq s);
  sw_shadow_lists : shadow_lists (shd s) = lists s;
  sw_shadow_pending : shadow_pending (shd s) = pending s;
}.

(** The shadow holds the payload row of a queued identity, and no other. *)
Definition mirrored s (k i : string) : Prop :=
  shadow_payloads (shd s) !! (k, i) = if decide (queued s k i) then payloads s !! (k, i) else None.

Record store_wf s : Prop := {
  sw_core : store_core s;
  sw_mirror : forall k i, mirrored s k i;
}.

Lemma queued_ingest s i : lists s !!! JOB_KIND_INGEST = [] ->
  queued s JOB_KIND_INGEST i <-> is_Some (ingest (iq s) !! i).
Proof. unfold queued. intros ->. set_solver. Qed.

Lemma queued_list s k i : k <> JOB_KIND_INGEST -> queued s k i <-> i ∈ lists s !!! k.
Proof. unfold queued. naive_solver. Qed.

Lemma ingest_not_list : JOB_KIND_INGEST ∉ JOB_KINDS_LIST.
Proof. unfold JOB_KINDS_LIST. set_solver. Qed.

Lemma list_kind_not_ingest k : k ∈ JOB_KINDS_LIST -> k <> JOB_KIND_INGEST.
Proof. intros ? ->. by apply ingest_not_list. Qed.

Lemma kinds_all_cases k : k ∈ JOB_KINDS_ALL -> k = JOB_KIND_INGEST \/ k ∈ JOB_KINDS_LIST.
Proof. unfold JOB_KINDS_ALL. by rewrite elem_of_cons. Qed.

Lemma kinds_list_all k : k ∈ JOB_KINDS_LIST -> k ∈ JOB_KINDS_ALL.
Proof. unfold JOB_KINDS_ALL. rewrite elem_of_cons. auto. Qed.

Lemma no_ingest_list s : store_core s -> lists s !!! JOB_KIND_INGEST = [].
Proof.
  intros Hw. destruct (decide (lists s !!! JOB_KIND_INGEST = [])) as [|Hne]; [done|].
  by apply sw_kinds, ingest_not_list in Hne.
Qed.

(** The code's queue test is [queued]. *)
Lemma identity_is_queued_spec s k i : store_core s -> identity_is_queued k i s = true <-> queued s k i.
Proof.
  intros Hw. unfold identity_is_queued. case_decide as Hk.
  - subst. by rewrite bool_decide_eq_true, queued_ingest by by apply no_ingest_list.
  - rewrite queued_list by done. rewrite <- (elem_of_list_to_set (C := gset string)), <- (sw_pending s Hw).
    unfold lookup_total, map_lookup_total. destruct (pending s !! k); simpl; [apply bool_decide_eq_true|].
    split; [done|set_solver].
Qed.

(** The parts of the store a shadow or payload change leaves alone. *)
Definition same_queues s s' : Prop :=
  iq s' = iq s /\ lists s' = lists s /\ pending s' = pending s /\
  inflight s' = inflight s /\ leases s' = leases s.

Lemma same_queues_queued s s' k i : same_queues s s' -> queued s' k i <-> queued s k i.
Proof. intros (E1 & E2 & _). unfold queued. by rewrite E1, E2. Qed.

Lemma same_queues_claimed s s' k i : same_queues s s' -> claimed s' k i <-> claimed s k i.
Proof. intros (_ & _ & _ & E & _). unfold claimed. by rewrite E. Qed.

Lemma same_queues_core s s' :
  same_queues s s' -> shadow_ingest (shd s') = shadow_ingest (shd s) ->
  shadow_lists (shd s') = shadow_lists (shd s) ->
  shadow_pending (shd s') = shadow_pending (shd s) -> store_core s -> store_core s'.
Proof.
  intros Hq E1 E2 E3 []. pose proof Hq as (Eq & El & Epd & Ei & Els).
  constructor; rewrite ?Eq, ?El, ?Epd, ?Ei, ?Els, ?E1, ?E2, ?E3; try done.
  - intros k i Hc%(same_queues_claimed s s' _ _ Hq). eauto.
  - intros k i Hc%(same_queues_claimed s s' _ _ Hq) Hqd%(same_queues_queued s s' _ _ Hq). by eapply sw_disjoint0.
Qed.

Lemma same_queues_mirrored s s' k i :
  same_queues s s' -> shadow_payloads (shd s') !! (k, i) = shadow_payloads (shd s) !! (k, i) ->
  payloads s' !! (k, i) = payloads s !! (k, i) -> mirrored s k i -> mirrored s' k i.
Proof.
  intros Hq E1 E2. unfold mirrored.
  by rewrite E1, E2, (decide_ext _ _ _ _ (same_queues_queued s s' k i Hq)).
Qed.

(** One payload row mirrored makes the whole mirror hold. *)
Lemma store_wf_sync s k i :
  store_core s -> (forall k' i', (k', i') <> (k, i) -> mirrored s k' i') ->
  store_wf (shadow_sync_payload k i s).
Proof.
  intros Hc Hm. assert (same_queues s (shadow_sync_payload k i s)) as Hq by (by split_and!).
  constructor; [by eapply same_queues_core|].
  intros k' i'. destruct (decide ((k', i') = (k, i))) as [E|Hne].
  - simplify_eq. unfold mirrored. rewrite (decide_ext _ _ _ _ (same_queues_queued _ _ k i Hq)).
    unfold shadow_sync_payload; simpl.
    pose proof (identity_is_queued_spec s k i Hc) as Hs.
    destruct (payloads s !! (k, i)) as [f|] eqn:Ef, (identity_is_queued k i s);
      rewrite ?lookup_insert_eq, ?lookup_delete_eq; case_decide; naive_solver.
  - eapply same_queues_mirrored; [exact Hq| |done|by apply Hm].
    unfold shadow_sync_payload; simpl.
    repeat case_match; by rewrite ?lookup_insert_ne, ?lookup_delete_ne by congruence.
Qed.

Lemma store_wf_mark s : store_wf s -> store_wf (mark_dirty_locked s).
Proof. intros [Hc Hm]. constructor; [by apply (same_queues_core s)|exact Hm]. Qed.

(** *** The score map *)

Lemma store_wf_ingest_set i sc s :
  store_wf s -> ~ claimed s JOB_KIND_INGEST i -> store_wf (ingest_set i sc s).
Proof.
  intros [Hc Hm] Hn. pose proof (no_ingest_list s Hc) as Hnil. unfold ingest_set.
  set (s1 := with_shadow _ _).
  assert (forall k j, (k, j) <> (JOB_KIND_INGEST, i) -> queued s1 k j <-> queued s k j) as Hq.
  { intros k j Hne. unfold queued, s1; simpl. rewrite ingest_queue_set, dict_lookup_insert.
    case_decide; naive_solver. }
  apply store_wf_sync.
  - destruct Hc. constructor; simpl; try done.
    + by apply iq_wf_set.
    + intros k j Hcl Hqd. destruct (decide ((k, j) = (JOB_KIND_INGEST, i))); simplify_eq; [done|].
      apply (sw_disjoint0 k j Hcl). by apply Hq.
    + by rewrite ingest_queue_set, sw_shadow_ingest0.
  - intros k j Hne. specialize (Hm k j). unfold mirrored in *.
    by rewrite (decide_ext _ _ _ _ (Hq k j Hne)).
Qed.

Lemma store_wf_ingest_pop i s : store_wf s -> store_wf (ingest_pop i s).2.
Proof.
  intros [Hc Hm]. unfold ingest_pop. destruct (ingest (iq s) !! i) as [old|] eqn:El; [|by constructor].
  simpl. set (s1 := with_shadow _ _).
  assert (ingest (iq s1) = delete i (ingest (iq s))) as Ei by (unfold s1, ingest_band_dec; simpl; by case_decide).
  assert (forall k j, queued s1 k j <-> queued s k j /\ (k, j) <> (JOB_KIND_INGEST, i)) as Hq.
  { intros k j. pose proof (no_ingest_list s Hc) as Hnil. unfold queued. rewrite Ei, dict_lookup_delete.
    unfold s1; simpl. case_decide; [subst|naive_solver].
    destruct (decide (k = JOB_KIND_INGEST)) as [->|]; [rewrite Hnil; set_solver|naive_solver]. }
  constructor.
  - destruct Hc. constructor; rewrite ?Ei; simpl; try done.
    + unfold s1; simpl. by apply iq_wf_delete.
    + intros k j Hcl [Hqd _]%Hq. by eapply sw_disjoint0.
    + by rewrite sw_shadow_ingest0.
  - intros k j. specialize (Hm k j). unfold mirrored in *. unfold s1 at 1; simpl.
    destruct (decide ((k, j) = (JOB_KIND_INGEST, i))) as [E|Hne].
    + simplify_eq. rewrite lookup_delete_eq, decide_False; naive_solver.
    + rewrite lookup_delete_ne by congruence. rewrite Hm.
      repeat case_decide; naive_solver.
Qed.

(** *** The LIST queues *)

Lemma total_insert_eq {A} `{Inhabited A} (m : gmap string A) k v : <[k := v]> m !!! k = v.
Proof. apply lookup_total_insert_eq. Qed.

Lemma total_insert {A} `{Inhabited A} (m : gmap string A) k k' v :
  <[k := v]> m !!! k' = if decide (k = k') then v else m !!! k'.
Proof. case_decide; subst; [apply lookup_total_insert_eq|by apply lookup_total_insert_ne]. Qed.

Lemma store_wf_list_push k i s :
  store_wf s -> k ∈ JOB_KINDS_LIST -> i ∉ lists s !!! k -> ~ claimed s k i ->
  store_wf (list_push k i s).
Proof.
  intros [Hc Hm] Hk Hni Hncl. unfold list_push.
  match goal with |- store_wf (shadow_sync_payload _ _ ?x) => set (s1 := x) end.
  assert (forall k' j, (k', j) <> (k, i) -> queued s1 k' j <-> queued s k' j) as Hq.
  { intros k' j Hne. unfold queued, s1; simpl. rewrite total_insert.
    case_decide; [subst; set_solver|done]. }
  apply store_wf_sync.
  - destruct Hc. constructor; unfold s1; simpl; try done.
    + intros k'. rewrite total_insert. case_decide; [subst; by apply NoDup_snoc|done].
    + intros k'. rewrite !total_insert. case_decide; [subst|done].
      by rewrite list_to_set_snoc, sw_pending0.
    + intros k'. rewrite total_insert. case_decide; [by subst|apply sw_kinds0].
    + intros k' j Hcl Hqd. destruct (decide ((k', j) = (k, i))); simplify_eq; [done|].
      apply (sw_disjoint0 k' j Hcl). by apply Hq.
    + by rewrite sw_shadow_lists0.
    + by rewrite sw_shadow_pending0.
  - intros k' j Hne. specialize (Hm k' j). unfold mirrored in *.
    by rewrite (decide_ext _ _ _ _ (Hq k' j Hne)).
Qed.

Lemma shadow_list_drop_head i l : shadow_list_drop i (i :: l) = l.
Proof. unfold shadow_list_drop. by rewrite decide_True. Qed.

Lemma store_wf_list_pop k i rest s :
  store_wf s -> k ∈ JOB_KINDS_LIST -> lists s !!! k = i :: rest -> store_wf (list_pop k i rest s).
Proof.
  intros [Hc Hm] Hk Hl.
  assert (i ∉ rest /\ NoDup rest) as [Hni Hnd].
  { pose proof (sw_nodup s Hc k) as Hd. rewrite Hl in Hd. by apply NoDup_cons in Hd. }
  assert (k <> JOB_KIND_INGEST) as Hki by by apply list_kind_not_ingest.
  assert (forall k' j, queued (list_pop k i rest s) k' j <-> queued s k' j /\ (k', j) <> (k, i)) as Hq.
  { intros k' j. unfold queued, list_pop; simpl. rewrite total_insert.
    case_decide; [subst; rewrite Hl; set_solver|naive_solver]. }
  constructor.
  - destruct Hc. constructor; unfold list_pop; simpl; try done.
    + intros k'. rewrite total_insert. by case_decide.
    + intros k'. rewrite !total_insert. case_decide; [subst|done]. rewrite sw_pending0, Hl. set_solver.
    + intros k'. rewrite total_insert. case_decide; [by subst|apply sw_kinds0].
    + intros k' j Hcl [Hqd _]%Hq. by eapply sw_disjoint0.
    + by rewrite sw_shadow_lists0, Hl, shadow_list_drop_head.
    + by rewrite sw_shadow_pending0.
  - intros k' j. specialize (Hm k' j). unfold mirrored in *. unfold list_pop at 1; simpl.
    destruct (decide ((k', j) = (k, i))) as [E|Hne].
    + simplify_eq. rewrite lookup_delete_eq, decide_False; naive_solver.
    + rewrite lookup_delete_ne by congruence. rewrite Hm. repeat case_decide; naive_solver.
Qed.

(** *** Claims *)

Lemma leases_record k i o d sc s k' j :
  leases (record_claim k i o d sc s) !! (k', j) = if decide ((k, i) = (k', j)) then Some o else leases s !! (k', j).
Proof. exact (dict_lookup_insert (leases s) (k, i) (k', j) o). Qed.

Lemma leases_drop k i s k' j :
  leases (drop_claim k i s) !! (k', j) = if decide ((k, i) = (k', j)) then None else leases s !! (k', j).
Proof. exact (dict_lookup_delete (leases s) (k, i) (k', j)). Qed.

Lemma store_wf_record_claim k i o d sc s :
  store_wf s -> k ∈ JOB_KINDS_ALL -> ~ queued s k i -> store_wf (record_claim k i o d sc s).
Proof.
  intros [Hc Hm] Hk Hnq. constructor; [|exact Hm].
  pose proof (leases_record k i o d sc s) as Hls.
  destruct Hc. constructor; try done.
  - intros k' j. unfold claimed; simpl. rewrite total_insert. case_decide; [by subst|apply sw_claim_kinds0].
  - intros k' j. unfold claimed; simpl. rewrite total_insert. case_decide; [subst k'|apply sw_disjoint0].
    rewrite dict_lookup_insert. case_decide; [by subst|apply sw_disjoint0].
  - intros k'. simpl. rewrite total_insert. case_decide; [by apply dict_wf_insert|done].
  - by apply dict_wf_insert.
  - intros k' j. rewrite Hls. simpl. rewrite total_insert.
    destruct (decide (k = k')) as [<-|]; [|rewrite decide_False by congruence; apply sw_leases0].
    rewrite dict_lookup_insert. destruct (decide (i = j)) as [<-|].
    + by rewrite decide_True.
    + rewrite decide_False by congruence. apply sw_leases0.
Qed.

Lemma claimed_drop k i k' j s :
  claimed (drop_claim k i s) k' j <-> claimed s k' j /\ (k', j) <> (k, i).
Proof.
  unfold claimed, drop_claim; simpl. rewrite total_insert.
  destruct (decide (k = k')) as [<-|]; [|naive_solver].
  rewrite dict_lookup_delete. case_decide; naive_solver.
Qed.

Lemma store_wf_drop_claim k i s : store_wf s -> store_wf (drop_claim k i s).
Proof.
  intros [Hc Hm]. constructor; [|exact Hm].
  pose proof (leases_drop k i s) as Hls.
  destruct Hc. constructor; try done.
  - intros k' j [Hcl _]%claimed_drop. eauto.
  - intros k' j [Hcl _]%claimed_drop. by apply sw_disjoint0.
  - intros k'. simpl. rewrite total_insert. case_decide; [by apply dict_wf_delete|done].
  - by apply dict_wf_delete.
  - intros k' j. rewrite Hls. simpl. rewrite total_insert.
    destruct (decide (k = k')) as [<-|]; [|rewrite decide_False by congruence; apply sw_leases0].
    rewrite dict_lookup_delete. destruct (decide (i = j)) as [<-|].
    + by rewrite decide_True.
    + rewrite decide_False by congruence. apply sw_leases0.
Qed.

Lemma store_wf_put_back k i sc s :
  store_wf s -> k ∈ JOB_KINDS_ALL -> ~ claimed s k i -> ~ queued s k i -> store_wf (put_back k i sc s).
Proof.
  intros Hw Hk Hncl Hnq. unfold put_back. case_decide; [subst; by apply store_wf_ingest_set|].
  apply kinds_all_cases in Hk as [|Hk]; [done|].
  apply store_wf_list_push; try done. by rewrite <- queued_list.
Qed.

Lemma store_wf_recover k i sc s :
  store_wf s -> claimed s k i -> store_wf (put_back k i sc (drop_claim k i s)).
Proof.
  intros Hw Hcl. apply store_wf_put_back.
  - by apply store_wf_drop_claim.
  - by eapply sw_claim_kinds; [apply Hw|].
  - rewrite claimed_drop. naive_solver.
  - intros Hq. by eapply (sw_disjoint s (sw_core s Hw) k i).
Qed.

(** *** Payload rows *)

Lemma queued_payloads p s k i : queued (with_payloads p s) k i <-> queued s k i.
Proof. done. Qed.

Lemma store_wf_payload_unqueued k i f s :
  store_wf s -> ~ queued s k i -> store_wf (with_payloads (<[(k, i) := f]> (payloads s)) s).
Proof.
  intros [Hc Hm] Hnq. constructor; [by apply (same_queues_core s)|].
  intros k' j. specialize (Hm k' j). unfold mirrored in *.
  rewrite (decide_ext _ _ _ _ (queued_payloads _ s k' j)).
  simpl. rewrite Hm. case_decide as Hd; [|done].
  symmetry. apply lookup_insert_ne. intros [= <- <-]. exact (Hnq Hd).
Qed.

Lemma store_wf_payload_sync k i f s :
  store_wf s -> store_wf (shadow_sync_payload k i (with_payloads (<[(k, i) := f]> (payloads s)) s)).
Proof.
  intros [Hc Hm]. apply store_wf_sync; [by apply (same_queues_core s)|].
  intros k' j Hne. specialize (Hm k' j). unfold mirrored in *.
  rewrite (decide_ext _ _ _ _ (queued_payloads _ s k' j)).
  simpl. rewrite Hm. case_decide; [|done].
  symmetry. apply lookup_insert_ne. congruence.
Qed.

Lemma store_wf_payload_delete k i s :
  store_wf s -> ~ queued s k i -> store_wf (with_payloads (delete (k, i) (payloads s)) s).
Proof.
  intros [Hc Hm] Hnq. constructor; [by apply (same_queues_core s)|].
  intros k' j. specialize (Hm k' j). unfold mirrored in *.
  rewrite (decide_ext _ _ _ _ (queued_payloads _ s k' j)).
  simpl. rewrite Hm. case_decide as Hd; [|done].
  symmetry. apply lookup_delete_ne. intros [= <- <-]. exact (Hnq Hd).
Qed.

(** Changes of the heaps alone. *)
Lemma store_wf_heaps q s :
  store_wf s -> iq_wf q -> ingest q = ingest (iq s) -> store_wf (with_iq q s).
Proof.
  intros [Hc Hm] Hq Ei.
  assert (forall k j, queued (with_iq q s) k j <-> queued s k j) as Hqd
    by (intros; unfold queued; simpl; by rewrite Ei).
  constructor.
  - destruct Hc. constructor; simpl; try done.
    + intros k j Hcl Hx%Hqd. by eapply sw_disjoint0.
    + by rewrite Ei.
  - intros k j. specialize (Hm k j). unfold mirrored in *; simpl.
    by rewrite (decide_ext _ _ _ _ (Hqd k j)).
Qed.
End store_inv.

Create HintDb store discriminated.
#[export] Hint Resolve store_wf_mark store_wf_ingest_set store_wf_ingest_pop store_wf_list_push
  store_wf_record_claim store_wf_drop_claim store_wf_recover store_wf_payload_sync : store.
