(* ===== verification/JobStoreOps.v ===== *)
(** Every operation of the job store keeps the invariant.

    One lemma per operation; [JobStoreSteps] assembles them into an invariant of
    every state a running process can be in. *)
From S2P Require Import Prelude PyDict PriorityQueue PyStr IngestScore LeaseOwner WriteBehind JobStore JobStoreInv.
Local Open Scope Z_scope.

Section ops.
Context {H : Type} `{PQ : !PriorityQueue H}.
Implicit Types (q : ingest_queue H) (s : store H).

(** ** Queueing *)

Lemma claimed_ingest_set i sc s k j : claimed (ingest_set i sc s) k j <-> claimed s k j.
Proof. done. Qed.

Lemma claimed_list_push k i s k' j : claimed (list_push k i s) k' j <-> claimed s k' j.
Proof. done. Qed.

Lemma claimed_put_back k i sc s k' j : claimed (put_back k i sc s) k' j <-> claimed s k' j.
Proof. unfold put_back. by case_decide. Qed.

Lemma store_wf_zadd cfg i sc fp over s : store_wf s -> store_wf (zadd_ingest cfg i sc fp over s).2.
Proof.
  intros Hw. unfold zadd_ingest. case_decide as Hcl; [done|].
  case_match; [done|]. simpl. apply store_wf_mark.
  pose proof (store_wf_ingest_set i sc s Hw ltac:(exact Hcl)) as Hs.
  destruct fp as [fp|]; [|done]. destruct (decide (fp = "")); [done|]. by apply store_wf_payload_sync.
Qed.

Lemma store_wf_enqueue cfg k i s r :
  store_wf s -> enqueue_list cfg k i true s = Ok r -> store_wf r.2.
Proof.
  intros Hw. unfold enqueue_list. case_decide as Hk; [|done].
  case_match eqn:Ed; [intros [= <-]; exact Hw|]. case_match; intros [= <-]; [exact Hw|].
  simpl. apply store_wf_mark, store_wf_list_push; try done.
  all: simpl in Ed; apply bool_decide_eq_false in Ed.
  - intros Hin. apply Ed. left. rewrite (sw_pending s (sw_core s Hw)). set_solver.
  - intros Hcl. apply Ed. by right.
Qed.

Lemma ingest_pop_queued i s k j :
  store_wf s -> queued (ingest_pop i s).2 k j -> queued s k j /\ (k, j) <> (JOB_KIND_INGEST, i).
Proof.
  intros Hw. unfold ingest_pop. pose proof (no_ingest_list s (sw_core s Hw)) as Hnil.
  destruct (ingest (iq s) !! i) eqn:El; unfold queued; simpl.
  - unfold ingest_band_dec. replace (ingest _) with (delete i (ingest (iq s))) by by case_decide.
    rewrite dict_lookup_delete. case_decide; [subst|];
      (intros [[? Hs]|Hin]; [try by destruct Hs|]); (split; [by auto|]); intros ?; simplify_eq;
      rewrite ?Hnil in Hin; set_solver.
  - intros [[? Hs]|Hin]; (split; [by auto|]); intros ?; simplify_eq; [rewrite El in Hs; by destruct Hs|].
    rewrite Hnil in Hin. set_solver.
Qed.

(** Dropping the head of the eviction heap: harmless when it is stale. *)
Lemma iq_wf_drop_max q h' sc i :
  iq_wf q -> pq_pop (heap_catchup_max q) = Some ((sc, i), h') -> ingest q !! i <> Some (- sc) ->
  iq_wf (with_heap_max h' q).
Proof.
  intros [Hd Hc (Hh & Hcu & Hm) Hn] Hp Hst. pose proof (fun y => pq_pop_elem _ _ _ y Hp) as He.
  constructor; try done.
  - intros j t Hj. destruct (Hc j t Hj) as [H1 H2]. split; [exact H1|].
    intros Hb. apply He in H2 as [[= Es ->]|]; [|done|done].
    destruct Hst. simpl in Hj. rewrite Hj. f_equal. lia.
  - split_and!; try done. intros k Hk. apply Hm, He. by right.
Qed.

(** The same of a band heap. *)
Lemma iq_wf_drop_head b q h' sc i :
  b = "hot" \/ b = "catchup" -> iq_wf q ->
  pq_pop (ingest_heap_for_band b q) = Some ((sc, i), h') -> ingest q !! i <> Some sc ->
  iq_wf (set_heap_for_band b h' q).
Proof.
  intros Hb [Hd Hc Hs Hn] Hp Hst.
  destruct (heaps_after_pop b q sc i h' Hb Hs Hp) as (_ & Hs' & Hcov).
  assert (ingest (set_heap_for_band b h' q) = ingest q) as Ei by (unfold set_heap_for_band; by case_decide).
  constructor; [by rewrite Ei| |done|].
  - intros j t Hj. rewrite Ei in Hj. apply Hcov; [|by apply Hc]. intros [= -> ->]. done.
  - unfold counts_ok, set_heap_for_band in *. by case_decide.
Qed.

(** A popped live head that is pushed back. *)
Lemma iq_wf_pop_push b q h' sc i :
  b = "hot" \/ b = "catchup" -> iq_wf q ->
  pq_pop (ingest_heap_for_band b q) = Some ((sc, i), h') -> ingest q !! i = Some sc ->
  iq_wf (ingest_heap_push i sc (set_heap_for_band b h' q)).
Proof.
  intros Hb [Hd Hc Hs Hn] Hp Hl.
  destruct (heaps_after_pop b q sc i h' Hb Hs Hp) as (_ & Hs' & Hcov).
  assert (ingest (set_heap_for_band b h' q) = ingest q) as Ei by (unfold set_heap_for_band; by case_decide).
  constructor; [by rewrite ingest_push, Ei| |by apply heaps_sep_push|].
  - apply heaps_cover_push; [by rewrite Ei|]. intros j t Hne Hj. rewrite Ei in Hj.
    apply Hcov; [congruence|by apply Hc].
  - apply counts_ok_push. unfold counts_ok, set_heap_for_band in *. by case_decide.
Qed.

Lemma iq_wf_push i sc q : iq_wf q -> ingest q !! i = Some sc -> iq_wf (ingest_heap_push i sc q).
Proof.
  intros [Hd Hc Hs Hn] Hl. constructor.
  - by rewrite ingest_push.
  - apply heaps_cover_push; [done|]. eauto.
  - by apply heaps_sep_push.
  - by apply counts_ok_push.
Qed.

(** Popping a map entry does not look at the heaps. *)
Lemma ingest_pop_heap_max i h' s :
  (ingest_pop i (with_iq (with_heap_max h' (iq s)) s)).2 =
  (fun s2 => with_iq (with_heap_max h' (iq s2)) s2) (ingest_pop i s).2.
Proof. unfold ingest_pop; simpl. case_match; [|done]. simpl. unfold ingest_band_dec. by case_decide. Qed.

Lemma ingest_pop_band_heap i b h' s :
  (ingest_pop i (with_iq (set_heap_for_band b h' (iq s)) s)).2 =
  (fun s2 => with_iq (set_heap_for_band b h' (iq s2)) s2) (ingest_pop i s).2.
Proof.
  unfold ingest_pop, set_heap_for_band; simpl.
  destruct (decide (b = "hot")); simpl; (case_match; [|done]); simpl; unfold ingest_band_dec; by case_decide.
Qed.

Lemma ingest_pop_iq i s :
  ingest (iq (ingest_pop i s).2) = delete i (ingest (iq s)) /\
  heap_hot (iq (ingest_pop i s).2) = heap_hot (iq s) /\
  heap_catchup (iq (ingest_pop i s).2) = heap_catchup (iq s) /\
  heap_catchup_max (iq (ingest_pop i s).2) = heap_catchup_max (iq s).
Proof.
  unfold ingest_pop. destruct (ingest (iq s) !! i) eqn:E; simpl.
  - unfold ingest_band_dec. by case_decide.
  - by rewrite dict_delete_None.
Qed.

Lemma ingest_pop_claimed i s k j : claimed (ingest_pop i s).2 k j <-> claimed s k j.
Proof. unfold ingest_pop. by case_match. Qed.

(** ** Eviction *)

Lemma store_wf_evict_one s h' sc i :
  store_wf s -> pq_pop (heap_catchup_max (iq s)) = Some ((sc, i), h') ->
  store_wf (with_payloads (delete (JOB_KIND_INGEST, i) (payloads (ingest_pop i s).2))
    (ingest_pop i (with_iq (with_heap_max h' (iq s)) s)).2).
Proof.
  intros Hw Hp. rewrite ingest_pop_heap_max. pose proof (store_wf_ingest_pop i s Hw) as Hw2.
  destruct (ingest_pop_iq i s) as (Ei & _ & _ & Em).
  pose proof (ingest_pop_queued i s JOB_KIND_INGEST i Hw) as Hq.
  set (s2 := (ingest_pop i s).2) in *.
  refine (store_wf_payload_delete JOB_KIND_INGEST i (with_iq (with_heap_max h' (iq s2)) s2) _ _).
  - apply store_wf_heaps; [done| |done].
    apply (iq_wf_drop_max _ _ sc i); [apply Hw2|by rewrite Em|by rewrite Ei, dict_lookup_delete_eq].
  - intros Hqd. change (queued s2 JOB_KIND_INGEST i) in Hqd. by apply Hq in Hqd as [_ []].
Qed.

Lemma store_wf_evict_loop fuel day s r : store_wf s -> evict_loop fuel day s = Some r -> store_wf r.2.
Proof.
  revert s. induction fuel as [|fuel IH]; intros s Hw; simpl; [done|].
  destruct (pq_pop _) as [[[sc i] h']|] eqn:Hp; [|by intros [= <-]].
  case_decide as Hl.
  - repeat case_match; intros [= <-]; try exact Hw.
    simpl. apply store_wf_mark.
    pose proof (store_wf_evict_one s h' sc i Hw Hp) as He.
    rewrite ingest_pop_heap_max in *. exact He.
  - apply IH. apply store_wf_heaps; [done| |done].
    apply (iq_wf_drop_max _ _ sc i); [apply Hw|done|]. done.
Qed.

(** ** Claiming *)

Lemma in_flight_stale s i sc :
  store_wf s -> claimed s JOB_KIND_INGEST i -> ingest (iq s) !! i <> Some sc.
Proof.
  intros Hw Hcl Hl. apply (sw_disjoint s (sw_core s Hw) _ _ Hcl). left. rewrite Hl. by eauto.
Qed.

(** One live head of a band heap taken as a claim. *)
Lemma store_wf_claim_one b s h' sc i o d :
  b = "hot" \/ b = "catchup" -> store_wf s ->
  pq_pop (ingest_heap_for_band b (iq s)) = Some ((sc, i), h') ->
  store_wf (record_claim JOB_KIND_INGEST i o d (Some sc)
    (ingest_pop i (with_iq (set_heap_for_band b h' (iq s)) s)).2).
Proof.
  intros Hb Hw Hp. rewrite ingest_pop_band_heap. pose proof (store_wf_ingest_pop i s Hw) as Hw2.
  destruct (ingest_pop_iq i s) as (Ei & Eh & Ec & _).
  pose proof (ingest_pop_queued i s JOB_KIND_INGEST i Hw) as Hq.
  set (s2 := (ingest_pop i s).2) in *.
  assert (ingest (set_heap_for_band b h' (iq s2)) = ingest (iq s2)) as Es
    by (unfold set_heap_for_band; by case_decide).
  apply store_wf_record_claim; [|by left|].
  - apply store_wf_heaps; [done| |exact Es].
    apply (iq_wf_drop_head b _ _ sc i Hb); [apply Hw2| |by rewrite Ei, dict_lookup_delete_eq].
    unfold ingest_heap_for_band in *. by rewrite Eh, Ec.
  - unfold queued; simpl. rewrite Es. intros Hqd. by apply Hq in Hqd as [_ []].
Qed.

Lemma set_heap_ingest b h' q : ingest (set_heap_for_band b h' q) = ingest q.
Proof. unfold set_heap_for_band. by case_decide. Qed.

(** A stale head dropped. *)
Lemma store_wf_drop_head b s h' sc i :
  b = "hot" \/ b = "catchup" -> store_wf s ->
  pq_pop (ingest_heap_for_band b (iq s)) = Some ((sc, i), h') -> ingest (iq s) !! i <> Some sc ->
  store_wf (with_iq (set_heap_for_band b h' (iq s)) s).
Proof.
  intros Hb Hw Hp Hst. apply store_wf_heaps; [done| |apply set_heap_ingest].
  by eapply iq_wf_drop_head; [|apply Hw|..].
Qed.

(** A head dropped and the live score of its identity armed. *)
Lemma store_wf_rearm b s h' sc i live :
  b = "hot" \/ b = "catchup" -> store_wf s ->
  pq_pop (ingest_heap_for_band b (iq s)) = Some ((sc, i), h') -> ingest (iq s) !! i = Some live ->
  store_wf (with_iq (ingest_heap_push i live (set_heap_for_band b h' (iq s))) s).
Proof.
  intros Hb Hw Hp Hl. apply store_wf_heaps; [done| |by rewrite ingest_push, set_heap_ingest].
  destruct (decide (live = sc)) as [->|Hne].
  - by eapply iq_wf_pop_push; [|apply Hw|..].
  - apply iq_wf_push; [|by rewrite set_heap_ingest].
    eapply iq_wf_drop_head; [done|apply Hw|done|congruence].
Qed.

Lemma store_wf_claim_loop fuel b range o d want s r :
  b = "hot" \/ b = "catchup" -> store_wf s ->
  claim_loop fuel b range o d want s = Some r -> store_wf r.2.
Proof.
  intros Hb. revert want s r. induction fuel as [|fuel IH]; intros [|want] s r Hw; simpl;
    try (by intros [= <-]); try done.
  destruct (pq_pop _) as [[[sc i] h']|] eqn:Hp; [|by intros [= <-]].
  rewrite set_heap_ingest.
  destruct (decide (is_Some _)) as [Hcl|_]; [by eapply IH, store_wf_drop_head, in_flight_stale|].
  destruct (ingest (iq s) !! i) as [live|] eqn:El; [|eapply IH, store_wf_drop_head; try done; by rewrite El].
  destruct (decide (live <> sc)) as [Hne|Hne]; [by eapply IH, (store_wf_rearm b s h' sc)|].
  case_match; [by eapply IH, (store_wf_rearm b s h' sc)|].
  assert (live = sc) as -> by (by apply dec_stable).
  destruct (claim_loop _ _ _ _ _ want _) as [[jobs s']|] eqn:Hr; [|done].
  intros [= <-]. eapply (IH want _ (jobs, s')); [|exact Hr]. by apply store_wf_claim_one.
Qed.

(** Any band but ["hot"] claims from the catchup heap. *)
Definition heap_band (b : string) : string := if decide (b = "hot") then "hot" else "catchup".

Lemma heap_band_cases b : heap_band b = "hot" \/ heap_band b = "catchup".
Proof. unfold heap_band. case_decide; auto. Qed.

Lemma heap_band_get b q : ingest_heap_for_band b q = ingest_heap_for_band (heap_band b) q.
Proof. unfold ingest_heap_for_band, heap_band. by case_decide. Qed.

Lemma heap_band_set b h q : set_heap_for_band b h q = set_heap_for_band (heap_band b) h q.
Proof. unfold set_heap_for_band, heap_band. by case_decide. Qed.

Lemma claim_loop_band fuel b range o d want s :
  claim_loop fuel b range o d want s = claim_loop fuel (heap_band b) range o d want s.
Proof.
  revert want s. induction fuel as [|fuel IH]; intros [|want] s; simpl; try done.
  rewrite <- heap_band_get. destruct (pq_pop _) as [[[sc i] h']|]; [|done].
  rewrite <- heap_band_set. repeat case_match; simplify_eq; try apply IH; try done.
  all: rewrite IH in *; by simplify_eq.
Qed.

Lemma store_wf_claim_ingest fuel cfg b o ttl now n s r :
  store_wf s -> claim_ingest_with fuel cfg b o ttl now n s = Some (Ok r) -> store_wf r.2.
Proof.
  intros Hw. unfold claim_ingest_with. do 2 (case_match; [done|]).
  destruct (ingest_score_range b); [|done]. rewrite claim_loop_band.
  destruct (claim_loop _ _ _ _ _ _ _) as [[jobs s']|] eqn:Hc; [|done].
  apply (store_wf_claim_loop _ _ _ _ _ _ _ _ (heap_band_cases b) Hw) in Hc.
  intros [= <-]; simpl. destruct (decide (jobs = [])); [done|]. by apply store_wf_mark.
Qed.

Lemma store_wf_claim_list_loop l k o d s :
  store_wf s -> k ∈ JOB_KINDS_LIST -> lists s !!! k = l -> store_wf (claim_list_loop l k o d s).2.
Proof.
  intros Hw Hk. revert s Hw. induction l as [|i l IH]; intros s Hw Hl; simpl; [done|].
  pose proof (store_wf_list_pop k i l s Hw Hk Hl) as Hw2.
  assert (lists (list_pop k i l s) !!! k = l) as Hl2 by (simpl; apply total_insert_eq).
  destruct (decide (is_Some _)); [by apply IH|].
  apply store_wf_mark, store_wf_record_claim; [done|by apply kinds_list_all|].
  rewrite queued_list, Hl2 by by apply list_kind_not_ingest.
  pose proof (sw_nodup s (sw_core s Hw) k) as Hd. rewrite Hl in Hd. by apply NoDup_cons in Hd as [Hni _].
Qed.

Lemma store_wf_claim_list cfg k o ttl now s r :
  store_wf s -> claim_list cfg k o ttl now s = Ok r -> store_wf r.2.
Proof.
  intros Hw. unfold claim_list. destruct (decide (k ∈ _)); [|done].
  destruct (decide (o = "")); [done|]. intros [= <-]. by apply store_wf_claim_list_loop.
Qed.

(** ** Owned claims *)

Lemma owns_spec k i o s :
  owns k i o s = true <-> o <> "" /\ exists e, (inflight s !!! k) !! i = Some e /\ entry_owner e = o.
Proof.
  unfold owns. rewrite andb_true_iff, bool_decide_eq_true.
  destruct ((inflight s !!! k) !! i) as [e|]; [|naive_solver].
  rewrite bool_decide_eq_true. naive_solver.
Qed.

Lemma owns_claimed k i o s : owns k i o s = true -> claimed s k i.
Proof. rewrite owns_spec. intros (_ & e & He & _). by exists e. Qed.

Lemma store_wf_requeue k i o sc s : store_wf s -> store_wf (requeue k i o sc s).2.
Proof.
  intros Hw. unfold requeue. destruct (owns k i o s) eqn:Ho; [|done]. simpl.
  apply owns_claimed in Ho. pose proof (store_wf_recover k i (default CATCHUP_SCORE_BASE sc) s Hw Ho) as Hr.
  apply store_wf_mark. case_decide; [|done]. apply store_wf_sync; apply Hr || (intros; apply Hr).
Qed.

(** Removing a claimed identity from the dedupe set of its list changes
    nothing: it is not there. *)
Lemma store_wf_ack k i o s : store_wf s -> store_wf (ack k i o s).2.
Proof.
  intros Hw. unfold ack. destruct (owns k i o s) eqn:Ho; [|done]. simpl.
  apply owns_claimed in Ho. pose proof (sw_disjoint s (sw_core s Hw) k i Ho) as Hnq.
  pose proof (store_wf_payload_delete k i _ (store_wf_drop_claim k i s Hw) Hnq) as Hw2.
  set (s2 := with_payloads _ _) in *.
  destruct (pending s !! k) as [p|] eqn:Ep; [|done].
  assert (p ∖ {[i]} = p) as ->.
  { pose proof (sw_pending s (sw_core s Hw) k) as Hp.
    rewrite (lookup_total_correct _ _ _ Ep) in Hp.
    assert (i ∉ p); [|set_solver]. rewrite Hp, elem_of_list_to_set. intros Hin. apply Hnq. by right. }
  rewrite insert_id by done. exact Hw2.
Qed.

Lemma store_wf_reclaim k i o d sc s : store_wf s -> claimed s k i -> store_wf (record_claim k i o d sc s).
Proof.
  intros Hw Hcl. apply store_wf_record_claim; [done|by eapply sw_claim_kinds; [apply Hw|]|].
  by apply (sw_disjoint s (sw_core s Hw)).
Qed.

Lemma store_wf_renew cfg k i o ttl now s : store_wf s -> store_wf (renew_job_lease cfg k i o ttl now s).2.
Proof.
  intros Hw. unfold renew_job_lease. destruct (owns k i o s) eqn:Ho; [|done].
  apply owns_spec in Ho as (_ & [[d o'] sc] & He & Heq). rewrite He. unfold entry_owner in Heq; simpl in Heq. subst o'.
  apply store_wf_reclaim; [done|]. by eexists.
Qed.

Lemma store_wf_extend k i ext now s : store_wf s -> store_wf (extend_inflight_deadline k i ext now s).2.
Proof.
  intros Hw. unfold extend_inflight_deadline.
  destruct ((inflight s !!! k) !! i) as [[[d o] sc]|] eqn:He; [|done]. simpl.
  assert (claimed s k i) as Hcl by (by eexists).
  pose proof (store_wf_reclaim k i o (now + ext) sc s Hw Hcl) as Hr.
  unfold record_claim in Hr. rewrite dict_insert_id in Hr; [exact Hr|].
  etrans; [exact (sw_leases s (sw_core s Hw) k i)|]. by rewrite He.
Qed.

(** ** Recovery *)

Lemma store_wf_reap_loop items want k cutoff s :
  store_wf s -> NoDup items.*1 -> (forall i, i ∈ items.*1 -> claimed s k i) ->
  store_wf (reap_loop items want k cutoff s).2.
Proof.
  revert want s. induction items as [|[i [[d o] sc]] items IH]; intros [|want] s Hw Hnd Hcl; simpl; try done.
  apply NoDup_cons in Hnd as [Hni Hnd]. case_match.
  - apply IH; [done..|]. intros j Hj. apply Hcl. by right.
  - destruct (reap_loop _ _ _ _ _) as [out s'] eqn:Er; simpl.
    replace s' with (out, s').2 by done. rewrite <- Er. apply IH; [|done|].
    + apply store_wf_mark, store_wf_recover; [done|]. apply Hcl. by left.
    + intros j Hj. change (claimed (put_back k i (penalize_ingest_score sc) (drop_claim k i s)) k j).
      rewrite claimed_put_back, claimed_drop. split; [apply Hcl; by right|].
      intros [= ->]. by apply Hni.
Qed.

Lemma store_wf_reap k now limit s : store_wf s -> store_wf (reap_expired_inflight k now limit s).2.
Proof.
  intros Hw. apply store_wf_reap_loop; [done|by apply sw_inflight_dict, Hw|].
  intros i Hi. by apply dict_keys_lookup.
Qed.

Lemma store_wf_steal_loop items alive host boot s :
  store_wf s -> store_wf (steal_loop items alive host boot s).2.
Proof.
  revert s. induction items as [|[[k i] o] items IH]; intros s Hw; simpl; [done|].
  case_match; [|by apply IH]. pose proof (store_wf_requeue k i o None s Hw) as Hr.
  destruct (requeue _ _ _ _ _) as [ok s']; simpl in Hr.
  specialize (IH s' Hr). by destruct (steal_loop _ _ _ _ _).
Qed.

Lemma store_wf_reconcile_loop items k known o s :
  store_wf s -> store_wf (reconcile_loop items k known o s).2.
Proof.
  revert s. induction items as [|[i [[d o'] sc]] items IH]; intros s Hw; simpl; [done|].
  destruct (decide (i ∈ known \/ o' <> o)); [by apply IH|].
  pose proof (store_wf_requeue k i o' sc s Hw) as Hr.
  destruct (requeue _ _ _ _ _) as [ok s']; simpl in Hr.
  specialize (IH s' Hr). by destruct (reconcile_loop _ _ _ _ _).
Qed.

(** ** Payload rows and list order *)

Lemma payload_put_eq k i n v s :
  payload_put (k, i) n v s = with_payloads (<[(k, i) := <[n := v]> (payloads s !!! (k, i))]> (payloads s)) s.
Proof. done. Qed.

(** A row is mirrored exactly when its identity is queued. *)
Lemma store_wf_row k i f s :
  store_wf s ->
  let s1 := with_payloads (<[(k, i) := f]> (payloads s)) s in
  store_wf (if identity_is_queued k i s1 then shadow_sync_payload k i s1 else s1).
Proof.
  intros Hw s1. assert (identity_is_queued k i s1 = identity_is_queued k i s) as -> by done.
  destruct (identity_is_queued k i s) eqn:Hq; [by apply store_wf_payload_sync|].
  apply store_wf_payload_unqueued; [done|].
  rewrite <- identity_is_queued_spec by apply Hw. by rewrite Hq.
Qed.

Lemma store_wf_write_field k i n v s : store_wf s -> store_wf (write_job_payload_field k i n v s).
Proof. intros Hw. by apply store_wf_mark, (store_wf_row k i). Qed.

Lemma store_wf_write_fingerprint k i fp s : store_wf s -> store_wf (write_job_fingerprint k i fp s).
Proof.
  intros Hw. unfold write_job_fingerprint. case_decide; [done|].
  pose proof (store_wf_row k i (<["fingerprint" := fp]> (payloads s !!! (k, i))) s Hw) as Hr.
  rewrite payload_put_eq. simpl in *. case_match; [by apply store_wf_mark|done].
Qed.

(** [bump_job_attempt] adds an empty row first ([setdefault]); before the queue test
    of the code it is not mirrored yet, so the two writes are one row change.
    The counter of an absent row parses, so a raise leaves the store as it was. *)
Lemma bump_raise_unchanged k i s e : (bump_job_attempt k i s).1 = Raise e -> (bump_job_attempt k i s).2 = s.
Proof.
  unfold bump_job_attempt. set (s1 := with_payloads _ s).
  destruct (attempt_of _) as [a|] eqn:Ea; [done|]. simpl. intros _.
  destruct (payloads s !! (k, i)) as [f|] eqn:Ef.
  - unfold s1. rewrite (lookup_total_correct _ _ _ Ef), insert_id by done. by destruct s.
  - exfalso. unfold s1 in Ea; simpl in Ea. rewrite lookup_total_insert_eq in Ea.
    by rewrite lookup_total_alt, Ef in Ea.
Qed.

Lemma store_wf_bump k i s : store_wf s -> store_wf (bump_job_attempt k i s).2.
Proof.
  intros Hw. destruct (bump_job_attempt k i s).1 eqn:Hn; [|by rewrite (bump_raise_unchanged _ _ _ _ Hn)].
  unfold bump_job_attempt in *. set (s1 := with_payloads _ s) in *.
  destruct (attempt_of _) as [c|]; [|done]. cbn [snd].
  assert (payload_put (k, i) "attempt" (str_of_Z (c + 1)) s1 =
    with_payloads (<[(k, i) := <["attempt" := str_of_Z (c + 1)]> (payloads s1 !!! (k, i))]> (payloads s)) s) as ->.
  { unfold payload_put, s1, with_payloads. simpl. by rewrite insert_insert_eq. }
  pose proof (store_wf_row k i (<["attempt" := str_of_Z (c + 1)]> (payloads s1 !!! (k, i))) s Hw) as Hr.
  simpl in *. case_match; [by apply store_wf_mark|done].
Qed.

Lemma store_wf_reorder k l s : store_wf s -> store_wf (reorder_list k l s).2.
Proof.
  intros [Hc Hm]. unfold reorder_list. destruct (lists s !! k) as [cur|] eqn:El; [|done].
  destruct (negb _) eqn:En; [done|]. destruct (decide (merge_sort _ _ <> _)) as [|Hs]; [done|].
  destruct (decide (cur = l)); [done|]. simpl. apply store_wf_mark.
  assert (merge_sort String.le cur = merge_sort String.le l) as Es by (by apply dec_stable).
  assert (cur ≡ₚ l) as Hp.
  { rewrite <- (merge_sort_Permutation String.le cur), Es. apply merge_sort_Permutation. }
  pose proof (lookup_total_correct _ _ _ El) as Et.
  assert (forall k' j, queued (with_lists (<[k := l]> (lists s)) s) k' j <-> queued s k' j) as Hq.
  { intros k' j. unfold queued; simpl. rewrite total_insert. case_decide; [subst k'|done].
    by rewrite Et, Hp. }
  constructor.
  - destruct Hc. constructor; simpl; try done.
    + intros k'. rewrite total_insert. case_decide; [subst k'|done]. by rewrite <- Hp, <- Et.
    + intros k'. rewrite total_insert. case_decide; [subst k'|done]. by rewrite sw_pending, Et, Hp.
    + intros k'. rewrite total_insert. case_decide; [subst k'|by apply sw_kinds].
      intros Hne. apply sw_kinds. rewrite Et. intros ->. by apply Permutation_nil_l in Hp.
    + intros k' j Hcl Hqd%Hq. by eapply sw_disjoint.
    + by rewrite sw_shadow_lists.
  - intros k' j. specialize (Hm k' j). unfold mirrored in *. simpl. rewrite Hm.
    by rewrite (decide_ext _ _ _ _ (Hq k' j)).
Qed.
End ops.
