(* ===== verification/JobStorePersist.v ===== *)
(** The sidecar: pruning, the snapshot document and the reload.

    [persist_write] and [load] keep the invariant, the written document is well
    formed, and reloading it restores every durable queue and payload row and
    forgets every claim. *)
From S2P Require Import Prelude PyDict PriorityQueue PyStr IngestScore LeaseOwner WriteBehind JobStore JobStoreInv JobStoreOps.
Local Open Scope Z_scope.

(** ** Documents *)

(** What [persist_write] writes: keys once, lists without duplicates, dedupe
    sets that list their lists. *)
Record doc_wf (doc : document) : Prop := {
  dw_ingest : dict_wf (doc_ingest doc);
  dw_lists : forall k, NoDup (doc_lists doc !!! k);
  dw_pending : forall k, (list_to_set (doc_pending doc !!! k) : gset string) = list_to_set (doc_lists doc !!! k);
}.

Lemma empty_document_wf : doc_wf empty_document.
Proof. constructor; [apply dict_wf_empty|intros; apply NoDup_nil_2|done]. Qed.

(** ** Maps built per kind *)

Lemma lookup_per_kinds {A} (f : string -> A) (ks : list string) k :
  (list_to_map ((fun k => (k, f k)) <$> ks) : gmap string A) !! k = if decide (k ∈ ks) then Some (f k) else None.
Proof.
  induction ks as [|k0 ks IH]; [done|]. rewrite fmap_cons, list_to_map_cons.
  destruct (decide (k0 = k)) as [->|Hne].
  - rewrite lookup_insert_eq, decide_True by set_solver. done.
  - rewrite lookup_insert_ne, IH by done. repeat case_decide; set_solver.
Qed.

Lemma total_per_kinds {A} `{Inhabited A} (f : string -> A) (ks : list string) k :
  (list_to_map ((fun k => (k, f k)) <$> ks) : gmap string A) !!! k = if decide (k ∈ ks) then f k else inhabitant.
Proof. rewrite lookup_total_alt, lookup_per_kinds. by case_decide. Qed.

(** ** Payload keys *)

Lemma split_bar_key k i : no_char bar k = true -> split_bar (payload_key (k, i)) = Some (k, i).
Proof.
  unfold payload_key, no_char; simpl. induction k as [|c k IH]; simpl; [done|].
  rewrite andb_true_iff, negb_true_iff. intros [Hc Hk].
  rewrite Hc. by rewrite IH.
Qed.

Lemma kinds_no_bar k : k ∈ JOB_KINDS_ALL -> no_char bar k = true.
Proof. revert k. apply Forall_forall. by repeat constructor. Qed.

(** Decoding the keys of an encoded table gives the table back. *)
Lemma rows_roundtrip (m : gmap (string * string) fields) :
  (forall k i, is_Some (m !! (k, i)) -> no_char bar k = true) ->
  list_to_map (omap (fun kf => (fun k => (k, kf.2)) <$> split_bar kf.1)
    (map_to_list (list_to_map ((fun kf => (payload_key kf.1, kf.2)) <$> map_to_list m) : gmap string fields))) = m.
Proof.
  intros Hm. set (enc := fun kf : (string * string) * fields => (payload_key kf.1, kf.2)).
  set (dec := fun kf : string * fields => (fun k => (k, kf.2)) <$> split_bar kf.1).
  assert (forall l : list ((string * string) * fields), (forall kf, kf ∈ l -> no_char bar kf.1.1 = true) -> omap dec (enc <$> l) = l) as Hdec.
  { induction l as [|[[k i] f] l IH]; intros Hl; [done|]. rewrite fmap_cons. simpl.
    unfold dec at 1; simpl. rewrite split_bar_key by (apply (Hl ((k, i), f)); by left). simpl.
    f_equal. apply IH. intros kf Hin. apply Hl. by right. }
  assert (forall kf, kf ∈ map_to_list m -> no_char bar kf.1.1 = true) as Hk.
  { intros [[k i] f] Hin%elem_of_map_to_list. apply (Hm k i). by exists f. }
  assert (NoDup (enc <$> map_to_list m).*1) as Hnd.
  { rewrite <- list_fmap_compose. apply NoDup_fmap_2_strong; [|apply NoDup_map_to_list].
    intros [[k i] f] [[k' i'] f'] H1 H2 He. simpl in He.
    pose proof (split_bar_key k i (Hk _ H1)) as S1. pose proof (split_bar_key k' i' (Hk _ H2)) as S2.
    rewrite He, S2 in S1. injection S1 as -> ->. f_equal.
    apply elem_of_map_to_list in H1, H2. congruence. }
  pose proof (map_to_list_to_map (M := gmap string) _ Hnd) as Hp.
  assert (omap dec (map_to_list (list_to_map (enc <$> map_to_list m) : gmap string fields)) ≡ₚ map_to_list m) as Hperm.
  { rewrite Hp. by rewrite Hdec. }
  etrans; [apply (list_to_map_proper _ (map_to_list m)); [|exact Hperm]|apply list_to_map_to_list].
  eapply NoDup_Permutation_proper; [apply fmap_Permutation, Hperm|apply NoDup_fst_map_to_list].
Qed.

Section persist.
Context {H : Type} `{PQ : !PriorityQueue H}.
Implicit Types (q : ingest_queue H) (s : store H).

(** ** The identity sets *)

Lemma elem_ingest_keys (ks : list string) (k i : string) :
  (k, i) ∈ (list_to_set ((fun i => (JOB_KIND_INGEST, i)) <$> ks) : gset (string * string)) <->
  k = JOB_KIND_INGEST /\ i ∈ ks.
Proof. rewrite elem_of_list_to_set, list_elem_of_fmap. naive_solver. Qed.

Lemma elem_kind_union (f : string -> list string) (ks : list string) (k i : string) :
  (k, i) ∈ (⋃ ((fun k => list_to_set ((fun i => (k, i)) <$> f k)) <$> ks) : gset (string * string)) <->
  k ∈ ks /\ i ∈ f k.
Proof.
  rewrite elem_of_union_list. split.
  - intros (X & HX & Hin). apply list_elem_of_fmap in HX as (k0 & -> & Hk0).
    apply elem_of_list_to_set, list_elem_of_fmap in Hin as (j & [= -> ->] & Hj). done.
  - intros [Hk Hi]. eexists. split; [by apply list_elem_of_fmap; exists k|].
    apply elem_of_list_to_set, list_elem_of_fmap. eauto.
Qed.

Lemma elem_queued_identities k i s :
  (forall k, lists s !!! k <> [] -> k ∈ JOB_KINDS_LIST) ->
  (k, i) ∈ queued_identities s <-> queued s k i.
Proof.
  intros Hk. unfold queued_identities, queued.
  rewrite elem_of_union, elem_ingest_keys, dict_keys_lookup, elem_kind_union.
  assert (i ∈ lists s !!! k -> k ∈ JOB_KINDS_LIST); [|tauto].
  intros Hi. apply Hk. intros E. rewrite E in Hi. by apply elem_of_nil in Hi.
Qed.

Lemma elem_inflight_identities k i s :
  (k, i) ∈ inflight_identities s <-> k ∈ JOB_KINDS_ALL /\ claimed s k i.
Proof. unfold inflight_identities. by rewrite elem_kind_union, dict_keys_lookup. Qed.

(** ** Pruning *)

Lemma lookup_prune (m : gmap (string * string) fields) (X : gset (string * string)) ki :
  filter (fun kf => kf.1 ∈ X) m !! ki = if decide (ki ∈ X) then m !! ki else None.
Proof.
  rewrite map_lookup_filter. destruct (m !! ki); simpl; [|by case_decide].
  by destruct (decide (ki ∈ X)); [rewrite option_guard_True|rewrite option_guard_False].
Qed.

(** What [persist_write] leaves of the store: rows of neither a queued nor a
    claimed identity are gone. *)
Definition pruned s : store H :=
  prune_shadow_payloads (queued_identities s)
    (prune_orphan_payloads (queued_identities s ∪ inflight_identities s) s).

Lemma store_wf_pruned s : store_wf s -> store_wf (pruned s).
Proof.
  intros [Hc Hm]. assert (same_queues s (pruned s)) as Hq by (by split_and!).
  constructor; [by eapply same_queues_core|].
  intros k i. specialize (Hm k i). unfold mirrored in *.
  rewrite (decide_ext _ _ _ _ (same_queues_queued _ _ k i Hq)).
  unfold pruned; simpl. rewrite !lookup_prune, Hm.
  pose proof (elem_queued_identities k i s (sw_kinds s Hc)) as He.
  repeat case_decide; try done; set_solver.
Qed.

Lemma store_wf_persist s : store_wf s -> store_wf (persist_write s).2.
Proof. intros Hw. unfold persist_write. case_decide; [done|]. by apply store_wf_pruned. Qed.

(** ** The written document *)

Lemma sort_by_key_perm (d : dict string Z) : dict_items (sort_by_key d) ≡ₚ dict_items d.
Proof. apply merge_sort_Permutation. Qed.

Lemma sort_by_key_wf (d : dict string Z) : dict_wf d -> dict_wf (sort_by_key d).
Proof. unfold dict_wf, dict_keys. by rewrite sort_by_key_perm. Qed.

Lemma sort_by_key_equiv (d : dict string Z) : dict_wf d -> sort_by_key d ≡ d.
Proof.
  intros Hd k. apply option_eq. intros v.
  rewrite <- !dict_items_lookup by auto using sort_by_key_wf. by rewrite sort_by_key_perm.
Qed.

(** The document of a store, when it has a directory. *)
Definition snapshot s : document :=
  Document (sort_by_key (ingest (iq s))) (lists s)
    ((fun p => merge_sort String.le (elements p)) <$> pending s)
    (list_to_map ((fun kf => (payload_key kf.1, kf.2)) <$>
       map_to_list (filter (fun kf => kf.1 ∈ queued_identities s) (shadow_payloads (shd s))))).

Lemma persist_write_doc s :
  store_wf s -> archive_dir s <> EmptyString -> (persist_write s).1 = Some (snapshot s).
Proof.
  intros [Hc _] Hd. unfold persist_write. rewrite decide_False by done. cbn [fst].
  unfold snapshot. simpl. by rewrite (sw_shadow_ingest s Hc), (sw_shadow_lists s Hc), (sw_shadow_pending s Hc).
Qed.

Lemma snapshot_pending s k :
  (list_to_set (doc_pending (snapshot s) !!! k) : gset string) = pending s !!! k.
Proof.
  simpl. rewrite lookup_total_alt, lookup_fmap, lookup_total_alt.
  destruct (pending s !! k) as [p|]; simpl; [|done].
  apply leibniz_equiv. rewrite merge_sort_Permutation. by rewrite list_to_set_elements.
Qed.

Lemma snapshot_wf s : store_wf s -> doc_wf (snapshot s).
Proof.
  intros [Hc _]. constructor.
  - by apply sort_by_key_wf, (sw_iq s Hc).
  - apply (sw_nodup s Hc).
  - intros k. rewrite snapshot_pending. apply (sw_pending s Hc).
Qed.

(** ** Rebuilding the heaps and the counters *)

Definition push_all (l : list (string * Z)) q : ingest_queue H :=
  foldl (fun q p => ingest_heap_push p.1 p.2 q) q l.

Lemma push_all_spec l q :
  (forall i sc, (i, sc) ∈ l -> ingest q !! i = Some sc) -> heaps_sep q ->
  ingest (push_all l q) = ingest q /\ heaps_sep (push_all l q) /\
  (forall i sc, (i, sc) ∈ l \/ (ingest q !! i = Some sc /\ covered q i sc) -> covered (push_all l q) i sc).
Proof.
  revert q. induction l as [|[i sc] l IH]; intros q Hl Hs; simpl.
  - split_and!; [done..|]. intros i sc [[]%elem_of_nil|[_ ?]]. done.
  - destruct (IH (ingest_heap_push i sc q)) as (E & Hs' & Hc).
    + intros j t Hj. rewrite ingest_push. apply Hl. by right.
    + by apply heaps_sep_push.
    + rewrite ingest_push in *. split_and!; [done..|].
      intros j t [[[= -> ->]|Hin]%elem_of_cons|[Hj Hcov]]; apply Hc.
      * right. split; [apply Hl; by left|apply covered_pushed].
      * by left.
      * right. split; [done|by apply covered_push].
Qed.

Lemma foldl_counts (l : list Z) a b :
  foldl (fun hc sc => if decide (decode_ingest_band sc = "hot") then (hc.1 + 1, hc.2) else (hc.1, hc.2 + 1)) (a, b) l =
  (a + Z.of_nat (length (filter (fun sc => decode_ingest_band sc = "hot") l)),
   b + Z.of_nat (length (filter (fun sc => decode_ingest_band sc = "catchup") l))).
Proof.
  revert a b. induction l as [|sc l IH]; intros a b; [by rewrite !Z.add_0_r|].
  rewrite !filter_length_cons. cbn [foldl].
  destruct (band_hot_or_catchup sc) as [E|E]; rewrite E; simpl; rewrite IH; f_equal; lia.
Qed.

Lemma count_band_values b (d : dict string Z) :
  count_band b d = Z.of_nat (length (filter (fun sc => decode_ingest_band sc = b) (dict_values d))).
Proof.
  unfold count_band, dict_values. f_equal. induction (dict_items d) as [|[i sc] l IH]; [done|].
  rewrite fmap_cons, !filter_length_cons, IH. done.
Qed.

Lemma rebuild_counts_ok q : counts_ok (rebuild_ingest_band_counts q).
Proof.
  unfold rebuild_ingest_band_counts. rewrite foldl_counts. unfold counts_ok; simpl.
  by rewrite !count_band_values.
Qed.

Lemma iq_wf_rebuild q : dict_wf (ingest q) -> iq_wf (rebuild_ingest_band_counts (ingest_rebuild_heaps q)).
Proof.
  intros Hd. pose (q0 := IngestQueue (ingest q) pq_empty pq_empty pq_empty (ingest_hot_n q) (ingest_catchup_n q) : ingest_queue H).
  destruct (push_all_spec (dict_items (ingest q)) q0) as (E & Hs & Hc).
  { intros i sc. by apply dict_elem_lookup. }
  { split_and!; intros k; simpl; rewrite pq_items_empty; by intros []%elem_of_nil. }
  change (push_all _ q0) with (ingest_rebuild_heaps q) in *. simpl in E.
  pose proof (rebuild_counts_ok (ingest_rebuild_heaps q)) as Hn.
  unfold rebuild_ingest_band_counts in *. destruct (foldl _ _ _) as [a b].
  constructor; try done.
  - simpl. by rewrite E.
  - intros i sc Hi. simpl in Hi. rewrite E in Hi. apply Hc. left. by apply dict_lookup_elem.
Qed.

Lemma ingest_rebuild q : ingest (ingest_rebuild_heaps q) = ingest q.
Proof.
  unfold ingest_rebuild_heaps. generalize (dict_items (ingest q)). intros l.
  set (q0 := IngestQueue _ _ _ _ _ _). change (ingest q) with (ingest q0). generalize q0. clear.
  induction l as [|p l IH]; intros q; simpl; [done|]. by rewrite IH, ingest_push.
Qed.

Lemma ingest_rebuild_counts q : ingest (rebuild_ingest_band_counts q) = ingest q.
Proof. unfold rebuild_ingest_band_counts. by destruct (foldl _ _ _). Qed.

(** ** The reload *)

Lemma load_fields doc s :
  archive_dir s <> EmptyString ->
  ingest (iq (load doc s)) = doc_ingest doc /\
  (forall k, lists (load doc s) !!! k = if decide (k ∈ JOB_KINDS_LIST) then doc_lists doc !!! k else []) /\
  (forall k, pending (load doc s) !!! k =
    if decide (k ∈ JOB_KINDS_LIST) then list_to_set (doc_pending doc !!! k) else ∅) /\
  (forall k, inflight (load doc s) !!! k = ∅) /\ leases (load doc s) = ∅.
Proof.
  intros Hd. unfold load. rewrite decide_False by done. cbn -[JOB_KINDS_LIST list_to_map rebuild_ingest_band_counts].
  split_and!; [by rewrite ingest_rebuild_counts, ingest_rebuild| | | |done].
  - intros k. exact (total_per_kinds (fun k => doc_lists doc !!! k) JOB_KINDS_LIST k).
  - intros k. exact (total_per_kinds (fun k => list_to_set (doc_pending doc !!! k) : gset string) JOB_KINDS_LIST k).
  - intros k. unfold per_kind. pose proof (total_per_kinds (fun _ => ∅ : dict string inflight_entry) JOB_KINDS_ALL k) as E.
    rewrite E. by case_decide.
Qed.

Lemma load_not_claimed doc s k i : archive_dir s <> EmptyString -> ~ claimed (load doc s) k i.
Proof. intros Hd. unfold claimed. destruct (load_fields doc s Hd) as (_ & _ & _ & -> & _). by intros []. Qed.

(** The payload rows of a document. *)
Definition doc_rows (doc : document) : gmap (string * string) fields :=
  list_to_map (omap (fun kf => (fun k => (k, kf.2)) <$> split_bar kf.1) (map_to_list (doc_payloads doc))).

(** The state of [load] before the orphan rows are pruned and the shadow rebuilt. *)
Definition load_rows (doc : document) s : store H :=
  let lists_built := list_to_map ((fun k => (k, doc_lists doc !!! k)) <$> JOB_KINDS_LIST) in
  let pending_built :=
    list_to_map ((fun k => (k, list_to_set (doc_pending doc !!! k))) <$> JOB_KINDS_LIST) in
  with_leases ∅ (with_inflight (per_kind ∅)
    (with_payloads (doc_rows doc) (with_pending pending_built (with_lists lists_built
      (with_iq (ingest_rebuild_heaps (with_ingest (doc_ingest doc) (iq s))) s))))).

Lemma load_eq doc s :
  archive_dir s <> EmptyString ->
  load doc s =
  (let s1 := load_rows doc s in
   let s2 := rebuild_shadow (prune_orphan_payloads (queued_identities s1) s1) in
   let s3 := with_iq (rebuild_ingest_band_counts (iq s2)) s2 in
   with_writer (clear_dirty (wr s3)) s3).
Proof. intros Hd. unfold load. by rewrite decide_False by done. Qed.

Lemma load_payloads doc s k i :
  archive_dir s <> EmptyString ->
  payloads (load doc s) !! (k, i) =
    (if decide (queued (load doc s) k i) then doc_rows doc !! (k, i) else None) /\
  mirrored (load doc s) k i.
Proof.
  intros Hd. set (s1 := load_rows doc s).
  assert (forall k, lists s1 !!! k <> [] -> k ∈ JOB_KINDS_LIST) as Hk.
  { intros k' Hne.
    pose proof (total_per_kinds (fun k => doc_lists doc !!! k) JOB_KINDS_LIST k' : lists s1 !!! k' = _) as E.
    rewrite E in Hne. by case_decide. }
  pose (s2 := prune_orphan_payloads (queued_identities s1) s1).
  assert (queued (load doc s) k i <-> queued s1 k i) as Hq.
  { rewrite load_eq by done. unfold queued; simpl. by rewrite ingest_rebuild_counts. }
  assert (payloads (load doc s) = payloads s2) as Ep by (by rewrite load_eq by done).
  assert (shadow_payloads (shd (load doc s)) = filter (fun kf => kf.1 ∈ queued_identities s2) (payloads s2)) as Es
    by (by rewrite load_eq by done).
  pose proof (elem_queued_identities k i s1 Hk) as E1. pose proof (elem_queued_identities k i s2 Hk) as E2.
  change (queued s2 k i) with (queued s1 k i) in E2.
  assert (payloads s2 !! (k, i) = if decide ((k, i) ∈ queued_identities s1) then doc_rows doc !! (k, i) else None)
    as Er by apply lookup_prune.
  split.
  - rewrite Ep, Er. repeat case_decide; naive_solver.
  - unfold mirrored. rewrite Es, lookup_prune, Ep, Er. repeat case_decide; naive_solver.
Qed.

Lemma load_iq doc s :
  archive_dir s <> EmptyString ->
  iq (load doc s) = rebuild_ingest_band_counts (ingest_rebuild_heaps (with_ingest (doc_ingest doc) (iq s))).
Proof. intros Hd. by rewrite load_eq by done. Qed.

Lemma load_shadow doc s :
  archive_dir s <> EmptyString ->
  shadow_ingest (shd (load doc s)) = ingest (iq (load doc s)) /\
  shadow_lists (shd (load doc s)) = lists (load doc s) /\
  shadow_pending (shd (load doc s)) = pending (load doc s).
Proof. intros Hd. rewrite load_eq by done. simpl. by rewrite ingest_rebuild_counts. Qed.

Lemma store_wf_load doc s : doc_wf doc -> archive_dir s <> EmptyString -> store_wf (load doc s).
Proof.
  intros Hdoc Hd. destruct (load_fields doc s Hd) as (Ei & El & Epd & Einf & Els).
  constructor; [|intros k i; by apply load_payloads].
  destruct (load_shadow doc s Hd) as (S1 & S2 & S3). constructor; try done.
  - rewrite load_iq by done. by apply iq_wf_rebuild, Hdoc.
  - intros k. rewrite El. case_decide; [apply Hdoc|apply NoDup_nil_2].
  - intros k. rewrite Epd, El. case_decide; [apply Hdoc|done].
  - intros k. rewrite El. by case_decide.
  - intros k i Hcl. by apply load_not_claimed in Hcl.
  - intros k i Hcl. by apply load_not_claimed in Hcl.
  - intros k. rewrite Einf. apply dict_wf_empty.
  - rewrite Els. apply dict_wf_empty.
  - intros k i. by rewrite Els, Einf.
Qed.

(** ** The round trip *)

Lemma snapshot_rows s k i :
  store_wf s -> doc_rows (snapshot s) !! (k, i) = if decide (queued s k i) then payloads s !! (k, i) else None.
Proof.
  intros [Hc Hm]. unfold doc_rows, snapshot; simpl.
  pose proof (elem_queued_identities k i s (sw_kinds s Hc)) as He.
  rewrite rows_roundtrip.
  - rewrite lookup_prune, (Hm k i). repeat case_decide; naive_solver.
  - intros k' i'. rewrite lookup_prune. case_decide as Hq; [|by intros []].
    intros _. apply kinds_no_bar.
    apply elem_queued_identities in Hq; [|apply (sw_kinds s Hc)].
    destruct Hq as [[-> _]|Hin]; [by left|]. right. apply (sw_kinds s Hc).
    intros E. rewrite E in Hin. by apply elem_of_nil in Hin.
Qed.

(** The durable half of two stores agrees. *)
Record same_durable s s' : Prop := {
  sd_ingest : ingest (iq s') ≡ ingest (iq s);
  sd_lists : forall k, lists s' !!! k = lists s !!! k;
  sd_rows : forall k i, queued s k i -> payloads s' !! (k, i) = payloads s !! (k, i);
}.

Lemma same_durable_queued s s' k i : same_durable s s' -> queued s' k i <-> queued s k i.
Proof. intros [Hi Hl _]. unfold queued. by rewrite Hl, (Hi i). Qed.

Lemma reload_durable s s0 :
  store_wf s -> archive_dir s0 <> EmptyString -> same_durable s (load (snapshot s) s0).
Proof.
  intros Hw Hd. pose proof Hw as [Hc _]. destruct (load_fields (snapshot s) s0 Hd) as (Ei & El & _).
  assert (ingest (iq (load (snapshot s) s0)) ≡ ingest (iq s)) as Hi.
  { rewrite Ei. apply sort_by_key_equiv, (sw_iq s Hc). }
  assert (forall k, lists (load (snapshot s) s0) !!! k = lists s !!! k) as Hl.
  { intros k. rewrite El. case_decide as Hk; [done|].
    destruct (decide (lists s !!! k = [])) as [->|Hne]; [done|]. by apply (sw_kinds s Hc) in Hne. }
  constructor; [done..|]. intros k i Hq.
  destruct (load_payloads (snapshot s) s0 k i Hd) as [-> _].
  rewrite decide_True, snapshot_rows, decide_True by done || (unfold queued in *; by rewrite Hl, (Hi i)).
  done.
Qed.
End persist.
