(* ===== verification/JobStoreSteps.v ===== *)
(** The job store as a transition system.

    [step] has one rule per operation that can change the store, in the terms of
    the module functions the rest of the program calls.  Every rule keeps
    [store_wf], and every rule that changes the durable half of the store marks
    the write-behind writer. *)
From S2P Require Import Prelude PyDict PriorityQueue PyStr IngestScore LeaseOwner WriteBehind JobStore JobStoreInv JobStoreOps JobStorePersist.
Local Open Scope Z_scope.

Section steps.
Context {H : Type} `{PQ : !PriorityQueue H}.
Implicit Types (q : ingest_queue H) (s : store H).

(** ** The steps *)

Inductive step : store H -> store H -> Prop :=
| step_zadd cfg s i sc fp over : step s (zadd_ingest_job cfg s i sc fp over).2
| step_evict s day r : evict_youngest_catchup_ingest day s = Some r -> step s r.2
| step_enqueue cfg s k i r : enqueue_list_job cfg s k i true = Ok r -> step s r.2
| step_claim_ingest cfg s b o n ttl now r :
    claim_ingest_jobs cfg s b o n ttl now = Some (Ok r) -> step s r.2
| step_claim_list cfg s k o ttl now r : claim_list_job cfg s k o ttl now = Ok r -> step s r.2
| step_ack s k i o : step s (ack_job s k i o).2
| step_requeue s k i o sc : step s (requeue_job s k i o sc).2
| step_renew cfg s k i o ttl now : step s (renew_job_lease cfg k i o ttl now s).2
| step_extend s k i ext now : step s (extend_inflight_deadline k i ext now s).2
| step_reap s k now limit : step s (reap_expired_inflight k now limit s).2
| step_steal s alive host boot : step s (steal_dead_owner_leases alive host boot s).2
| step_steal_one s k i alive host boot : step s (steal_job_lease_if_owner_dead k i alive host boot s).2
| step_reconcile s k local o : step s (reconcile_this_owner_orphan_leases k local o s).2
| step_fingerprint s k i fp : step s (write_job_fingerprint k i fp s)
| step_field s k i n v : step s (write_job_payload_field k i n v s)
| step_bump s k i : step s (bump_job_attempt k i s).2
| step_reorder s k l : step s (reorder_list k l s).2
| step_persist s : step s (persist_write s).2.

(** A store the process can be in. *)
Inductive reachable : store H -> Prop :=
| reach_open dir interval now doc : doc_wf doc -> reachable (open_store dir interval now doc)
| reach_step s s' : reachable s -> step s s' -> reachable s'.

(** ** The invariant *)

Lemma store_wf_empty dir interval : store_wf (empty_store dir interval : store H).
Proof.
  assert (forall k, (per_list_kind [] : gmap string (list string)) !!! k = []) as El.
  { intros k. unfold per_list_kind. pose proof (total_per_kinds (fun _ => [] : list string) JOB_KINDS_LIST k) as E.
    rewrite E. by case_decide. }
  assert (forall k, (per_list_kind ∅ : gmap string (gset string)) !!! k = ∅) as Ep.
  { intros k. pose proof (total_per_kinds (fun _ => ∅ : gset string) JOB_KINDS_LIST k) as E.
    etrans; [exact E|]. by case_decide. }
  assert (forall k, (per_kind ∅ : gmap string (dict string inflight_entry)) !!! k = ∅) as Ei.
  { intros k. pose proof (total_per_kinds (fun _ => ∅ : dict string inflight_entry) JOB_KINDS_ALL k) as E.
    etrans; [exact E|]. by case_decide. }
  assert (forall k i, ~ claimed (empty_store dir interval) k i) as Hn
    by (intros k i; unfold claimed; simpl; rewrite Ei; by intros []).
  constructor; [constructor|]; unfold empty_store; cbn [iq lists pending inflight leases shd
    shadow_ingest shadow_lists shadow_pending]; try done.
  - constructor; [apply dict_wf_empty|done| |done].
    split_and!; intros k; simpl; rewrite pq_items_empty; by intros []%elem_of_nil.
  - intros k. rewrite El. apply NoDup_nil_2.
  - intros k. by rewrite El, Ep.
  - intros k. by rewrite El.
  - intros k i Hcl. by apply Hn in Hcl.
  - intros k i Hcl. by apply Hn in Hcl.
  - intros k. rewrite Ei. apply dict_wf_empty.
  - apply dict_wf_empty.
  - intros k i. by rewrite Ei.
  - intros k i. unfold mirrored. etrans; [apply lookup_empty|]. case_decide; [|done]. symmetry. apply lookup_empty.
Qed.

Lemma store_wf_writer w s : store_wf s -> store_wf (with_writer w s).
Proof. intros [Hc Hm]. constructor; [by apply (same_queues_core s)|exact Hm]. Qed.

Lemma store_wf_open dir interval now doc : doc_wf doc -> store_wf (open_store dir interval now doc : store H).
Proof.
  intros Hdoc. unfold open_store. case_decide; [apply store_wf_empty|].
  by apply store_wf_writer, store_wf_load.
Qed.

Lemma store_wf_steal_one k i alive host boot s :
  store_wf s -> store_wf (steal_job_lease_if_owner_dead k i alive host boot s).2.
Proof.
  intros Hw. unfold steal_job_lease_if_owner_dead.
  destruct (leases s !! (k, i)) as [o|] eqn:El; [|done].
  destruct (decide (o = "")) as [|Hne]; [done|]. destruct (negb _); [done|].
  pose proof (store_wf_requeue k i o None s Hw) as Hr.
  assert (owns k i o s = true) as Ho.
  { apply owns_spec. split; [done|]. pose proof (sw_leases s (sw_core s Hw) k i) as E.
    rewrite El in E. destruct ((inflight s !!! k) !! i) as [e|]; [|done]. exists e. split; [done|].
    simpl in E. congruence. }
  unfold requeue in *. by rewrite Ho in *.
Qed.

Lemma step_wf s s' : step s s' -> store_wf s -> store_wf s'.
Proof.
  destruct 1; intros Hw.
  - by apply store_wf_zadd.
  - by eapply store_wf_evict_loop.
  - by eapply store_wf_enqueue.
  - by eapply store_wf_claim_ingest.
  - by eapply store_wf_claim_list.
  - by apply store_wf_ack.
  - by apply store_wf_requeue.
  - by apply store_wf_renew.
  - by apply store_wf_extend.
  - by apply store_wf_reap.
  - by apply store_wf_steal_loop.
  - by apply store_wf_steal_one.
  - by apply store_wf_reconcile_loop.
  - by apply store_wf_write_fingerprint.
  - by apply store_wf_write_field.
  - by apply store_wf_bump.
  - by apply store_wf_reorder.
  - by apply store_wf_persist.
Qed.

Lemma reachable_wf s : reachable s -> store_wf s.
Proof. induction 1; [by apply store_wf_open|by eapply step_wf]. Qed.
End steps.

(** ** A small run, for concrete instances *)
Module Demo.
Import MinScan.

Definition hot_score : Z := 5.
Definition day_score (day tie : Z) : Z := CATCHUP_SCORE_BASE + day * SCORE_STRIDE + tie.

Definition owner : string := "nonce:host:boot:7".

(** A store opened on an empty directory, with a hot file, two catchup files and
    an append job. *)
Definition s0 : store (list qkey) := open_store "/archive" 30 0 empty_document.
Definition s1 := (zadd_ingest_job default_config s0 "/raw/b" (day_score 738001 3) (Some "10|20") false).2.
Definition s2 := (zadd_ingest_job default_config s1 "/raw/a" (day_score 738000 9) None false).2.
Definition s3 := (zadd_ingest_job default_config s2 "/raw/h" hot_score None false).2.
Definition s4 : store (list qkey) :=
  match enqueue_list_job default_config s3 JOB_KIND_APPEND "/tar/x" true with
  | Ok r => r.2
  | Raise _ => s3
  end.

(** The same store with [/raw/a] claimed. *)
Definition s5 : store (list qkey) :=
  match claim_ingest_jobs default_config s4 "catchup" owner 1 (Some 100) 1000 with
  | Some (Ok r) => r.2
  | _ => s4
  end.

Definition jobs5 : list ClaimedJob :=
  match claim_ingest_jobs default_config s4 "catchup" owner 1 (Some 100) 1000 with
  | Some (Ok r) => r.1
  | _ => []
  end.

(** A hot claim. *)
Definition s6 : store (list qkey) :=
  match claim_ingest_jobs default_config s5 "hot" owner 1 (Some 100) 1000 with
  | Some (Ok r) => r.2
  | _ => s5
  end.

(** Every process is dead. *)
Definition nobody (_ : Z) : bool := false.

Lemma s0_reachable : reachable s0.
Proof. apply reach_open, empty_document_wf. Qed.

Lemma s4_reachable : reachable s4.
Proof.
  assert (reachable s3) as H3.
  { eapply reach_step; [|apply step_zadd]. eapply reach_step; [|apply step_zadd].
    eapply reach_step; [apply s0_reachable|apply step_zadd]. }
  unfold s4. destruct (enqueue_list_job _ _ _ _ _) as [r|] eqn:E; [|exact H3].
  eapply reach_step; [exact H3|by eapply step_enqueue].
Qed.

Lemma s5_reachable : reachable s5.
Proof.
  unfold s5. destruct (claim_ingest_jobs _ _ _ _ _ _ _) as [[r|]|] eqn:E; [|exact s4_reachable..].
  eapply reach_step; [exact s4_reachable|by eapply step_claim_ingest].
Qed.

Lemma s6_reachable : reachable s6.
Proof.
  unfold s6. destruct (claim_ingest_jobs _ _ _ _ _ _ _) as [[r|]|] eqn:E; [|exact s5_reachable..].
  eapply reach_step; [exact s5_reachable|by eapply step_claim_ingest].
Qed.

Lemma claim5 : claim_ingest_jobs default_config s4 "catchup" owner 1 (Some 100) 1000 = Some (Ok (jobs5, s5)).
Proof.
  unfold jobs5, s5. destruct (claim_ingest_jobs _ _ _ _ _ _ _) as [[[jobs s]|]|] eqn:E; [done|..];
    exfalso; by vm_compute in E.
Qed.
End Demo.
