(* ===== verification/JobStoreClaim.v ===== *)
(** [claim_ingest] refines "take the best live items of the band".

    The code pops a lazily maintained heap: stale entries are dropped or re-armed
    until enough live ones came up.  [claim_spec] is what it promises: sort the live
    items of the band by (score, identity), take the first [n], claim each.  The
    loop gives exactly that result, up to the contents of the heaps ([≡] on
    stores), within the fuel of [claim_fuel]: every round lowers [work]. *)
From S2P Require Import Prelude PyDict PriorityQueue PyStr IngestScore LeaseOwner WriteBehind JobStore JobStoreInv JobStoreOps.
Local Open Scope Z_scope.

Section claim.
Context {H : Type} `{PQ : !PriorityQueue H}.
Implicit Types (q : ingest_queue H) (s : store H).

(** ** Stores up to their heaps *)

Definition forget_heaps q : ingest_queue H :=
  IngestQueue (ingest q) pq_empty pq_empty pq_empty (ingest_hot_n q) (ingest_catchup_n q).

#[export] Instance queue_equiv : Equiv (ingest_queue H) := fun q1 q2 => forget_heaps q1 = forget_heaps q2.
#[export] Instance store_equiv : Equiv (store H) := fun s1 s2 =>
  with_iq (forget_heaps (iq s1)) s1 = with_iq (forget_heaps (iq s2)) s2.

#[export] Instance queue_equivalence : Equivalence (≡@{ingest_queue H}).
Proof. split; [done|by intros ??|intros ??? E1 E2; unfold equiv, queue_equiv in *; congruence]. Qed.

#[export] Instance store_equivalence : Equivalence (≡@{store H}).
Proof. split; [done|by intros ??|intros ??? E1 E2; unfold equiv, store_equiv in *; congruence]. Qed.

Lemma store_equiv_intro q s : q ≡ iq s -> with_iq q s ≡ s.
Proof. intros E. unfold equiv, store_equiv; simpl. by rewrite E. Qed.

#[export] Instance ingest_pop_proper i : Proper ((≡) ==> (≡)) (fun s => (ingest_pop i s).2).
Proof.
  intros s1 s2 E. unfold equiv, store_equiv in *. destruct s1 as [? q1 ???????], s2 as [? q2 ???????].
  destruct q1, q2. unfold with_iq, forget_heaps in E; simpl in E. injection E; intros; subst.
  unfold ingest_pop; simpl. case_match; [|done]. simpl. unfold ingest_band_dec. by case_decide.
Qed.

#[export] Instance record_claim_proper k i o d sc : Proper ((≡) ==> (≡)) (record_claim k i o d sc).
Proof.
  intros s1 s2 E. unfold equiv, store_equiv in *. destruct s1 as [? q1 ???????], s2 as [? q2 ???????].
  destruct q1, q2. unfold with_iq, forget_heaps in E; simpl in E. by injection E; intros; subst.
Qed.

#[export] Instance mark_dirty_proper : Proper ((≡) ==> (≡)) (mark_dirty_locked (H := H)).
Proof.
  intros s1 s2 E. unfold equiv, store_equiv in *. destruct s1 as [? q1 ???????], s2 as [? q2 ???????].
  destruct q1, q2. unfold with_iq, forget_heaps in E; simpl in E. by injection E; intros; subst.
Qed.

Lemma set_heap_equiv b h q : set_heap_for_band b h q ≡ q.
Proof. unfold set_heap_for_band. by case_decide. Qed.

Lemma heap_push_equiv i sc q : ingest_heap_push i sc q ≡ q.
Proof. unfold ingest_heap_push, set_heap_for_band. by repeat case_decide. Qed.

(** ** The specification *)

Definition live_keys b q : list qkey :=
  filter (fun k => decode_ingest_band k.1 = b) ((fun p => (p.2, p.1)) <$> dict_items (ingest q)).

(** The live items of a band, best first. *)
Definition band_queue b q : list qkey := merge_sort qkey_le (live_keys b q).

Definition claim_one (o : string) (d : Z) s (k : qkey) : store H :=
  record_claim JOB_KIND_INGEST k.2 o d (Some k.1) (ingest_pop k.2 s).2.

Definition job_of (o : string) (d : Z) (rows : gmap (string * string) fields) (k : qkey) : ClaimedJob :=
  let f := rows !!! (JOB_KIND_INGEST, k.2) in
  {| cj_kind := JOB_KIND_INGEST; cj_identity := k.2; cj_owner_token := o; cj_deadline := d;
     cj_score := Some k.1; cj_fingerprint := field "fingerprint" f; cj_emit := field "emit" f |}.

Definition claim_spec b (o : string) (d : Z) (n : nat) s : list ClaimedJob * store H :=
  let taken := take n (band_queue b (iq s)) in
  (job_of o d (payloads s) <$> taken, foldl (claim_one o d) s taken).

#[export] Instance claim_all_proper o d l : Proper ((≡) ==> (≡)) (fun s => foldl (claim_one o d) s l).
Proof.
  induction l as [|k l IH]; intros s1 s2 E; simpl; [done|]. apply IH. unfold claim_one. f_equiv. by apply ingest_pop_proper.
Qed.

Lemma elem_live_keys b q sc i :
  dict_wf (ingest q) -> (sc, i) ∈ live_keys b q <-> ingest q !! i = Some sc /\ decode_ingest_band sc = b.
Proof.
  intros Hd. unfold live_keys. rewrite list_elem_of_filter, list_elem_of_fmap. simpl. split.
  - intros [Hb ([j t] & [= -> ->] & Hin)]. by apply (dict_elem_lookup _ _ _ Hd) in Hin.
  - intros [Hl Hb]. split; [done|]. exists (i, sc). by split; [|apply dict_lookup_elem].
Qed.

Lemma band_queue_perm b q : band_queue b q ≡ₚ live_keys b q.
Proof. apply merge_sort_Permutation. Qed.

Lemma band_queue_same b q q' : ingest q' = ingest q -> band_queue b q' = band_queue b q.
Proof. intros E. unfold band_queue, live_keys. by rewrite E. Qed.

Lemma live_keys_delete b q q' sc i :
  dict_wf (ingest q) -> ingest q !! i = Some sc -> decode_ingest_band sc = b ->
  ingest q' = delete i (ingest q) -> live_keys b q ≡ₚ (sc, i) :: live_keys b q'.
Proof.
  intros Hd Hl Hb E. unfold live_keys.
  rewrite E, (dict_items_delete_perm _ _ _ Hd Hl), fmap_cons, filter_cons, decide_True by done. done.
Qed.

(** The head of the heap, when live, is the head of the band's queue. *)
Lemma band_queue_cons b q q' sc i h' :
  b = "hot" \/ b = "catchup" -> iq_wf q -> pq_pop (ingest_heap_for_band b q) = Some ((sc, i), h') ->
  ingest q !! i = Some sc -> ingest q' = delete i (ingest q) ->
  band_queue b q = (sc, i) :: band_queue b q'.
Proof.
  intros Hb [Hd Hc Hs Hn] Hp Hl E.
  destruct (heaps_after_pop b q sc i h' Hb Hs Hp) as (Hband & _).
  pose proof (live_keys_delete b q q' sc i Hd Hl Hband E) as Hperm.
  apply (StronglySorted_unique qkey_le).
  - apply (StronglySorted_merge_sort qkey_le).
  - apply SSorted_cons; [apply (StronglySorted_merge_sort qkey_le)|].
    apply Forall_forall. intros [t j] Hin. rewrite band_queue_perm in Hin.
    assert ((t, j) ∈ live_keys b q) as Hin' by (rewrite Hperm; by right).
    apply elem_live_keys in Hin' as [Hj Ht]; [|done].
    eapply pq_pop_min; [exact Hp|]. destruct (Hc j t Hj) as [Hm _]. by rewrite Ht in Hm.
  - by rewrite !band_queue_perm.
Qed.

Lemma band_queue_nil b q :
  iq_wf q -> pq_pop (ingest_heap_for_band b q) = None -> band_queue b q = [].
Proof.
  intros [Hd Hc _ _] Hp%pq_pop_None.
  destruct (band_queue b q) as [|[sc i] l] eqn:E; [done|exfalso].
  assert ((sc, i) ∈ live_keys b q) as Hin by (rewrite <- band_queue_perm, E; by left).
  apply elem_live_keys in Hin as [Hl Hb]; [|done].
  destruct (Hc i sc Hl) as [Hm _]. rewrite Hb, Hp in Hm. by apply elem_of_nil in Hm.
Qed.

(** ** Why the loop ends *)

(** Rounds a heap entry can cost: an entry whose identity has another score now is
    popped and pushed back once. *)
Definition weight q (k : qkey) : nat :=
  match ingest q !! k.2 with
  | Some live => if decide (live = k.1) then 1%nat else 2%nat
  | None => 1%nat
  end.

Definition work b q : nat := sum_list_with (weight q) (pq_items (ingest_heap_for_band b q)).

Lemma weight_pos q k : (1 <= weight q k)%nat.
Proof. unfold weight. case_match; [case_decide|]; lia. Qed.

Lemma weight_le q k : (weight q k <= 2)%nat.
Proof. unfold weight. case_match; [case_decide|]; lia. Qed.

Lemma sum_weight_le f g (l : list qkey) :
  (forall k, (f k <= g k)%nat) -> (sum_list_with f l <= sum_list_with g l)%nat.
Proof. intros Hle. induction l as [|k l IH]; simpl; [lia|]. specialize (Hle k). lia. Qed.

Lemma work_bound b q : (work b q <= 2 * pq_len (ingest_heap_for_band b q))%nat.
Proof.
  unfold work, pq_len. induction (pq_items _) as [|k l IH]; simpl; [lia|]. pose proof (weight_le q k). lia.
Qed.

Lemma heap_set_same b h' q : ingest_heap_for_band b (set_heap_for_band b h' q) = h'.
Proof. unfold ingest_heap_for_band, set_heap_for_band. by case_decide. Qed.

Lemma weight_same q q' k : ingest q' = ingest q -> weight q' k = weight q k.
Proof. unfold weight. by intros ->. Qed.

Lemma work_pop b q k h' :
  pq_pop (ingest_heap_for_band b q) = Some (k, h') ->
  work b q = (weight q k + work b (set_heap_for_band b h' q))%nat.
Proof.
  intros Hp. unfold work. rewrite heap_set_same, (pq_pop_perm _ _ _ Hp). simpl. f_equal.
  induction (pq_items h') as [|k' l IH]; simpl; [done|].
  rewrite IH. by rewrite (weight_same _ _ k' (set_heap_ingest b h' q)).
Qed.

Lemma work_push b q i live :
  b = "hot" \/ b = "catchup" -> ingest q !! i = Some live ->
  (work b (ingest_heap_push i live q) <= S (work b q))%nat.
Proof.
  intros Hb Hl. unfold work.
  assert (forall l, sum_list_with (weight (ingest_heap_push i live q)) l = sum_list_with (weight q) l) as E.
  { induction l as [|k l IH]; simpl; [done|]. rewrite IH. by rewrite (weight_same q _ k (ingest_push i live q)). }
  rewrite E. assert (weight q (live, i) = 1%nat) as Hw.
  { unfold weight; simpl. rewrite Hl. by case_decide. }
  unfold ingest_heap_push, set_heap_for_band, ingest_heap_for_band.
  destruct (band_hot_or_catchup live) as [->| ->], Hb as [->| ->]; simpl; rewrite ?pq_items_push; simpl; lia.
Qed.

Lemma work_claim b i s : (work b (iq (ingest_pop i s).2) <= work b (iq s))%nat.
Proof.
  destruct (ingest_pop_iq i s) as (E & E1 & E2 & _). unfold work.
  assert (ingest_heap_for_band b (iq (ingest_pop i s).2) = ingest_heap_for_band b (iq s)) as ->.
  { unfold ingest_heap_for_band. by rewrite E1, E2. }
  apply sum_weight_le. intros k. unfold weight. rewrite E, dict_lookup_delete.
  case_decide; [|done]. case_match; [case_decide|]; lia.
Qed.

(** ** The refinement *)

Lemma range_of_band b r sc :
  b = "hot" \/ b = "catchup" -> ingest_score_range b = Ok r -> decode_ingest_band sc = b -> in_range r sc = true.
Proof.
  intros [->| ->] [= <-] Hb; destruct (band_cases sc) as [[Hs E]|[Hs E]]; rewrite E in Hb; try done.
  - unfold in_range; simpl. apply Z.leb_le. lia.
  - unfold in_range; simpl. rewrite andb_true_r. by apply Z.leb_le.
Qed.

Lemma claim_spec_same b o d n s s' :
  ingest (iq s') = ingest (iq s) -> payloads s' = payloads s -> s' ≡ s ->
  (claim_spec b o d n s').1 = (claim_spec b o d n s).1 /\ (claim_spec b o d n s').2 ≡ (claim_spec b o d n s).2.
Proof.
  intros Ei Ep E. unfold claim_spec; simpl. rewrite (band_queue_same b (iq s) _ Ei), Ep.
  split; [done|]. by apply claim_all_proper.
Qed.

(** The result of a loop: the specified jobs, and a store equal up to heaps. *)
Definition gives (res : option (list ClaimedJob * store H)) (spec : list ClaimedJob * store H) : Prop :=
  exists s', res = Some (spec.1, s') /\ s' ≡ spec.2.

(** A round that only touches the heaps. *)
Lemma gives_same res b o d n s s' :
  gives res (claim_spec b o d n s') ->
  ingest (iq s') = ingest (iq s) -> payloads s' = payloads s -> s' ≡ s -> gives res (claim_spec b o d n s).
Proof.
  intros (s2 & -> & E) Ei Ep Es. destruct (claim_spec_same b o d n s s' Ei Ep Es) as [E1 E2].
  exists s2. split; [by rewrite E1|]. by etrans.
Qed.

Lemma claim_spec_cons b o d n s s1 sc i :
  band_queue b (iq s) = (sc, i) :: band_queue b (iq (claim_one o d s1 (sc, i))) ->
  payloads (claim_one o d s1 (sc, i)) = payloads s -> s1 ≡ s ->
  (claim_spec b o d (S n) s).1 =
    job_of o d (payloads s) (sc, i) :: (claim_spec b o d n (claim_one o d s1 (sc, i))).1 /\
  (claim_spec b o d n (claim_one o d s1 (sc, i))).2 ≡ (claim_spec b o d (S n) s).2.
Proof.
  intros Eq Ep Es. unfold claim_spec. rewrite Eq, Ep. split; [done|].
  cbn [take snd foldl]. apply claim_all_proper. unfold claim_one. f_equiv. by apply ingest_pop_proper.
Qed.

Lemma ingest_pop_payloads i s : payloads (ingest_pop i s).2 = payloads s.
Proof. unfold ingest_pop. by case_match. Qed.

Lemma claim_loop_refines fuel b range o d want s :
  b = "hot" \/ b = "catchup" -> ingest_score_range b = Ok range -> store_wf s ->
  (work b (iq s) < fuel)%nat ->
  gives (claim_loop fuel b range o d want s) (claim_spec b o d want s).
Proof.
  intros Hb Hr. revert want s. induction fuel as [|fuel IH]; intros [|want] s Hw Hf; try lia.
  1: by exists s.
  cbn [claim_loop]. destruct (pq_pop _) as [[[sc i] h']|] eqn:Hp.
  2: { exists s. unfold claim_spec. by rewrite band_queue_nil by (apply Hw || done). }
  pose proof (work_pop _ _ _ _ Hp) as Hwk. pose proof (weight_pos (iq s) (sc, i)) as Hpos.
  set (s1 := with_iq (set_heap_for_band b h' (iq s)) s).
  assert (ingest (iq s1) = ingest (iq s)) as Ei by apply set_heap_ingest.
  assert (s1 ≡ s) as Es1 by (apply store_equiv_intro, set_heap_equiv).
  change (inflight s1) with (inflight s). rewrite Ei.
  destruct (decide (is_Some _)) as [Hcl|Hncl].
  { apply (gives_same _ _ _ _ _ s s1); [|done..]. apply IH; [|simpl; lia].
    by eapply store_wf_drop_head, in_flight_stale. }
  destruct (ingest (iq s) !! i) as [live|] eqn:El.
  2: { apply (gives_same _ _ _ _ _ s s1); [|done..]. apply IH; [|simpl; lia].
       eapply store_wf_drop_head; try done. by rewrite El. }
  destruct (heaps_after_pop b (iq s) sc i h' Hb (iqw_sep _ (sw_iq s (sw_core s Hw))) Hp) as (Hband & _).
  destruct (decide (live <> sc)) as [Hne|Heq].
  { set (s2 := with_iq (ingest_heap_push i live (iq s1)) s1).
    apply (gives_same _ _ _ _ _ s s2); [|by simpl; rewrite ingest_push|done|].
    - apply IH; [by eapply (store_wf_rearm b s h' sc)|].
      assert (work b (iq s2) <= S (work b (iq s1)))%nat by (apply work_push; [done|by rewrite Ei]).
      assert (weight (iq s) (sc, i) = 2%nat) by (unfold weight; simpl; rewrite El; by rewrite decide_False).
      simpl in *; lia.
    - etrans; [|exact Es1]. by apply store_equiv_intro, heap_push_equiv. }
  assert (live = sc) as -> by (by apply dec_stable).
  rewrite (range_of_band b range sc) by done. cbn [negb].
  change (record_claim _ _ _ _ _ _) with (claim_one o d s1 (sc, i)).
  set (s3 := claim_one o d s1 (sc, i)).
  assert (payloads s3 = payloads s) as Ep by (unfold s3, claim_one; simpl; by rewrite ingest_pop_payloads).
  destruct (claim_spec_cons b o d want s s1 sc i) as [E1 E2]; [|done|done|].
  { eapply band_queue_cons; [done|apply Hw|done|done|].
    destruct (ingest_pop_iq i s1) as (E & _). by rewrite Ei in E. }
  destruct (IH want s3) as (s' & Hl & Hs').
  - by apply store_wf_claim_one.
  - pose proof (work_claim b i s1).
    unfold s3, claim_one. change (iq (record_claim _ _ _ _ _ ?x)) with (iq x). simpl in *. lia.
  - rewrite Hl. exists s'. split; [|by etrans].
    unfold job_of at 1 in E1. by rewrite E1, Ep.
Qed.
End claim.
