(* ===== verification/JobStoreSafety.v ===== *)
(** Safety of the job store: the invariant holds in every state of a run, no
    operation loses a job, and no durable change goes unmarked. *)
From S2P Require Import Prelude PyDict PriorityQueue PyStr IngestScore LeaseOwner WriteBehind JobStore JobStoreInv JobStoreOps JobStorePersist JobStoreSteps.
Local Open Scope Z_scope.

Section safety.
Context {H : Type} `{PQ : !PriorityQueue H}.
Implicit Types (q : ingest_queue H) (s : store H).

(** ** Presence *)

(** The store knows the job: it is on its queue, or claimed. *)
Definition present s (k i : string) : Prop := queued s k i \/ claimed s k i.

(** Every job but those of [gone] is kept. *)
Definition keeps_but (gone : string -> string -> Prop) s s' : Prop :=
  forall k i, present s k i -> present s' k i \/ gone k i.

Definition nothing (k i : string) : Prop := False.
Abbreviation keeps := (keeps_but nothing).

#[local] Instance keeps_refl : Reflexive keeps.
Proof. intros s k i. auto. Qed.

#[local] Instance keeps_trans : Transitive keeps.
Proof. intros s1 s2 s3 H1 H2 k i Hp. destruct (H1 k i Hp) as [|[]]. auto. Qed.

Lemma keeps_same s s' :
  ingest (iq s') = ingest (iq s) -> lists s' = lists s -> inflight s' = inflight s -> keeps s s'.
Proof. intros E1 E2 E3 k i. unfold present, queued, claimed. rewrite E1, E2, E3. auto. Qed.

Lemma keeps_ingest_set i sc s : keeps s (ingest_set i sc s).
Proof.
  intros k j [[[-> Hj]|Hj]|Hj]; left; [left; left|left; right; exact Hj|right; exact Hj].
  split; [done|]. unfold ingest_set; simpl. rewrite ingest_queue_set, dict_lookup_insert. by case_decide.
Qed.

Lemma queued_ingest_set i sc s : queued (ingest_set i sc s) JOB_KIND_INGEST i.
Proof. left. split; [done|]. unfold ingest_set; simpl. by rewrite ingest_queue_set, dict_lookup_insert_eq. Qed.

Lemma keeps_list_push k i s : keeps s (list_push k i s).
Proof.
  intros k' j [[Hj|Hj]|Hj]; left; [left; by left|left; right|by right].
  unfold list_push; simpl. rewrite total_insert. case_decide; [subst; set_solver|done].
Qed.

Lemma queued_list_push k i s : queued (list_push k i s) k i.
Proof. right. unfold list_push; simpl. rewrite total_insert_eq. set_solver. Qed.

Lemma keeps_put_back k i sc s : keeps s (put_back k i sc s).
Proof. unfold put_back. case_decide; [apply keeps_ingest_set|apply keeps_list_push]. Qed.

Lemma queued_put_back k i sc s : queued (put_back k i sc s) k i.
Proof. unfold put_back. case_decide; [subst; apply queued_ingest_set|apply queued_list_push]. Qed.

Lemma drop_claim_present k i s k' j :
  present s k' j -> (k', j) <> (k, i) -> present (drop_claim k i s) k' j.
Proof. intros [Hq|Hc] Hne; [by left|right]. by rewrite claimed_drop. Qed.

(** A dropped claim that is put back is not lost. *)
Lemma keeps_recover k i sc s : keeps s (put_back k i sc (drop_claim k i s)).
Proof.
  intros k' j Hp. left. destruct (decide ((k', j) = (k, i))) as [E|Hne].
  - simplify_eq. left. apply queued_put_back.
  - by destruct (keeps_put_back k i sc _ k' j (drop_claim_present k i s k' j Hp Hne)).
Qed.

(** A queued job that becomes a claim is not lost. *)
Lemma keeps_claim_one i o d sc s : keeps s (record_claim JOB_KIND_INGEST i o d sc (ingest_pop i s).2).
Proof.
  intros k j Hp. left. destruct (decide ((k, j) = (JOB_KIND_INGEST, i))) as [E|Hne].
  - simplify_eq. right. unfold claimed, record_claim; simpl. rewrite total_insert_eq, dict_lookup_insert_eq. by eexists.
  - destruct (ingest_pop_iq i s) as (Ei & _). destruct Hp as [Hq|Hc].
    + left. destruct Hq as [[-> Hs]|Hl].
      * left. split; [done|]. simpl. rewrite Ei, dict_lookup_delete_ne by congruence. done.
      * right. simpl. unfold ingest_pop. by case_match.
    + right. apply ingest_pop_claimed with (i := i) in Hc. unfold claimed, record_claim in *; simpl.
      rewrite total_insert. case_decide; [subst k|done].
      rewrite dict_lookup_insert. by case_decide; [eexists|].
Qed.

Lemma keeps_claim_loop fuel b range o d want s r :
  claim_loop fuel b range o d want s = Some r -> keeps s r.2.
Proof.
  revert want s r. induction fuel as [|fuel IH]; intros [|want] s r; simpl; try (by intros [= <-]); try done.
  destruct (pq_pop _) as [[[sc i] h']|] eqn:Hp; [|by intros [= <-]].
  rewrite set_heap_ingest. set (s1 := with_iq (set_heap_for_band b h' (iq s)) s).
  assert (keeps s s1) as H1 by (apply keeps_same; [apply set_heap_ingest|done..]).
  destruct (decide (is_Some _)); [intros Hr; etrans; [exact H1|eauto]|].
  destruct (ingest (iq s) !! i) as [live|]; [|intros Hr; etrans; [exact H1|eauto]].
  set (s2 := with_iq (ingest_heap_push i live (set_heap_for_band b h' (iq s))) s1).
  assert (keeps s s2) as H2 by (apply keeps_same; [by simpl; rewrite ingest_push, set_heap_ingest|done..]).
  destruct (decide (live <> sc)); [intros Hr; etrans; [exact H2|eauto]|].
  case_match; [intros Hr; etrans; [exact H2|eauto]|].
  destruct (claim_loop _ _ _ _ _ want _) as [[jobs s']|] eqn:Hr; [|done]. intros [= <-].
  etrans; [exact H1|]. etrans; [apply (keeps_claim_one i o d (Some live))|]. exact (IH want _ (jobs, s') Hr).
Qed.

Lemma keeps_claim_list_loop l k o d s :
  lists s !!! k = l -> keeps s (claim_list_loop l k o d s).2.
Proof.
  revert s. induction l as [|i l IH]; intros s Hl; simpl; [done|].
  assert (lists (list_pop k i l s) !!! k = l) as Hl2 by exact (total_insert_eq (lists s) k l).
  assert (forall k' j, present s k' j -> present (list_pop k i l s) k' j \/ (k', j) = (k, i)) as Hpop.
  { intros k' j [[Hq|Hq]|Hq]; [left; left; by left| |left; by right].
    destruct (decide (k' = k)) as [->|Hne].
    - rewrite Hl in Hq. apply elem_of_cons in Hq as [->|Hq]; [by right|].
      left. left. right. by rewrite Hl2.
    - left. left. right. unfold list_pop; simpl. by rewrite total_insert, decide_False. }
  destruct (decide (is_Some _)) as [Hcl|Hncl].
  - etrans; [|by apply IH]. intros k' j Hp. left. destruct (Hpop k' j Hp) as [|[= -> ->]]; [done|by right].
  - intros k' j Hp. left. destruct (Hpop k' j Hp) as [[Hq|Hc]|[= -> ->]]; [by left|right|right];
      unfold claimed in *; simpl; rewrite total_insert.
    + case_decide; [subst k'|done]. rewrite dict_lookup_insert. by case_decide; [eexists|].
    + rewrite decide_True, dict_lookup_insert_eq by done. by eexists.
Qed.

Lemma keeps_requeue k i o sc s : keeps s (requeue k i o sc s).2.
Proof.
  unfold requeue. destruct (owns k i o s); [|done]. simpl.
  etrans; [apply (keeps_recover k i (default CATCHUP_SCORE_BASE sc))|].
  destruct (decide (k = JOB_KIND_INGEST)); by apply keeps_same.
Qed.

Lemma keeps_reap_loop items want k cutoff s : keeps s (reap_loop items want k cutoff s).2.
Proof.
  revert want s. induction items as [|[i [[d o] sc]] items IH]; intros [|want] s; simpl; try done.
  case_match; [apply IH|].
  set (s1 := mark_dirty_locked _). specialize (IH want s1).
  destruct (reap_loop _ _ _ _ s1) as [out s']. etrans; [|exact IH].
  etrans; [apply (keeps_recover k i (penalize_ingest_score sc))|]. by apply keeps_same.
Qed.

Lemma keeps_steal_loop items alive host boot s : keeps s (steal_loop items alive host boot s).2.
Proof.
  revert s. induction items as [|[[k i] o] items IH]; intros s; simpl; [done|].
  case_match; [|apply IH]. pose proof (keeps_requeue k i o None s) as Hr.
  destruct (requeue _ _ _ _ _) as [ok s1]. specialize (IH s1).
  destruct (steal_loop _ _ _ _ s1). etrans; [exact Hr|exact IH].
Qed.

Lemma keeps_reconcile_loop items k known o s : keeps s (reconcile_loop items k known o s).2.
Proof.
  revert s. induction items as [|[i [[d o'] sc]] items IH]; intros s; simpl; [done|].
  destruct (decide (i ∈ known \/ o' <> o)); [apply IH|].
  pose proof (keeps_requeue k i o' sc s) as Hr.
  destruct (requeue _ _ _ _ _) as [ok s1]. specialize (IH s1).
  destruct (reconcile_loop _ _ _ _ s1). etrans; [exact Hr|exact IH].
Qed.

(** A claim refreshed under the same key. *)
Lemma keeps_inflight_insert k i e s :
  keeps s (with_inflight (<[k := <[i := e]> (inflight s !!! k)]> (inflight s)) s).
Proof.
  intros k' j [Hq|Hc]; left; [by left|right]. unfold claimed in *; simpl. rewrite total_insert.
  case_decide; [subst k'|done]. rewrite dict_lookup_insert. by case_decide; [eexists|].
Qed.

Lemma keeps_evict_loop fuel day s r :
  evict_loop fuel day s = Some r ->
  keeps_but (fun k j => k = JOB_KIND_INGEST /\ r.1 = Some j) s r.2.
Proof.
  revert s. induction fuel as [|fuel IH]; intros s; simpl; [done|].
  destruct (pq_pop _) as [[[sc i] h']|] eqn:Hp; [|intros [= <-]; by left].
  case_decide; [|intros Hr k j Hpr; exact (IH _ Hr k j Hpr)].
  repeat case_match; intros [= <-]; try by left.
  intros k j Hpr. destruct (decide ((k, j) = (JOB_KIND_INGEST, i))) as [E|Hne]; [simplify_eq; by right|left].
  rewrite ingest_pop_heap_max. destruct (ingest_pop_iq i s) as (Ei & _).
  destruct Hpr as [[[-> Hs]|Hl]|Hc].
  - left. left. split; [done|]. simpl. rewrite Ei, dict_lookup_delete_ne by congruence. done.
  - left. right. simpl. unfold ingest_pop. by case_match.
  - right. by apply ingest_pop_claimed with (i := i) in Hc.
Qed.

(** The two operations that end a job: an owner's [ack], and an eviction. *)
Inductive ends_job s s' (k i : string) : Prop :=
| ends_ack o : ack_job s k i o = (true, s') -> ends_job s s' k i
| ends_evict day : k = JOB_KIND_INGEST ->
    evict_youngest_catchup_ingest day s = Some (Some i, s') -> ends_job s s' k i.

Lemma ack_ends k i o s : keeps_but (ends_job s (ack k i o s).2) s (ack k i o s).2.
Proof.
  intros k' j Hp. destruct (owns k i o s) eqn:Ho.
  - destruct (decide ((k', j) = (k, i))) as [E|Hne].
    + simplify_eq. right. apply (ends_ack _ _ _ _ o). unfold ack_job, ack. by rewrite Ho.
    + left. pose proof (drop_claim_present k i s k' j Hp Hne) as Hd. unfold ack. rewrite Ho. simpl.
      by case_match.
  - left. unfold ack. by rewrite Ho.
Qed.

Lemma keeps_weaken gone s s' : keeps s s' -> keeps_but gone s s'.
Proof. intros Hk k i Hp. destruct (Hk k i Hp) as [|[]]. by left. Qed.

Lemma keeps_zadd cfg i sc fp over s : keeps s (zadd_ingest cfg i sc fp over s).2.
Proof.
  unfold zadd_ingest. case_decide; [done|]. case_match; [done|]. simpl.
  etrans; [apply (keeps_ingest_set i sc)|].
  destruct fp as [fp|]; [destruct (decide (fp = ""))|]; by apply keeps_same.
Qed.

Lemma keeps_enqueue cfg k i s r : enqueue_list cfg k i true s = Ok r -> keeps s r.2.
Proof.
  unfold enqueue_list. case_decide; [|done].
  case_match; [intros [= <-]; done|]. case_match; intros [= <-]; [done|].
  etrans; [apply (keeps_list_push k i)|]. by apply keeps_same.
Qed.

Lemma keeps_claim_ingest fuel cfg b o ttl now n s r :
  claim_ingest_with fuel cfg b o ttl now n s = Some (Ok r) -> keeps s r.2.
Proof.
  unfold claim_ingest_with. do 2 (case_match; [done|]).
  destruct (ingest_score_range b); [|done].
  destruct (claim_loop _ _ _ _ _ _ _) as [[jobs s']|] eqn:Hc; [|done].
  apply keeps_claim_loop in Hc. intros [= <-]; simpl.
  destruct (decide (jobs = [])); [done|]. etrans; [exact Hc|]. by apply keeps_same.
Qed.

Lemma keeps_claim_list cfg k o ttl now s r : claim_list cfg k o ttl now s = Ok r -> keeps s r.2.
Proof.
  unfold claim_list. destruct (decide (k ∈ _)); [|done].
  destruct (decide (o = "")); [done|]. intros [= <-]. by apply keeps_claim_list_loop.
Qed.

Lemma keeps_reorder k l s : store_wf s -> keeps s (reorder_list k l s).2.
Proof.
  intros Hw. unfold reorder_list. destruct (lists s !! k) as [cur|] eqn:El; [|done].
  destruct (negb _); [done|]. destruct (decide (merge_sort _ _ <> _)) as [|Hs]; [done|].
  destruct (decide (cur = l)); [done|]. simpl.
  assert (merge_sort String.le cur = merge_sort String.le l) as Es by (by apply dec_stable).
  intros k' j [[Hq|Hq]|Hc]; left; [left; by left|left; right|by right].
  simpl. rewrite total_insert. case_decide; [subst k'|done].
  rewrite (lookup_total_correct _ _ _ El) in Hq.
  by rewrite <- (merge_sort_Permutation String.le l), <- Es, merge_sort_Permutation.
Qed.

Lemma step_keeps s s' : store_wf s -> step s s' -> keeps_but (ends_job s s') s s'.
Proof.
  intros Hw. destruct 1.
  - apply keeps_weaken. apply keeps_zadd.
  - intros k j Hp. destruct r as [r s']. destruct (keeps_evict_loop _ _ _ _ H0 k j Hp) as [|[-> Hr]]; [by left|right].
    simpl in Hr. subst r. by apply (ends_evict _ _ _ _ day).
  - apply keeps_weaken. by eapply keeps_enqueue.
  - apply keeps_weaken. by eapply keeps_claim_ingest.
  - apply keeps_weaken. by eapply keeps_claim_list.
  - apply ack_ends.
  - apply keeps_weaken. apply keeps_requeue.
  - apply keeps_weaken. unfold renew_job_lease. destruct (owns k i o s); [|done].
    destruct ((inflight s !!! k) !! i) as [[[d o'] sc]|]; [|done]. apply keeps_inflight_insert.
  - apply keeps_weaken. unfold extend_inflight_deadline.
    destruct ((inflight s !!! k) !! i) as [[[d o'] sc]|]; [|done]. apply keeps_inflight_insert.
  - apply keeps_weaken. apply keeps_reap_loop.
  - apply keeps_weaken. apply keeps_steal_loop.
  - apply keeps_weaken. unfold steal_job_lease_if_owner_dead. destruct (leases s !! (k, i)) as [o|]; [|done].
    destruct (decide (o = "")); [done|]. destruct (negb _); [done|].
    pose proof (keeps_requeue k i o None s) as Hr. destruct (requeue _ _ _ _ _) as [[] s1]; [done|].
    case_decide; [etrans; [exact Hr|by apply keeps_same]|done].
  - apply keeps_weaken. apply keeps_reconcile_loop.
  - apply keeps_weaken. unfold write_job_fingerprint. case_decide; [done|]. case_match; by apply keeps_same.
  - apply keeps_weaken. unfold write_job_payload_field. simpl. case_match; by apply keeps_same.
  - apply keeps_weaken. unfold bump_job_attempt. destruct (attempt_of _); [|by apply keeps_same]. simpl. case_match; by apply keeps_same.
  - apply keeps_weaken. by apply keeps_reorder.
  - apply keeps_weaken. unfold persist_write. case_decide; [done|]. by apply keeps_same.
Qed.

(** ** Durable changes are marked *)

#[local] Instance same_durable_refl : Reflexive (same_durable (H := H)).
Proof. intros s. constructor; by intros. Qed.

#[local] Instance same_durable_trans : Transitive (same_durable (H := H)).
Proof.
  intros s1 s2 s3 E1 E2. pose proof (fun k i => same_durable_queued s1 s2 k i E1) as Hq.
  constructor.
  - etrans; [apply (sd_ingest _ _ E2)|apply (sd_ingest _ _ E1)].
  - intros k. etrans; [apply (sd_lists _ _ E2)|apply (sd_lists _ _ E1)].
  - intros k i Hk. etrans; [by apply (sd_rows _ _ E2), Hq|by apply (sd_rows _ _ E1)].
Qed.

(** Either the durable half is as it was, or the writer was told. *)
Definition marked s s' : Prop :=
  w_gen (wr s) < w_gen (wr s') \/ (w_gen (wr s') = w_gen (wr s) /\ same_durable s s').

#[local] Instance marked_refl : Reflexive marked.
Proof. intros s. by right. Qed.

#[local] Instance marked_trans : Transitive marked.
Proof.
  intros s1 s2 s3 [H1|[E1 S1]] [H2|[E2 S2]]; [left; lia..|].
  right. split; [lia|by etrans].
Qed.

Lemma marked_same s s' :
  wr s' = wr s -> ingest (iq s') = ingest (iq s) -> lists s' = lists s -> payloads s' = payloads s -> marked s s'.
Proof. intros E1 E2 E3 E4. right. rewrite E1. split; [done|]. constructor; [by rewrite E2|by rewrite E3|by rewrite E4]. Qed.

(** A state followed by [_mark_dirty_locked]. *)
Lemma marked_mark s s' : wr s' = wr s -> marked s (mark_dirty_locked s').
Proof. intros E. left. simpl. rewrite E. simpl. lia. Qed.

Lemma put_back_wr k i sc s : wr (put_back k i sc s) = wr s.
Proof. unfold put_back. by case_decide. Qed.

Lemma ingest_pop_wr i s : wr (ingest_pop i s).2 = wr s.
Proof. unfold ingest_pop. by case_match. Qed.

Lemma marked_requeue k i o sc s : marked s (requeue k i o sc s).2.
Proof.
  unfold requeue. destruct (owns k i o s); [|done]. simpl. apply marked_mark.
  case_decide; simpl; by rewrite put_back_wr.
Qed.

Lemma marked_evict fuel day s r : evict_loop fuel day s = Some r -> marked s r.2.
Proof.
  revert s. induction fuel as [|fuel IH]; intros s; simpl; [done|].
  destruct (pq_pop _) as [[[sc i] h']|] eqn:Hp; [|intros [= <-]; done].
  case_decide; [|intros Hr; etrans; [|exact (IH _ Hr)]; by apply marked_same].
  repeat case_match; intros [= <-]; try done.
  apply marked_mark. simpl. by rewrite ingest_pop_wr.
Qed.

(** A claim round without a claim touches the heaps alone. *)
Lemma claim_loop_marks fuel b range o d want s r :
  claim_loop fuel b range o d want s = Some r -> wr r.2 = wr s /\ (r.1 = [] -> marked s r.2).
Proof.
  revert want s r. induction fuel as [|fuel IH]; intros [|want] s r; simpl; try (by intros [= <-]); try done.
  destruct (pq_pop _) as [[[sc i] h']|] eqn:Hp; [|by intros [= <-]].
  rewrite set_heap_ingest. set (s1 := with_iq (set_heap_for_band b h' (iq s)) s).
  assert (marked s s1) as H1 by (apply marked_same; [done|apply set_heap_ingest|done..]).
  assert (forall s2 r, wr s2 = wr s -> marked s s2 -> claim_loop fuel b range o d (S want) s2 = Some r ->
    wr r.2 = wr s /\ (r.1 = [] -> marked s r.2)) as Hgo.
  { intros s2 r2 E2 M2 Hr. destruct (IH _ _ _ Hr) as [E M]. rewrite E. split; [done|].
    intros Hn. etrans; [exact M2|by apply M]. }
  destruct (decide (is_Some _)); [by apply Hgo|].
  destruct (ingest (iq s) !! i) as [live|]; [|by apply Hgo].
  set (s2 := with_iq (ingest_heap_push i live (set_heap_for_band b h' (iq s))) s1).
  assert (marked s s2) as H2 by (apply marked_same; [done|by simpl; rewrite ingest_push, set_heap_ingest|done..]).
  destruct (decide (live <> sc)); [by apply (Hgo s2)|].
  case_match; [by apply (Hgo s2)|].
  destruct (claim_loop _ _ _ _ _ want _) as [[jobs s']|] eqn:Hr; [|done]. intros [= <-].
  apply IH in Hr as [Hr _]. split; [|done]. simpl in *. by rewrite Hr, ingest_pop_wr.
Qed.

Lemma marked_claim_ingest fuel cfg b o ttl now n s r :
  claim_ingest_with fuel cfg b o ttl now n s = Some (Ok r) -> marked s r.2.
Proof.
  unfold claim_ingest_with. do 2 (case_match; [done|]).
  destruct (ingest_score_range b); [|done].
  destruct (claim_loop _ _ _ _ _ _ _) as [[jobs s']|] eqn:Hc; [|done].
  apply claim_loop_marks in Hc as [Ew Hm]. intros [= <-]; simpl.
  destruct (decide (jobs = [])); [by apply Hm|]. by apply marked_mark.
Qed.

Lemma marked_claim_list cfg k o ttl now s r :
  store_wf s -> claim_list cfg k o ttl now s = Ok r -> marked s r.2.
Proof.
  intros Hw. unfold claim_list. destruct (decide (k ∈ _)) as [Hk|]; [|done].
  destruct (decide (o = "")); [done|]. intros [= <-].
  destruct (lists s !!! k) as [|i l] eqn:El; simpl; [done|].
  rewrite decide_False; [by apply marked_mark|].
  intros Hcl. apply (sw_disjoint s (sw_core s Hw) k i Hcl). right. rewrite El. by left.
Qed.

Lemma marked_row k i f s : store_wf s -> ~ queued s k i -> marked s (with_payloads (<[(k, i) := f]> (payloads s)) s).
Proof.
  intros Hw Hnq. right. split; [done|]. constructor; [done..|]. intros k' i' Hq. simpl.
  apply lookup_insert_ne. intros [= -> ->]. done.
Qed.

Lemma marked_row_sync k i f s :
  store_wf s ->
  let s1 := with_payloads (<[(k, i) := f]> (payloads s)) s in
  marked s (if identity_is_queued k i s1 then mark_dirty_locked (shadow_sync_payload k i s1) else s1).
Proof.
  intros Hw s1. assert (identity_is_queued k i s1 = identity_is_queued k i s) as -> by done.
  destruct (identity_is_queued k i s) eqn:Hq; [by apply marked_mark|].
  apply marked_row; [done|]. rewrite <- identity_is_queued_spec by apply Hw. by rewrite Hq.
Qed.

Lemma marked_reap_loop items want k cutoff s : marked s (reap_loop items want k cutoff s).2.
Proof.
  revert want s. induction items as [|[i [[d o] sc]] items IH]; intros [|want] s; simpl; try done.
  case_match; [apply IH|].
  set (s1 := mark_dirty_locked _). specialize (IH want s1).
  destruct (reap_loop _ _ _ _ s1) as [out s']. etrans; [|exact IH].
  apply marked_mark. by rewrite put_back_wr.
Qed.

Lemma marked_steal_loop items alive host boot s : marked s (steal_loop items alive host boot s).2.
Proof.
  revert s. induction items as [|[[k i] o] items IH]; intros s; simpl; [done|].
  case_match; [|apply IH]. pose proof (marked_requeue k i o None s) as Hr.
  destruct (requeue _ _ _ _ _) as [ok s1]. specialize (IH s1).
  destruct (steal_loop _ _ _ _ s1). etrans; [exact Hr|exact IH].
Qed.

Lemma marked_reconcile_loop items k known o s : marked s (reconcile_loop items k known o s).2.
Proof.
  revert s. induction items as [|[i [[d o'] sc]] items IH]; intros s; simpl; [done|].
  destruct (decide (i ∈ known \/ o' <> o)); [apply IH|].
  pose proof (marked_requeue k i o' sc s) as Hr.
  destruct (requeue _ _ _ _ _) as [ok s1]. specialize (IH s1).
  destruct (reconcile_loop _ _ _ _ s1). etrans; [exact Hr|exact IH].
Qed.

Lemma marked_ack k i o s : store_wf s -> marked s (ack k i o s).2.
Proof.
  intros Hw. unfold ack. destruct (owns k i o s) eqn:Ho; [|done]. simpl.
  apply owns_claimed in Ho. pose proof (sw_disjoint s (sw_core s Hw) k i Ho) as Hnq.
  right. case_match; simpl; (split; [done|]); (constructor; [done..|]); intros k' i' Hq; simpl;
    apply lookup_delete_ne; intros [= -> ->]; done.
Qed.

Lemma marked_persist s : store_wf s -> marked s (persist_write s).2.
Proof.
  intros Hw. unfold persist_write. case_decide; [done|]. simpl. right. split; [done|].
  constructor; [done..|]. intros k i Hq. simpl. rewrite lookup_prune, decide_True; [done|].
  apply elem_of_union_l, elem_queued_identities; [apply (sw_kinds s (sw_core s Hw))|done].
Qed.

Lemma step_marked s s' : store_wf s -> step s s' -> marked s s'.
Proof.
  intros Hw. destruct 1 as [cfg s i sc fp over|s day r Hr|cfg s k i r Hr|cfg s b o n ttl now r Hr
    |cfg s k o ttl now r Hr|s k i o|s k i o sc|cfg s k i o ttl now|s k i ext now|s k now limit
    |s alive host boot|s k i alive host boot|s k local o|s k i fp|s k i n v|s k i|s k l|s].
  - unfold zadd_ingest_job, zadd_ingest. case_decide; [done|]. case_match; [done|]. apply marked_mark.
    destruct fp as [fp|]; [destruct (decide (fp = ""))|]; done.
  - by eapply marked_evict.
  - unfold enqueue_list_job, enqueue_list in Hr. case_decide; [|done].
    case_match; [simplify_eq; done|]. case_match; simplify_eq; [done|]. by apply marked_mark.
  - by eapply marked_claim_ingest.
  - by eapply marked_claim_list.
  - by apply marked_ack.
  - apply marked_requeue.
  - unfold renew_job_lease. destruct (owns k i o s); [|done].
    destruct ((inflight s !!! k) !! i) as [[[d o'] sc]|]; [|done]. by apply marked_same.
  - unfold extend_inflight_deadline.
    destruct ((inflight s !!! k) !! i) as [[[d o'] sc]|]; [|done]. by apply marked_same.
  - apply marked_reap_loop.
  - apply marked_steal_loop.
  - unfold steal_job_lease_if_owner_dead. destruct (leases s !! (k, i)) as [o|]; [|done].
    destruct (decide (o = "")); [done|]. destruct (negb _); [done|].
    pose proof (marked_requeue k i o None s) as Hr. destruct (requeue _ _ _ _ _) as [[] s1]; [done|].
    case_decide; [|done]. etrans; [exact Hr|by apply marked_same].
  - apply marked_reconcile_loop.
  - unfold write_job_fingerprint. case_decide; [done|]. by apply marked_row_sync.
  - unfold write_job_payload_field. apply marked_mark. by case_match.
  - destruct (bump_job_attempt k i s).1 eqn:Hn; [|by rewrite (bump_raise_unchanged _ _ _ _ Hn)].
    unfold bump_job_attempt in *. set (s1 := with_payloads _ s) in *.
    destruct (attempt_of _) as [c|]; [|done]. cbn [snd].
    pose proof (marked_row_sync k i (<["attempt" := str_of_Z (c + 1)]> (payloads s1 !!! (k, i))) s Hw) as Hr.
    assert (payload_put (k, i) "attempt" (str_of_Z (c + 1)) s1 =
      with_payloads (<[(k, i) := <["attempt" := str_of_Z (c + 1)]> (payloads s1 !!! (k, i))]> (payloads s)) s) as ->
      by (unfold payload_put, s1, with_payloads; simpl; by rewrite insert_insert_eq).
    exact Hr.
  - unfold reorder_list. destruct (lists s !! k); [|done]. destruct (negb _); [done|].
    do 2 (case_decide; [done|]). by apply marked_mark.
  - by apply marked_persist.
Qed.

(** ** The properties *)

(** [C15] In every state of a run, whatever operations led there, the store is
    consistent: the lazy heaps hold every live score in the right band, the O(1)
    counters count, the LIST queues and their dedupe sets agree, no identity is
    both queued and claimed, a lease exists exactly for a claim and names its
    owner, and the durable shadow mirrors the queues and their payload rows. *)
Theorem reachable_invariant s : reachable s -> store_wf s.
Proof. apply reachable_wf. Qed.

(** [C1] No operation loses a job: whatever was queued or claimed still is, unless
    the step is the owner's [ack_job] of that job, or the capacity eviction that
    names it. *)
Theorem no_job_lost s s' k i :
  reachable s -> step s s' -> present s k i -> present s' k i \/ ends_job s s' k i.
Proof. intros Hr Hs Hp. by apply (step_keeps s s' (reachable_wf s Hr) Hs). Qed.

(** No silent durable change: an operation that changes the queued scores, the
    LIST queues or the payload row of a queued job advances the writer's generation,
    so the write-behind writer owes a snapshot that covers it. *)
Theorem durable_change_marked s s' :
  reachable s -> step s s' -> ~ same_durable s s' -> w_gen (wr s) < w_gen (wr s').
Proof.
  intros Hr Hs Hn. destruct (step_marked s s' (reachable_wf s Hr) Hs) as [|[_ Hd]]; [done|by destruct Hn].
Qed.

(** The store opened on a snapshot. *)
Lemma reopen_snapshot s dir interval now :
  store_wf s -> dir <> EmptyString ->
  same_durable s (open_store dir interval now (snapshot s)) /\
  (forall k i, present (open_store dir interval now (snapshot s)) k i <-> queued s k i).
Proof.
  intros Hw Hdir.
  assert (open_store dir interval now (snapshot s) = with_writer
    (start now (wr (load (snapshot s) (empty_store dir interval)))) (load (snapshot s) (empty_store dir interval))) as Eo
    by (unfold open_store; by rewrite decide_False by done).
  pose proof (reload_durable s (empty_store dir interval) Hw Hdir) as Hs.
  split; [rewrite Eo; by destruct Hs|].
  intros k i. rewrite Eo. rewrite <- (same_durable_queued _ _ k i Hs).
  split; [intros [Hq|Hc]; [exact Hq|]|by left]. by apply load_not_claimed in Hc.
Qed.

(** Restart: the document a store writes, loaded by the next process, restores
    the queued scores, the LIST queues in order and the payload rows of the queued
    jobs; no claim survives, so what is present after the restart is exactly what
    was queued. *)
Theorem reopen_restores s dir interval now :
  reachable s -> archive_dir s <> EmptyString -> dir <> EmptyString ->
  exists doc, (persist_write s).1 = Some doc /\
    reachable (open_store dir interval now doc) /\
    same_durable s (open_store dir interval now doc) /\
    (forall k i, present (open_store dir interval now doc) k i <-> queued s k i).
Proof.
  intros Hr Hd Hdir. pose proof (reachable_wf s Hr) as Hw. exists (snapshot s).
  destruct (reopen_snapshot s dir interval now Hw Hdir).
  split_and!; [by apply persist_write_doc|by apply reach_open, snapshot_wf|done..].
Qed.
End safety.

(** ** Concrete instances *)
Import MinScan.

Lemma reachable_invariant_witness : reachable Demo.s5 /\ store_wf Demo.s5.
Proof. split; [exact Demo.s5_reachable|]. apply (reachable_invariant Demo.s5), Demo.s5_reachable. Defined.

Lemma no_job_lost_witness :
  let s' := (ack_job Demo.s5 JOB_KIND_INGEST "/raw/a" Demo.owner).2 in
  present s' JOB_KIND_INGEST "/raw/a" \/ ends_job Demo.s5 s' JOB_KIND_INGEST "/raw/a".
Proof.
  apply (no_job_lost Demo.s5); [exact Demo.s5_reachable|apply step_ack|].
  right. unfold claimed. vm_compute. by eexists.
Defined.

Lemma durable_change_marked_witness : w_gen (wr Demo.s4) < w_gen (wr Demo.s5).
Proof.
  apply (durable_change_marked Demo.s4 Demo.s5); [exact Demo.s4_reachable| |].
  - destruct (claim_ingest_jobs default_config Demo.s4 "catchup" Demo.owner 1 (Some 100) 1000) as [[r|]|] eqn:E;
      [|by vm_compute in E..].
    pose proof (step_claim_ingest _ _ _ _ _ _ _ _ E) as Hs. unfold Demo.s5. by rewrite E.
  - intros [Hi _ _]. specialize (Hi "/raw/a"). vm_compute in Hi. discriminate Hi.
Defined.

Lemma reopen_restores_witness :
  exists doc, (persist_write Demo.s5).1 = Some doc /\
    reachable (open_store "/archive" 30 2000 doc : store (list qkey)) /\
    same_durable Demo.s5 (open_store "/archive" 30 2000 doc) /\
    (forall k i, present (open_store "/archive" 30 2000 doc : store (list qkey)) k i <-> queued Demo.s5 k i).
Proof.
  refine (reopen_restores Demo.s5 "/archive" 30 2000 Demo.s5_reachable _ _).
  - vm_compute. discriminate.
  - discriminate.
Defined.
