(* ===== verification/Snapshot.v ===== *)
(** The job store's sidecar on disk: the document of [_persist_write] as JSON, and the
    reading half of [load].

    Composes [JobStore] with [Persistence]: the store hands a [document] to
    [save_persistence_document] and reads one back through
    [load_persistence_document].  Scores are written as floats; the model's scores
    are integers, so decoding covers the documents whose scores are integral and whose
    items are strings, which are those the store writes ([None] otherwise, and where
    the code raises). *)
From S2P Require Import Prelude PyDict PriorityQueue PyStr IngestScore LeaseOwner WriteBehind Json Persistence PersistenceSpec JobStore JobStoreInv JobStoreOps JobStorePersist JobStoreSteps JobStoreSafety.
Local Open Scope Z_scope.

Definition JOB_STORE_SNAPSHOT_KIND : string := "job_store_snapshot".

(** ** Encoding *)

Definition json_strings (l : list string) : json := JList (JStr <$> l).

Definition json_by_kind (m : gmap string (list string)) : jdict :=
  Dict ((fun kl => (kl.1, json_strings kl.2)) <$> map_to_list m).

Definition json_fields (f : fields) : json := JDict (Dict ((fun nv => (nv.1, JStr nv.2)) <$> map_to_list f)).

Definition json_scores (d : dict string Z) : jdict :=
  Dict ((fun p => (p.1, JFloat (FFin p.2 1))) <$> dict_items d).

(** The payload [_persist_write] hands to the writer. *)
Definition encode_document (doc : document) : json :=
  JDict (Dict [("ingest", JDict (json_scores (doc_ingest doc)));
               ("lists", JDict (json_by_kind (doc_lists doc)));
               ("pending", JDict (json_by_kind (doc_pending doc)));
               ("payloads", JDict (Dict ((fun kf => (kf.1, json_fields kf.2)) <$> map_to_list (doc_payloads doc))))]).

(** ** Decoding *)

Definition score_of_json (j : json) : option Z :=
  match j with JFloat (FFin z 1) => Some z | _ => None end.

Definition string_of_json (j : json) : option string :=
  match j with JStr s => Some s | _ => None end.

(** [raw.get(key) or {}], then a dictionary. *)
Definition section (key : string) (raw : jdict) : option jdict :=
  match json_or (json_get key raw) (JDict ∅) with JDict d => Some d | _ => None end.

(** [str(item) for item in (d.get(kind) or [])], for each LIST kind. *)
Definition lists_of_json (d : jdict) : option (gmap string (list string)) :=
  l ← mapM (fun kind =>
        items ← match json_list (json_or (json_get kind d) (JList [])) with Ok l => Some l | Raise _ => None end;
        l ← mapM string_of_json items;
        Some (kind, l)) JOB_KINDS_LIST;
  Some (list_to_map l).

(** [{str(name): str(value) ...}] on a row. *)
Definition fields_of_json (f : jdict) : option fields :=
  l ← mapM (fun nv => v ← string_of_json nv.2; Some (nv.1, v)) (dict_items f); Some (list_to_map l).

(** The payload rows; a row that is not a dictionary is skipped. *)
Definition payloads_of_json (d : jdict) : option (gmap string fields) :=
  l ← mapM (fun kf => f ← fields_of_json (dict_or_empty kf.2); Some (kf.1, f))
        (filter (fun kf => is_dict kf.2 = true) (dict_items d));
  Some (list_to_map l).

Definition decode_document (raw : json) : option document :=
  match raw with
  | JDict raw =>
      ingest ← section "ingest" raw;
      lists ← section "lists" raw;
      pending ← section "pending" raw;
      payloads ← section "payloads" raw;
      ingest_built ← mapM (fun p => z ← score_of_json p.2; Some (p.1, z)) (dict_items ingest);
      lists_built ← lists_of_json lists;
      pending_built ← lists_of_json pending;
      payloads_built ← payloads_of_json payloads;
      Some (Document (dict_of_items ingest_built) lists_built pending_built payloads_built)
  | _ => Some empty_document
  end.

(** The file a store's write leaves, and the document a start reads from a file. *)
Definition write_snapshot_file (doc : document) : result file_content :=
  save_persistence_document JOB_STORE_SNAPSHOT_KIND (encode_document doc) true.

Definition read_snapshot_file (file : option file_content) : result (option document) :=
  raw ← load_persistence_document file JOB_STORE_SNAPSHOT_KIND (JDict ∅); Ok (decode_document raw).

(** ** Sorting and decoding *)

Lemma mapM_total {A B} (f : A -> option B) (h : A -> B) l : (forall x, x ∈ l -> f x = Some (h x)) -> mapM f l = Some (h <$> l).
Proof. intros Hf. apply mapM_Some. induction l; constructor; [apply Hf; left|apply IHl; intros; apply Hf; by right]. Qed.

Lemma list_to_map_sorted {A} (m : gmap string A) : list_to_map (merge_sort by_key (map_to_list m)) = m.
Proof.
  rewrite <- (list_to_map_to_list m) at 2. apply list_to_map_proper; [|apply merge_sort_Permutation].
  rewrite merge_sort_Permutation. apply NoDup_fst_map_to_list.
Qed.

(** ** Each section decodes to what was encoded *)

Lemma decode_scores (d : dict string Z) :
  dict_wf d ->
  mapM (fun p => z ← score_of_json p.2; Some (p.1, z)) (dict_items (sorted_dict (json_scores d))) =
    Some (dict_items (sort_by_key d)).
Proof.
  intros Hd. unfold json_scores. rewrite (sorted_items _ _ (fun p => (p.1, JFloat (FFin p.2 1)))) by done. simpl.
  apply (mapM_fmap_Forall_Some _ (fun p : string * Z => (p.1, JFloat (FFin p.2 1)))), Forall_forall. by intros [].
Qed.

Lemma sort_keys_strings l : sort_keys (json_strings l) = json_strings l.
Proof.
  unfold json_strings. simpl. f_equal. change (map sort_keys (JStr <$> l)) with (sort_keys <$> (JStr <$> l)).
  rewrite <- list_fmap_compose. by apply list_fmap_ext.
Qed.

Lemma dict_wf_map_to_list {A} (g : string * A -> string * json) (m : gmap string A) :
  (forall p, (g p).1 = p.1) -> dict_wf (Dict (g <$> map_to_list m)).
Proof. intros Hg. unfold dict_wf, dict_keys. simpl. rewrite fmap_fst_same by done. apply NoDup_fst_map_to_list. Qed.

Lemma get_by_kind m kind :
  json_get kind (sorted_dict (json_by_kind m)) = from_option json_strings JNull (m !! kind).
Proof.
  assert (dict_wf (json_by_kind m)) as Hd by by apply dict_wf_map_to_list.
  rewrite sorted_dict_get by done. unfold json_get. destruct (m !! kind) as [l|] eqn:E; simpl.
  - assert (json_by_kind m !! kind = Some (json_strings l)) as ->; [|apply sort_keys_strings].
    apply dict_elem_lookup; [done|]. apply list_elem_of_fmap. exists (kind, l). by rewrite elem_of_map_to_list.
  - assert (json_by_kind m !! kind = None) as ->; [|done]. apply eq_None_not_Some. intros [v Hv].
    apply dict_lookup_elem, list_elem_of_fmap in Hv as ([k l] & [= -> ->] & Hin%elem_of_map_to_list). simpl in *. congruence.
Qed.

Lemma decode_lists m :
  lists_of_json (sorted_dict (json_by_kind m)) = Some (list_to_map ((fun k => (k, m !!! k)) <$> JOB_KINDS_LIST)).
Proof.
  unfold lists_of_json. rewrite (mapM_total _ (fun k => (k, m !!! k))); [done|]. intros k _.
  rewrite get_by_kind, lookup_total_alt. destruct (m !! k) as [l|]; [|done]. simpl.
  assert (json_list (json_or (json_strings l) (JList [])) = Ok (JStr <$> l)) as -> by by destruct l.
  simpl. rewrite (mapM_fmap_Forall_Some string_of_json JStr); [done|]. by apply Forall_forall.
Qed.

Lemma decode_fields f : fields_of_json (dict_or_empty (sort_keys (json_fields f))) = Some f.
Proof.
  unfold json_fields. rewrite sort_keys_dict. unfold fields_of_json. simpl dict_or_empty.
  rewrite (sorted_items _ _ (fun nv => (nv.1, JStr nv.2))) by (done || apply NoDup_fst_map_to_list). simpl.
  rewrite (mapM_fmap_Forall_Some _ (fun nv : string * string => (nv.1, JStr nv.2))) by (apply Forall_forall; by intros []).
  simpl. f_equal. apply list_to_map_sorted.
Qed.

Lemma decode_payloads (m : gmap string fields) :
  payloads_of_json (sorted_dict (Dict ((fun kf => (kf.1, json_fields kf.2)) <$> map_to_list m))) = Some m.
Proof.
  unfold payloads_of_json.
  rewrite (sorted_items _ _ (fun kf => (kf.1, sort_keys (json_fields kf.2)))) by (done || apply NoDup_fst_map_to_list).
  cbn [dict_items]. rewrite filter_all by (by intros ? (kf & -> & _)%list_elem_of_fmap).
  rewrite (mapM_fmap_Forall_Some _ (fun kf : string * fields => (kf.1, sort_keys (json_fields kf.2)))).
  - simpl. f_equal. apply list_to_map_sorted.
  - apply Forall_forall. intros [k f] _. cbn [fst snd]. by rewrite decode_fields.
Qed.

(** ** Through the file *)

Lemma json_dict_id d : json_dict (JDict d) = Ok (JDict d).
Proof. unfold json_dict. destruct d as [[|p l]]; done. Qed.

Lemma section_dict key raw d : json_get key raw = JDict d -> section key raw = Some d.
Proof. unfold section. intros ->. destruct d as [[|p l]]; done. Qed.

Lemma decode_sections i l p r ib lb pb rb :
  mapM (fun p => z ← score_of_json p.2; Some (p.1, z)) (dict_items i) = Some ib ->
  lists_of_json l = Some lb -> lists_of_json p = Some pb -> payloads_of_json r = Some rb ->
  decode_document (JDict (Dict [("ingest", JDict i); ("lists", JDict l); ("pending", JDict p); ("payloads", JDict r)])) =
    Some (Document (dict_of_items ib) lb pb rb).
Proof.
  intros Hi Hl Hp Hr. unfold decode_document.
  rewrite (section_dict "ingest" _ i), (section_dict "lists" _ l), (section_dict "pending" _ p), (section_dict "payloads" _ r)
    by reflexivity.
  cbn [mbind option_bind]. by rewrite Hi, Hl, Hp, Hr.
Qed.

(** What is read back from a file a save wrote. *)
Lemma snapshot_file_load i l p r :
  let d := JDict (Dict [("ingest", JDict i); ("lists", JDict l); ("pending", JDict p); ("payloads", JDict r)]) in
  exists f, save_persistence_document JOB_STORE_SNAPSHOT_KIND d true = Ok f /\
    load_persistence_document (Some f) JOB_STORE_SNAPSHOT_KIND (JDict ∅) =
      Ok (JDict (Dict [("ingest", JDict (sorted_dict i)); ("lists", JDict (sorted_dict l));
                       ("pending", JDict (sorted_dict p)); ("payloads", JDict (sorted_dict r))])).
Proof.
  cbv zeta. unfold save_persistence_document, persistence_envelope. rewrite !decide_False by (unfold JOB_STORE_SNAPSHOT_KIND; done || set_solver).
  rewrite decide_True by done. cbn [dict_or_empty].
  change (json_get "ingest" _) with (JDict i). change (json_get "lists" _) with (JDict l).
  change (json_get "pending" _) with (JDict p). change (json_get "payloads" _) with (JDict r).
  rewrite !json_dict_id. eexists. split; [reflexivity|].
  set (e := Dict _ : jdict). assert (dict_wf e) as He.
  { unfold dict_wf, dict_keys. simpl. repeat constructor; set_solver. }
  unfold load_persistence_document. cbn [read_json_file dumped]. rewrite sort_keys_dict.
  assert (validate_envelope (JDict (sorted_dict e)) JOB_STORE_SNAPSHOT_KIND = Ok true) as ->.
  { unfold validate_envelope. rewrite !decide_False by (unfold JOB_STORE_SNAPSHOT_KIND; done || set_solver).
    rewrite decide_True by done. rewrite schema_version_sorted, sorted_dict_get by done. done. }
  unfold unwrap_envelope. rewrite !decide_False by (unfold JOB_STORE_SNAPSHOT_KIND; done || set_solver).
  rewrite decide_True by done. rewrite !sorted_dict_get by done.
  change (json_get "ingest" e) with (JDict i). change (json_get "lists" e) with (JDict l).
  change (json_get "pending" e) with (JDict p). change (json_get "payloads" e) with (JDict r).
  rewrite !sort_keys_dict.
  assert (forall d, json_or (JDict d) (JDict ∅) = JDict d) as Hor by by intros [[|]].
  by rewrite !Hor.
Qed.

Section snapshot_file.
Context {H : Type} `{PQ : !PriorityQueue H}.
Implicit Types s : store H.

Lemma sort_by_key_idemp (d : dict string Z) : dict_wf d -> sort_by_key (sort_by_key d) = sort_by_key d.
Proof.
  intros Hd. unfold sort_by_key. f_equal. apply (by_key_unique (A := Z)).
  - simpl. rewrite !merge_sort_Permutation. exact Hd.
  - apply (Sorted_merge_sort by_key).
  - apply (Sorted_merge_sort by_key).
  - apply merge_sort_Permutation.
Qed.

(** The document read back differs from the one written only where [load] does not
    look. *)
Lemma decode_snapshot s :
  store_wf s ->
  exists f doc', write_snapshot_file (snapshot s) = Ok f /\ read_snapshot_file (Some f) = Ok (Some doc') /\
    forall s0, load doc' s0 = load (snapshot s) s0.
Proof.
  intros Hw. pose proof (snapshot_wf s Hw) as Hdoc. set (doc := snapshot s) in *.
  destruct (snapshot_file_load (json_scores (doc_ingest doc)) (json_by_kind (doc_lists doc)) (json_by_kind (doc_pending doc))
    (Dict ((fun kf => (kf.1, json_fields kf.2)) <$> map_to_list (doc_payloads doc)))) as (f & Hf & Hl).
  set (perk := fun m : gmap string (list string) => list_to_map ((fun k => (k, m !!! k)) <$> JOB_KINDS_LIST) : gmap string (list string)).
  exists f, (Document (doc_ingest doc) (perk (doc_lists doc)) (perk (doc_pending doc)) (doc_payloads doc)).
  split; [exact Hf|]. unfold read_snapshot_file. rewrite Hl. cbn [mbind result_bind]. split.
  - f_equal. erewrite decode_sections; [|apply decode_scores, dw_ingest, Hdoc|apply decode_lists|apply decode_lists|apply decode_payloads].
    f_equal. f_equal.
    assert (sort_by_key (doc_ingest doc) = doc_ingest doc) as ->
      by (unfold doc; simpl; apply sort_by_key_idemp, (sw_iq s (sw_core s Hw))).
    rewrite dict_of_items_NoDup by apply dw_ingest, Hdoc. by destruct (doc_ingest doc).
  - intros s0. unfold load. case_decide; [done|].
    assert (forall m k, k ∈ JOB_KINDS_LIST -> perk m !!! k = m !!! k) as Hp.
    { intros m k Hk. pose proof (total_per_kinds (fun k => m !!! k) JOB_KINDS_LIST k) as E. rewrite decide_True in E by done. exact E. }
    assert (((fun k => (k, perk (doc_lists doc) !!! k)) <$> JOB_KINDS_LIST) =
      ((fun k => (k, doc_lists doc !!! k)) <$> JOB_KINDS_LIST)) as E1.
    { apply list_fmap_ext. intros i k Hk%list_elem_of_lookup_2. by rewrite Hp. }
    assert (((fun k => (k, list_to_set (perk (doc_pending doc) !!! k) : gset string)) <$> JOB_KINDS_LIST) =
      ((fun k => (k, list_to_set (doc_pending doc !!! k))) <$> JOB_KINDS_LIST)) as E2.
    { apply list_fmap_ext. intros i k Hk%list_elem_of_lookup_2. by rewrite Hp. }
    cbn [doc_ingest doc_lists doc_pending doc_payloads]. by rewrite E1, E2.
Qed.

(** [C14] Restart through the file: what a store writes is encoded, enveloped, saved,
    loaded, validated, unwrapped and decoded, and the next process starts with every
    queued score, LIST queue and payload row, and with no claim. *)
Theorem restart_from_file s dir interval now :
  reachable s -> archive_dir s <> EmptyString -> dir <> EmptyString ->
  exists doc f doc', (persist_write s).1 = Some doc /\ write_snapshot_file doc = Ok f /\
    read_snapshot_file (Some f) = Ok (Some doc') /\
    same_durable s (open_store dir interval now doc') /\
    (forall k i, present (open_store dir interval now doc') k i <-> queued s k i).
Proof.
  intros Hr Hd Hdir. pose proof (reachable_wf s Hr) as Hw.
  destruct (decode_snapshot s Hw) as (f & doc' & Hf & Hl & Hload).
  destruct (reopen_snapshot s dir interval now Hw Hdir) as [Hs Hp].
  assert (open_store dir interval now doc' = (open_store dir interval now (snapshot s) : store H)) as E
    by (unfold open_store; by rewrite Hload).
  exists (snapshot s), f, doc'. rewrite E. split_and!; [by apply persist_write_doc|done..].
Qed.
End snapshot_file.

(** ** A concrete instance *)
Import MinScan.

Lemma restart_from_file_witness :
  exists doc f doc', (persist_write Demo.s5).1 = Some doc /\ write_snapshot_file doc = Ok f /\
    read_snapshot_file (Some f) = Ok (Some doc') /\
    same_durable Demo.s5 (open_store "/archive" 30 2000 doc' : store (list qkey)) /\
    (forall k i, present (open_store "/archive" 30 2000 doc' : store (list qkey)) k i <-> queued Demo.s5 k i).
Proof.
  refine (restart_from_file Demo.s5 "/archive" 30 2000 Demo.s5_reachable _ _).
  - vm_compute. discriminate.
  - discriminate.
Defined.
