(* ===== verification/JobStoreSpec.v ===== *)
(** What the operations on the ingest queue do: claiming, eviction, admission. *)
From S2P Require Import Prelude PyDict PriorityQueue PyStr IngestScore LeaseOwner WriteBehind JobStore JobStoreInv JobStoreOps JobStorePersist JobStoreSteps JobStoreClaim JobStoreSafety.
Import MinScan.
Local Open Scope Z_scope.

Section claiming.
Context {H : Type} `{PQ : !PriorityQueue H}.
Implicit Types (q : ingest_queue H) (s : store H).

(** The deadline a claim gets. *)
Definition claim_deadline (cfg : config) (ttl_s : option Z) (now : Z) : Z :=
  now + default (job_lease_ttl_seconds (sync_ingest_per_file_timeout_max_s cfg)) ttl_s.

Lemma claim_ingest_gives cfg b o ttl now n s :
  store_wf s -> b = "hot" \/ b = "catchup" -> o <> EmptyString -> 1 <= n ->
  let spec := claim_spec b o (claim_deadline cfg ttl now) (Z.to_nat n) s in
  exists s1 s', claim_ingest cfg b o ttl now n s = Some (Ok (spec.1, s')) /\ s1 ≡ spec.2 /\
    s' = (if decide (spec.1 = []) then s1 else mark_dirty_locked s1).
Proof.
  intros Hw Hb Ho Hn spec.
  assert (exists r, ingest_score_range b = Ok r) as [r Hr] by (destruct Hb as [->| ->]; by eexists).
  destruct (claim_loop_refines (claim_fuel b s) b r o (claim_deadline cfg ttl now) (Z.to_nat n) s Hb Hr Hw)
    as (s1 & Hl & Es).
  { unfold claim_fuel. pose proof (work_bound b (iq s)). lia. }
  exists s1. eexists. split; [|by split].
  unfold claim_ingest, claim_ingest_with. rewrite decide_False by done.
  destruct (Z.ltb_spec n 1); [lia|]. rewrite Hr. unfold claim_deadline in Hl. rewrite Hl. done.
Qed.

(** [C16] [claim_ingest] on a band always returns, and refines its specification: the
    jobs are the first [max_n] live items of the band ordered by score, then
    identity; the store is the one where exactly these were taken off the queue
    and recorded in flight, whatever stale entries the lazy heaps held. *)
Theorem claim_ingest_refines cfg b o ttl now n s :
  reachable s -> b = "hot" \/ b = "catchup" -> o <> EmptyString -> 1 <= n ->
  let spec := claim_spec b o (claim_deadline cfg ttl now) (Z.to_nat n) s in
  exists s', claim_ingest_jobs cfg s b o n ttl now = Some (Ok (spec.1, s')) /\
    s' ≡ (if decide (spec.1 = []) then spec.2 else mark_dirty_locked spec.2).
Proof.
  intros Hr Hb Ho Hn spec.
  destruct (claim_ingest_gives cfg b o ttl now n s (reachable_wf s Hr) Hb Ho Hn) as (s1 & s' & Hc & Es & ->).
  eexists. split; [exact Hc|]. fold spec in Es |- *.
  destruct (decide (spec.1 = [])); [exact Es|]. by apply mark_dirty_proper.
Qed.

(** ** Exclusive claims *)

Lemma claims_inflight o d l s i :
  (i ∉ l.*2 -> (inflight (foldl (claim_one o d) s l) !!! JOB_KIND_INGEST) !! i = (inflight s !!! JOB_KIND_INGEST) !! i) /\
  (forall sc, NoDup l.*2 -> (sc, i) ∈ l ->
    (inflight (foldl (claim_one o d) s l) !!! JOB_KIND_INGEST) !! i = Some (d, o, Some sc)).
Proof.
  revert s. induction l as [|[t j] l IH]; intros s; simpl; [by split; [|set_solver]|].
  destruct (IH (claim_one o d s (t, j))) as [IH1 IH2].
  assert (forall i', (inflight (claim_one o d s (t, j)) !!! JOB_KIND_INGEST) !! i' =
    if decide (j = i') then Some (d, o, Some t) else (inflight s !!! JOB_KIND_INGEST) !! i') as Hone.
  { intros i'. unfold claim_one, record_claim; simpl. rewrite total_insert_eq, dict_lookup_insert.
    assert (inflight (ingest_pop j s).2 = inflight s) as -> by (unfold ingest_pop; by case_match). done. }
  split.
  - intros Hni. rewrite IH1 by set_solver. rewrite Hone, decide_False; [done|]. set_solver.
  - intros sc [Hni Hnd]%NoDup_cons [E|Hin]%elem_of_cons; [|by apply IH2].
    simplify_eq. rewrite IH1 by done. by rewrite Hone, decide_True.
Qed.

Lemma claims_ingest o d l s i :
  ingest (iq (foldl (claim_one o d) s l)) !! i = if decide (i ∈ l.*2) then None else ingest (iq s) !! i.
Proof.
  revert s. induction l as [|[t j] l IH]; intros s; cbn [foldl fmap list_fmap]; [by rewrite decide_False by set_solver|].
  rewrite IH. destruct (ingest_pop_iq j s) as (E & _).
  change (iq (claim_one o d s (t, j))) with (iq (ingest_pop j s).2). rewrite E, dict_lookup_delete.
  repeat case_decide; try done; set_solver.
Qed.

Lemma live_keys_NoDup b q : dict_wf (ingest q) -> NoDup (live_keys b q).*2.
Proof.
  intros Hd. unfold live_keys. unfold dict_wf, dict_keys in Hd.
  induction (dict_items (ingest q)) as [|[i sc] l IH]; [apply NoDup_nil_2|].
  rewrite fmap_cons in *. apply NoDup_cons in Hd as [Hni Hd]. rewrite filter_cons. simpl.
  case_decide; [|by apply IH]. rewrite fmap_cons. apply NoDup_cons. split; [|by apply IH].
  simpl. intros ([t j] & -> & Hin)%list_elem_of_fmap.
  apply list_elem_of_filter in Hin as [_ ([i' sc'] & [= -> ->] & Hin)%list_elem_of_fmap].
  apply Hni, list_elem_of_fmap. by exists (i', sc').
Qed.

Lemma take_elem {A} (x : A) n l : x ∈ take n l -> x ∈ l.
Proof. apply subseteq_take. Qed.

(** A claim is exclusive: the jobs of one call are distinct, each was queued
    and unclaimed, and afterwards each is owned by the caller until its deadline,
    with its score on record, and is on no queue. *)
Theorem claim_ingest_exclusive cfg b o ttl now n s jobs s' :
  reachable s -> b = "hot" \/ b = "catchup" ->
  claim_ingest_jobs cfg s b o n ttl now = Some (Ok (jobs, s')) ->
  NoDup (cj_identity <$> jobs) /\
  (forall j, j ∈ jobs ->
    queued s JOB_KIND_INGEST (cj_identity j) /\ ~ claimed s JOB_KIND_INGEST (cj_identity j) /\
    owns JOB_KIND_INGEST (cj_identity j) o s' = true /\
    read_inflight_entry JOB_KIND_INGEST (cj_identity j) s' = Some (claim_deadline cfg ttl now, o, cj_score j) /\
    ~ queued s' JOB_KIND_INGEST (cj_identity j)).
Proof.
  intros Hr Hb Hc. pose proof (reachable_wf s Hr) as Hw. pose proof (sw_core s Hw) as Hcore.
  assert (o <> EmptyString /\ 1 <= n) as [Ho Hn].
  { unfold claim_ingest_jobs, claim_ingest, claim_ingest_with in Hc.
    destruct (decide (o = "")); [done|]. destruct (Z.ltb_spec n 1); [done|by split]. }
  destruct (claim_ingest_gives cfg b o ttl now n s Hw Hb Ho Hn) as (s1 & s2 & Hc2 & Es & E2).
  unfold claim_ingest_jobs in Hc. rewrite Hc2 in Hc. injection Hc as Ej <-.
  set (taken := take (Z.to_nat n) (band_queue b (iq s))) in *.
  assert (NoDup taken.*2) as Hnd.
  { unfold taken. rewrite fmap_take. apply NoDup_take. rewrite band_queue_perm.
    apply live_keys_NoDup, (sw_iq s Hcore). }
  assert (inflight s2 = inflight (foldl (claim_one o (claim_deadline cfg ttl now)) s taken) /\
    ingest (iq s2) = ingest (iq (foldl (claim_one o (claim_deadline cfg ttl now)) s taken)) /\
    lists s2 = lists s1) as (Ei & Eq & _).
  { unfold equiv, store_equiv in Es. apply (f_equal (fun x => (inflight x, ingest (iq x)))) in Es.
    simpl in Es. injection Es as E3 E4. rewrite E2. by case_decide. }
  assert (store_wf s2) as Hw2.
  { eapply step_wf; [|exact Hw]. exact (step_claim_ingest cfg s b o n ttl now _ Hc2). }
  rewrite <- Ej. simpl. fold taken. split.
  - rewrite <- list_fmap_compose. exact Hnd.
  - intros j ([sc i] & -> & Hin)%list_elem_of_fmap. simpl.
    assert (ingest (iq s) !! i = Some sc) as Hl.
    { apply take_elem in Hin. rewrite band_queue_perm in Hin. apply elem_live_keys in Hin as [? _]; [done|].
      apply (sw_iq s Hcore). }
    assert (queued s JOB_KIND_INGEST i) as Hq by (left; split; [done|by eexists]).
    destruct (claims_inflight o (claim_deadline cfg ttl now) taken s i) as [_ Hin2].
    specialize (Hin2 sc Hnd Hin). rewrite <- Ei in Hin2. split_and!.
    + exact Hq.
    + intros Hcl. by apply (sw_disjoint s Hcore _ _ Hcl).
    + apply owns_spec. split; [done|]. by eexists.
    + exact Hin2.
    + apply (sw_disjoint s2 (sw_core s2 Hw2)). by eexists.
Qed.

(** ** A band that is not normalised *)

Lemma diverges_loop fuel b range o d want s i sc :
  store_wf s -> heap_band b = "catchup" -> ingest (iq s) !! i = Some sc -> decode_ingest_band sc = "catchup" ->
  (forall t, decode_ingest_band t = "catchup" -> in_range range t = false) ->
  claim_loop fuel b range o d (S want) s = None.
Proof.
  intros Hw Hb Hl Hs Hr. rewrite claim_loop_band, Hb. revert s Hw Hl.
  induction fuel as [|fuel IH]; intros s Hw Hl; [done|]. cbn [claim_loop].
  destruct (pq_pop _) as [[[t j] h']|] eqn:Hp.
  - set (s1 := with_iq (set_heap_for_band "catchup" h' (iq s)) s).
    assert (ingest (iq s1) = ingest (iq s)) as Ei by apply set_heap_ingest. rewrite Ei.
    destruct (heaps_after_pop "catchup" (iq s) t j h' ltac:(auto) (iqw_sep _ (sw_iq s (sw_core s Hw))) Hp)
      as (Hband & _).
    destruct (decide (is_Some _)) as [Hcl|_].
    { apply IH; [by eapply store_wf_drop_head; [auto|..|by apply in_flight_stale]|by rewrite Ei]. }
    destruct (ingest (iq s) !! j) as [live|] eqn:El.
    2: { apply IH; [eapply store_wf_drop_head; [auto|done..|by rewrite El]|by rewrite Ei]. }
    assert (store_wf (with_iq (ingest_heap_push j live (set_heap_for_band "catchup" h' (iq s))) s1)) as Hre
      by (eapply (store_wf_rearm "catchup" s h'); [auto|done..]).
    assert (ingest (ingest_heap_push j live (iq s1)) !! i = Some sc) as Hl2 by (by rewrite ingest_push, Ei).
    destruct (decide (live <> t)) as [Hne|Heq].
    { apply IH; [exact Hre|exact Hl2]. }
    assert (live = t) as -> by (by apply dec_stable). rewrite Hr by done. cbn [negb].
    apply IH; [exact Hre|exact Hl2].
  - exfalso. apply pq_pop_None in Hp. destruct (iqw_cover _ (sw_iq s (sw_core s Hw)) i sc Hl) as [Hm _].
    rewrite Hs, Hp in Hm. by apply elem_of_nil in Hm.
Qed.

(** A band name that [ingest_score_range] accepts but the heap selection does
    not know, such as ["HOT"], makes [claim_ingest] spin: with a catchup file
    queued, no number of rounds ends the loop, because each round pops a catchup
    item, finds it outside the hot range and pushes it back. *)
Theorem claim_unnormalised_band_spins fuel cfg b o ttl now n s i sc :
  reachable s -> b <> "hot" -> py_lower (py_strip b) = "hot" -> o <> EmptyString -> 1 <= n ->
  ingest (iq s) !! i = Some sc -> decode_ingest_band sc = "catchup" ->
  claim_ingest_with fuel cfg b o ttl now n s = None.
Proof.
  intros Hr Hb Ht Ho Hn Hl Hs. unfold claim_ingest_with. rewrite decide_False by done.
  destruct (Z.ltb_spec n 1); [lia|]. unfold ingest_score_range. rewrite Ht, decide_True by done.
  destruct (Z.to_nat n) as [|want] eqn:En; [lia|].
  rewrite (diverges_loop fuel b _ o _ want s i sc); [done|by apply reachable_wf| |done..|].
  - unfold heap_band. by rewrite decide_False.
  - intros t Hband. destruct (band_cases t) as [[Hlt E]|[Hge E]]; [by rewrite E in Hband|].
    unfold in_range; simpl. apply Z.leb_gt. lia.
Qed.
End claiming.

Section admission.
Context {H : Type} `{PQ : !PriorityQueue H}.
Implicit Types (q : ingest_queue H) (s : store H).

(** ** Capacity eviction *)

(** The queued catchup items below a bound: what a [None] of the eviction means.
    A score without a calendar day can hide younger files below it. *)
Definition nothing_younger (day : Z) s : Prop :=
  forall i sc d, ingest (iq s) !! i = Some sc -> decode_catchup_calendar_day sc = Some d ->
    d <= day \/
    exists j t, ingest (iq s) !! j = Some t /\ decode_ingest_band t = "catchup" /\
      decode_catchup_calendar_day t = None /\ sc <= t.

(** [i] was the youngest queued backfill file, and younger than [day]. *)
Definition evicted_youngest (day : Z) (i : string) s s' : Prop :=
  exists sc d, ingest (iq s) !! i = Some sc /\ decode_catchup_calendar_day sc = Some d /\ day < d /\
    (forall j t, ingest (iq s) !! j = Some t -> decode_ingest_band t = "catchup" -> t <= sc) /\
    ingest (iq s') = delete i (ingest (iq s)) /\ lists s' = lists s /\ inflight s' = inflight s /\
    payloads s' !! (JOB_KIND_INGEST, i) = None.

Lemma max_heap_top q neg i h' :
  iq_wf q -> pq_pop (heap_catchup_max q) = Some ((neg, i), h') ->
  forall j t, ingest q !! j = Some t -> decode_ingest_band t = "catchup" -> t <= - neg.
Proof.
  intros [_ Hc _ _] Hp j t Hj Hb. destruct (Hc j t Hj) as [_ Hm].
  pose proof (qkey_le_score _ _ (pq_pop_min _ _ _ _ Hp (Hm Hb))). simpl in *. lia.
Qed.

Lemma evict_loop_spec fuel day s :
  store_wf s -> (pq_len (heap_catchup_max (iq s)) < fuel)%nat ->
  exists r s', evict_loop fuel day s = Some (r, s') /\
    match r with
    | None => s' ≡ s /\ nothing_younger day s
    | Some i => evicted_youngest day i s s'
    end.
Proof.
  revert s. induction fuel as [|fuel IH]; intros s Hw Hf; [lia|]. cbn [evict_loop].
  destruct (pq_pop _) as [[[neg i] h']|] eqn:Hp.
  2: { exists None, s. split_and!; [done..|]. intros i sc d Hi (Hb & _)%decode_day_Some. exfalso.
       destruct (iqw_cover _ (sw_iq s (sw_core s Hw)) i sc Hi) as [_ Hm].
       apply pq_pop_None in Hp. specialize (Hm Hb). rewrite Hp in Hm. by apply elem_of_nil in Hm. }
  pose proof (max_heap_top _ _ _ _ (sw_iq s (sw_core s Hw)) Hp) as Htop.
  destruct (decide (ingest (iq s) !! i = Some (- neg))) as [Hl|Hst].
  - assert (decode_ingest_band (- neg) = "catchup") as Hb.
    { apply (iqw_sep _ (sw_iq s (sw_core s Hw))) with (k := (neg, i)). apply (pq_pop_elem _ _ _ _ Hp). by left. }
    destruct (decode_catchup_calendar_day (- neg)) as [e|] eqn:Ed.
    + destruct (Z.leb_spec e day).
      * exists None, s. split_and!; [done..|]. intros j t d Hj Hd. left.
        pose proof (decode_day_Some _ _ Hd) as (Hbt & _).
        pose proof (decode_day_mono _ _ _ _ (Htop j t Hj Hbt) Hd Ed). lia.
      * eexists (Some i), _. split; [done|]. exists (- neg), e.
        rewrite ingest_pop_heap_max. destruct (ingest_pop_iq i s) as (Ei & _).
        assert (lists (ingest_pop i s).2 = lists s /\ inflight (ingest_pop i s).2 = inflight s) as [E1 E2]
          by (unfold ingest_pop; by case_match).
        split_and!; try done. simpl. apply lookup_delete_eq.
    + exists None, s. split_and!; [done..|]. intros j t d Hj Hd. right.
      pose proof (decode_day_Some _ _ Hd) as (Hbt & _). exists i, (- neg). split_and!; [done..|]. by apply (Htop j).
  - set (s1 := with_iq (with_heap_max h' (iq s)) s).
    destruct (IH s1) as (r & s' & Hr & Hspec).
    + apply store_wf_heaps; [done| |done]. by apply (iq_wf_drop_max _ _ neg i); [apply Hw|..].
    + pose proof (pq_len_pop _ _ _ Hp). simpl. lia.
    + exists r, s'. split; [exact Hr|]. destruct r; [exact Hspec|].
      destruct Hspec as [E Hn]. split; [|exact Hn]. etrans; [exact E|]. by apply store_equiv_intro.
Qed.

(** Capacity eviction always returns.  It removes at most one file: the youngest
    queued backfill file, and only when its day is after [older_day]; hot files,
    claims and the LIST queues are untouched, and the file's payload row goes with
    it.  When it removes nothing, the store is unchanged up to stale heap entries and
    no dated backfill file is younger. *)
Theorem evict_youngest_spec day s :
  reachable s ->
  exists r s', evict_youngest_catchup_ingest day s = Some (r, s') /\
    match r with
    | None => s' ≡ s /\ nothing_younger day s
    | Some i => evicted_youngest day i s s'
    end.
Proof. intros Hr. apply evict_loop_spec; [by apply reachable_wf|lia]. Qed.

(** ** Admission *)

Lemma zadd_accepted cfg i sc fp s :
  ~ claimed s JOB_KIND_INGEST i ->
  let cap := discover_ingest_capacity_limit (sync_job_queue_max_members cfg) (sync_ingest_queue_max_size cfg) in
  ingest (iq (zadd_ingest cfg i sc fp false s).2) =
    if decide (is_Some (ingest (iq s) !! i) \/ decode_ingest_band sc = "hot" \/
               queued_count JOB_KIND_INGEST s < cap)
    then <[i := sc]> (ingest (iq s)) else ingest (iq s).
Proof.
  intros Hncl cap. unfold zadd_ingest. rewrite decide_False by exact Hncl. fold cap.
  change (queued_count JOB_KIND_INGEST s) with (Z.of_nat (dict_len (ingest (iq s)))).
  change (has_capacity JOB_KIND_INGEST cap s) with (Z.of_nat (dict_len (ingest (iq s))) <? cap).
  destruct (_ && _) eqn:Hc; rewrite ?andb_true_r in Hc.
  - rewrite decide_False; [done|]. rewrite !andb_true_iff, !negb_true_iff, !bool_decide_eq_true,
      bool_decide_eq_false, Z.ltb_ge in Hc. intros [?|[?|?]]; [tauto|tauto|lia].
  - rewrite decide_True.
    + transitivity (ingest (iq (ingest_set i sc s))); [|unfold ingest_set; simpl; apply ingest_queue_set].
      destruct fp as [fp|]; [destruct (decide (fp = ""))|]; done.
    + rewrite !andb_false_iff, !negb_false_iff, !bool_decide_eq_true, bool_decide_eq_false, Z.ltb_lt in Hc.
      destruct Hc as [[Hc|Hc]|Hc]; [by left|by right; right|]. right; left. by apply dec_stable.
Qed.

Lemma dict_len_insert {V} (d : dict string V) k v :
  dict_len (<[k := v]> d) = if decide (is_Some (d !! k)) then dict_len d else S (dict_len d).
Proof.
  unfold dict_len. case_decide as Hk.
  - rewrite <- !(length_fmap fst). change ((dict_items ?x).*1) with (dict_keys x).
    by rewrite dict_keys_insert_Some.
  - rewrite dict_items_insert_None by by apply eq_None_not_Some. rewrite length_app. simpl. lia.
Qed.

(** Admission control: a file that is not claimed and not marked over-cap joins the
    queue iff it was queued already, or belongs to the hot band, or the queue is
    below the discover cap; then its score is the new one.  So backfill never grows
    the queue past the cap, and live files are never starved by a full backfill. *)
Theorem zadd_admission cfg s i sc fp :
  reachable s -> ~ claimed s JOB_KIND_INGEST i ->
  let cap := discover_ingest_capacity_limit (sync_job_queue_max_members cfg) (sync_ingest_queue_max_size cfg) in
  let s' := (zadd_ingest_job cfg s i sc fp false).2 in
  (ingest (iq s') !! i = Some sc <->
     queued s JOB_KIND_INGEST i \/ decode_ingest_band sc = "hot" \/ queued_count JOB_KIND_INGEST s < cap) /\
  (decode_ingest_band sc = "catchup" ->
     queued_count JOB_KIND_INGEST s' <= Z.max cap (queued_count JOB_KIND_INGEST s)) /\
  (forall j, j <> i -> ingest (iq s') !! j = ingest (iq s) !! j).
Proof.
  intros Hr Hncl cap s'. pose proof (no_ingest_list s (sw_core s (reachable_wf s Hr))) as Hnil.
  assert (queued s JOB_KIND_INGEST i <-> is_Some (ingest (iq s) !! i)) as Hq by by apply queued_ingest.
  pose proof (zadd_accepted cfg i sc fp s Hncl : ingest (iq s') = _) as Ha. fold cap in Ha.
  change (queued_count JOB_KIND_INGEST s') with (Z.of_nat (dict_len (ingest (iq s')))).
  change (queued_count JOB_KIND_INGEST s) with (Z.of_nat (dict_len (ingest (iq s)))) in *.
  rewrite Ha, Hq. destruct (decide (_ \/ _)) as [Hacc|Hacc]; split_and!.
  - rewrite dict_lookup_insert_eq. by split.
  - intros Hb. rewrite dict_len_insert. destruct (decide (is_Some _)); [lia|].
    destruct Hacc as [?|[E|?]]; [done|by rewrite Hb in E|lia].
  - intros j Hne. by rewrite dict_lookup_insert_ne.
  - split; [|done]. intros E. destruct Hacc. left. by eexists.
  - lia.
  - done.
Qed.
End admission.

(** ** Concrete instances *)

Lemma claim_ingest_refines_witness :
  let spec := claim_spec "catchup" Demo.owner (claim_deadline default_config (Some 100) 1000) 1 Demo.s4 in
  exists s', claim_ingest_jobs default_config Demo.s4 "catchup" Demo.owner 1 (Some 100) 1000 = Some (Ok (spec.1, s')) /\
    s' ≡ (if decide (spec.1 = []) then spec.2 else mark_dirty_locked spec.2).
Proof.
  refine (claim_ingest_refines default_config "catchup" Demo.owner (Some 100) 1000 1 Demo.s4 Demo.s4_reachable _ _ _).
  - by right.
  - discriminate.
  - lia.
Defined.

Lemma claim_ingest_exclusive_witness :
  NoDup (cj_identity <$> Demo.jobs5) /\
  (forall j, j ∈ Demo.jobs5 ->
    queued Demo.s4 JOB_KIND_INGEST (cj_identity j) /\ ~ claimed Demo.s4 JOB_KIND_INGEST (cj_identity j) /\
    owns JOB_KIND_INGEST (cj_identity j) Demo.owner Demo.s5 = true /\
    read_inflight_entry JOB_KIND_INGEST (cj_identity j) Demo.s5 =
      Some (claim_deadline default_config (Some 100) 1000, Demo.owner, cj_score j) /\
    ~ queued Demo.s5 JOB_KIND_INGEST (cj_identity j)).
Proof.
  refine (claim_ingest_exclusive default_config "catchup" Demo.owner (Some 100) 1000 1 Demo.s4 Demo.jobs5 Demo.s5
    Demo.s4_reachable _ Demo.claim5). by right.
Defined.

Lemma claim_unnormalised_band_spins_witness :
  claim_ingest_with 1000 default_config "HOT" Demo.owner (Some 100) 1000 1 Demo.s4 = None.
Proof.
  refine (claim_unnormalised_band_spins 1000 default_config "HOT" Demo.owner (Some 100) 1000 1 Demo.s4 "/raw/a"
    (Demo.day_score 738000 9) Demo.s4_reachable _ _ _ _ _ _).
  - discriminate.
  - vm_compute. reflexivity.
  - discriminate.
  - lia.
  - vm_compute. reflexivity.
  - vm_compute. reflexivity.
Defined.

Lemma evict_youngest_spec_witness :
  exists r s', evict_youngest_catchup_ingest 738000 Demo.s4 = Some (r, s') /\
    match r with
    | None => s' ≡ Demo.s4 /\ nothing_younger 738000 Demo.s4
    | Some i => evicted_youngest 738000 i Demo.s4 s'
    end.
Proof. refine (evict_youngest_spec 738000 Demo.s4 Demo.s4_reachable). Defined.

Lemma zadd_admission_witness :
  let cap := discover_ingest_capacity_limit None None in
  let s' := (zadd_ingest_job default_config Demo.s4 "/raw/new" (Demo.day_score 738002 0) None false).2 in
  (ingest (iq s') !! "/raw/new" = Some (Demo.day_score 738002 0) <->
     queued Demo.s4 JOB_KIND_INGEST "/raw/new" \/ decode_ingest_band (Demo.day_score 738002 0) = "hot" \/
     queued_count JOB_KIND_INGEST Demo.s4 < cap) /\
  (decode_ingest_band (Demo.day_score 738002 0) = "catchup" ->
     queued_count JOB_KIND_INGEST s' <= Z.max cap (queued_count JOB_KIND_INGEST Demo.s4)) /\
  (forall j, j <> "/raw/new" -> ingest (iq s') !! j = ingest (iq Demo.s4) !! j).
Proof.
  refine (zadd_admission default_config Demo.s4 "/raw/new" (Demo.day_score 738002 0) None Demo.s4_reachable _).
  intros [e He]. vm_compute in He. discriminate He.
Defined.
