(* ===== verification/JobStoreRecovery.v ===== *)
(** Owned claims and their recovery: [ack], [requeue], [renew_job_lease], and the
    three ways a claim comes back without its owner: the expiry reaper, the
    dead-owner steal, and the reconciliation of lost workers. *)
From S2P Require Import Prelude PyDict PriorityQueue PyStr IngestScore LeaseOwner WriteBehind JobStore JobStoreInv JobStoreOps JobStorePersist JobStoreSteps JobStoreSafety.
Import MinScan.
Local Open Scope Z_scope.

Section recovery.
Context {H : Type} `{PQ : !PriorityQueue H}.
Implicit Types (q : ingest_queue H) (s : store H).

(** ** What putting a claim back does *)

Lemma drop_claim_entry k i s k' j :
  read_inflight_entry k' j (drop_claim k i s) =
    if decide ((k', j) = (k, i)) then None else read_inflight_entry k' j s.
Proof.
  unfold read_inflight_entry, drop_claim; simpl. rewrite total_insert.
  destruct (decide (k = k')) as [<-|Hk]; [|by rewrite decide_False by congruence].
  rewrite dict_lookup_delete. destruct (decide (i = j)) as [<-|Hi].
  - by rewrite decide_True.
  - by rewrite decide_False by congruence.
Qed.

Lemma put_back_entry k i sc s k' j :
  read_inflight_entry k' j (put_back k i sc s) = read_inflight_entry k' j s.
Proof. unfold put_back. by case_decide. Qed.

Lemma put_back_ingest k i sc s j :
  ingest (iq (put_back k i sc s)) !! j =
    if decide ((k, j) = (JOB_KIND_INGEST, i)) then Some sc else ingest (iq s) !! j.
Proof.
  unfold put_back. destruct (decide (k = JOB_KIND_INGEST)) as [->|Hk].
  - unfold ingest_set; simpl. rewrite ingest_queue_set, dict_lookup_insert.
    destruct (decide (i = j)) as [<-|]; [by rewrite decide_True|by rewrite decide_False by congruence].
  - by rewrite decide_False by congruence.
Qed.

Lemma put_back_lists k i sc s k' :
  lists (put_back k i sc s) !!! k' =
    if decide (k' = k /\ k <> JOB_KIND_INGEST) then lists s !!! k ++ [i] else lists s !!! k'.
Proof.
  unfold put_back. destruct (decide (k = JOB_KIND_INGEST)) as [->|Hk].
  - rewrite decide_False by tauto. done.
  - unfold list_push; simpl. rewrite total_insert. destruct (decide (k = k')) as [<-|Hne].
    + by rewrite decide_True.
    + rewrite decide_False; [done|]. intros [-> _]. done.
Qed.

(** ** Acknowledging *)

(** Only the owner ends a job.  [ack_job] answers true exactly when the caller's
    token owns the claim; then the job is gone, payload row included, and nothing
    else of the queues and claims changes.  Otherwise the store is unchanged. *)
Theorem ack_owner_only s k i o :
  reachable s ->
  let '(ok, s') := ack_job s k i o in
  (ok = true <-> o <> EmptyString /\ exists d sc, read_inflight_entry k i s = Some (d, o, sc)) /\
  (ok = false -> s' = s) /\
  (ok = true ->
    ~ present s' k i /\ payloads s' !! (k, i) = None /\ lease_token k i s' = None /\
    (forall k' j, queued s' k' j <-> queued s k' j) /\
    (forall k' j, (k', j) <> (k, i) -> read_inflight_entry k' j s' = read_inflight_entry k' j s)).
Proof.
  intros Hr. pose proof (reachable_wf s Hr) as Hw.
  assert (owns k i o s = true <-> o <> "" /\ exists d sc, read_inflight_entry k i s = Some (d, o, sc)) as Ho.
  { rewrite owns_spec. unfold read_inflight_entry, entry_owner. split.
    - intros (? & [[d o'] sc] & He & <-). eauto.
    - intros (? & d & sc & He). split; [done|]. by exists (d, o, sc). }
  unfold ack_job, ack. destruct (owns k i o s) eqn:E.
  - split_and!; [tauto|done|]. intros _.
    pose proof (sw_disjoint s (sw_core s Hw) k i (owns_claimed _ _ _ _ E)) as Hnq.
    assert (forall (x : store H), ingest (iq x) = ingest (iq s) -> lists x = lists s ->
      inflight x = inflight (drop_claim k i s) -> leases x = leases (drop_claim k i s) ->
      payloads x = delete (k, i) (payloads s) ->
      ~ present x k i /\ payloads x !! (k, i) = None /\ lease_token k i x = None /\
      (forall k' j, queued x k' j <-> queued s k' j) /\
      (forall k' j, (k', j) <> (k, i) -> read_inflight_entry k' j x = read_inflight_entry k' j s)) as Hgo.
    { intros x E1 E2 E3 E4 E5.
      assert (forall k' j, read_inflight_entry k' j x = read_inflight_entry k' j (drop_claim k i s)) as He
        by (intros; unfold read_inflight_entry; by rewrite E3).
      assert (forall k' j, queued x k' j <-> queued s k' j) as Hq by (intros; unfold queued; by rewrite E1, E2).
      split_and!; [| | |exact Hq|].
      - intros [Hqx|Hcx]; [by apply Hnq, Hq|]. unfold claimed in Hcx. rewrite E3 in Hcx.
        change (claimed (drop_claim k i s) k i) in Hcx. by apply claimed_drop in Hcx as [_ []].
      - rewrite E5. apply lookup_delete_eq.
      - unfold lease_token. rewrite E4. rewrite leases_drop. by rewrite decide_True.
      - intros k' j Hne. rewrite He, drop_claim_entry. by rewrite decide_False. }
    case_match; by apply Hgo.
  - split_and!; [|done|done]. rewrite <- Ho. done.
Qed.

(** Requeueing: a caller that does not own the claim changes nothing; the owner's
    claim and lease are gone and the job is queued again: a file with the given score
    (the catchup base without one), a LIST job at the tail of its queue. *)
Theorem requeue_owner_only s k i o score :
  reachable s ->
  let '(ok, s') := requeue_job s k i o score in
  ok = owns k i o s /\
  (ok = false -> s' = s) /\
  (ok = true ->
    queued s' k i /\ ~ claimed s' k i /\ lease_token k i s' = None /\
    (k = JOB_KIND_INGEST -> ingest_score i s' = Some (default CATCHUP_SCORE_BASE score)) /\
    (k <> JOB_KIND_INGEST -> lists s' !!! k = lists s !!! k ++ [i]) /\
    (forall k' j, (k', j) <> (k, i) ->
      (queued s' k' j <-> queued s k' j) /\ read_inflight_entry k' j s' = read_inflight_entry k' j s)).
Proof.
  intros Hr. unfold requeue_job, requeue. destruct (owns k i o s) eqn:Ho; [|by split_and!].
  set (s1 := put_back k i (default CATCHUP_SCORE_BASE score) (drop_claim k i s)).
  assert (forall x : store H, ingest (iq x) = ingest (iq s1) -> lists x = lists s1 -> inflight x = inflight s1 ->
    leases x = leases s1 ->
    queued x k i /\ ~ claimed x k i /\ lease_token k i x = None /\
    (k = JOB_KIND_INGEST -> ingest_score i x = Some (default CATCHUP_SCORE_BASE score)) /\
    (k <> JOB_KIND_INGEST -> lists x !!! k = lists s !!! k ++ [i]) /\
    (forall k' j, (k', j) <> (k, i) ->
      (queued x k' j <-> queued s k' j) /\ read_inflight_entry k' j x = read_inflight_entry k' j s)) as Hgo.
  { intros x E1 E2 E3 E4.
    assert (forall k' j, queued x k' j <-> queued s1 k' j) as Hq by (intros; unfold queued; by rewrite E1, E2).
    split_and!.
    - apply Hq, queued_put_back.
    - unfold claimed. rewrite E3. change (~ claimed s1 k i). unfold s1.
      rewrite claimed_put_back, claimed_drop. tauto.
    - unfold lease_token. rewrite E4. unfold s1, put_back. 
      assert (leases (drop_claim k i s) !! (k, i) = None) as Hl by (rewrite leases_drop; by rewrite decide_True).
      by case_decide.
    - intros ->. unfold ingest_score. rewrite E1. unfold s1. rewrite put_back_ingest. by rewrite decide_True.
    - intros Hk. rewrite E2. unfold s1. rewrite put_back_lists. by rewrite decide_True.
    - intros k' j Hne. split.
      + rewrite Hq. unfold queued, s1. rewrite put_back_ingest, put_back_lists.
        change (ingest (iq (drop_claim k i s))) with (ingest (iq s)).
        change (lists (drop_claim k i s)) with (lists s).
        destruct (decide (k' = k /\ k <> JOB_KIND_INGEST)) as [[-> Hk]|Hk].
        * rewrite decide_False by congruence. rewrite elem_of_app, list_elem_of_singleton. naive_solver.
        * destruct (decide ((k, j) = (JOB_KIND_INGEST, i))) as [E|]; [|done]. simplify_eq.
          destruct (decide (k' = JOB_KIND_INGEST)) as [->|]; [done|]. naive_solver.
      + unfold read_inflight_entry. rewrite E3. change (read_inflight_entry k' j s1 = read_inflight_entry k' j s).
        unfold s1. rewrite put_back_entry, drop_claim_entry. by rewrite decide_False. }
  split_and!; [done|done|]. intros _. case_decide; by apply Hgo.
Qed.

(** ** Recovering many claims *)

(** The claims [ts], with the score each goes back at, were put back in order, and
    nothing else of the queues and the claims changed. *)
Record recovers (ts : list (string * string * Z)) s s' : Prop := {
  rc_entry : forall k j, read_inflight_entry k j s' =
    if decide ((k, j) ∈ ts.*1) then None else read_inflight_entry k j s;
  rc_score : forall j sc, (JOB_KIND_INGEST, j, sc) ∈ ts -> ingest_score j s' = Some sc;
  rc_others : forall j, (JOB_KIND_INGEST, j) ∉ ts.*1 -> ingest_score j s' = ingest_score j s;
  rc_lists : forall k, k <> JOB_KIND_INGEST ->
    lists s' !!! k = lists s !!! k ++ (filter (fun t => t.1.1 = k) ts).*1.*2;
}.

Lemma recovers_nil s : recovers [] s s.
Proof. constructor; [done|set_solver|done|]. intros k _. by rewrite app_nil_r. Qed.

(** One claim put back, then the rest. *)
Lemma recovers_cons k i sc ts s s1 s' :
  ingest (iq s1) = ingest (iq (put_back k i sc (drop_claim k i s))) ->
  lists s1 = lists (put_back k i sc (drop_claim k i s)) ->
  inflight s1 = inflight (put_back k i sc (drop_claim k i s)) ->
  (k, i) ∉ ts.*1 -> recovers ts s1 s' -> recovers ((k, i, sc) :: ts) s s'.
Proof.
  intros E1 E2 E3 Hni [Re Rs Ro Rl].
  assert (forall k' j, read_inflight_entry k' j s1 =
    if decide ((k', j) = (k, i)) then None else read_inflight_entry k' j s) as He.
  { intros k' j. rewrite <- drop_claim_entry. etrans; [|apply (put_back_entry k i sc)].
    unfold read_inflight_entry. by rewrite E3. }
  assert (forall j, ingest_score j s1 = if decide ((k, j) = (JOB_KIND_INGEST, i)) then Some sc else ingest_score j s) as Hs.
  { intros j. unfold ingest_score. by rewrite E1, put_back_ingest. }
  constructor.
  - intros k' j. rewrite Re, He. rewrite fmap_cons. simpl.
    destruct (decide ((k', j) ∈ ts.*1)); [by rewrite decide_True by set_solver|].
    destruct (decide ((k', j) = (k, i))) as [->|]; [by rewrite decide_True by set_solver|].
    by rewrite decide_False by set_solver.
  - intros j t [E|Hin]%elem_of_cons; [|by apply Rs]. simplify_eq.
    rewrite Ro by done. rewrite Hs. by rewrite decide_True.
  - intros j Hj. rewrite fmap_cons in Hj. simpl in Hj. rewrite Ro by set_solver.
    rewrite Hs, decide_False; [done|]. intros [= -> ->]. apply Hj. by left.
  - intros k' Hk'. rewrite Rl by done. rewrite E2, put_back_lists, filter_cons. simpl.
    destruct (decide (k = k')) as [->|Hne].
    + rewrite decide_True by done. simpl. by rewrite <- app_assoc.
    + rewrite decide_False; [done|]. by intros [-> _].
Qed.

(** *** The reaper *)

Definition is_expired (cutoff : Z) (p : string * inflight_entry) : bool := p.2.1.1 <=? cutoff.

Definition reap_targets (k : string) (ts : list (string * inflight_entry)) : list (string * string * Z) :=
  (fun p => (k, p.1, penalize_ingest_score p.2.2)) <$> ts.

Lemma reap_targets_keys k ts : (reap_targets k ts).*1 = (fun i => (k, i)) <$> ts.*1.
Proof. unfold reap_targets. by rewrite <- !list_fmap_compose. Qed.

Lemma reap_loop_recovers items want k cutoff s :
  NoDup items.*1 ->
  let ts := take want (filter (fun p => is_expired cutoff p = true) items) in
  (reap_loop items want k cutoff s).1 = ts.*1 /\
  recovers (reap_targets k ts) s (reap_loop items want k cutoff s).2.
Proof.
  revert want s. induction items as [|[i [[d o] sc]] items IH]; intros want s Hnd.
  { destruct want; split; try apply recovers_nil; done. }
  destruct want as [|want]; [split; [done|apply recovers_nil]|].
  apply NoDup_cons in Hnd as [Hni Hnd]. cbn [reap_loop]. rewrite filter_cons.
  change (is_expired cutoff (i, (d, o, sc))) with (d <=? cutoff). destruct (Z.ltb_spec cutoff d) as [Hd|Hd].
  - rewrite (decide_False (P := (d <=? cutoff) = true)); [by apply IH|].
    rewrite Z.leb_le. lia.
  - rewrite (decide_True (P := (d <=? cutoff) = true)) by (by apply Z.leb_le). cbn [take].
    set (s1 := mark_dirty_locked (put_back k i (penalize_ingest_score sc) (drop_claim k i s))).
    destruct (IH want s1 Hnd) as [E R]. destruct (reap_loop items want k cutoff s1) as [out s'].
    simpl in *. split; [by rewrite E|].
    apply (recovers_cons k i _ _ s s1); [done..| |exact R].
    rewrite reap_targets_keys. intros Hin.
    apply list_elem_of_fmap in Hin as (j & [= <-] & Hin).
    apply Hni. apply list_elem_of_fmap in Hin as (p & -> & Hin). apply list_elem_of_fmap.
    exists p. split; [done|]. apply subseteq_take in Hin. by apply list_elem_of_filter in Hin as [_ ?].
Qed.

(** The reaper recovers exactly the claims whose deadline is at least the grace
    period in the past, oldest claim first, at most [max(1, limit)] of them: each goes
    back to its queue (a file at its penalized score, a LIST job at the tail), and
    every other queue entry and claim is untouched. *)
Theorem reap_expired_spec s k now limit :
  reachable s ->
  let ts := take (Z.to_nat (Z.max 1 limit))
    (filter (fun p => is_expired (now - INFLIGHT_REAP_GRACE_FLOOR_S) p = true)
      (dict_items (read_inflight_entries k s))) in
  let '(out, s') := reap_expired_inflight k now limit s in
  out = ts.*1 /\ recovers (reap_targets k ts) s s'.
Proof.
  intros Hr ts. unfold reap_expired_inflight.
  destruct (reap_loop_recovers (dict_items (inflight s !!! k)) (Z.to_nat (Z.max 1 limit)) k
    (now - INFLIGHT_REAP_GRACE_FLOOR_S) s) as [E R].
  { apply (sw_inflight_dict s (sw_core s (reachable_wf s Hr)) k). }
  by destruct (reap_loop _ _ _ _ _).
Qed.

(** A renewed claim survives: after the owner's [renew_job_lease] at [now] with
    lease [ttl], no reaping before [now + ttl + 30 s] takes the job away, whatever its
    limit. *)
Theorem renewed_claim_survives cfg k i o ttl now s s1 later limit :
  reachable s -> renew_job_lease cfg k i o (Some ttl) now s = (true, s1) ->
  later < now + ttl + INFLIGHT_REAP_GRACE_FLOOR_S ->
  owns k i o (reap_expired_inflight k later limit s1).2 = true.
Proof.
  intros Hr Hrn Hlt.
  assert (reachable s1) as Hr1.
  { eapply reach_step; [exact Hr|]. pose proof (step_renew cfg s k i o (Some ttl) now) as Hs. by rewrite Hrn in Hs. }
  unfold renew_job_lease in Hrn. destruct (owns k i o s) eqn:Ho; [|done].
  apply owns_spec in Ho as (Hne & [[d o'] sc] & He & Heo). rewrite He in Hrn. unfold entry_owner in Heo. simpl in Heo. subst o'.
  simpl in Hrn. injection Hrn as Es1.
  assert (read_inflight_entry k i s1 = Some (now + ttl, o, sc)) as He1.
  { rewrite <- Es1. unfold read_inflight_entry; simpl. by rewrite total_insert_eq, dict_lookup_insert_eq. }
  destruct (reap_loop_recovers (dict_items (inflight s1 !!! k)) (Z.to_nat (Z.max 1 limit)) k
    (later - INFLIGHT_REAP_GRACE_FLOOR_S) s1) as [_ [Re _ _ _]].
  { apply (sw_inflight_dict s1 (sw_core s1 (reachable_wf s1 Hr1)) k). }
  apply owns_spec. split; [done|]. exists (now + ttl, o, sc). split; [|done].
  etrans; [apply (Re k i)|]. rewrite decide_False; [exact He1|].
  rewrite reap_targets_keys. intros (j & [= <-] & Hin)%list_elem_of_fmap.
  apply list_elem_of_fmap in Hin as ([j e] & -> & Hin). apply subseteq_take in Hin.
  apply list_elem_of_filter in Hin as [Hx Hin].
  apply dict_elem_lookup in Hin; [|apply (sw_inflight_dict s1 (sw_core s1 (reachable_wf s1 Hr1)) k)].
  change ((j, e).1) with j in *. unfold read_inflight_entry in He1. rewrite He1 in Hin. injection Hin as <-.
  unfold is_expired in Hx. simpl in Hx. apply Z.leb_le in Hx. lia.
Qed.

(** *** Stealing from dead owners *)

Definition lease_item : Type := string * string * string.

Definition owned_by_dead (alive : Z -> bool) (host boot : string) (it : lease_item) : bool :=
  owner_is_dead alive host boot it.2.

(** A stolen claim goes back without a score: at the catchup base. *)
Definition steal_targets (ts : list lease_item) : list (string * string * Z) :=
  (fun it => (it.1, CATCHUP_SCORE_BASE)) <$> ts.

Lemma steal_targets_keys ts : (steal_targets ts).*1 = ts.*1.
Proof. unfold steal_targets. by rewrite <- list_fmap_compose. Qed.

Lemma dead_owner_nonempty alive host boot o : owner_is_dead alive host boot o = true -> o <> EmptyString.
Proof. intros Hd ->. by vm_compute in Hd. Qed.

Lemma requeue_observed k i o score s :
  owns k i o s = true ->
  let s1 := (requeue k i o score s).2 in
  let sb := put_back k i (default CATCHUP_SCORE_BASE score) (drop_claim k i s) in
  (requeue k i o score s).1 = true /\
  ingest (iq s1) = ingest (iq sb) /\ lists s1 = lists sb /\ inflight s1 = inflight sb.
Proof. intros Ho s1 sb. unfold s1, requeue. rewrite Ho. simpl. by case_decide. Qed.

Lemma requeue_keeps_owner k i o score s k' i' o' :
  (k', i') <> (k, i) -> owns k' i' o' s = true -> owns k' i' o' (requeue k i o score s).2 = true.
Proof.
  intros Hne Ho'. unfold requeue. destruct (owns k i o s); [|done]. simpl.
  set (sb := put_back _ _ _ _).
  assert (owns k' i' o' sb = true) as Hb.
  { apply owns_spec in Ho' as (Hn & e & He & Heo). apply owns_spec. split; [done|]. exists e. split; [|done].
    change (read_inflight_entry k' i' sb = Some e). unfold sb. rewrite put_back_entry, drop_claim_entry.
    by rewrite decide_False. }
  by case_decide.
Qed.

Lemma steal_loop_recovers items alive host boot s :
  NoDup items.*1 -> (forall it, it ∈ items -> it.2 <> EmptyString -> owns it.1.1 it.1.2 it.2 s = true) ->
  let ts := filter (fun it => owned_by_dead alive host boot it = true) items in
  (steal_loop items alive host boot s).1 = Z.of_nat (length ts) /\
  recovers (steal_targets ts) s (steal_loop items alive host boot s).2.
Proof.
  revert s. induction items as [|[[k i] o] items IH]; intros s Hnd Hown.
  { split; [done|apply recovers_nil]. }
  apply NoDup_cons in Hnd as [Hni Hnd]. cbn [steal_loop]. rewrite filter_cons.
  change (owned_by_dead alive host boot (k, i, o)) with (owner_is_dead alive host boot o).
  destruct (owner_is_dead alive host boot o) eqn:Hdead.
  - rewrite decide_True by done.
    assert (owns k i o s = true) as Ho.
    { apply (Hown (k, i, o)); [by left|]. by eapply dead_owner_nonempty. }
    destruct (requeue_observed k i o None s Ho) as (Eok & E1 & E2 & E3).
    pose proof (fun k' i' o' => requeue_keeps_owner k i o None s k' i' o') as Hkeep.
    destruct (requeue k i o None s) as [ok s1]. simpl in Eok, E1, E2, E3, Hkeep. subst ok.
    destruct (IH s1 Hnd) as [En R].
    { intros it Hin Hne. apply Hkeep; [|by apply Hown; [right|]].
      intros E. apply Hni. rewrite <- E. apply list_elem_of_fmap. exists it. by destruct it as [[??]?]. }
    destruct (steal_loop items alive host boot s1) as [n s']. cbn [fst snd length] in *.
    split; [rewrite En, Nat2Z.inj_succ; exact (Z.add_1_r _)|].
    apply (recovers_cons k i CATCHUP_SCORE_BASE _ s s1); [done..| |exact R].
    rewrite steal_targets_keys. intros Hin. apply Hni.
    apply list_elem_of_fmap in Hin as (it & E & Hin). apply list_elem_of_filter in Hin as [_ Hin].
    apply list_elem_of_fmap. by exists it.
  - rewrite decide_False by done. apply IH; [done|]. intros it Hin. apply Hown. by right.
Qed.

Lemma leases_owned s it : store_wf s -> it ∈ dict_items (leases s) -> it.2 <> EmptyString ->
  owns it.1.1 it.1.2 it.2 s = true.
Proof.
  destruct it as [[k i] o]. intros Hw Hin Hne. apply dict_elem_lookup in Hin; [|apply Hw].
  rewrite (sw_leases s (sw_core s Hw) k i) in Hin. apply owns_spec. split; [done|]. simpl in *.
  destruct ((inflight s !!! k) !! i) as [e|]; [|done]. exists e. split; [done|]. simpl in Hin. congruence.
Qed.

(** A sweep for dead owners takes back exactly the claims whose owner process is
    known to be dead on this host and boot, and returns their number; every other
    claim and queue entry is untouched.  A stolen file has lost its score: it is
    queued at the catchup base, whatever band and day it was claimed with. *)
Theorem steal_dead_owner_spec s alive host boot :
  reachable s ->
  let ts := filter (fun it => owned_by_dead alive host boot it = true) (dict_items (leases s)) in
  let '(n, s') := steal_dead_owner_leases alive host boot s in
  n = Z.of_nat (length ts) /\ recovers (steal_targets ts) s s'.
Proof.
  intros Hr ts. pose proof (reachable_wf s Hr) as Hw. unfold steal_dead_owner_leases.
  destruct (steal_loop_recovers (dict_items (leases s)) alive host boot s) as [En R].
  - apply Hw.
  - intros it. by apply leases_owned.
  - by destruct (steal_loop _ _ _ _ _).
Qed.

(** A live claim of the hot band whose owner died is demoted by the sweep: the file
    comes back as backfill, with no calendar day, behind every hot file, where the
    reaper keeps band and day. *)
Theorem steal_demotes_hot s alive host boot i d o sc :
  reachable s -> read_inflight_entry JOB_KIND_INGEST i s = Some (d, o, Some sc) ->
  decode_ingest_band sc = "hot" -> owner_is_dead alive host boot o = true ->
  let s' := (steal_dead_owner_leases alive host boot s).2 in
  exists sc', ingest_score i s' = Some sc' /\ decode_ingest_band sc' = "catchup" /\
    decode_catchup_calendar_day sc' = None /\
    decode_ingest_band (penalize_ingest_score (Some sc)) = "hot".
Proof.
  intros Hr He Hb Hdead s'. pose proof (reachable_wf s Hr) as Hw.
  destruct (steal_loop_recovers (dict_items (leases s)) alive host boot s) as [_ [_ Rs _ _]];
    [apply Hw|intros it; by apply leases_owned|].
  exists CATCHUP_SCORE_BASE. split_and!.
  - apply (Rs i). unfold steal_targets. apply list_elem_of_fmap. exists (JOB_KIND_INGEST, i, o). split; [done|].
    apply list_elem_of_filter. split; [exact Hdead|]. apply dict_lookup_elem.
    rewrite (sw_leases s (sw_core s Hw)). unfold read_inflight_entry in He. by rewrite He.
  - done.
  - by vm_compute.
  - rewrite <- Hb. apply band_slot, penalize_slot.
Qed.

(** *** Reconciling lost workers *)

Definition lost_worker (known : gset string) (o : string) (p : string * inflight_entry) : bool :=
  bool_decide (p.1 ∉ known) && bool_decide (entry_owner p.2 = o).

Definition reconcile_targets (k : string) (ts : list (string * inflight_entry)) : list (string * string * Z) :=
  (fun p => (k, p.1, default CATCHUP_SCORE_BASE p.2.2)) <$> ts.

Lemma reconcile_targets_keys k ts : (reconcile_targets k ts).*1 = (fun i => (k, i)) <$> ts.*1.
Proof. unfold reconcile_targets. by rewrite <- !list_fmap_compose. Qed.

Lemma reconcile_loop_recovers items k known o s :
  o <> EmptyString -> NoDup items.*1 ->
  (forall p, p ∈ items -> entry_owner p.2 = o -> owns k p.1 o s = true) ->
  let ts := filter (fun p => lost_worker known o p = true) items in
  (reconcile_loop items k known o s).1 = Z.of_nat (length ts) /\
  recovers (reconcile_targets k ts) s (reconcile_loop items k known o s).2.
Proof.
  intros Hne. revert s. induction items as [|[i [[d o'] sc]] items IH]; intros s Hnd Hown.
  { split; [done|apply recovers_nil]. }
  apply NoDup_cons in Hnd as [Hni Hnd]. cbn [reconcile_loop]. rewrite filter_cons.
  change (lost_worker known o (i, (d, o', sc))) with (bool_decide (i ∉ known) && bool_decide (o' = o)).
  destruct (decide (i ∈ known \/ o' <> o)) as [Hsk|Htk].
  - rewrite decide_False.
    + apply IH; [done|]. intros p Hin. apply Hown. by right.
    + rewrite andb_true_iff, !bool_decide_eq_true. tauto.
  - assert ((i ∉ known) /\ (o' = o)) as [Hk ->] by (split; [tauto|]; apply dec_stable; tauto).
    rewrite decide_True by (rewrite andb_true_iff, !bool_decide_eq_true; tauto).
    assert (owns k i o s = true) as Ho by (apply (Hown (i, (d, o, sc))); [by left|done]).
    destruct (requeue_observed k i o sc s Ho) as (Eok & E1 & E2 & E3).
    pose proof (fun k' i' o' => requeue_keeps_owner k i o sc s k' i' o') as Hkeep.
    destruct (requeue k i o sc s) as [ok s1]. simpl in Eok, E1, E2, E3, Hkeep. subst ok.
    destruct (IH s1 Hnd) as [En R].
    { intros p Hin Hp. apply Hkeep; [|by apply Hown; [right|]].
      intros [= E]. apply Hni. simpl. rewrite <- E. apply list_elem_of_fmap. by exists p. }
    destruct (reconcile_loop items k known o s1) as [n s']. cbn [fst snd length] in *.
    split; [rewrite En, Nat2Z.inj_succ; exact (Z.add_1_r _)|].
    apply (recovers_cons k i _ (reconcile_targets k (filter (fun p => lost_worker known o p = true) items)) s s1); [done..| |exact R].
    rewrite reconcile_targets_keys. intros (j & [= <-] & Hin)%list_elem_of_fmap. apply Hni.
    apply list_elem_of_fmap in Hin as (p & -> & Hin). apply list_elem_of_filter in Hin as [_ Hin].
    apply list_elem_of_fmap. by exists p.
Qed.

(** Reconciliation requeues exactly the claims of this owner that no local worker
    tracks, each at the score it was claimed with, and returns their number. *)
Theorem reconcile_orphans_spec s k local o :
  reachable s -> o <> EmptyString ->
  let ts := filter (fun p => lost_worker (list_to_set local) o p = true) (dict_items (read_inflight_entries k s)) in
  let '(n, s') := reconcile_this_owner_orphan_leases k local o s in
  n = Z.of_nat (length ts) /\ recovers (reconcile_targets k ts) s s'.
Proof.
  intros Hr Hne ts. pose proof (sw_core s (reachable_wf s Hr)) as Hc. unfold reconcile_this_owner_orphan_leases.
  destruct (reconcile_loop_recovers (dict_items (inflight s !!! k)) k (list_to_set local) o s Hne) as [En R].
  - apply (sw_inflight_dict s Hc k).
  - intros [i e] Hin Heo. apply owns_spec. split; [done|]. exists e. split; [|done].
    by apply dict_elem_lookup in Hin; [|apply (sw_inflight_dict s Hc k)].
  - by destruct (reconcile_loop _ _ _ _ _).
Qed.
End recovery.

(** ** Concrete instances *)

Lemma ack_owner_only_witness :
  let '(ok, s') := ack_job Demo.s5 JOB_KIND_INGEST "/raw/a" Demo.owner in
  (ok = true <-> Demo.owner <> EmptyString /\
     exists d sc, read_inflight_entry JOB_KIND_INGEST "/raw/a" Demo.s5 = Some (d, Demo.owner, sc)) /\
  (ok = false -> s' = Demo.s5) /\
  (ok = true ->
    ~ present s' JOB_KIND_INGEST "/raw/a" /\ payloads s' !! (JOB_KIND_INGEST, "/raw/a") = None /\
    lease_token JOB_KIND_INGEST "/raw/a" s' = None /\
    (forall k' j, queued s' k' j <-> queued Demo.s5 k' j) /\
    (forall k' j, (k', j) <> (JOB_KIND_INGEST, "/raw/a") ->
      read_inflight_entry k' j s' = read_inflight_entry k' j Demo.s5)).
Proof. refine (ack_owner_only Demo.s5 JOB_KIND_INGEST "/raw/a" Demo.owner Demo.s5_reachable). Defined.

Lemma requeue_owner_only_witness :
  (requeue_job Demo.s5 JOB_KIND_INGEST "/raw/a" Demo.owner (Some 7)).1 = true /\
  ingest_score "/raw/a" (requeue_job Demo.s5 JOB_KIND_INGEST "/raw/a" Demo.owner (Some 7)).2 = Some 7.
Proof.
  pose proof (requeue_owner_only Demo.s5 JOB_KIND_INGEST "/raw/a" Demo.owner (Some 7) Demo.s5_reachable) as Hq.
  destruct (requeue_job _ _ _ _ _) as [ok s']. destruct Hq as (Eok & _ & Hok).
  assert (ok = true) as -> by (rewrite Eok; vm_compute; reflexivity).
  split; [reflexivity|]. destruct (Hok eq_refl) as (_ & _ & _ & Hs & _). exact (Hs eq_refl).
Defined.

Lemma reap_expired_spec_witness :
  let ts := take (Z.to_nat (Z.max 1 64))
    (filter (fun p => is_expired (2000 - INFLIGHT_REAP_GRACE_FLOOR_S) p = true)
      (dict_items (read_inflight_entries JOB_KIND_INGEST Demo.s5))) in
  let '(out, s') := reap_expired_inflight JOB_KIND_INGEST 2000 64 Demo.s5 in
  out = ts.*1 /\ recovers (reap_targets JOB_KIND_INGEST ts) Demo.s5 s'.
Proof. refine (reap_expired_spec Demo.s5 JOB_KIND_INGEST 2000 64 Demo.s5_reachable). Defined.

Lemma renewed_claim_survives_witness :
  let s1 := (renew_job_lease default_config JOB_KIND_INGEST "/raw/a" Demo.owner (Some 500) 1090 Demo.s5).2 in
  owns JOB_KIND_INGEST "/raw/a" Demo.owner (reap_expired_inflight JOB_KIND_INGEST 1600 64 s1).2 = true.
Proof.
  refine (renewed_claim_survives default_config JOB_KIND_INGEST "/raw/a" Demo.owner 500 1090 Demo.s5 _ 1600 64
    Demo.s5_reachable _ _).
  - assert ((renew_job_lease default_config JOB_KIND_INGEST "/raw/a" Demo.owner (Some 500) 1090 Demo.s5).1 = true) as E
      by (vm_compute; reflexivity).
    destruct (renew_job_lease _ _ _ _ _ _ _) as [ok s1]. simpl in E. rewrite E. reflexivity.
  - vm_compute. reflexivity.
Defined.

Lemma steal_dead_owner_spec_witness :
  let ts := filter (fun it => owned_by_dead Demo.nobody "host" "boot" it = true) (dict_items (leases Demo.s6)) in
  let '(n, s') := steal_dead_owner_leases Demo.nobody "host" "boot" Demo.s6 in
  n = Z.of_nat (length ts) /\ recovers (steal_targets ts) Demo.s6 s'.
Proof. refine (steal_dead_owner_spec Demo.s6 Demo.nobody "host" "boot" Demo.s6_reachable). Defined.

Lemma steal_demotes_hot_witness :
  let s' := (steal_dead_owner_leases Demo.nobody "host" "boot" Demo.s6).2 in
  exists sc', ingest_score "/raw/h" s' = Some sc' /\ decode_ingest_band sc' = "catchup" /\
    decode_catchup_calendar_day sc' = None /\
    decode_ingest_band (penalize_ingest_score (Some Demo.hot_score)) = "hot".
Proof.
  refine (steal_demotes_hot Demo.s6 Demo.nobody "host" "boot" "/raw/h" 1100 Demo.owner Demo.hot_score
    Demo.s6_reachable _ _ _); vm_compute; reflexivity.
Defined.

Lemma reconcile_orphans_spec_witness :
  let ts := filter (fun p => lost_worker (list_to_set []) Demo.owner p = true)
    (dict_items (read_inflight_entries JOB_KIND_INGEST Demo.s6)) in
  let '(n, s') := reconcile_this_owner_orphan_leases JOB_KIND_INGEST [] Demo.owner Demo.s6 in
  n = Z.of_nat (length ts) /\ recovers (reconcile_targets JOB_KIND_INGEST ts) Demo.s6 s'.
Proof.
  refine (reconcile_orphans_spec Demo.s6 JOB_KIND_INGEST [] Demo.owner Demo.s6_reachable _). discriminate.
Defined.
