(* ===== verification/JobStoreQueues.v ===== *)
(** The LIST queues, the counters and the attempt counter of the job store. *)
From S2P Require Import Prelude PyDict PriorityQueue PyStr IngestScore LeaseOwner WriteBehind JobStore JobStoreInv JobStoreOps JobStorePersist JobStoreSteps JobStoreSafety JobStoreRecovery.
Import MinScan.
Local Open Scope Z_scope.

Section queues.
Context {H : Type} `{PQ : !PriorityQueue H}.
Implicit Types (q : ingest_queue H) (s : store H).

(** ** LIST queues *)

(** Enqueueing on a LIST queue is idempotent and bounded: a job already queued or
    claimed, or a full queue, answers 0 and changes nothing; otherwise the job joins
    at the tail and the answer is the new depth. *)
Theorem enqueue_list_spec cfg s k i :
  reachable s -> k ∈ JOB_KINDS_LIST ->
  let cap := queue_capacity_limit (sync_job_queue_max_members cfg) in
  let depth := Z.of_nat (length (lists s !!! k)) in
  exists r s', enqueue_list_job cfg s k i true = Ok (r, s') /\
    ((r = 0 /\ s' = s /\ (present s k i \/ cap <= depth)) \/
     (r = depth + 1 /\ ~ present s k i /\ depth < cap /\ lists s' !!! k = lists s !!! k ++ [i] /\
      (forall k', k' <> k -> lists s' !!! k' = lists s !!! k') /\
      inflight s' = inflight s /\ ingest (iq s') = ingest (iq s))).
Proof.
  intros Hr Hk cap depth. pose proof (sw_core s (reachable_wf s Hr)) as Hc.
  pose proof (list_kind_not_ingest k Hk) as Hki.
  assert (i ∈ pending s !!! k \/ is_Some ((inflight s !!! k) !! i) <-> present s k i) as Hp.
  { unfold present, claimed. rewrite queued_list by done.
    rewrite (sw_pending s Hc k), elem_of_list_to_set. done. }
  unfold enqueue_list_job, enqueue_list. rewrite decide_True by done. fold cap. cbn [andb].
  case_bool_decide as Hd.
  { exists 0, s. split; [done|]. left. split_and!; [done..|]. left. by apply Hp. }
  assert (has_capacity k cap s = (depth <? cap)) as ->.
  { unfold has_capacity. by rewrite decide_False. }
  destruct (Z.ltb_spec depth cap); cbn [negb].
  - eexists _, _. split; [done|]. right.
    assert (lists (mark_dirty_locked (list_push k i s)) !!! k = lists s !!! k ++ [i]) as El
      by exact (total_insert_eq (lists s) k _).
    split_and!; try done.
    + rewrite El, length_app. simpl. lia.
    + by rewrite <- Hp.
    + intros k' Hne. etrans; [exact (total_insert (lists s) k k' _)|]. by rewrite decide_False.
  - exists 0, s. split; [done|]. left. split_and!; [done..|]. right. lia.
Qed.

(** LIST claims are first in, first out: with an owner token, a claim of an empty
    queue answers nothing and changes nothing; otherwise it takes the head, records
    the claim until its deadline, and leaves the rest in order. *)
Theorem claim_list_fifo cfg s k o ttl now :
  reachable s -> k ∈ JOB_KINDS_LIST -> o <> EmptyString ->
  let deadline := now + default (job_lease_ttl_seconds (sync_ingest_per_file_timeout_max_s cfg)) ttl in
  match lists s !!! k with
  | [] => claim_list_job cfg s k o ttl now = Ok (None, s)
  | i :: rest =>
      exists job s', claim_list_job cfg s k o ttl now = Ok (Some job, s') /\
        cj_identity job = i /\ cj_kind job = k /\ cj_deadline job = deadline /\
        lists s' !!! k = rest /\ read_inflight_entry k i s' = Some (deadline, o, None) /\
        lease_token k i s' = Some o /\ ~ queued s' k i /\
        (forall k' j, (k', j) <> (k, i) ->
          (queued s' k' j <-> queued s k' j) /\ read_inflight_entry k' j s' = read_inflight_entry k' j s)
  end.
Proof.
  intros Hr Hk Ho deadline. pose proof (reachable_wf s Hr) as Hw. pose proof (sw_core s Hw) as Hc.
  unfold claim_list_job, claim_list. rewrite decide_True, decide_False by done.
  fold deadline. destruct (lists s !!! k) as [|i rest] eqn:El; [done|]. cbn [claim_list_loop].
  set (s1 := list_pop k i rest s). change (inflight s1) with (inflight s).
  rewrite decide_False.
  2: { intros Hcl. apply (sw_disjoint s Hc k i Hcl). right. rewrite El. by left. }
  pose proof (store_wf_list_pop k i rest s Hw Hk El) as Hw1.
  eexists _, _. split; [done|]. split_and!; try done.
  - exact (total_insert_eq (lists s) k rest).
  - unfold read_inflight_entry. simpl. by rewrite total_insert_eq, dict_lookup_insert_eq.
  - etrans; [exact (leases_record k i o deadline None s1 k i)|]. by rewrite decide_True.
  - rewrite queued_list by by apply list_kind_not_ingest.
    assert (lists (mark_dirty_locked (record_claim k i o deadline None s1)) !!! k = rest) as ->
      by exact (total_insert_eq (lists s) k rest).
    pose proof (sw_nodup s Hc k) as Hd. rewrite El in Hd. by apply NoDup_cons in Hd as [? _].
  - intros k' j Hne. split.
    + unfold queued; simpl. rewrite total_insert. case_decide; [subst k'|done].
      rewrite El. set_solver.
    + unfold read_inflight_entry; simpl. rewrite total_insert. case_decide; [subst k'|done].
      rewrite dict_lookup_insert. case_decide; [congruence|done].
Qed.

(** Reordering a LIST queue only permutes it: [reorder_list] answers true exactly
    for a different order of the same jobs, and then the queue has that order and its
    membership is unchanged; any other request is refused with no change. *)
Theorem reorder_list_spec s k ordered :
  reachable s -> is_Some (lists s !! k) ->
  let '(ok, s') := reorder_list k ordered s in
  (ok = true <-> lists s !!! k ≡ₚ ordered /\ lists s !!! k <> ordered) /\
  (ok = false -> s' = s) /\
  (ok = true -> lists s' !!! k = ordered /\ (forall k' j, queued s' k' j <-> queued s k' j)).
Proof.
  intros Hr [cur El]. pose proof (lookup_total_correct _ _ _ El) as Et. unfold reorder_list. rewrite El, Et.
  destruct (negb _) eqn:Hlen.
  { split_and!; [|done..]. split; [done|]. intros [Hp _]. apply Permutation_length in Hp.
    apply negb_true_iff, Nat.eqb_neq in Hlen. congruence. }
  assert (merge_sort String.le cur = merge_sort String.le ordered <-> cur ≡ₚ ordered) as Hs.
  { split; intros E.
    - by rewrite <- (merge_sort_Permutation String.le cur), E, merge_sort_Permutation.
    - apply (StronglySorted_unique String.le).
      + apply (StronglySorted_merge_sort String.le).
      + apply (StronglySorted_merge_sort String.le).
      + by rewrite !merge_sort_Permutation. }
  destruct (decide (merge_sort _ _ <> _)) as [Hd|Hd].
  { split_and!; [|done..]. split; [done|]. intros [Hp _]. by apply Hs in Hp. }
  apply dec_stable in Hd. apply Hs in Hd.
  destruct (decide (cur = ordered)) as [|Hne]; [split_and!; [naive_solver|done..]|].
  split_and!; [done|done|]. intros _. split; [exact (total_insert_eq (lists s) k ordered)|].
  intros k' j. unfold queued; simpl. rewrite total_insert. case_decide; [subst k'|done]. by rewrite Et, Hd.
Qed.

(** ** Counters *)

(** The O(1) band counters answer what a scan would: for any bounds, the band
    windows included, the count is the number of queued files whose score lies in
    the range. *)
Theorem score_range_count_exact py_float s lo hi :
  reachable s ->
  ingest_count_in_score_range py_float (BNum lo) (BNum hi) s =
    Ok (Z.of_nat (length (filter (fun p => in_range (lo, hi) p.2 = true) (dict_items (ingest (iq s)))))).
Proof.
  intros Hr. destruct (iqw_counts _ (sw_iq s (sw_core s (reachable_wf s Hr)))) as [Eh Ec].
  assert (forall (P Q : string * Z -> Prop) `{forall x, Decision (P x)} `{forall x, Decision (Q x)}
    (l : list (string * Z)), (forall p, P p <-> Q p) -> filter P l = filter Q l) as Hext.
  { intros P Q HP HQ l E. induction l as [|p l IH]; [done|]. rewrite !filter_cons, IH.
    by rewrite (decide_ext _ _ _ _ (E p)). }
  unfold ingest_count_in_score_range.
  change (ingest_score_range "hot") with (Ok (NegInf, Fin (CATCHUP_SCORE_BASE - 1))).
  change (ingest_score_range "catchup") with (Ok (Fin CATCHUP_SCORE_BASE, PosInf)).
  cbn [bound_to_float mbind result_bind fst snd].
  case_decide as Hhot; [destruct Hhot as [-> ->]|case_decide as Hcat; [destruct Hcat as [-> ->]|]].
  - rewrite Eh. unfold count_band. do 3 f_equal. apply Hext. intros [i sc]. unfold in_range; simpl.
    rewrite Z.leb_le. destruct (band_cases sc) as [[Hs E]|[Hs E]]; rewrite E; split; try done; lia.
  - rewrite Ec. unfold count_band. do 3 f_equal. apply Hext. intros [i sc]. unfold in_range; simpl.
    rewrite andb_true_r, Z.leb_le. destruct (band_cases sc) as [[Hs E]|[Hs E]]; rewrite E; split; try done; lia.
  - do 2 f_equal. unfold dict_values. induction (dict_items (ingest (iq s))) as [|[i sc] l IH]; [done|].
    rewrite fmap_cons, !filter_length_cons, IH. done.
Qed.

(** ** Attempts *)

Lemma bump_step k i s a :
  attempt_of (payloads s !!! (k, i)) = Some a ->
  (bump_job_attempt k i s).1 = Ok (a + 1) /\
  attempt_of (payloads (bump_job_attempt k i s).2 !!! (k, i)) = Some (a + 1) /\
  (forall n, n <> "attempt" ->
    read_job_payload_field k i n (bump_job_attempt k i s).2 = read_job_payload_field k i n s).
Proof.
  intros Ha. unfold bump_job_attempt. set (s1 := with_payloads _ s).
  assert (payloads s1 !!! (k, i) = payloads s !!! (k, i)) as E1 by apply lookup_total_insert_eq.
  rewrite E1, Ha. cbn [fst snd]. split; [done|].
  assert (forall x : store H, payloads x = payloads (payload_put (k, i) "attempt" (str_of_Z (a + 1)) s1) ->
    payloads x !!! (k, i) = <["attempt" := str_of_Z (a + 1)]> (payloads s !!! (k, i))) as Hrow.
  { intros x ->. rewrite <- E1. apply lookup_total_insert_eq. }
  assert (forall x : store H, payloads x = payloads (payload_put (k, i) "attempt" (str_of_Z (a + 1)) s1) ->
    attempt_of (payloads x !!! (k, i)) = Some (a + 1) /\
    (forall n, n <> "attempt" -> read_job_payload_field k i n x = read_job_payload_field k i n s)) as Hgo.
  { intros x Ex. split.
    - rewrite (Hrow x Ex). unfold attempt_of. rewrite lookup_insert_eq.
      destruct (decide (str_of_Z (a + 1) = "")) as [E|_]; [|apply py_int_str_of_Z].
      pose proof (py_int_str_of_Z (a + 1)) as P. by rewrite E in P.
    - intros n Hn. unfold read_job_payload_field, field. rewrite (Hrow x Ex). by rewrite lookup_insert_ne. }
  case_match; by apply Hgo.
Qed.

(** The attempt counter counts: on a job with no counter yet, [n] calls of
    [bump_job_attempt] make it read [n], and the other fields of the row, the
    fingerprint among them, are kept. *)
Theorem attempts_count k i s n :
  payloads s !! (k, i) = None \/ (payloads s !!! (k, i)) !! "attempt" = None ->
  let s' := Nat.iter n (fun s => (bump_job_attempt k i s).2) s in
  read_job_attempt k i s' = Z.of_nat n /\
  (forall name, name <> "attempt" -> read_job_payload_field k i name s' = read_job_payload_field k i name s) /\
  (bump_job_attempt k i s').1 = Ok (Z.of_nat n + 1).
Proof.
  intros H0.
  assert (attempt_of (payloads s !!! (k, i)) = Some 0) as Ha.
  { destruct H0 as [E|E]; unfold attempt_of; [|by rewrite E]. by rewrite lookup_total_alt, E. }
  assert (forall m, attempt_of (payloads (Nat.iter m (fun s => (bump_job_attempt k i s).2) s) !!! (k, i)) = Some (Z.of_nat m) /\
    forall name, name <> "attempt" ->
      read_job_payload_field k i name (Nat.iter m (fun s => (bump_job_attempt k i s).2) s) = read_job_payload_field k i name s) as Hn.
  { induction m as [|m [IH1 IH2]]; [by split|]. cbn [Nat.iter nat_rect].
    destruct (bump_step k i _ _ IH1) as (_ & E2 & E3). split.
    - etrans; [exact E2|]. f_equal. lia.
    - intros name Hne. etrans; [by apply E3|by apply IH2]. }
  intros s'. destruct (Hn n) as [E1 E2]. split_and!; [|exact E2|].
  - unfold read_job_attempt, s'. by rewrite E1.
  - by apply bump_step.
Qed.
End queues.

(** ** Concrete instances *)

Lemma enqueue_list_spec_witness :
  let cap := queue_capacity_limit None in
  let depth := Z.of_nat (length (lists Demo.s4 !!! JOB_KIND_APPEND)) in
  exists r s', enqueue_list_job default_config Demo.s4 JOB_KIND_APPEND "/tar/y" true = Ok (r, s') /\
    ((r = 0 /\ s' = Demo.s4 /\ (present Demo.s4 JOB_KIND_APPEND "/tar/y" \/ cap <= depth)) \/
     (r = depth + 1 /\ ~ present Demo.s4 JOB_KIND_APPEND "/tar/y" /\ depth < cap /\
      lists s' !!! JOB_KIND_APPEND = lists Demo.s4 !!! JOB_KIND_APPEND ++ ["/tar/y"] /\
      (forall k', k' <> JOB_KIND_APPEND -> lists s' !!! k' = lists Demo.s4 !!! k') /\
      inflight s' = inflight Demo.s4 /\ ingest (iq s') = ingest (iq Demo.s4))).
Proof.
  refine (enqueue_list_spec default_config Demo.s4 JOB_KIND_APPEND "/tar/y" Demo.s4_reachable _).
  right. left.
Defined.

Lemma claim_list_fifo_witness :
  exists job s', claim_list_job default_config Demo.s4 JOB_KIND_APPEND Demo.owner (Some 5) 10 = Ok (Some job, s') /\
    cj_identity job = "/tar/x" /\ lists s' !!! JOB_KIND_APPEND = [].
Proof.
  assert (JOB_KIND_APPEND ∈ JOB_KINDS_LIST) as Hk by (right; left).
  assert (Demo.owner <> EmptyString) as Ho by discriminate.
  pose proof (claim_list_fifo default_config Demo.s4 JOB_KIND_APPEND Demo.owner (Some 5) 10 Demo.s4_reachable Hk Ho) as Hc.
  assert (lists Demo.s4 !!! JOB_KIND_APPEND = ["/tar/x"]) as E by (vm_compute; reflexivity).
  rewrite E in Hc. destruct Hc as (job & s' & Hc & Hi & _ & _ & Hl & _). exists job, s'. split_and!; assumption.
Defined.

Lemma reorder_list_spec_witness :
  let '(ok, s') := reorder_list JOB_KIND_APPEND ["/tar/x"] Demo.s4 in
  (ok = true <-> lists Demo.s4 !!! JOB_KIND_APPEND ≡ₚ ["/tar/x"] /\ lists Demo.s4 !!! JOB_KIND_APPEND <> ["/tar/x"]) /\
  (ok = false -> s' = Demo.s4) /\
  (ok = true -> lists s' !!! JOB_KIND_APPEND = ["/tar/x"] /\ (forall k' j, queued s' k' j <-> queued Demo.s4 k' j)).
Proof.
  refine (reorder_list_spec Demo.s4 JOB_KIND_APPEND ["/tar/x"] Demo.s4_reachable _).
  exists ["/tar/x"]. vm_compute. reflexivity.
Defined.

Lemma score_range_count_exact_witness :
  ingest_count_in_score_range (fun _ => Raise ValueError) (BNum NegInf) (BNum (Fin (CATCHUP_SCORE_BASE - 1))) Demo.s4 =
    Ok (Z.of_nat (length (filter (fun p => in_range (NegInf, Fin (CATCHUP_SCORE_BASE - 1)) p.2 = true)
      (dict_items (ingest (iq Demo.s4)))))).
Proof.
  refine (score_range_count_exact (fun _ => Raise ValueError) Demo.s4 NegInf (Fin (CATCHUP_SCORE_BASE - 1)) Demo.s4_reachable).
Defined.

Lemma attempts_count_witness :
  let s' := Nat.iter 3 (fun s => (bump_job_attempt JOB_KIND_INGEST "/raw/b" s).2) Demo.s4 in
  read_job_attempt JOB_KIND_INGEST "/raw/b" s' = Z.of_nat 3 /\
  (forall name, name <> "attempt" ->
    read_job_payload_field JOB_KIND_INGEST "/raw/b" name s' = read_job_payload_field JOB_KIND_INGEST "/raw/b" name Demo.s4) /\
  (bump_job_attempt JOB_KIND_INGEST "/raw/b" s').1 = Ok (Z.of_nat 3 + 1).
Proof.
  refine (attempts_count JOB_KIND_INGEST "/raw/b" Demo.s4 3 _). right. vm_compute. reflexivity.
Defined.
