(* ===== verification/EntryStore.v ===== *)
(** [WriteBehindEntryStore] of [dbload/lib/sync_timedb_write_behind.py]: a keyed
    sidecar whose removals must reach the disk although every write merges with
    it.

    [remove_if] leaves a tombstone; [_write] takes a snapshot of the live entries
    and the tombstones under the lock, merges with the document on disk under the
    file lock, saves, and only then adopts foreign entries and clears the tombstones
    it persisted.  The lock is free between these three parts, so other calls run in
    between: [step] is that interleaving.  One process writes the document. *)
From S2P Require Import Prelude PyDict.

Section store.
Context {V : Type}.

(** Where the one running [_write] is; [_io_lock] admits no second one.  [owed]
    are the keys that were already removed when it took its snapshot. *)
Inductive phase :=
| Idle
| Snapped (mine : dict string V) (dead : gset string) (owed : gset string)
| Saved (merged : dict string V) (dead : gset string) (owed : gset string).

(** The store, the document on disk, and (ghost) [gone]: the keys whose last
    operation removed them. *)
Record estate := EState {
  entries : option (dict string V);
  tombstones : gset string;
  disk : dict string V;
  at_write : phase;
  gone : gset string;
}.

(** [_ensure_loaded]. *)
Definition ensure_loaded (s : estate) : dict string V :=
  match entries s with
  | Some d => d
  | None => disk s
  end.

Definition loaded (s : estate) : estate :=
  EState (Some (ensure_loaded s)) (tombstones s) (disk s) (at_write s) (gone s).

Definition contains (key : string) (s : estate) : bool * estate :=
  (bool_decide (is_Some (ensure_loaded s !! key)), loaded s).

Definition get (key : string) (s : estate) : option V * estate := (ensure_loaded s !! key, loaded s).

Definition snapshot (s : estate) : dict string V * estate := (ensure_loaded s, loaded s).

Definition set_entry (key : string) (value : V) (s : estate) : estate :=
  EState (Some (<[key := value]> (ensure_loaded s))) (tombstones s ∖ {[key]}) (disk s) (at_write s)
    (gone s ∖ {[key]}).

Definition doomed (predicate : string -> V -> bool) (s : estate) : list string :=
  dict_keys (dict_filter predicate (ensure_loaded s)).

(** [remove_if] under the lock; its [_write] runs afterwards. *)
Definition remove_if (predicate : string -> V -> bool) (s : estate) : estate :=
  let ks := doomed predicate s in
  EState (Some (foldl (fun d k => delete k d) (ensure_loaded s) ks))
    (list_to_set ks ∪ tombstones s) (disk s) (at_write s) (list_to_set ks ∪ gone s).

(** [replace_all] under the lock; its [_write] runs afterwards. *)
Definition replace_all (new : dict string V) (s : estate) : estate :=
  let lost := list_to_set (filter (fun k => new !! k = None) (dict_keys (ensure_loaded s))) in
  EState (Some new) (lost ∪ tombstones s) (disk s) (at_write s)
    ((lost ∪ gone s) ∖ list_to_set (dict_keys new)).

(** The three parts of [_write]. *)
Definition write_snap (s : estate) : estate :=
  EState (Some (ensure_loaded s)) (tombstones s) (disk s)
    (Snapped (ensure_loaded s) (tombstones s) (gone s)) (gone s).

Definition write_merge (mine : dict string V) (dead : gset string) (on_disk : dict string V) : dict string V :=
  dict_update (dict_filter (fun k _ => bool_decide (k ∉ dead)) on_disk) mine.

Definition write_save (mine : dict string V) (dead owed : gset string) (s : estate) : estate :=
  let merged := write_merge mine dead (disk s) in
  EState (entries s) (tombstones s) merged (Saved merged dead owed) (gone s).

(** Foreign entries are adopted unless they were removed meanwhile. *)
Definition adopt (live : dict string V) (tomb : gset string) (merged : dict string V) : dict string V :=
  foldl (fun d p => if decide (d !! p.1 = None /\ p.1 ∉ tomb) then <[p.1 := p.2]> d else d)
    live (dict_items merged).

Definition write_adopt (merged : dict string V) (dead : gset string) (s : estate) : estate :=
  EState (Some (adopt (ensure_loaded s) (tombstones s) merged)) (tombstones s ∖ dead) (disk s) Idle (gone s).

(** The save raised: nothing is adopted, the tombstones stay. *)
Definition write_fail (s : estate) : estate := EState (entries s) (tombstones s) (disk s) Idle (gone s).

(** ** Interleaving *)

(** [allowed] says which [replace_all] calls are made. *)
Inductive step (allowed : dict string V -> estate -> Prop) : estate -> estate -> Prop :=
| step_load s : step allowed s (loaded s)
| step_set k v s : step allowed s (set_entry k v s)
| step_remove p s : step allowed s (remove_if p s)
| step_replace new s : dict_wf new -> allowed new s -> step allowed s (replace_all new s)
| step_snap s : at_write s = Idle -> step allowed s (write_snap s)
| step_save mine dead owed s : at_write s = Snapped mine dead owed -> step allowed s (write_save mine dead owed s)
| step_fail mine dead owed s : at_write s = Snapped mine dead owed -> step allowed s (write_fail s)
| step_adopt merged dead owed s : at_write s = Saved merged dead owed -> step allowed s (write_adopt merged dead s).

(** [replace_all] brings back no key whose removal is pending. *)
Definition fresh (new : dict string V) (s : estate) : Prop :=
  forall k, is_Some (new !! k) -> k ∉ tombstones s.

Definition unrestricted (new : dict string V) (s : estate) : Prop := True.

(** A store created on a document. *)
Definition created (on_disk : dict string V) : estate := EState None ∅ on_disk Idle ∅.
End store.

Arguments estate : clear implicits.
Arguments phase : clear implicits.
