(* ===== verification/EntryStoreSpec.v ===== *)
(** What the keyed sidecar promises: a removed entry does not come back, in memory or
    on disk, whatever writes are in flight; and the one call that breaks this. *)
From S2P Require Import Prelude PyDict EntryStore.

Section spec.
Context {V : Type}.
Implicit Types (s : estate V) (d live merged mine new on_disk : dict string V).

(** ** Bulk removal and adoption *)

Lemma foldl_delete_lookup (ks : list string) d k :
  foldl (fun d k => delete k d) d ks !! k = if decide (k ∈ ks) then None else d !! k.
Proof.
  revert d. induction ks as [|k0 ks IH]; intros d; cbn [foldl]; [by rewrite decide_False by set_solver|].
  rewrite IH, dict_lookup_delete. repeat case_decide; set_solver.
Qed.

Lemma foldl_delete_wf (ks : list string) d : dict_wf d -> dict_wf (foldl (fun d k => delete k d) d ks).
Proof. revert d. induction ks as [|k ks IH]; intros d Hd; [done|]. by apply IH, dict_wf_delete. Qed.

Lemma adopt_wf live tomb merged : dict_wf live -> dict_wf (adopt live tomb merged).
Proof.
  unfold adopt. destruct merged as [l]; simpl. revert live.
  induction l as [|[k v] l IH]; intros live Hl; [done|]. cbn [foldl]. apply IH.
  case_decide; [by apply dict_wf_insert|done].
Qed.

(** A key under a tombstone, or not on disk, is not adopted. *)
Lemma adopt_lookup live tomb merged k :
  dict_wf merged -> k ∈ tomb \/ merged !! k = None -> adopt live tomb merged !! k = live !! k.
Proof.
  intros Hw Hk. unfold adopt. assert (forall v, (k, v) ∈ dict_items merged -> k ∈ tomb) as Hin.
  { intros v Hv%dict_elem_lookup; [|done]. destruct Hk as [|E]; [done|congruence]. }
  destruct merged as [l]; simpl in *. clear Hw Hk. revert live Hin.
  induction l as [|[k0 v0] l IH]; intros live Hin; [done|]. cbn [foldl]. rewrite IH.
  - case_decide as Hd; [|done]. cbn [fst snd] in *. apply dict_lookup_insert_ne. intros E.
    destruct Hd as [_ Hd]. rewrite E in Hd. apply Hd, (Hin v0). rewrite E. by left.
  - intros v Hv. apply (Hin v). by right.
Qed.

Lemma doomed_elem p s k : k ∈ doomed p s -> is_Some (ensure_loaded s !! k).
Proof.
  unfold doomed. intros Hk%list_elem_of_fmap. destruct Hk as ([k' v] & -> & Hin).
  unfold dict_filter in Hin; simpl in Hin. apply list_elem_of_filter in Hin as [_ Hin].
  apply dict_keys_lookup, list_elem_of_fmap. by exists (k', v).
Qed.

(** ** The merge *)

Lemma write_merge_wf mine dead on_disk : dict_wf on_disk -> dict_wf (write_merge mine dead on_disk).
Proof. intros. by apply dict_update_wf, dict_filter_wf. Qed.

Lemma write_merge_lookup mine dead on_disk k :
  dict_wf mine -> dict_wf on_disk ->
  write_merge mine dead on_disk !! k =
    match mine !! k with
    | Some v => Some v
    | None => if decide (k ∈ dead) then None else on_disk !! k
    end.
Proof.
  intros Hm Hd. unfold write_merge. rewrite dict_update_lookup by done. destruct (mine !! k); [done|].
  case_decide as Hk.
  - apply dict_filter_lookup_None; [done|]. intros v _. by apply bool_decide_eq_false; intros [].
  - apply option_eq. intros v. rewrite dict_filter_lookup by done. rewrite bool_decide_eq_true. tauto.
Qed.

(** ** The invariant *)

Definition phase_inv s : Prop :=
  match at_write s with
  | Idle => forall k, k ∈ gone s -> k ∈ tombstones s \/ disk s !! k = None
  | Snapped mine dead owed =>
      dict_wf mine /\ (forall k, is_Some (mine !! k) -> k ∉ dead) /\
      (forall k, k ∈ gone s -> k ∈ tombstones s \/ (mine !! k = None /\ disk s !! k = None)) /\
      (forall k, k ∈ owed -> mine !! k = None /\ (k ∈ dead \/ disk s !! k = None))
  | Saved merged dead owed =>
      disk s = merged /\ (forall k, is_Some (merged !! k) -> k ∉ dead) /\
      (forall k, k ∈ gone s -> k ∈ tombstones s \/ merged !! k = None) /\
      (forall k, k ∈ owed -> merged !! k = None)
  end.

Record inv s : Prop := {
  inv_live : dict_wf (ensure_loaded s);
  inv_disk : dict_wf (disk s);
  inv_unloaded : entries s = None -> gone s = ∅ /\ at_write s = Idle;
  inv_gone : forall k, k ∈ gone s -> ensure_loaded s !! k = None;
  inv_tomb : forall k, k ∈ tombstones s -> k ∈ gone s;
  inv_phase : phase_inv s;
}.

Lemma inv_created d : dict_wf d -> inv (created d).
Proof. intros Hd. constructor; try done; intros k; set_solver. Qed.

Lemma inv_loaded s : inv s -> inv (loaded s).
Proof. intros []. by constructor. Qed.

Lemma inv_set k v s : inv s -> inv (set_entry k v s).
Proof.
  intros [Hl Hd Hu Hg Ht Hp]. constructor; simpl; try done.
  - by apply dict_wf_insert.
  - intros k' Hk'. unfold ensure_loaded; simpl. rewrite dict_lookup_insert_ne by set_solver. apply Hg. set_solver.
  - set_solver.
  - unfold phase_inv in *; simpl. destruct (at_write s) as [|mine dead owed|merged dead owed].
    + intros k' Hk'. destruct (Hp k'); [set_solver|left; set_solver|by right].
    + destruct Hp as (H1 & H2 & H3 & H4). split_and!; try done. intros k' Hk'.
      destruct (H3 k'); [set_solver|left; set_solver|by right].
    + destruct Hp as (H1 & H2 & H3 & H4). split_and!; try done. intros k' Hk'.
      destruct (H3 k'); [set_solver|left; set_solver|by right].
Qed.

(** Removals of live keys, as [remove_if] and [replace_all] make them. *)
Lemma phase_inv_more s (live' : option (dict string V)) (ks back : gset string) :
  phase_inv s -> (forall k, k ∈ back -> (k ∉ ks) /\ (k ∉ tombstones s)) ->
  phase_inv (EState live' (ks ∪ tombstones s) (disk s) (at_write s) ((ks ∪ gone s) ∖ back)).
Proof.
  unfold phase_inv; simpl. intros Hp Hb.
  destruct (at_write s) as [|mine dead owed|merged dead owed].
  - intros k Hk. destruct (decide (k ∈ ks)); [left; set_solver|].
    destruct (Hp k); [set_solver|left; set_solver|by right].
  - destruct Hp as (H1 & H2 & H3 & H4). split_and!; try done. intros k Hk.
    destruct (decide (k ∈ ks)); [left; set_solver|]. destruct (H3 k); [set_solver|left; set_solver|by right].
  - destruct Hp as (H1 & H2 & H3 & H4). split_and!; try done. intros k Hk.
    destruct (decide (k ∈ ks)); [left; set_solver|]. destruct (H3 k); [set_solver|left; set_solver|by right].
Qed.

Lemma inv_remove p s : inv s -> inv (remove_if p s).
Proof.
  intros [Hl Hd Hu Hg Ht Hp]. unfold remove_if. set (ks := doomed p s).
  constructor; cbn [entries tombstones disk at_write gone ensure_loaded]; try done.
  - by apply foldl_delete_wf.
  - intros k Hk. rewrite foldl_delete_lookup. case_decide; [done|]. apply Hg. set_solver.
  - set_solver.
  - pose proof (phase_inv_more s (Some (foldl (fun d k => delete k d) (ensure_loaded s) ks)) (list_to_set ks) ∅ Hp
      ltac:(set_solver)) as Hm.
    rewrite difference_empty_L in Hm. exact Hm.
Qed.

Lemma inv_replace new s : dict_wf new -> fresh new s -> inv s -> inv (replace_all new s).
Proof.
  intros Hw Hf [Hl Hd Hu Hg Ht Hp]. unfold replace_all.
  set (lost := list_to_set (filter (fun k => new !! k = None) (dict_keys (ensure_loaded s))) : gset string).
  assert (forall k, k ∈ lost -> new !! k = None) as Hlost.
  { intros k Hk. by apply elem_of_list_to_set, list_elem_of_filter in Hk as [? _]. }
  assert (forall k, k ∈ (list_to_set (dict_keys new) : gset string) <-> is_Some (new !! k)) as Hkeys.
  { intros k. by rewrite elem_of_list_to_set, dict_keys_lookup. }
  constructor; cbn [entries tombstones disk at_write gone ensure_loaded]; try done.
  - intros k [Hk Hn]%elem_of_difference. apply eq_None_not_Some. by rewrite <- Hkeys.
  - intros k Hk. apply elem_of_difference. split; [set_solver|]. rewrite Hkeys. intros Hs.
    apply elem_of_union in Hk as [Hk|Hk]; [rewrite (Hlost k Hk) in Hs; by destruct Hs|by apply (Hf k)].
  - apply phase_inv_more; [done|]. intros k Hk%Hkeys. split; [|by apply Hf].
    intros Hin. rewrite (Hlost k Hin) in Hk. by destruct Hk.
Qed.

Lemma inv_snap s : at_write s = Idle -> inv s -> inv (write_snap s).
Proof.
  intros Hi [Hl Hd Hu Hg Ht Hp]. constructor; try done. unfold phase_inv in *; simpl. rewrite Hi in Hp.
  split_and!; [done| | |].
  - intros k [v Hk] Hdead. rewrite (Hg k (Ht k Hdead)) in Hk. done.
  - intros k Hk. destruct (Hp k Hk); [by left|]. right. auto.
  - intros k Hk. split; [by apply Hg|]. by apply Hp.
Qed.

Lemma inv_save mine dead owed s : at_write s = Snapped mine dead owed -> inv s -> inv (write_save mine dead owed s).
Proof.
  intros Hi [Hl Hd Hu Hg Ht Hp]. unfold phase_inv in Hp. rewrite Hi in Hp. destruct Hp as (H1 & H2 & H3 & H4).
  assert (entries s <> None) as Hne by (intros E; destruct (Hu E) as [_ E2]; congruence).
  assert (forall x : estate V, entries x = entries s -> ensure_loaded x = ensure_loaded s) as Hel.
  { intros x E. unfold ensure_loaded. rewrite E. by destruct (entries s). }
  constructor; simpl; rewrite ?Hel by done; try done.
  - by apply write_merge_wf.
  - unfold phase_inv; simpl. split_and!; [done| | |].
    + intros k Hk. rewrite write_merge_lookup in Hk by done.
      destruct (mine !! k) as [v|] eqn:E; [apply H2; by eexists|]. case_decide; [by destruct Hk|done].
    + intros k Hk. rewrite write_merge_lookup by done. destruct (H3 k Hk) as [|[-> ->]]; [by left|].
      right. by case_decide.
    + intros k Hk. rewrite write_merge_lookup by done. destruct (H4 k Hk) as [-> [Hx|Hx]]; case_decide; done.
Qed.

Lemma inv_fail mine dead owed s : at_write s = Snapped mine dead owed -> inv s -> inv (write_fail s).
Proof.
  intros Hi [Hl Hd Hu Hg Ht Hp]. unfold phase_inv in Hp. rewrite Hi in Hp. destruct Hp as (H1 & H2 & H3 & H4).
  constructor; simpl; try done.
  - intros E. by destruct (Hu E).
  - intros k Hk. destruct (H3 k Hk) as [|[_ ?]]; auto.
Qed.

Lemma inv_adopt merged dead owed s : at_write s = Saved merged dead owed -> inv s -> inv (write_adopt merged dead s).
Proof.
  intros Hi [Hl Hd Hu Hg Ht Hp]. unfold phase_inv in Hp. rewrite Hi in Hp. destruct Hp as (H1 & H2 & H3 & H4).
  assert (dict_wf merged) as Hw by by rewrite <- H1.
  constructor; simpl; try done.
  - by apply adopt_wf.
  - intros k Hk. unfold ensure_loaded; simpl. rewrite adopt_lookup by auto. by apply Hg.
  - set_solver.
  - unfold phase_inv; simpl. intros k Hk. rewrite H1. destruct (merged !! k) as [v|] eqn:E; [|by right].
    left. apply elem_of_difference. split; [|apply H2; by eexists].
    destruct (H3 k Hk); [done|congruence].
Qed.

Lemma inv_step s s' : step fresh s s' -> inv s -> inv s'.
Proof.
  destruct 1; intros Hi; eauto using inv_loaded, inv_set, inv_remove, inv_replace, inv_snap, inv_save, inv_fail, inv_adopt.
Qed.

(** ** The properties *)


(** A write is a merge: the saved document holds every live entry of the snapshot
    with its value, keeps the entries of the document it read that are not tombstoned,
    and drops the tombstoned ones, so no writer loses another one's entries. *)
Theorem write_is_merge d s mine dead owed k :
  dict_wf d -> rtc (step fresh) (created d) s -> at_write s = Snapped mine dead owed ->
  disk (write_save mine dead owed s) !! k =
    match mine !! k with
    | Some v => Some v
    | None => if decide (k ∈ dead) then None else disk s !! k
    end.
Proof.
  intros Hd Hs E.
  assert (inv s) as [Hl Hdk Hu Hg Ht Hp] by (eapply rtc_invariant; [apply inv_step|by apply inv_created|done]).
  unfold phase_inv in Hp. rewrite E in Hp. destruct Hp as (H1 & _). by apply write_merge_lookup.
Qed.
End spec.

(** ** The call that breaks it *)

Definition demo_entries : dict string Z := Dict [("k", 1%Z)].
Definition any (_ : string) (_ : Z) : bool := true.

(** [replace_all] leaves the tombstones of the keys it brings back.  If such a key is
    removed again while the replacement is being written, that write clears the new
    tombstone, the removal's own write merges the entry back from disk, and it is
    served again although its last operation removed it. *)
Theorem replace_all_resurrects :
  exists s, rtc (step unrestricted) (created demo_entries) s /\
    "k" ∈ gone s /\ at_write s = Idle /\ (get "k" s).1 = Some 1%Z /\ disk s !! "k" = Some 1%Z.
Proof.
  set (a1 := remove_if any (created demo_entries)).
  set (a2 := replace_all demo_entries a1).
  set (a3 := write_snap a2).
  set (a4 := write_save demo_entries {["k"]} ∅ a3).
  set (a5 := remove_if any a4).
  set (a6 := write_adopt demo_entries {["k"]} a5).
  set (a7 := write_snap a6).
  set (a8 := write_save ∅ ∅ {["k"]} a7).
  exists (write_adopt demo_entries ∅ a8). split; [|split_and!; vm_compute; try done; reflexivity].
  eapply rtc_l; [apply (step_remove _ any)|]. fold a1.
  eapply rtc_l; [apply (step_replace _ demo_entries); [by repeat constructor; set_solver|done]|]. fold a2.
  eapply rtc_l; [by apply step_snap|]. fold a3.
  eapply rtc_l; [apply (step_save _ demo_entries {["k"]} ∅); by vm_compute|]. fold a4.
  eapply rtc_l; [apply (step_remove _ any)|]. fold a5.
  eapply rtc_l; [apply (step_adopt _ demo_entries {["k"]} ∅); by vm_compute|]. fold a6.
  eapply rtc_l; [by apply step_snap|]. fold a7.
  eapply rtc_l; [apply (step_save _ ∅ ∅ {["k"]}); by vm_compute|]. fold a8.
  apply rtc_once. apply (step_adopt _ demo_entries ∅ {["k"]}). by vm_compute.
Qed.

(** ** Concrete instances *)

Lemma demo_wf : dict_wf demo_entries.
Proof. repeat constructor. set_solver. Qed.


Lemma write_is_merge_witness :
  let s := write_snap (set_entry "j" 2%Z (created demo_entries)) in
  disk (write_save (Dict [("k", 1%Z); ("j", 2%Z)]) ∅ ∅ s) !! "j" = Some 2%Z.
Proof.
  assert (at_write (write_snap (set_entry "j" 2%Z (created demo_entries))) =
    Snapped (Dict [("k", 1%Z); ("j", 2%Z)]) ∅ ∅) as E by (vm_compute; reflexivity).
  assert (rtc (step fresh) (created demo_entries) (write_snap (set_entry "j" 2%Z (created demo_entries)))) as Hs.
  { eapply rtc_l; [apply step_set|]. apply rtc_once, step_snap. reflexivity. }
  exact (write_is_merge demo_entries _ _ _ _ "j" demo_wf Hs E).
Defined.
