(* ===== verification/Prog.v ===== *)
(** Threads of atomic calls on a shared world.

    A [prog] is what is left of a call: the next atomic access to the world and what
    follows for each answer.  A [system] is a world and its threads; in a step the
    environment changes the world, a new call begins, or one thread makes its next access.
    [safe] is the program logic: a postcondition that holds whatever happens between two
    accesses, for an invariant the environment keeps and along a preorder every step moves
    up.  [threads_safe] turns it into a property of every reachable system. *)
From S2P Require Import Prelude.

(** ** Programs *)

Section prog.
Context {W : Type}.

Inductive prog (A : Type) : Type :=
| Return (r : result A)
| Access {B : Type} (op : W -> B * W) (k : B -> prog A).

#[global] Arguments Return {A} r.
#[global] Arguments Access {A B} op k.

#[export] Instance prog_ret : MRet prog := fun A a => Return (Ok a).

Fixpoint prog_bind_def {A B} (f : A -> prog B) (p : prog A) : prog B :=
  match p with
  | Return (Ok a) => f a
  | Return (Raise e) => Return (Raise e)
  | Access op k => Access op (fun b => prog_bind_def f (k b))
  end.

#[export] Instance prog_bind : MBind prog := fun A B f p => prog_bind_def f p.

#[export] Instance prog_fmap : FMap prog := fun A B f p => prog_bind_def (fun a => Return (Ok (f a))) p.

(** [try: ... except], the handler given the exception. *)
Fixpoint prog_try {A} (p : prog A) (handler : py_exn -> prog A) : prog A :=
  match p with
  | Return (Ok a) => Return (Ok a)
  | Return (Raise e) => handler e
  | Access op k => Access op (fun b => prog_try (k b) handler)
  end.

Definition access {A} (op : W -> A * W) : prog A := Access op (fun a => Return (Ok a)).
Definition ask {A} (f : W -> A) : prog A := access (fun w => (f w, w)).
Definition ask_result {A} (f : W -> result A) : prog A := Access (fun w => (f w, w)) Return.
Definition act (f : W -> W) : prog unit := access (fun w => (tt, f w)).

(** A loop over a list that carries a value. *)
Fixpoint prog_for {A S} (l : list A) (body : A -> S -> prog S) (s : S) : prog S :=
  match l with
  | [] => mret s
  | a :: l => body a s ≫= prog_for l body
  end.

(** The program run with nothing in between. *)
Fixpoint alone {A} (p : prog A) (w : W) : result A * W :=
  match p with
  | Return r => (r, w)
  | Access op k => let '(b, w) := op w in alone (k b) w
  end.

(** ** The program logic *)

Section logic.
Context (I : W -> Prop) (above : relation W) `{!PreOrder above}.

Fixpoint safe {A} (Q : result A -> W -> Prop) (p : prog A) (w : W) : Prop :=
  match p with
  | Return r => Q r w
  | Access op k => forall w', above w w' -> I w' -> I (op w').2 /\ above w' (op w').2 /\ safe Q (k (op w').1) (op w').2
  end.

(** Whether the world is further on does not matter. *)
Lemma safe_later {A} (Q : result A -> W -> Prop) p w w' :
  (forall r w w', above w w' -> Q r w -> Q r w') -> above w w' -> safe Q p w -> safe Q p w'.
Proof.
  intros HQ Hw. destruct p as [r|B op k]; simpl; [by apply HQ|].
  intros H w1 H1 Hi. apply H; [by etrans|done].
Qed.

Lemma safe_weaken {A} (Q Q' : result A -> W -> Prop) p w :
  (forall r w', above w w' -> Q r w' -> Q' r w') -> safe Q p w -> safe Q' p w.
Proof.
  revert w. induction p as [r|B op k IH]; intros w HQ; simpl; [by apply HQ|].
  intros H w' Hw Hi. destruct (H w' Hw Hi) as (Hi' & Hw' & Hs). split_and!; [done|done|].
  apply IH; [|done]. intros r w1 H1. apply HQ. etrans; [exact Hw|]. by etrans.
Qed.

Lemma safe_bind {A B} (Q : result B -> W -> Prop) (f : A -> prog B) p w :
  safe (fun r w => match r with Ok a => safe Q (f a) w | Raise e => Q (Raise e) w end) p w ->
  safe Q (p ≫= f) w.
Proof.
  revert w. induction p as [[a|e]|C op k IH]; intros w; simpl; [done|done|].
  intros H w' Hw Hi. destruct (H w' Hw Hi) as (Hi' & Hw' & Hs). split_and!; [done|done|]. by apply IH.
Qed.

Lemma safe_try {A} (Q : result A -> W -> Prop) (h : py_exn -> prog A) p w :
  safe (fun r w => match r with Ok a => Q (Ok a) w | Raise e => safe Q (h e) w end) p w ->
  safe Q (prog_try p h) w.
Proof.
  revert w. induction p as [[a|e]|C op k IH]; intros w; simpl; [done|done|].
  intros H w' Hw Hi. destruct (H w' Hw Hi) as (Hi' & Hw' & Hs). split_and!; [done|done|]. by apply IH.
Qed.

Lemma safe_ask {A} (Q : result A -> W -> Prop) (f : W -> A) w :
  (forall w', above w w' -> I w' -> Q (Ok (f w')) w') -> safe Q (ask f) w.
Proof. intros H w' Hw Hi. split_and!; [done|reflexivity|]. by apply H. Qed.

Lemma safe_ask_result {A} (Q : result A -> W -> Prop) (f : W -> result A) w :
  (forall w', above w w' -> I w' -> Q (f w') w') -> safe Q (ask_result f) w.
Proof. intros H w' Hw Hi. split_and!; [done|reflexivity|]. by apply H. Qed.

Lemma safe_access {A} (Q : result A -> W -> Prop) (op : W -> A * W) w :
  (forall w', above w w' -> I w' -> I (op w').2 /\ above w' (op w').2 /\ Q (Ok (op w').1) (op w').2) -> safe Q (access op) w.
Proof. intros H w' Hw Hi. by apply H. Qed.

Lemma safe_act (Q : result unit -> W -> Prop) (f : W -> W) w :
  (forall w', above w w' -> I w' -> I (f w') /\ above w' (f w') /\ Q (Ok tt) (f w')) -> safe Q (act f) w.
Proof. intros H w' Hw Hi. by apply H. Qed.

(** The loop rule: [J] holds of the rest of the list and the value carried. *)
Lemma safe_for {A S} (Q : result S -> W -> Prop) (J : list A -> S -> W -> Prop) body l s w :
  (forall l s w w', above w w' -> J l s w -> J l s w') ->
  (forall a l s w, J (a :: l) s w ->
     safe (fun r w' => match r with Ok s => J l s w' | Raise e => Q (Raise e) w' end) (body a s) w) ->
  (forall s w', above w w' -> J [] s w' -> Q (Ok s) w') ->
  J l s w -> safe Q (prog_for l body s) w.
Proof.
  intros HJ Hb. revert s w. induction l as [|a l IH]; intros s w HQ H; simpl; [apply HQ; [reflexivity|done]|].
  apply safe_bind. eapply safe_weaken; [|by apply Hb]. intros [s'|e] w' Hw H'; [|done].
  apply IH; [|done]. intros s1 w1 Hw1. apply HQ. by etrans.
Qed.
End logic.

(** ** Systems *)

Section system.
Context {C A : Type} (program : C -> prog A) (note : C -> W -> W) (env : W -> W -> Prop).

(** A call, the world when it began, and what is left of it. *)
Record thread := Thread { th_call : C; th_start : W; th_prog : prog A }.

Inductive system_step : W * list thread -> W * list thread -> Prop :=
| env_step w w' ths : env w w' -> system_step (w, ths) (w', ths)
| call_step c w ths : system_step (w, ths) (note c w, ths ++ [Thread c (note c w) (program c)])
| access_step i c w0 w ths B (op : W -> B * W) k :
    ths !! i = Some (Thread c w0 (Access op k)) ->
    system_step (w, ths) ((op w).2, <[i := Thread c w0 (k (op w).1)]> ths).

Context (I : W -> Prop) (above : relation W) `{!PreOrder above} (Q : C -> W -> result A -> W -> Prop).

(** What is proved of each call alone holds of all of them together. *)
Lemma threads_safe w0 w ths :
  I w0 -> (forall w w', env w w' -> I w -> I w' /\ above w w') ->
  (forall c w, I w -> I (note c w) /\ above w (note c w)) ->
  (forall c s r w w', above w w' -> Q c s r w -> Q c s r w') ->
  (forall c w, I (note c w) -> safe I above (Q c (note c w)) (program c) (note c w)) ->
  rtc system_step (w0, []) (w, ths) ->
  I w /\ Forall (fun t => safe I above (Q (th_call t) (th_start t)) (th_prog t) w) ths.
Proof.
  intros H0 He Hn Hl Hp Hr.
  assert (forall c : W * list thread, rtc system_step (w0, []) c ->
    I c.1 /\ Forall (fun t => safe I above (Q (th_call t) (th_start t)) (th_prog t) c.1) c.2) as Hall; [|exact (Hall _ Hr)].
  assert (forall w w' ths, above w w' ->
    Forall (fun t => safe I above (Q (th_call t) (th_start t)) (th_prog t) w) ths ->
    Forall (fun t => safe I above (Q (th_call t) (th_start t)) (th_prog t) w') ths) as Hlater.
  { intros w1 w1' ths1 Hw H. eapply Forall_impl; [exact H|]. intros t Ht. by eapply safe_later; eauto. }
  intros c. apply (rtc_invariant _ (fun c => I c.1 /\ Forall (fun t => safe I above (Q (th_call t) (th_start t)) (th_prog t) c.1) c.2));
    [|split; [done|constructor]].
  intros c1 c2 Hstep [Hi Hths].
  destruct Hstep as [w1 w1' ths1 H|cl w1 ths1|i cl ws w1 ths1 B op k Hl1]; simpl in *.
  - destruct (He _ _ H Hi). split; [done|by eapply Hlater].
  - destruct (Hn cl w1 Hi) as [Hi' Hw]. split; [done|]. apply Forall_app. split; [by eapply Hlater|].
    constructor; [|constructor]. by apply Hp.
  - pose proof (Forall_lookup_1 _ _ _ _ Hths Hl1) as Hs. simpl in Hs.
    destruct (Hs w1 (reflexivity w1) Hi) as (Hi' & Hw & Hs').
    split; [done|]. apply Forall_insert; [by eapply Hlater|done].
Qed.

(** Calls made one after the other, each run to its end. *)
Definition turn (wt : W * list thread) (c : C) : W * list thread :=
  let w := note c wt.1 in ((alone (program c) w).2, wt.2 ++ [Thread c w (Return (alone (program c) w).1)]).

Lemma alone_steps i c w0 p w ths :
  ths !! i = Some (Thread c w0 p) ->
  rtc system_step (w, ths) ((alone p w).2, <[i := Thread c w0 (Return (alone p w).1)]> ths).
Proof.
  revert w ths. induction p as [r|B op k IH]; intros w ths Hi.
  - simpl. by rewrite list_insert_id.
  - eapply rtc_l; [by apply (access_step i c w0 w ths B op k)|]. simpl. destruct (op w) as [b w'] eqn:E. cbn [fst snd].
    specialize (IH b w' (<[i := Thread c w0 (k b)]> ths)). rewrite list_insert_insert_eq in IH. apply IH.
    apply list_lookup_insert_eq. by eapply lookup_lt_Some.
Qed.

Lemma turn_steps wt c : rtc system_step wt (turn wt c).
Proof.
  destruct wt as [w ths]. eapply rtc_l; [apply (call_step c w ths)|].
  pose proof (alone_steps (length ths) c (note c w) (program c) (note c w) (ths ++ [Thread c (note c w) (program c)])) as H.
  rewrite list_lookup_middle in H by done. specialize (H eq_refl).
  rewrite insert_app_r_alt, Nat.sub_diag in H by done. exact H.
Qed.

Lemma in_turn_steps cs wt : rtc system_step wt (foldl turn wt cs).
Proof.
  revert wt. induction cs as [|c cs IH]; intros wt; [done|]. simpl. etrans; [apply turn_steps|apply IH].
Qed.
End system.
End prog.

Arguments prog : clear implicits.
Arguments thread : clear implicits.
