(* ===== verification/IngestReady.v ===== *)
(** When a raw file may be archived and deleted: the durable ingest marks of
    [dbload/lib/sync_timedb_file_complete_ingest_mark.py] and
    [sync_timedb_zero_host_ingest_mark.py], the cached database probes of
    [sync_timedb_host_itimes.py], and the gate over both in
    [sync_timedb_ingest_readiness.py].

    Ingest, archive and removal threads call these functions at the same time, while files
    change and rows are added and dropped.  Every function is a program ([prog]) whose
    accesses are the calls it makes into the file system, the database, the clock, the
    settings, and each block under one of the locks.

    Times are microseconds, file times and sample times in keys are seconds.  The marks are
    those of the one archive directory of the settings (every caller passes none).  The
    test [remove_if] makes looks at the files while the lock is held: it is one access.
    The answers of one batched query come back in the order of its probes. *)
From S2P Require Import Prelude PyDict PyStr PosixPath Json EntryStore Prog.
From Stdlib Require Import Ascii.
Local Open Scope Z_scope.

(** ** The world *)

Inductive which := FileComplete | ZeroHost.

#[export] Instance which_eq_dec : EqDecision which.
Proof. solve_decision. Defined.

(** What is outside the caches at a moment: the clock, the raw files, the rows of
    [host_data] by host as sample times, the settings, and the two mark stores. *)
Record view := View {
  clock : Z;
  stat : string -> option (Z * Z);
  isfile : string -> bool;
  samefile : string -> string -> option bool;
  head_identity : string -> result (option (string * Z));
  tail_identity : string -> result (option (string * Z));
  rows : string -> list Z;
  db_error : option py_exn;
  makedirs : result unit;
  require_db_ingest : bool;
  listend_enabled : result bool;
  max_timestamps : Z;
  marks : which -> estate json;
}.

Definition with_marks (z : which) (e : estate json) (v : view) : view :=
  View (clock v) (stat v) (isfile v) (samefile v) (head_identity v) (tail_identity v) (rows v) (db_error v) (makedirs v)
    (require_db_ingest v) (listend_enabled v) (max_timestamps v) (fun z' => if decide (z' = z) then e else marks v z').

(** The caches: what was found, and when the call that found it began. *)
Abbreviation cache K V := (dict K (V * Z)).

Inductive call :=
| Check (path : string)
| Filter (paths : list string) (gate : option (dict string (dict string (gset Z))))
| Ingested (path : string) (ok : bool) (outcome db_skip : string) (stats_rows : option Z)
| Clear (z : which) (paths : list string)
| ResetCaches.

(** [past] and [made] are histories: the moments before, and the calls made so far. *)
Record world := World {
  now_view : view;
  head_db_cache : cache (string * Z) bool;
  path_ready_cache : cache (string * Z * Z) bool;
  host_itimes_cache : cache (string * Z * Z) (gset Z);
  second_present_cache : cache (string * Z) bool;
  past : list view;
  made : list call;
}.

Definition move (v : view) (w : world) : world :=
  World v (head_db_cache w) (path_ready_cache w) (host_itimes_cache w) (second_present_cache w) (now_view w :: past w) (made w).
Definition note (c : call) (w : world) : world :=
  World (now_view w) (head_db_cache w) (path_ready_cache w) (host_itimes_cache w) (second_present_cache w) (past w) (c :: made w).
Definition with_head c (w : world) : world :=
  World (now_view w) c (path_ready_cache w) (host_itimes_cache w) (second_present_cache w) (past w) (made w).
Definition with_ready c (w : world) : world :=
  World (now_view w) (head_db_cache w) c (host_itimes_cache w) (second_present_cache w) (past w) (made w).
Definition with_itimes c (w : world) : world :=
  World (now_view w) (head_db_cache w) (path_ready_cache w) c (second_present_cache w) (past w) (made w).
Definition with_seconds c (w : world) : world :=
  World (now_view w) (head_db_cache w) (path_ready_cache w) (host_itimes_cache w) c (past w) (made w).

Abbreviation io := (prog world).

Definition look {A} (f : view -> A) : io A := ask (fun w => f (now_view w)).
Definition look_result {A} (f : view -> result A) : io A := ask_result (fun w => f (now_view w)).

(** ** Caches *)

Definition SECOND : Z := 1000000.
Definition HEAD_DB_CACHE_REFRESH_SECONDS : Z := 60.
Definition HEAD_DB_CACHE_MAX_ENTRIES : Z := 20000.
Definition PATH_READY_CACHE_REFRESH_SECONDS : Z := 60.
Definition PATH_READY_CACHE_MAX_ENTRIES : Z := 20000.
Definition HOST_ITIMES_CACHE_REFRESH_SECONDS : Z := 20.
Definition HOST_ITIMES_CACHE_MAX_ENTRIES : Z := 2000.
Definition HOST_SECOND_PRESENT_CACHE_TTL_S : Z := 60.
Definition HOST_SECOND_PRESENT_CACHE_MAX_ENTRIES : Z := 50000.
Definition HOST_ITIMES_CHUNK_HOURS : Z := 24.

(** A cached answer that is not too old. *)
Definition fresh_answer {K V} `{EqDecision K} (c : cache K V) (key : K) (now limit : Z) : option V :=
  match c !! key with
  | Some (x, checked_at) => if now - checked_at <=? limit * SECOND then Some x else None
  | None => None
  end.

Definition older {K V} (x y : K * (V * Z)) : Prop := x.2.2 <= y.2.2.

#[export] Instance older_dec {K V} : RelDecision (@older K V).
Proof. intros x y. unfold older. apply _. Defined.

(** Over the limit, the [drop] entries checked longest ago go. *)
Definition trim {K V} `{EqDecision K} (limit : Z) (drop : nat) (c : cache K V) : cache K V :=
  if Z.of_nat (dict_len c) <=? limit then c
  else foldl (fun c k => delete k c) c (take drop (merge_sort older (dict_items c)).*1).

Definition trim_head_db_cache : io unit := act (fun w => with_head (trim HEAD_DB_CACHE_MAX_ENTRIES 1000 (head_db_cache w)) w).
Definition trim_path_ready_cache : io unit := act (fun w => with_ready (trim PATH_READY_CACHE_MAX_ENTRIES 1000 (path_ready_cache w)) w).

(** Two locks, one after the other. *)
Definition reset_sync_ingest_readiness_caches : io unit :=
  _ ← act (with_head ∅);
  act (with_ready ∅).

Definition reset_host_itimes_caches : io unit :=
  _ ← act (with_itimes ∅);
  act (with_seconds ∅).

(** ** Marks *)

Section ready.
Context (archive_dir : string) (py_repr : json -> string).

Definition mark_key (path : string) (st : Z * Z) : string :=
  normpath path +:+ "|" +:+ str_of_Z st.1 +:+ "|" +:+ str_of_Z st.2.

Definition path_fingerprint_key (path : string) : io (option string) :=
  st ← look (fun v => stat v path);
  mret (option_map (mark_key path) st).

(** [store.contains(key)]. *)
Definition marks_contain (z : which) (key : string) : io bool :=
  access (fun w => let '(b, e) := contains key (marks (now_view w) z) in (b, move (with_marks z e (now_view w)) w)).

Definition has_ingest_mark (z : which) (path : string) : io bool :=
  key ← path_fingerprint_key path;
  match key with
  | None => mret false
  | Some key => if decide (archive_dir = "") then mret false else marks_contain z key
  end.

Definition has_file_complete_ingest_mark : string -> io bool := has_ingest_mark FileComplete.
Definition has_zero_host_ingest_mark : string -> io bool := has_ingest_mark ZeroHost.

Definition mark_entry (path : string) (st : Z * Z) (marked_at : Z) : json :=
  JDict (dict_of_items [("path", JStr (normpath path)); ("mtime", JInt st.1); ("size", JInt st.2);
    ("marked_at", JFloat (FFin marked_at 1000000))]).

Definition record_ingest_mark (z : which) (path : string) : io bool :=
  key ← path_fingerprint_key path;
  match key with
  | None => mret false
  | Some key =>
      if decide (archive_dir = "") then mret false
      else
        _ ← look_result makedirs;
        st ← look (fun v => stat v path);
        match st with
        | None => mret false
        | Some st =>
            at_ ← look clock;
            _ ← act (fun w => move (with_marks z (set_entry key (mark_entry path st at_) (marks (now_view w) z)) (now_view w)) w);
            mret true
        end
  end.

Definition record_file_complete_ingest_mark : string -> io bool := record_ingest_mark FileComplete.
Definition record_zero_host_ingest_mark : string -> io bool := record_ingest_mark ZeroHost.

(** [str(meta.get("path") or "")]. *)
Definition entry_path (meta : json) : string :=
  match meta with
  | JDict d => normpath (match json_get "path" d with JStr s => s | j => if json_truthy j then py_repr j else "" end)
  | _ => ""
  end.

(** [key.split("|", 1)[0] if "|" in key else ""]. *)
Definition key_path (key : string) : string :=
  match split_once "|"%char key with (p, Some _) => p | (_, None) => "" end.

Definition mark_selected (path_set : list string) (v : view) (key : string) (meta : json) : bool :=
  bool_decide (entry_path meta ∈ path_set \/ key_path key ∈ path_set) ||
  existsb (fun p => bool_decide (mark_key p <$> stat v p = Some key)) path_set.

Definition clear_ingest_marks (z : which) (paths : list string) : io nat :=
  let path_set := remove_dups (normpath <$> filter (fun p => p <> "") paths) in
  if decide (path_set = []) then mret 0%nat
  else if decide (archive_dir = "") then mret 0%nat
  else access (fun w =>
    let v := now_view w in
    let selected := mark_selected path_set v in
    (length (doomed selected (marks v z)), move (with_marks z (remove_if selected (marks v z)) v) w)).

Definition clear_file_complete_ingest_marks : list string -> io nat := clear_ingest_marks FileComplete.
Definition clear_zero_host_ingest_marks : list string -> io nat := clear_ingest_marks ZeroHost.

Definition maybe_record_file_complete_ingest_mark_from_outcome (path : string) (ingest_ok : bool) (outcome db_skip : string) : io bool :=
  if negb ingest_ok then mret false
  else
    let skip := if decide (outcome = "db_skip") then db_skip else "" in
    let head_tail := bool_decide (skip ∈ ["head_tail"; "tail_window"; "db_complete_head_tail"; "db_complete_tail_window"]) in
    listend ← (if head_tail then b ← prog_try (look_result listend_enabled) (fun _ => mret true); mret (Some b) else mret None);
    if bool_decide (outcome = "ingested") || bool_decide (skip ∈ ["full_scan"; "db_complete_full_scan"]) ||
       (head_tail && bool_decide (listend = Some false))
    then record_file_complete_ingest_mark path
    else mret false.

Definition maybe_record_zero_host_ingest_mark_from_outcome (path : string) (ingest_ok : bool) (outcome : string) (stats_rows : option Z) : io bool :=
  if negb ingest_ok then mret false
  else if decide (outcome ∉ ["ingested"; ""]) then mret false
  else match stats_rows with
       | Some 0 => record_zero_host_ingest_mark path
       | _ => mret false
       end.

(** What the coordinator does with the result of an ingest worker. *)
Definition note_ingest_result (path : string) (ok : bool) (outcome db_skip : string) (stats_rows : option Z) : io unit :=
  _ ← maybe_record_zero_host_ingest_mark_from_outcome path ok outcome stats_rows;
  _ ← maybe_record_file_complete_ingest_mark_from_outcome path ok outcome db_skip;
  mret tt.

(** ** Database probes *)

Definition in_window (lo hi : Z) (x : Z) : bool := (lo <=? x) && (x <? hi).

(** A query of a host's rows between two times. *)
Definition query (host : string) (lo hi : Z) : io (list Z) :=
  look_result (fun v => match db_error v with
                        | Some e => Raise e
                        | None => Ok (filter (fun x => in_window lo hi x = true) (rows v host))
                        end).

(** [.exists()] over the Unix second. *)
Definition second_exists (host : string) (sec : Z) : io bool :=
  found ← query host (sec * SECOND) ((sec + 1) * SECOND);
  mret (match found with [] => false | _ => true end).

Definition head_timestamp_present_in_db (host : string) (sec : Z) : io bool :=
  now ← look clock;
  cached ← ask (fun w => fresh_answer (head_db_cache w) (host, sec) now HEAD_DB_CACHE_REFRESH_SECONDS);
  match cached with
  | Some present => mret present
  | None =>
      present ← second_exists host sec;
      _ ← act (fun w => with_head (<[(host, sec) := (present, now)]> (head_db_cache w)) w);
      _ ← trim_head_db_cache;
      mret present
  end.

(** [_iter_host_itimes_chunk_bounds]; [fuel] bounds the number of chunks. *)
Fixpoint chunks_from (fuel : nat) (cur hi : Z) : list (Z * Z) :=
  match fuel with
  | O => []
  | S fuel =>
      if cur <? hi
      then let nxt := Z.min (cur + HOST_ITIMES_CHUNK_HOURS * 3600 * SECOND) hi in (cur, nxt) :: chunks_from fuel nxt hi
      else []
  end.

Definition iter_host_itimes_chunk_bounds (lo hi : Z) : list (Z * Z) :=
  if hi - lo <=? HOST_ITIMES_CHUNK_HOURS * 3600 * SECOND then [(lo, hi)]
  else chunks_from (Z.to_nat ((hi - lo) / (HOST_ITIMES_CHUNK_HOURS * 3600 * SECOND)) + 1) lo hi.

(** The seconds of the rows, [None] as soon as there are too many. *)
Fixpoint add_times (limit : Z) (times : list Z) (s : gset Z) : option (gset Z) :=
  match times with
  | [] => Some s
  | x :: times => let s := {[Z.quot x SECOND]} ∪ s in if limit <? Z.of_nat (size s) then None else add_times limit times s
  end.

Definition collect_distinct_unix_seconds (host : string) (lo hi : Z) (s : gset Z) : io (option (gset Z)) :=
  limit ← look max_timestamps;
  times ← query host lo hi;
  mret (add_times limit times s).

(** The chunks in turn; [None] is [HOST_ITIMES_SET_OVERFLOW]. *)
Definition collect_chunks (host : string) (chunks : list (Z * Z)) : io (option (gset Z)) :=
  prog_for chunks (fun c s => match s with
                              | None => mret None
                              | Some s => collect_distinct_unix_seconds host c.1 c.2 s
                              end) (Some ∅).

Definition host_recent_timestamps_cached (host : string) (lo hi : Z) : io (option (gset Z)) :=
  let key := (host, Z.quot lo SECOND, Z.quot hi SECOND) in
  now ← look clock;
  cached ← ask (fun w => fresh_answer (host_itimes_cache w) key now HOST_ITIMES_CACHE_REFRESH_SECONDS);
  match cached with
  | Some times => mret (Some times)
  | None =>
      found ← prog_try (collect_chunks host (iter_host_itimes_chunk_bounds lo hi))
                (fun e => match e with DatabaseError true => mret None | _ => Return (Raise e) end);
      match found with
      | None => mret None
      | Some times =>
          limit ← look max_timestamps;
          _ ← act (fun w =>
            let c := host_itimes_cache w in
            let c := if Z.of_nat (size times) <=? limit then <[key := (times, now)]> c else c in
            with_itimes (trim HOST_ITIMES_CACHE_MAX_ENTRIES 100 c) w);
          mret (Some times)
      end
  end.

Definition put_second (key : string * Z) (present : bool) (now : Z) : io unit :=
  act (fun w => with_seconds (trim HOST_SECOND_PRESENT_CACHE_MAX_ENTRIES 1000 (<[key := (present, now)]> (second_present_cache w))) w).

Definition host_timestamp_second_present_in_db (host : string) (sec : Z) : io bool :=
  let key := (py_strip host, sec) in
  now ← look clock;
  cached ← ask (fun w => fresh_answer (second_present_cache w) key now HOST_SECOND_PRESENT_CACHE_TTL_S);
  match cached with
  | Some present => mret present
  | None =>
      present ← second_exists key.1 sec;
      _ ← put_second key present now;
      mret present
  end.

(** The keys with a fresh answer, and those without. *)
Definition cached_second (now : Z) (c : cache (string * Z) bool) (acc : dict (string * Z) bool * list (string * Z)) (key : string * Z)
    : dict (string * Z) bool * list (string * Z) :=
  match fresh_answer c key now HOST_SECOND_PRESENT_CACHE_TTL_S with
  | Some b => (<[key := b]> acc.1, acc.2)
  | None => (acc.1, acc.2 ++ [key])
  end.

Definition cached_seconds (now : Z) (keys : list (string * Z)) (c : cache (string * Z) bool)
    : dict (string * Z) bool * list (string * Z) :=
  foldl (cached_second now c) (∅, []) keys.

(** The one SQL statement. *)
Definition probe_seconds (keys : list (string * Z)) : io (list (string * Z * bool)) :=
  look_result (fun v => match db_error v with
                        | Some e => Raise e
                        | None => Ok (map (fun k => (k, existsb (in_window (k.2 * SECOND) ((k.2 + 1) * SECOND)) (rows v k.1))) keys)
                        end).

Definition first_of_each (keys : list (string * Z)) : list (string * Z) :=
  foldl (fun l k => if decide (k ∈ l) then l else l ++ [k]) [] keys.

Definition host_timestamp_seconds_present_batch (pairs : list (string * Z)) : io (dict (string * Z) bool) :=
  let normalized := first_of_each ((fun p => (py_strip p.1, p.2)) <$> pairs) in
  if decide (normalized = []) then mret ∅
  else
    now ← look clock;
    found ← ask (fun w => cached_seconds now normalized (second_present_cache w));
    let '(out, pending) := found in
    if decide (pending = []) then mret out
    else
      answers ← probe_seconds pending;
      prog_for answers (fun a out =>
        let key := (py_strip a.1.1, a.1.2) in
        _ ← put_second key a.2 now;
        mret (<[key := a.2]> out)) out.

Definition set_min (s : gset Z) : Z := match elements s with [] => 0 | x :: l => foldl Z.min x l end.
Definition set_max (s : gset Z) : Z := match elements s with [] => 0 | x :: l => foldl Z.max x l end.

Definition host_sampled_timestamp_seconds_all_present (host : string) (secs : gset Z) : io bool :=
  if decide (secs = ∅) then mret false
  else
    let host_key := py_strip host in
    found ← host_recent_timestamps_cached host_key (set_min secs * SECOND) ((set_max secs + 1) * SECOND);
    match found with
    | None =>
        batch ← host_timestamp_seconds_present_batch (map (fun s => (host_key, s)) (elements secs));
        mret (forallb (fun s => default false (batch !! (host_key, s))) (elements secs))
    | Some times => mret (forallb (fun s => bool_decide (s ∈ times)) (elements secs))
    end.

(** ** The gate *)

Definition gate_seconds : Type := dict string (gset Z).

(** Paths with a head and a tail: their seconds by host. *)
Definition head_tail_identity_as_gate_identities (heads tails : dict string (option string * option Z)) : dict string gate_seconds :=
  let add (host : string) (sec : Z) (d : gate_seconds) : gate_seconds := <[host := {[sec]} ∪ default ∅ (d !! host)]> d in
  foldl (fun gate ph =>
           match ph.2, tails !! ph.1 with
           | (Some hh, Some hs), Some (Some th, Some ts) => <[ph.1 := add (py_strip th) ts (add (py_strip hh) hs ∅)]> gate
           | _, _ => gate
           end) ∅ (dict_items heads).

Definition gate_identities_ready_in_db (gate : gate_seconds) : io bool :=
  let pairs := concat (map (fun hs => map (fun s => (py_strip hs.1, s)) (elements hs.2)) (dict_items gate)) in
  if decide (dict_items gate = []) then mret false
  else if decide (pairs = []) then mret false
  else
    present ← host_timestamp_seconds_present_batch pairs;
    mret (forallb (fun p => default false (present !! p)) pairs).

Definition archive_db_head_ingest_gate_enabled : io bool := look require_db_ingest.

Definition live_db_ingest_enabled : io bool := prog_try (look_result listend_enabled) (fun _ => mret false).

Definition stats_file_is_active_segment (path : string) : io bool :=
  let current_path := path_join (path_dirname path) "current" in
  there ← look (fun v => isfile v current_path);
  if negb (there : bool) then mret false
  else look (fun v => default false (samefile v path current_path)).

Definition path_head_tail_ready_in_db (path : string) : io bool :=
  head ← look_result (fun v => head_identity v path);
  match head with
  | None => mret false
  | Some (head_host, head_sec) =>
      there ← head_timestamp_present_in_db head_host head_sec;
      if negb (there : bool) then mret false
      else
        tail ← look_result (fun v => tail_identity v path);
        match tail with
        | None => mret false
        | Some (tail_host, tail_sec) =>
            if decide (head_host = tail_host /\ head_sec = tail_sec) then mret true
            else head_timestamp_present_in_db tail_host tail_sec
        end
  end.

(** [_path_ready_via_file_complete_mark(path) or _path_ready_via_zero_host_mark(path)]. *)
Definition path_ready_via_mark (path : string) : io bool :=
  complete ← has_file_complete_ingest_mark path;
  if (complete : bool) then mret true else has_zero_host_ingest_mark path.

Definition stats_file_head_ingested_in_db (path : string) : io bool :=
  required ← archive_db_head_ingest_gate_enabled;
  if negb (required : bool) then mret true
  else
    st ← look (fun v => stat v path);
    match st with
    | None => mret false
    | Some (mtime, size) =>
        let fp := (path, mtime, size) in
        now ← look clock;
        cached ← ask (fun w => fresh_answer (path_ready_cache w) fp now PATH_READY_CACHE_REFRESH_SECONDS);
        match cached with
        | Some ready => mret ready
        | None =>
            active ← stats_file_is_active_segment path;
            ready ← (if (active : bool) then mret false
                     else
                       marked ← path_ready_via_mark path;
                       if (marked : bool) then mret true
                       else
                         live ← live_db_ingest_enabled;
                         if (live : bool) then mret false else path_head_tail_ready_in_db path);
            _ ← act (fun w => with_ready (<[fp := (ready, now)]> (path_ready_cache w)) w);
            _ ← trim_path_ready_cache;
            mret ready
        end
    end.

(** The paths that have identities and are not being written, and the seconds of each of
    their hosts. *)
Definition gather_samples (closed_paths : list string) (gate : dict string gate_seconds)
    : io (dict string gate_seconds * dict string (gset Z)) :=
  prog_for closed_paths (fun path '(samples, by_host) =>
    active ← stats_file_is_active_segment path;
    mret (if (active : bool) then (samples, by_host)
          else match gate !! path with
               | None => (samples, by_host)
               | Some sampled =>
                   if decide (dict_items sampled = []) then (samples, by_host)
                   else (<[path := sampled]> samples,
                         foldl (fun d hs => <[hs.1 := hs.2 ∪ default ∅ (d !! hs.1)]> d) by_host (dict_items sampled))
               end)) (∅, ∅).

Definition build_head_ingest_ready_set (closed_paths : list string) (gate : dict string gate_seconds) : io (gset string) :=
  required ← archive_db_head_ingest_gate_enabled;
  if negb (required : bool) then mret (list_to_set closed_paths)
  else
    live ← live_db_ingest_enabled;
    ready ← (if (live : bool) then mret ∅
             else
               gathered ← gather_samples closed_paths gate;
               let '(samples, by_host) := gathered in
               host_ok ← prog_for (dict_items by_host) (fun hs (ok : dict string bool) =>
                 b ← host_sampled_timestamp_seconds_all_present hs.1 hs.2;
                 mret (<[hs.1 := b]> ok)) ∅;
               mret (list_to_set (omap (fun ps => if forallb (fun h => default false (host_ok !! h)) (dict_keys ps.2)
                                                  then Some ps.1 else None) (dict_items samples)) : gset string));
    prog_for closed_paths (fun path ready =>
      if decide (path ∈ ready) then mret ready
      else
        active ← stats_file_is_active_segment path;
        if (active : bool) then mret ready
        else
          marked ← path_ready_via_mark path;
          mret (if (marked : bool) then {[path]} ∪ ready else ready)) ready.

(** The paths that may go, and the others. *)
Definition filter_paths_head_ingested (paths : list string) (gate : option (dict string gate_seconds)) : io (list string * list string) :=
  match gate with
  | Some gate =>
      ready ← build_head_ingest_ready_set paths gate;
      mret (filter (fun p => p ∈ ready) paths, filter (fun p => p ∉ ready) paths)
  | None =>
      prog_for paths (fun path '(ready, skipped) =>
        b ← stats_file_head_ingested_in_db path;
        mret (if (b : bool) then (ready ++ [path], skipped) else (ready, skipped ++ [path]))) ([], [])
  end.

(** ** The system *)

Inductive answer := Ready (b : bool) | Sorted (ready skipped : list string) | Done.

Definition program (c : call) : io answer :=
  match c with
  | Check path => Ready <$> stats_file_head_ingested_in_db path
  | Filter paths gate => (fun rs => Sorted rs.1 rs.2) <$> filter_paths_head_ingested paths gate
  | Ingested path ok outcome db_skip stats_rows => (fun _ => Done) <$> note_ingest_result path ok outcome db_skip stats_rows
  | Clear FileComplete paths => (fun _ => Done) <$> clear_file_complete_ingest_marks paths
  | Clear ZeroHost paths => (fun _ => Done) <$> clear_zero_host_ingest_marks paths
  | ResetCaches => (fun _ => Done) <$> (_ ← reset_sync_ingest_readiness_caches; reset_host_itimes_caches)
  end.

(** The thread that writes a mark store goes on. *)
Inductive writer_turn : estate json -> estate json -> Prop :=
| turn_snap e : at_write e = Idle -> writer_turn e (write_snap e)
| turn_save e mine dead owed : at_write e = Snapped mine dead owed -> writer_turn e (write_save mine dead owed e)
| turn_fail e mine dead owed : at_write e = Snapped mine dead owed -> writer_turn e (write_fail e)
| turn_adopt e merged dead owed : at_write e = Saved merged dead owed -> writer_turn e (write_adopt merged dead e).

(** Between two accesses anything but the marks and the caches may change, as long as the
    clock does not go back, and the marks are written. *)
Inductive outside : world -> world -> Prop :=
| outside_view v w : clock (now_view w) <= clock v -> marks v = marks (now_view w) -> outside w (move v w)
| outside_writer z e w : writer_turn (marks (now_view w) z) e -> outside w (move (with_marks z e (now_view w)) w).

(** A process that has just started, on the sidecars [disk0]. *)
Definition boots (disk0 : which -> dict string json) (w : world) : Prop :=
  (forall z, marks (now_view w) z = created (disk0 z)) /\
  w = World (now_view w) ∅ ∅ ∅ ∅ [] [].

Definition reaches (disk0 : which -> dict string json) (w : world) (ths : list (thread world call answer)) : Prop :=
  exists w0, boots disk0 w0 /\ rtc (system_step program note outside) (w0, []) (w, ths).
End ready.
