(* ===== verification/IngestReadySpec.v ===== *)
(** What an answer of the archive gate is worth: a file is let through only on evidence no
    older than the caches allow, and a mark only stands for an ingest that was reported
    complete for the very fingerprint it names. *)
From S2P Require Import Prelude PyDict PyStr PosixPath Json EntryStore EntryStoreSpec LeaseOwner Prog IngestReady.
Local Open Scope Z_scope.

(** ** Fingerprints *)

Lemma append_bar_inj (a b c d : string) :
  no_char bar b = true -> no_char bar d = true -> a +:+ "|" +:+ b = c +:+ "|" +:+ d -> a = c /\ b = d.
Proof.
  intros Hb Hd E. assert (rsplit_on "|" (a +:+ "|" +:+ b) = Some (a, b)) as H1 by exact (rsplit_on_last bar "" a b eq_refl Hb).
  assert (rsplit_on "|" (c +:+ "|" +:+ d) = Some (c, d)) as H2 by exact (rsplit_on_last bar "" c d eq_refl Hd).
  rewrite E, H2 in H1. by simplify_eq.
Qed.

Lemma mark_key_inj p q st st' : mark_key p st = mark_key q st' -> normpath p = normpath q /\ st = st'.
Proof.
  unfold mark_key. destruct st as [m n], st' as [m' n']. cbn [fst snd]. intros E.
  assert (forall a b c : string, a +:+ "|" +:+ b +:+ "|" +:+ c = (a +:+ "|" +:+ b) +:+ "|" +:+ c) as Hassoc.
  { intros a b c. symmetry. etrans; [symmetry; apply string_app_assoc|]. done. }
  rewrite !Hassoc in E. apply append_bar_inj in E as [E1 E2]; [|apply str_of_Z_no_bar..].
  apply append_bar_inj in E1 as [-> E1]; [|apply str_of_Z_no_bar..].
  apply (f_equal py_int) in E1, E2. rewrite !py_int_str_of_Z in E1, E2. by simplify_eq.
Qed.

(** ** Evidence *)

Definition seen (w : world) : list view := now_view w :: past w.
Definition time (w : world) : Z := clock (now_view w).

(** At some moment since [t]. *)
Definition since (t : Z) (P : view -> Prop) (w : world) : Prop := exists v, v ∈ seen w /\ t <= clock v /\ P v.

Definition above (w w' : world) : Prop := seen w ⊆ seen w' /\ made w ⊆ made w' /\ time w <= time w'.

#[export] Instance above_preorder : PreOrder above.
Proof.
  split; [intros w; split_and!; [done..|lia]|].
  intros w1 w2 w3 (H1 & H2 & H3) (H4 & H5 & H6). split_and!; [by etrans..|lia].
Qed.

Lemma above_trans w1 w2 w3 : above w1 w2 -> above w2 w3 -> above w1 w3.
Proof. apply transitivity. Qed.

(** From one moment to a later one, through those between. *)
Ltac later := solve [eauto 8 using above_trans].

Lemma since_later t P w w' : above w w' -> since t P w -> since t P w'.
Proof. intros (Hs & _) (v & Hv & ?). exists v. split; [by apply Hs|done]. Qed.

Lemma since_earlier t t' P w : t' <= t -> since t P w -> since t' P w.
Proof. intros Ht (v & Hv & Hc & HP). exists v. split_and!; [done|lia|done]. Qed.

Lemma since_now t (P : view -> Prop) w : t <= time w -> P (now_view w) -> since t P w.
Proof. intros Ht HP. exists (now_view w). split; [by left|done]. Qed.

(** The row of a sample taken in a Unix second. *)
Definition row_at (host : string) (s : Z) (v : view) : Prop :=
  exists x, x ∈ rows v host /\ (Z.quot x SECOND = s \/ s * SECOND <= x < (s + 1) * SECOND).

Definition not_active (p : string) (v : view) : Prop :=
  let current_path := path_join (path_dirname p) "current" in
  isfile v current_path = false \/ samefile v p current_path <> Some true.

Definition listend_off (v : view) : Prop := listend_enabled v <> Ok true.

Definition in_marks (z : which) (k : string) (v : view) : Prop := is_Some (ensure_loaded (marks v z) !! k).

(** The fingerprint the file has is in the marks. *)
Definition marked (z : which) (p : string) (t : Z) (w : world) : Prop :=
  exists st, since t (fun v => stat v p = Some st) w /\ since t (in_marks z (mark_key p st)) w.

Definition minute : Z := 60 * SECOND.

(** The live listener is off, and the first and the last sample of the file have rows. *)
Definition head_tail_in_db (p : string) (t : Z) (w : world) : Prop :=
  since t listend_off w /\
  exists hd tl, since t (fun v => head_identity v p = Ok (Some hd)) w /\ since t (fun v => tail_identity v p = Ok (Some tl)) w /\
    since (t - minute) (row_at hd.1 hd.2) w /\ since (t - minute) (row_at tl.1 tl.2) w.

Definition admitted (p : string) (t : Z) (w : world) : Prop :=
  since t (not_active p) w /\ ((exists z, marked z p t w) \/ head_tail_in_db p t w).

Lemma marked_later z p t w w' : above w w' -> marked z p t w -> marked z p t w'.
Proof. intros Ha (st & H1 & H2). exists st. eauto using since_later. Qed.

Lemma marked_earlier z p t t' w : t' <= t -> marked z p t w -> marked z p t' w.
Proof. intros Ha (st & H1 & H2). exists st. eauto using since_earlier. Qed.

Lemma admitted_later p t w w' : above w w' -> admitted p t w -> admitted p t w'.
Proof.
  intros Ha (H1 & H2). split; [by eapply since_later|].
  destruct H2 as [[z H2]|(H2 & hd & tl & H3)]; [left; eauto using marked_later|right].
  split; [by eapply since_later|]. exists hd, tl. destruct_and!. eauto 10 using since_later.
Qed.

Lemma admitted_earlier p t t' w : t' <= t -> admitted p t w -> admitted p t' w.
Proof.
  intros Ha (H1 & H2). split; [by eapply since_earlier|].
  destruct H2 as [[z H2]|(H2 & hd & tl & H3)]; [left; eauto using marked_earlier|right].
  split; [by eapply since_earlier|]. exists hd, tl. destruct_and!.
  split_and!; (eapply since_earlier; [|done]); lia.
Qed.

(** In a batch the rows are those of the seconds the caller read from the file. *)
Definition admitted_by_rows (gate : dict string gate_seconds) (p : string) (t : Z) (w : world) : Prop :=
  since t (not_active p) w /\ since t listend_off w /\
  exists sampled, gate !! p = Some sampled /\ dict_items sampled <> [] /\
    forall host secs s, (host, secs) ∈ dict_items sampled -> s ∈ secs -> since (t - minute) (row_at (py_strip host) s) w.

Definition gate_off (v : view) : Prop := require_db_ingest v = false.

(** Why a file may be let through by a call that began at [t]. *)
Definition let_through (gate : option (dict string gate_seconds)) (p : string) (t : Z) (w : world) : Prop :=
  since t gate_off w \/ admitted p (t - minute) w \/ exists g, gate = Some g /\ admitted_by_rows g p t w.

Lemma admitted_by_rows_later g p t w w' : above w w' -> admitted_by_rows g p t w -> admitted_by_rows g p t w'.
Proof.
  intros Ha (H1 & H2 & s & H3 & H4 & H5). split_and!; [by eapply since_later..|]. exists s. split_and!; [done|done|].
  intros h secs x Hin Hx. eapply since_later; [done|]. by eapply H5.
Qed.

Lemma let_through_later g p t w w' : above w w' -> let_through g p t w -> let_through g p t w'.
Proof.
  intros Ha [H|[H|(x & E & H)]]; [left; by eapply since_later|right; left; by eapply admitted_later|].
  right; right. exists x. split; [done|by eapply admitted_by_rows_later].
Qed.

(** ** Where marks come from *)

(** What the outcome of an ingest must be for its file to be marked. *)
Definition qualifies (z : which) (outcome db_skip : string) (stats_rows : option Z) (w : world) : Prop :=
  match z with
  | FileComplete =>
      outcome = "ingested" \/
      (outcome = "db_skip" /\
        (db_skip ∈ ["full_scan"; "db_complete_full_scan"] \/
         (db_skip ∈ ["head_tail"; "tail_window"; "db_complete_head_tail"; "db_complete_tail_window"] /\
          exists v, v ∈ seen w /\ listend_enabled v = Ok false)))
  | ZeroHost => outcome ∈ ["ingested"; ""] /\ stats_rows = Some 0
  end.

(** An ingest of [p] was reported complete, and then [p] had the fingerprint [st]. *)
Definition reported (z : which) (p : string) (st : Z * Z) (w : world) : Prop :=
  exists q outcome db_skip stats_rows,
    Ingested q true outcome db_skip stats_rows ∈ made w /\ normpath q = normpath p /\
    (exists v, v ∈ seen w /\ stat v q = Some st) /\ qualifies z outcome db_skip stats_rows w.

Definition origin (disk0 : which -> dict string json) (z : which) (w : world) (k : string) : Prop :=
  is_Some (disk0 z !! k) \/ exists q st, k = mark_key q st /\ reported z q st w.

Lemma qualifies_later z o d r w w' : above w w' -> qualifies z o d r w -> qualifies z o d r w'.
Proof.
  intros (Hs & _). destruct z; [|done]. intros [?|[? [?|[? (v & Hv & Hl)]]]]; [by left|right; split; [done|by left]|].
  right. split; [done|]. right. split; [done|]. exists v. split; [by apply Hs|done].
Qed.

Lemma reported_later z p st w w' : above w w' -> reported z p st w -> reported z p st w'.
Proof.
  intros Ha (q & o & d & r & H1 & H2 & (v & Hv & H3) & H4). exists q, o, d, r. pose proof Ha as (Hs & Hm & _).
  split_and!; [by apply Hm|done| |by eapply qualifies_later]. exists v. split; [by apply Hs|done].
Qed.

Lemma origin_later disk0 z w w' k : above w w' -> origin disk0 z w k -> origin disk0 z w' k.
Proof. intros Ha [H|(q & st & E & H)]; [by left|right; exists q, st; split; [done|by eapply reported_later]]. Qed.

Lemma origin_of_key disk0 z w p st : origin disk0 z w (mark_key p st) -> is_Some (disk0 z !! mark_key p st) \/ reported z p st w.
Proof.
  intros [H|(q & st' & E & (q' & H))]; [by left|right]. apply mark_key_inj in E as [Hq ->].
  exists q'. by rewrite Hq.
Qed.

(** ** A mark store holds good keys only *)

Section keys.
Context (G : string -> Prop).

Definition good_dict (d : dict string json) : Prop := forall k, is_Some (d !! k) -> G k.

Record good_store (e : estate json) : Prop := {
  good_live : good_dict (ensure_loaded e);
  good_disk : good_dict (disk e);
  good_phase : match at_write e with
               | Idle => True
               | Snapped mine _ _ => good_dict mine
               | Saved merged _ _ => good_dict merged
               end;
}.

Lemma good_insert k v d : G k -> good_dict d -> good_dict (<[k := v]> d).
Proof. intros Hk Hd k'. rewrite dict_lookup_insert. case_decide; [by subst|apply Hd]. Qed.

Lemma good_fold (f : dict string json -> string * json -> dict string json) l d :
  (forall d p, G p.1 -> good_dict d -> good_dict (f d p)) -> Forall (fun p => G p.1) l -> good_dict d -> good_dict (foldl f d l).
Proof. intros Hf. revert d. induction l as [|p l IH]; intros d; [done|]. intros [Hp Hl]%Forall_cons Hd. simpl. auto. Qed.

Lemma good_items d : good_dict d -> Forall (fun p => G p.1) (dict_items d).
Proof.
  intros Hd. apply Forall_forall. intros [k v] Hk. apply Hd, dict_keys_lookup. apply list_elem_of_fmap. by exists (k, v).
Qed.

Lemma good_adopt live tomb merged : good_dict live -> good_dict merged -> good_dict (adopt live tomb merged).
Proof.
  intros Hl Hm. unfold adopt. apply good_fold; [|by apply good_items|done].
  intros d p Hp Hd. case_decide; [by apply good_insert|done].
Qed.

Lemma good_merge mine dead on_disk : good_dict mine -> good_dict on_disk -> good_dict (write_merge mine dead on_disk).
Proof.
  intros Hm Hd. unfold write_merge, dict_update. apply good_fold; [|by apply good_items|].
  - intros d p Hp Hd'. by apply good_insert.
  - intros k [v Hk]%dict_keys_lookup%list_elem_of_fmap. destruct Hk as [-> Hk].
    unfold dict_filter in Hk. simpl in Hk. apply list_elem_of_filter in Hk as [_ Hk].
    apply Hd, dict_keys_lookup, list_elem_of_fmap. by exists v.
Qed.

Lemma good_loaded e : good_store e -> good_store (loaded e).
Proof. by intros []. Qed.

Lemma good_set k v e : G k -> good_store e -> good_store (set_entry k v e).
Proof. intros Hk []. split; [by apply good_insert|done|done]. Qed.

Lemma good_remove p e : good_store e -> good_store (remove_if p e).
Proof.
  intros []. split; [|done|done]. intros k. unfold ensure_loaded at 1, remove_if. cbn [entries].
  rewrite foldl_delete_lookup. case_decide; [by intros []|]. by apply good_live.
Qed.

Lemma good_turn e e' : writer_turn e e' -> good_store e -> good_store e'.
Proof.
  intros Ht [H1 H2 H3]. destruct Ht as [e E|e mine dead owed E|e mine dead owed E|e merged dead owed E]; rewrite ?E in H3; split; try done.
  - unfold ensure_loaded in *. cbn [write_save entries disk] in *. destruct (entries e); [done|by apply good_merge].
  - by apply good_merge.
  - by apply good_merge.
  - unfold ensure_loaded. cbn [write_adopt entries]. by apply good_adopt.
Qed.

Lemma good_created d : good_dict d -> good_store (created d).
Proof. done. Qed.
End keys.

Lemma good_store_impl (G G' : string -> Prop) e : (forall k, G k -> G' k) -> good_store G e -> good_store G' e.
Proof.
  intros Hi [H1 H2 H3]. split; [intros k Hk; by apply Hi, H1|intros k Hk; by apply Hi, H2|].
  destruct (at_write e); [done|intros k Hk; by apply Hi, H3..].
Qed.

(** ** Caches *)

Section caches.
Context {K V : Type} `{EqDecision K}.
Implicit Types (c : cache K V).

Lemma fresh_answer_Some c key now limit x :
  fresh_answer c key now limit = Some x -> exists at_, c !! key = Some (x, at_) /\ now - at_ <= limit * SECOND.
Proof.
  unfold fresh_answer. destruct (c !! key) as [[y at_]|]; [|done]. destruct (Z.leb_spec (now - at_) (limit * SECOND)); [|done].
  intros [= ->]. by exists at_.
Qed.

Lemma delete_all_lookup (ks : list K) c k x : foldl (fun c k => delete k c) c ks !! k = Some x -> c !! k = Some x.
Proof.
  revert c. induction ks as [|k0 ks IH]; intros c; [done|]. cbn [foldl]. intros H%IH.
  rewrite dict_lookup_delete in H. by case_decide.
Qed.

Lemma trim_lookup limit drop c k x : trim limit drop c !! k = Some x -> c !! k = Some x.
Proof. unfold trim. destruct (_ <=? _); [done|apply delete_all_lookup]. Qed.

Lemma delete_len c k : (dict_len (delete k c) <= dict_len c)%nat.
Proof. unfold dict_len, delete, dict_delete, assoc_del. cbn [dict_items]. apply length_filter. Qed.

Lemma delete_len_in c k : k ∈ dict_keys c -> (dict_len (delete k c) < dict_len c)%nat.
Proof.
  intros (x & -> & Hx)%list_elem_of_fmap. unfold dict_len, delete, dict_delete, assoc_del. cbn [dict_items].
  eapply length_filter_lt; [exact Hx|]. by intros [].
Qed.

Lemma delete_all_len (ks : list K) c : (dict_len (foldl (fun c k => delete k c) c ks) <= dict_len c)%nat.
Proof.
  revert c. induction ks as [|k ks IH]; intros c; [done|]. cbn [foldl]. etrans; [apply IH|apply delete_len].
Qed.

(** One entry too many is taken back. *)
Lemma trim_len limit drop c : (0 < drop)%nat -> 0 <= limit -> Z.of_nat (dict_len c) <= limit + 1 -> Z.of_nat (dict_len (trim limit drop c)) <= limit.
Proof.
  intros Hd H0 Hc. unfold trim. destruct (Z.leb_spec (Z.of_nat (dict_len c)) limit); [done|].
  destruct (merge_sort older (dict_items c)) as [|x l] eqn:E.
  - assert (dict_len c = 0%nat) as E0.
    { unfold dict_len. by rewrite <- (merge_sort_Permutation older (dict_items c)), E. }
    lia.
  - destruct drop as [|drop]; [lia|]. cbn [fmap list_fmap take foldl].
    pose proof (delete_all_len (take drop l.*1) (delete x.1 c)) as H1.
    assert (dict_len (delete x.1 c) < dict_len c)%nat as H2; [|lia].
    apply delete_len_in, list_elem_of_fmap. exists x. split; [done|].
    rewrite <- (merge_sort_Permutation older (dict_items c)), E. by left.
Qed.

Lemma insert_len c k x : (dict_len (<[k := x]> c) <= S (dict_len c))%nat.
Proof.
  unfold dict_len. destruct (decide (is_Some (c !! k))) as [Hs|Hn].
  - pose proof (dict_keys_insert_Some c k x Hs) as E. apply (f_equal length) in E. unfold dict_keys in E.
    rewrite !length_fmap in E. lia.
  - rewrite dict_items_insert_None by (by apply eq_None_not_Some). rewrite length_app. simpl. lia.
Qed.
End caches.

(** ** The invariant *)

Section safety.
Context (archive_dir : string) (py_repr : json -> string) (disk0 : which -> dict string json).

Record wf (w : world) : Prop := {
  wf_head : forall h s c, head_db_cache w !! (h, s) = Some (true, c) -> since c (row_at h s) w;
  wf_second : forall h s c, second_present_cache w !! (h, s) = Some (true, c) -> since c (row_at h s) w;
  wf_itimes : forall h lo hi times c, host_itimes_cache w !! (h, lo, hi) = Some (times, c) ->
                forall s, s ∈ times -> since c (row_at h s) w;
  wf_ready : forall p m n c, path_ready_cache w !! (p, m, n) = Some (true, c) -> admitted p c w;
  wf_marks : forall z, good_store (origin disk0 z w) (marks (now_view w) z);
  wf_past : forall v z k, v ∈ past w -> in_marks z k v -> origin disk0 z w k;
  wf_itimes_len : Z.of_nat (dict_len (host_itimes_cache w)) <= HOST_ITIMES_CACHE_MAX_ENTRIES;
  wf_second_len : Z.of_nat (dict_len (second_present_cache w)) <= HOST_SECOND_PRESENT_CACHE_MAX_ENTRIES;
}.

Lemma above_move v w : time w <= clock v -> above w (move v w).
Proof. intros H. split_and!; [intros x Hx; by right|done|exact H]. Qed.

Lemma wf_move v w :
  wf w -> time w <= clock v -> (forall z, good_store (origin disk0 z (move v w)) (marks v z)) -> wf (move v w).
Proof.
  intros [] Hc Hm. pose proof (above_move v w Hc) as Ha.
  constructor; cbn [move head_db_cache second_present_cache host_itimes_cache path_ready_cache now_view past];
    eauto using since_later, admitted_later.
  intros v' z k [->|Hv]%elem_of_cons Hk; eapply origin_later; [done|by apply (good_live _ _ (wf_marks0 z))|done|by eapply wf_past0].
Qed.

(** The marks of one store change. *)
Lemma wf_store z e w : wf w -> good_store (origin disk0 z w) e ->
  let w' := move (with_marks z e (now_view w)) w in wf w' /\ above w w'.
Proof.
  intros Hw He w'. assert (above w w') as Ha by (apply above_move; reflexivity). split; [|done].
  apply wf_move; [done|reflexivity|]. intros z'. cbn [with_marks marks].
  case_decide as E; [subst z'|]; (eapply good_store_impl; [intros k; by apply origin_later|]); [done|by apply wf_marks].
Qed.

Lemma wf_note c w : wf w -> wf (note c w) /\ above w (note c w).
Proof.
  intros []. assert (above w (note c w)) as Ha by (split_and!; [done|intros x Hx; by right|reflexivity]).
  split; [|done]. constructor; try done; eauto using since_later, admitted_later.
  - intros z. eapply good_store_impl; [intros k; by apply origin_later|done].
  - intros v z k Hv Hk. eapply origin_later; [done|by eapply wf_past0].
Qed.

Lemma wf_outside w w' : outside w w' -> wf w -> wf w' /\ above w w'.
Proof.
  intros Ho Hw. destruct Ho as [v w Hc Hm|z e w Ht].
  - split; [|by apply above_move]. apply wf_move; [done|done|]. intros z. rewrite Hm.
    eapply good_store_impl; [intros k; apply origin_later; by apply above_move|by apply wf_marks].
  - apply wf_store; [done|]. eapply good_turn; [done|by apply wf_marks].
Qed.

Lemma wf_boot w : boots disk0 w -> wf w.
Proof.
  intros [Hm ->]. constructor; try done; [|by intros v z k Hn%not_elem_of_nil].
  intros z. simpl. rewrite Hm. apply good_created. intros k Hk. by left.
Qed.

(** Changes of the caches. *)

Lemma wf_put_head w h s (b : bool) t :
  wf w -> (b = true -> since t (row_at h s) w) -> wf (with_head (<[(h, s) := (b, t)]> (head_db_cache w)) w).
Proof.
  intros [] Hb. constructor; try done. intros h' s' c. cbn [with_head head_db_cache]. rewrite dict_lookup_insert.
  case_decide as E; [|apply wf_head0]. intros [= -> ->]. simplify_eq. by apply Hb.
Qed.

Lemma wf_trim_head w : wf w -> wf (with_head (trim HEAD_DB_CACHE_MAX_ENTRIES 1000 (head_db_cache w)) w).
Proof. intros []. constructor; try done. intros h s c H%trim_lookup. by apply wf_head0. Qed.

Lemma wf_put_ready w p m n (b : bool) t :
  wf w -> (b = true -> admitted p t w) -> wf (with_ready (<[(p, m, n) := (b, t)]> (path_ready_cache w)) w).
Proof.
  intros [] Hb. constructor; try done. intros p' m' n' c. cbn [with_ready path_ready_cache]. rewrite dict_lookup_insert.
  case_decide as E; [|apply wf_ready0]. intros [= -> ->]. simplify_eq. by apply Hb.
Qed.

Lemma wf_trim_ready w : wf w -> wf (with_ready (trim PATH_READY_CACHE_MAX_ENTRIES 1000 (path_ready_cache w)) w).
Proof. intros []. constructor; try done. intros p m n c H%trim_lookup. by eapply wf_ready0. Qed.

Lemma wf_put_second w h s (b : bool) t :
  wf w -> (b = true -> since t (row_at h s) w) ->
  wf (with_seconds (trim HOST_SECOND_PRESENT_CACHE_MAX_ENTRIES 1000 (<[(h, s) := (b, t)]> (second_present_cache w))) w).
Proof.
  intros [] Hb. constructor; try done; cbn [with_seconds second_present_cache].
  - intros h' s' c H%trim_lookup. revert H. rewrite dict_lookup_insert.
    case_decide as E; [|apply wf_second0]. intros [= -> ->]. simplify_eq. by apply Hb.
  - apply trim_len; [lia|done|]. pose proof (insert_len (second_present_cache w) (h, s) (b, t)). lia.
Qed.

Lemma wf_put_itimes w h lo hi times t (b : bool) :
  wf w -> (forall s, s ∈ times -> since t (row_at h s) w) ->
  wf (with_itimes (trim HOST_ITIMES_CACHE_MAX_ENTRIES 100
        (if b then <[(h, lo, hi) := (times, t)]> (host_itimes_cache w) else host_itimes_cache w)) w).
Proof.
  intros [] Hb. constructor; try done; cbn [with_itimes host_itimes_cache].
  - intros h' lo' hi' times' c H%trim_lookup. revert H. destruct b; [|apply wf_itimes0]. rewrite dict_lookup_insert.
    case_decide as E; [|apply wf_itimes0]. intros [= -> ->]. simplify_eq. by apply Hb.
  - apply trim_len; [lia|done|]. destruct b; [|lia].
    pose proof (insert_len (host_itimes_cache w) (h, lo, hi) (times, t)). lia.
Qed.

Lemma wf_clear w : wf w -> wf (with_head ∅ w) /\ wf (with_ready ∅ w) /\ wf (with_itimes ∅ w) /\ wf (with_seconds ∅ w).
Proof. intros []. split_and!; by constructor. Qed.

(** ** The programs *)

Abbreviation ok := (safe wf above).

Lemma ok_bind {A B} (Q : result B -> world -> Prop) (f : A -> io B) p w :
  ok (fun r w => match r with Ok a => ok Q (f a) w | Raise e => Q (Raise e) w end) p w -> ok Q (p ≫= f) w.
Proof. apply safe_bind. Qed.

Lemma ok_try {A} (Q : result A -> world -> Prop) (h : py_exn -> io A) p w :
  ok (fun r w => match r with Ok a => Q (Ok a) w | Raise e => ok Q (h e) w end) p w -> ok Q (prog_try p h) w.
Proof. apply safe_try. Qed.

Lemma ok_ask {A} (Q : result A -> world -> Prop) (f : world -> A) w :
  (forall w', above w w' -> wf w' -> Q (Ok (f w')) w') -> ok Q (ask f) w.
Proof. intros H. apply safe_ask; [apply _|exact H]. Qed.

Lemma ok_look {A} (Q : result A -> world -> Prop) (f : view -> A) w :
  (forall w', above w w' -> wf w' -> Q (Ok (f (now_view w'))) w') -> ok Q (look f) w.
Proof. apply ok_ask. Qed.

Lemma ok_look_result {A} (Q : result A -> world -> Prop) (f : view -> result A) w :
  (forall w', above w w' -> wf w' -> Q (f (now_view w')) w') -> ok Q (look_result f) w.
Proof. intros H. apply safe_ask_result; [apply _|exact H]. Qed.

Lemma ok_for {A S} (Q : result S -> world -> Prop) (J : list A -> S -> world -> Prop) body l s w :
  (forall l s w w', above w w' -> J l s w -> J l s w') ->
  (forall a l s w, J (a :: l) s w ->
     ok (fun r w' => match r with Ok s => J l s w' | Raise e => Q (Raise e) w' end) (body a s) w) ->
  (forall s w', above w w' -> J [] s w' -> Q (Ok s) w') ->
  J l s w -> ok Q (prog_for l body s) w.
Proof. apply safe_for, _. Qed.

Lemma ok_return {A} (Q : result A -> world -> Prop) a w : Q (Ok a) w -> ok Q (mret a) w.
Proof. done. Qed.

(** An access that changes a cache. *)
Lemma ok_act (Q : result unit -> world -> Prop) (f : world -> world) w :
  (forall w', seen (f w') = seen w' /\ made (f w') = made w') ->
  (forall w', above w w' -> wf w' -> wf (f w')) ->
  (forall w', above w w' -> Q (Ok tt) w') -> ok Q (act f) w.
Proof.
  intros Hf Hw HQ. apply safe_act. intros w' Ha Hi. destruct (Hf w') as [E1 E2].
  assert (above w' (f w')) as Ha'.
  { split_and!; [by rewrite E1|by rewrite E2|]. unfold time. injection E1 as -> _. reflexivity. }
  split_and!; [by apply Hw|done|]. apply HQ. by etrans.
Qed.

Lemma above_time w w' : above w w' -> time w <= time w'.
Proof. by intros (_ & _ & ?). Qed.

Lemma ok_query Q host lo hi w :
  (forall r w', above w w' -> wf w' ->
     (forall l, r = Ok l -> forall x, x ∈ l -> lo <= x < hi /\ x ∈ rows (now_view w') host) -> Q r w') ->
  ok Q (query host lo hi) w.
Proof.
  intros HQ. apply ok_look_result. intros w' Ha Hi. apply HQ; [done|done|]. intros l.
  destruct (db_error (now_view w')); [done|]. intros [= <-] x [Hx Hin]%list_elem_of_filter. split; [|done].
  unfold in_window in Hx. lia.
Qed.

Lemma ok_second_exists Q host s w :
  (forall r w', above w w' -> wf w' -> (r = Ok true -> since (time w) (row_at host s) w') -> Q r w') ->
  ok Q (second_exists host s) w.
Proof.
  intros HQ. apply ok_bind, ok_query. intros [l|e] w' Ha Hi Hl; [|by apply HQ].
  apply HQ; [done|done|]. destruct l as [|x l]; [done|]. intros _. apply since_now; [by apply above_time|].
  destruct (Hl _ eq_refl x ltac:(by left)) as [Hx Hin]. exists x. split; [done|by right].
Qed.

Lemma ok_head_probe Q host s t w :
  t <= time w ->
  (forall r w', above w w' -> (r = Ok true -> since (t - minute) (row_at host s) w') -> Q r w') ->
  ok Q (head_timestamp_present_in_db host s) w.
Proof.
  intros Ht HQ. apply ok_bind, ok_look. intros w1 Ha1 _. pose proof (above_time _ _ Ha1) as Ht1. fold (time w1).
  apply ok_bind, ok_ask. intros w2 Ha2 Hi2. assert (above w w2) as Ha by by etrans.
  destruct (fresh_answer _ _ _ _) as [b|] eqn:E.
  - apply HQ; [done|]. intros [= ->]. apply fresh_answer_Some in E as (c & Hc & Hold).
    eapply since_earlier; [|by apply wf_head]. unfold HEAD_DB_CACHE_REFRESH_SECONDS, minute in *. lia.
  - apply ok_bind, ok_second_exists. intros [b|e] w3 Ha3 Hi3 Hb; [|apply HQ; [by etrans|done]].
    apply ok_bind, ok_act; [done| |].
    + intros w' Ha' Hi'. apply wf_put_head; [done|]. intros ->. eapply since_later; [done|].
      eapply since_earlier; [|by apply Hb]. by apply above_time.
    + intros w4 Ha4. apply ok_bind, ok_act; [done|by intros; apply wf_trim_head|].
      intros w5 Ha5. apply HQ; [by do 4 (etrans; [done|])|]. intros [= ->].
      assert (above w3 w5) as Ha35 by by etrans. eapply since_later; [exact Ha35|].
      eapply since_earlier; [|by apply Hb]. pose proof (above_time _ _ Ha2). unfold minute, SECOND. lia.
Qed.

(** The timestamps of a host. *)

Definition all_rows (host : string) (t : Z) (times : gset Z) (w : world) : Prop := forall s, s ∈ times -> since t (row_at host s) w.

Lemma all_rows_later host t times w w' : above w w' -> all_rows host t times w -> all_rows host t times w'.
Proof. intros Ha H s Hs. eapply since_later; [done|by apply H]. Qed.

Lemma add_times_rows limit l times times' host t w :
  add_times limit l times = Some times' -> (forall x, x ∈ l -> since t (row_at host (Z.quot x SECOND)) w) ->
  all_rows host t times w -> all_rows host t times' w.
Proof.
  revert times. induction l as [|x l IH]; intros times; cbn [add_times]; [by intros [= ->]|].
  destruct (_ <? _); [done|]. intros E Hx Hs. eapply IH; [exact E| |].
  - intros y Hy. apply Hx. by right.
  - intros s [->%elem_of_singleton|]%elem_of_union; [apply Hx; by left|by apply Hs].
Qed.

Lemma ok_collect_chunks Q host chunks t w :
  t <= time w ->
  (forall r w', above w w' -> (forall times, r = Ok (Some times) -> all_rows host t times w') -> Q r w') ->
  ok Q (collect_chunks host chunks) w.
Proof.
  intros Ht HQ. unfold collect_chunks. set (J := fun (_ : list (Z * Z)) (s : option (gset Z)) w' =>
    above w w' /\ forall times, s = Some times -> all_rows host t times w').
  apply (ok_for _ J).
  - intros l s w1 w1' Ha [Hw Hs]. split; [by etrans|]. intros times E. eapply all_rows_later; [done|by apply Hs].
  - intros c l s w1 [Hw Hs]. destruct s as [s|]; [|by split].
    apply ok_bind, ok_look. intros w2 Ha2 _. apply ok_bind, ok_query. intros [l'|e] w3 Ha3 _ Hl.
    + assert (above w w3) as Ha by by do 2 (etrans; [done|]). split; [done|].
      intros times E. eapply add_times_rows; [exact E| |].
      * intros x Hx. destruct (Hl _ eq_refl x Hx) as [_ Hin]. apply since_now; [pose proof (above_time _ _ Ha); lia|].
        exists x. split; [done|by left].
      * eapply all_rows_later; [|by apply Hs]. by etrans.
    + apply HQ; [by do 2 (etrans; [done|])|done].
  - intros s w' Ha [Hw Hs]. apply HQ; [done|]. intros times [= ->]. by apply Hs.
  - split; [reflexivity|]. intros times [= <-]. intros s Hs. by apply elem_of_empty in Hs.
Qed.

Lemma ok_host_recent Q host lo hi t w :
  t <= time w ->
  (forall r w', above w w' -> (forall times, r = Ok (Some times) -> all_rows host (t - minute) times w') -> Q r w') ->
  ok Q (host_recent_timestamps_cached host lo hi) w.
Proof.
  intros Ht HQ. apply ok_bind, ok_look. intros w1 Ha1 _. pose proof (above_time _ _ Ha1) as Ht1. fold (time w1).
  apply ok_bind, ok_ask. intros w2 Ha2 Hi2. assert (above w w2) as Ha by by etrans.
  destruct (fresh_answer _ _ _ _) as [times|] eqn:E.
  - apply HQ; [done|]. intros times' [= <-] s Hs. apply fresh_answer_Some in E as (c & Hc & Hold).
    eapply since_earlier; [|by eapply wf_itimes]. unfold HOST_ITIMES_CACHE_REFRESH_SECONDS, minute, SECOND in *. lia.
  - apply ok_bind, ok_try, (ok_collect_chunks _ _ _ (time w1)); [by apply above_time|].
    intros r w3 Ha3 Hr. assert (above w w3) as Ha03 by by etrans.
    destruct r as [[times|]|e]; [|by apply HQ|destruct e as [| | | | | | | | | | |[]]; by apply HQ].
    specialize (Hr times eq_refl). apply ok_bind, ok_look. intros w4 Ha4 _.
    apply ok_bind, ok_act; [done| |].
    + intros w' Ha' Hi'. apply wf_put_itimes; [done|]. eapply all_rows_later; [|exact Hr]. by etrans.
    + intros w5 Ha5. apply HQ; [by do 2 (etrans; [done|])|]. intros times' [= <-] s Hs.
      assert (above w3 w5) as Ha35 by by etrans. eapply since_later; [exact Ha35|].
      eapply since_earlier; [|by apply Hr]. unfold minute, SECOND. lia.
Qed.

(** Single seconds. *)

Definition pair_row (t : Z) (k : string * Z) (w : world) : Prop := since t (row_at k.1 k.2) w.

Definition true_rows (t : Z) (out : dict (string * Z) bool) (w : world) : Prop :=
  forall k, out !! k = Some true -> pair_row t k w.

Lemma true_rows_insert t out k (b : bool) w :
  true_rows t out w -> (b = true -> pair_row t k w) -> true_rows t (<[k := b]> out) w.
Proof. intros Ho Hb k'. rewrite dict_lookup_insert. case_decide; [|apply Ho]. intros [= ->]. subst. by apply Hb. Qed.

Lemma true_rows_later t out w w' : above w w' -> true_rows t out w -> true_rows t out w'.
Proof. intros Ha H k Hk. eapply since_later; [done|by apply H]. Qed.

Lemma cached_seconds_rows now keys w t :
  wf w -> t <= now -> true_rows (t - minute) (cached_seconds now keys (second_present_cache w)).1 w.
Proof.
  intros Hw Ht. unfold cached_seconds.
  assert (forall acc, true_rows (t - minute) acc.1 w ->
    true_rows (t - minute) (foldl (cached_second now (second_present_cache w)) acc keys).1 w) as H; [|by apply H].
  induction keys as [|k keys IH]; intros acc Ho; [done|]. cbn [foldl]. apply IH. unfold cached_second.
  destruct (fresh_answer _ k _ _) as [b|] eqn:E; [|done].
  apply true_rows_insert; [done|]. intros ->. apply fresh_answer_Some in E as (c & Hc & Hold). destruct k as [h s].
  eapply since_earlier; [|by apply wf_second]. unfold HOST_SECOND_PRESENT_CACHE_TTL_S, minute in *. lia.
Qed.

Lemma ok_second_probe Q host s t w :
  t <= time w ->
  (forall r w', above w w' -> (r = Ok true -> since (t - minute) (row_at (py_strip host) s) w') -> Q r w') ->
  ok Q (host_timestamp_second_present_in_db host s) w.
Proof.
  intros Ht HQ. apply ok_bind, ok_look. intros w1 Ha1 _. pose proof (above_time _ _ Ha1) as Ht1. fold (time w1).
  apply ok_bind, ok_ask. intros w2 Ha2 Hi2. assert (above w w2) as Ha by by etrans.
  destruct (fresh_answer _ _ _ _) as [b|] eqn:E.
  - apply HQ; [done|]. intros [= ->]. apply fresh_answer_Some in E as (c & Hc & Hold).
    eapply since_earlier; [|by apply wf_second]. unfold HOST_SECOND_PRESENT_CACHE_TTL_S, minute in *. lia.
  - apply ok_bind, ok_second_exists. intros [b|e] w3 Ha3 Hi3 Hb; [|apply HQ; [by etrans|done]].
    pose proof (above_time _ _ Ha2) as Ht2. apply ok_bind, ok_act; [done| |].
    + intros w' Ha' Hi'. apply wf_put_second; [done|]. intros ->. eapply since_later; [done|].
      by eapply since_earlier; [|by apply Hb].
    + intros w4 Ha4. apply HQ; [by do 2 (etrans; [done|])|]. intros [= ->].
      eapply since_later; [exact Ha4|]. eapply since_earlier; [|by apply Hb]. unfold minute, SECOND. lia.
Qed.

Lemma ok_probe_seconds Q keys w :
  (forall r w', above w w' -> wf w' ->
     (forall l, r = Ok l -> Forall (fun a => a.1 ∈ keys /\ (a.2 = true -> pair_row (time w) a.1 w')) l) -> Q r w') ->
  ok Q (probe_seconds keys) w.
Proof.
  intros HQ. apply ok_look_result. intros w' Ha Hi. apply HQ; [done|done|]. intros l.
  destruct (db_error (now_view w')); [done|]. intros [= <-]. apply Forall_map, Forall_forall. intros [h s] Hk.
  split; [done|]. cbn [fst snd]. intros (x & Hx & Hin)%existsb_exists. apply since_now; [by apply above_time|].
  exists x. split; [by apply list_elem_of_In|]. right. unfold in_window in Hin. cbn [fst snd] in *. lia.
Qed.

Definition stripped (k : string * Z) : Prop := py_strip k.1 = k.1.

Lemma first_of_each_Forall (P : string * Z -> Prop) keys : Forall P keys -> Forall P (first_of_each keys).
Proof.
  unfold first_of_each. assert (forall l, Forall P l -> Forall P keys ->
    Forall P (foldl (fun l k => if decide (k ∈ l) then l else l ++ [k]) l keys)) as H; [|by apply H].
  induction keys as [|k keys IH]; intros l Hl Hk; [done|]. apply Forall_cons in Hk as [Hk Hks]. cbn [foldl].
  apply IH; [|done]. case_decide; [done|]. apply Forall_app. by split; [|constructor].
Qed.

Lemma pending_Forall (P : string * Z -> Prop) now keys c : Forall P keys -> Forall P (cached_seconds now keys c).2.
Proof.
  unfold cached_seconds. intros Hk.
  assert (forall acc, Forall P acc.2 -> Forall P (foldl (cached_second now c) acc keys).2) as H; [|by apply H].
  induction Hk as [|k keys Hp _ IH]; intros acc Ha; [done|]. cbn [foldl]. apply IH. unfold cached_second.
  destruct (fresh_answer _ k _ _); [done|]. apply Forall_app. by split; [|constructor].
Qed.

Lemma ok_put_answers (Q : result (dict (string * Z) bool) -> world -> Prop) answers now out t w :
  Forall (fun a => stripped a.1 /\ (a.2 = true -> pair_row now a.1 w)) answers -> true_rows t out w -> t <= now ->
  (forall r w', above w w' -> (forall out, r = Ok out -> true_rows t out w') -> Q r w') ->
  ok Q (prog_for answers (fun a out =>
        let key := (py_strip a.1.1, a.1.2) in
        _ ← put_second key a.2 now;
        mret (<[key := a.2]> out)) out) w.
Proof.
  intros Hall Ho Ht HQ.
  apply (ok_for _ (fun l out w' => above w w' /\ true_rows t out w' /\
           Forall (fun a => stripped a.1 /\ (a.2 = true -> pair_row now a.1 w')) l)).
  - intros l s w1 w1' Ha (Hw & Hr & Hl). split_and!; [by etrans|by eapply true_rows_later|].
    eapply Forall_impl; [exact Hl|]. intros a [Hs Hp]. split; [done|]. intros E. eapply since_later; [done|by apply Hp].
  - intros [[h s] b] l out' w1 (Hw & Hr & [[Hs Hb] Hl]%Forall_cons). cbn [fst snd] in *. unfold stripped in Hs. cbn [fst] in Hs.
    rewrite Hs. apply ok_bind, ok_act; [done| |].
    + intros w' Ha' Hi'. apply wf_put_second; [done|]. intros E. eapply since_later; [done|]. by apply Hb.
    + intros w2 Ha2. split_and!; [by etrans| |].
      * apply true_rows_insert; [by eapply true_rows_later|]. intros E. eapply since_later; [done|].
        eapply since_earlier; [done|by apply Hb].
      * eapply Forall_impl; [exact Hl|]. intros a [Hs' Hp]. split; [done|]. intros E. eapply since_later; [done|by apply Hp].
  - intros s w' Ha (Hw & Hr & _). apply HQ; [done|]. by intros out' [= <-].
  - by split_and!.
Qed.

Lemma ok_batch Q pairs t w :
  t <= time w ->
  (forall r w', above w w' -> (forall out, r = Ok out -> true_rows (t - minute) out w') -> Q r w') ->
  ok Q (host_timestamp_seconds_present_batch pairs) w.
Proof.
  intros Ht HQ. unfold host_timestamp_seconds_present_batch.
  set (keys := first_of_each _). assert (Forall stripped keys) as Hkeys.
  { apply first_of_each_Forall, Forall_fmap, Forall_forall. intros k _. apply py_strip_idem. }
  case_decide; [by apply HQ; [|intros out [= <-]]|].
  apply ok_bind, ok_look. intros w1 Ha1 _. pose proof (above_time _ _ Ha1) as Ht1. fold (time w1).
  apply ok_bind, ok_ask. intros w2 Ha2 Hi2. assert (above w w2) as Ha by by etrans.
  pose proof (pending_Forall stripped (time w1) keys (second_present_cache w2) Hkeys) as Hp.
  pose proof (cached_seconds_rows (time w1) keys w2 t Hi2 ltac:(lia)) as Hr.
  destruct (cached_seconds _ _ _) as [out pending]. cbn [fst snd] in *.
  case_decide; [by apply HQ; [|intros out' [= <-]]|].
  apply ok_bind, ok_probe_seconds. intros [answers|e] w3 Ha3 _ Hans; [|apply HQ; [by etrans|done]].
  pose proof (above_time _ _ Ha2) as Ht2. apply (ok_put_answers _ _ _ _ (t - minute)).
  - eapply Forall_impl; [by apply Hans|]. intros a [Hin Hb]. split; [by eapply Forall_forall|].
    intros E. eapply since_earlier; [|by apply Hb]. done.
  - by eapply true_rows_later.
  - unfold minute, SECOND. lia.
  - intros r w4 Ha4. apply HQ. by do 2 (etrans; [done|]).
Qed.

(** Every second asked for has a row. *)
Lemma ok_all_present Q host secs t w :
  t <= time w ->
  (forall r w', above w w' -> (r = Ok true -> all_rows (py_strip host) (t - minute) secs w') -> Q r w') ->
  ok Q (host_sampled_timestamp_seconds_all_present host secs) w.
Proof.
  intros Ht HQ. unfold host_sampled_timestamp_seconds_all_present. case_decide; [by apply HQ|].
  apply ok_bind, (ok_host_recent _ _ _ _ t); [done|]. intros [[times|]|e] w1 Ha1 H1; [| |by apply HQ].
  - apply HQ; [done|]. intros [= Hall] s Hs. eapply forallb_forall in Hall; [|by apply list_elem_of_In, elem_of_elements].
    apply bool_decide_eq_true in Hall. by apply (H1 times eq_refl).
  - apply ok_bind, (ok_batch _ _ t); [pose proof (above_time _ _ Ha1); lia|].
    intros [out|e] w2 Ha2 H2; [|apply HQ; [by etrans|done]]. apply HQ; [by etrans|]. intros [= Hall] s Hs.
    eapply forallb_forall in Hall; [|by apply list_elem_of_In, elem_of_elements].
    apply (H2 out eq_refl (py_strip host, s)). by destruct (out !! (py_strip host, s)) as [[]|].
Qed.

(** Marks. *)

Lemma ok_fingerprint (Q : result (option string) -> world -> Prop) p t w :
  t <= time w ->
  (forall k w', above w w' ->
     match k with Some k => exists st, k = mark_key p st /\ since t (fun v => stat v p = Some st) w' | None => True end ->
     Q (Ok k) w') ->
  ok Q (path_fingerprint_key p) w.
Proof.
  intros Ht HQ. apply ok_bind, ok_look. intros w1 Ha1 _. apply HQ; [done|].
  destruct (stat (now_view w1) p) as [st|] eqn:E; [|done]. exists st. split; [done|].
  apply since_now; [|done]. pose proof (above_time _ _ Ha1). lia.
Qed.

(** An access that changes a mark store. *)
Lemma ok_store {A} (Q : result A -> world -> Prop) z (op : view -> A * estate json) w :
  (forall w', above w w' -> wf w' -> good_store (origin disk0 z w') (op (now_view w')).2) ->
  (forall w' w'', above w w' -> wf w' -> above w' w'' -> Q (Ok (op (now_view w')).1) w'') ->
  ok Q (access (fun w => let '(a, e) := op (now_view w) in (a, move (with_marks z e (now_view w)) w))) w.
Proof.
  intros Hg HQ. intros w' Ha Hi. specialize (Hg w' Ha Hi). specialize (HQ w' (move (with_marks z (op (now_view w')).2 (now_view w')) w') Ha Hi).
  destruct (op (now_view w')) as [a e]. cbn [fst snd] in *. destruct (wf_store z e w' Hi Hg) as [H1 H2].
  split_and!; [done|done|]. by apply HQ.
Qed.

Lemma ok_has_mark Q z p t w :
  t <= time w -> (forall r w', above w w' -> (r = Ok true -> marked z p t w') -> Q r w') ->
  ok Q (has_ingest_mark archive_dir z p) w.
Proof.
  intros Ht HQ. apply ok_bind, (ok_fingerprint _ _ t); [done|]. intros [k|] w1 Ha1 Hk; [|by apply HQ].
  destruct Hk as (st & -> & Hst). case_decide; [by apply HQ|].
  apply (ok_store _ z (fun v => contains (mark_key p st) (marks v z))).
  - intros w' Ha Hi. apply good_loaded. by apply wf_marks.
  - intros w' w'' Ha Hi Ha'. assert (above w1 w'') as Ha1' by by etrans. apply HQ; [by etrans|].
    intros [= Hin%bool_decide_eq_true]. exists st. split; [by eapply since_later|].
    eapply since_later; [exact Ha'|]. apply since_now; [|done]. pose proof (above_time _ _ Ha). pose proof (above_time _ _ Ha1). lia.
Qed.

Lemma ok_record Q z p w :
  (forall st w', above w w' -> (exists v, v ∈ seen w' /\ stat v p = Some st) -> reported z p st w') ->
  (forall r w', above w w' -> Q r w') -> ok Q (record_ingest_mark archive_dir z p) w.
Proof.
  intros Hrep HQ. apply ok_bind, (ok_fingerprint _ _ (time w)); [done|]. intros [k|] w1 Ha1 Hk; [|by apply HQ].
  destruct Hk as (st & -> & (v & Hv & _ & Hst)). case_decide; [by apply HQ|].
  apply ok_bind, ok_look_result. intros w2 Ha2 _. assert (above w w2) as Ha by by etrans.
  destruct (makedirs (now_view w2)); [|by apply HQ].
  apply ok_bind, ok_look. intros w3 Ha3 _. destruct (stat (now_view w3) p) as [st'|]; [|by apply HQ; etrans].
  apply ok_bind, ok_look. intros w4 Ha4 _. assert (above w2 w4) as Ha24 by by etrans.
  set (at_ := clock (now_view w4)). apply ok_bind.
  apply (ok_store (A := unit) _ z (fun v => (tt, set_entry (mark_key p st) (mark_entry p st' at_) (marks v z)))).
  - intros w' Ha' Hi. apply good_set; [|by apply wf_marks]. right. exists p, st. split; [done|].
    assert (above w1 w') as H1 by by do 2 (etrans; [done|]). apply Hrep; [later|]. exists v. split; [by apply H1|done].
  - intros w' w'' Ha' Hi Ha''. apply HQ. by do 3 (etrans; [done|]).
Qed.

Lemma ok_record_zero Q p rok outcome db_skip stats_rows w :
  Ingested p rok outcome db_skip stats_rows ∈ made w ->
  (forall r w', above w w' -> Q r w') ->
  ok Q (maybe_record_zero_host_ingest_mark_from_outcome archive_dir p rok outcome stats_rows) w.
Proof.
  intros Hin HQ. unfold maybe_record_zero_host_ingest_mark_from_outcome. destruct rok; [|by apply HQ].
  cbn [negb]. case_decide as Ho; [by apply HQ|].
  destruct stats_rows as [[| |]|]; try by apply HQ. apply ok_record; [|done].
  intros st w' Ha Hst. exists p, outcome, db_skip, (Some 0). split_and!; [by apply Ha|done|done|by split].
Qed.

Lemma ok_record_complete Q p rok outcome db_skip stats_rows w :
  Ingested p rok outcome db_skip stats_rows ∈ made w ->
  (forall r w', above w w' -> Q r w') ->
  ok Q (maybe_record_file_complete_ingest_mark_from_outcome archive_dir p rok outcome db_skip) w.
Proof.
  intros Hin HQ. unfold maybe_record_file_complete_ingest_mark_from_outcome. destruct rok; [|by apply HQ].
  cbn [negb]. set (skip := if decide (outcome = "db_skip") then db_skip else "").
  assert (forall l : list string, "" ∉ l -> skip ∈ l -> outcome = "db_skip" /\ db_skip ∈ l) as Hskip.
  { intros l Hl. unfold skip. case_decide; [done|]. by intros ?%Hl. }
  set (head_tail := bool_decide (skip ∈ ["head_tail"; "tail_window"; "db_complete_head_tail"; "db_complete_tail_window"])).
  set (after := fun listend : option bool => _). apply ok_bind.
  assert (forall listend w', above w w' -> (listend = Some false -> exists v, v ∈ seen w' /\ listend_enabled v = Ok false) ->
    ok Q (after listend) w') as Hafter.
  { intros listend w1 Ha1 Hl. unfold after. case_match eqn:E; [|by apply HQ].
    apply ok_record; [|by intros; apply HQ; etrans]. intros st w' Ha Hst.
    assert (above w w') as Hw by by etrans. exists p, outcome, db_skip, stats_rows. split_and!; [by apply Hw|done|done|].
    apply orb_true_iff in E as [[E|E]%orb_true_iff|[E1 E2]%andb_true_iff].
    - left. by apply bool_decide_eq_true in E.
    - right. apply bool_decide_eq_true, Hskip in E as [? ?]; [|set_solver]. split; [done|by left].
    - right. apply bool_decide_eq_true, Hskip in E1 as [? ?]; [|set_solver]. split; [done|]. right. split; [done|].
      apply bool_decide_eq_true, Hl in E2 as (v & Hv & E2). exists v. split; [by apply Ha|done]. }
  destruct head_tail; [|by apply Hafter].
  apply ok_bind, ok_try, ok_look_result. intros w1 Ha1 _. destruct (listend_enabled (now_view w1)) as [b|e] eqn:E.
  - apply Hafter; [done|]. intros [= ->]. exists (now_view w1). split; [by left|done].
  - by apply Hafter.
Qed.

(** The gate. *)

Lemma ok_active Q p t w :
  t <= time w -> (forall r w', above w w' -> (r = Ok false -> since t (not_active p) w') -> Q r w') ->
  ok Q (stats_file_is_active_segment p) w.
Proof.
  intros Ht HQ. apply ok_bind, ok_look. intros w1 Ha1 _. pose proof (above_time _ _ Ha1).
  destruct (isfile _ _) eqn:E; cbn [negb].
  - apply ok_look. intros w2 Ha2 _. pose proof (above_time _ _ Ha2). apply HQ; [later|]. intros [= E2].
    apply since_now; [lia|]. right. intros E3. cbv zeta in E3. by destruct (samefile _ _ _) as [[]|].
  - apply HQ; [done|]. intros _. apply since_now; [lia|by left].
Qed.

Lemma ok_live Q t w :
  t <= time w -> (forall r w', above w w' -> (r = Ok false -> since t listend_off w') -> Q r w') ->
  ok Q live_db_ingest_enabled w.
Proof.
  intros Ht HQ. apply ok_try, ok_look_result. intros w1 Ha1 _. pose proof (above_time _ _ Ha1).
  destruct (listend_enabled (now_view w1)) as [b|e] eqn:E.
  - apply HQ; [done|]. intros [= ->]. apply since_now; [lia|]. unfold listend_off. by rewrite E.
  - apply HQ; [done|]. intros _. apply since_now; [lia|]. unfold listend_off. by rewrite E.
Qed.

Lemma ok_via_mark Q p t w :
  t <= time w -> (forall r w', above w w' -> (r = Ok true -> exists z, marked z p t w') -> Q r w') ->
  ok Q (path_ready_via_mark archive_dir p) w.
Proof.
  intros Ht HQ. apply ok_bind, (ok_has_mark _ _ _ t); [done|]. intros [[]|e] w1 Ha1 H1; [|
    |by apply HQ].
  - apply HQ; [done|]. intros _. exists FileComplete. by apply H1.
  - pose proof (above_time _ _ Ha1). apply (ok_has_mark _ _ _ t); [lia|]. intros r w2 Ha2 H2. apply HQ; [later|].
    intros E. exists ZeroHost. by apply H2.
Qed.

(** [path_head_tail_ready_in_db], once the listener was found off. *)
Lemma ok_head_tail Q p t w :
  t <= time w -> since t listend_off w ->
  (forall r w', above w w' -> (r = Ok true -> head_tail_in_db p t w') -> Q r w') ->
  ok Q (path_head_tail_ready_in_db p) w.
Proof.
  intros Ht Hoff HQ. apply ok_bind, ok_look_result. intros w1 Ha1 _. pose proof (above_time _ _ Ha1) as Ht1.
  destruct (head_identity (now_view w1) p) as [[[hh hs]|]|e] eqn:Eh; [|by apply HQ..].
  assert (since t (fun v => head_identity v p = Ok (Some (hh, hs))) w1) as H1 by (apply since_now; [lia|done]).
  apply ok_bind, (ok_head_probe _ _ _ t); [lia|]. intros [[]|e] w2 Ha2 H2; cbn [negb]; [|by apply HQ; [later|]..].
  specialize (H2 eq_refl). pose proof (above_time _ _ Ha2) as Ht2.
  apply ok_bind, ok_look_result. intros w3 Ha3 _. pose proof (above_time _ _ Ha3) as Ht3.
  destruct (tail_identity (now_view w3) p) as [[[th ts]|]|e] eqn:Et; [|by apply HQ; [later|]..].
  assert (since t (fun v => tail_identity v p = Ok (Some (th, ts))) w3) as H3 by (apply since_now; [lia|done]).
  assert (forall w', above w3 w' -> since (t - minute) (row_at th ts) w' -> head_tail_in_db p t w') as Hend.
  { intros w' Ha' H4. split; [eapply since_later; [|exact Hoff]; later|]. exists (hh, hs), (th, ts).
    split_and!; [eapply since_later; [|exact H1]; later|by eapply since_later|eapply since_later; [|exact H2]; later|done]. }
  case_decide as Eq.
  - destruct Eq as [-> ->]. apply HQ; [later|]. intros _. apply Hend; [done|]. by eapply since_later.
  - apply (ok_head_probe _ _ _ t); [lia|]. intros r w4 Ha4 H4. apply HQ; [later|]. intros E. apply Hend; [done|by apply H4].
Qed.

(** What [stats_file_head_ingested_in_db] decides when nothing is cached. *)
Lemma ok_decide (Q : result bool -> world -> Prop) p (active : bool) t w :
  t <= time w -> (active = false -> since t (not_active p) w) -> (forall r w', above w w' -> (r = Ok true -> admitted p t w') -> Q r w') ->
  ok Q (if active then mret false
        else
          marked ← path_ready_via_mark archive_dir p;
          if (marked : bool) then mret true
          else
            live ← live_db_ingest_enabled;
            if (live : bool) then mret false else path_head_tail_ready_in_db p) w.
Proof.
  intros Ht H1 HQ. destruct active; [by apply HQ|]. specialize (H1 eq_refl).
  apply ok_bind, (ok_via_mark _ _ t); [done|]. intros [[]|e] w2 Ha2 H2; [| |by apply HQ].
  - apply HQ; [done|]. intros _. split; [by eapply since_later|]. left. by apply H2.
  - pose proof (above_time _ _ Ha2). apply ok_bind, (ok_live _ t); [lia|].
    intros [[]|e] w3 Ha3 H3; [apply HQ; [later|done]| |apply HQ; [later|done]].
    pose proof (above_time _ _ Ha3). apply (ok_head_tail _ _ t); [lia|by apply H3|]. intros r w4 Ha4 Hht.
    apply HQ; [later|]. intros E. split; [eapply since_later; [|exact H1]; later|right; by apply Hht].
Qed.

Lemma ok_check Q p t w :
  t <= time w -> (forall r w', above w w' -> (r = Ok true -> let_through None p t w') -> Q r w') ->
  ok Q (stats_file_head_ingested_in_db archive_dir p) w.
Proof.
  intros Ht HQ. apply ok_bind, ok_look. intros w1 Ha1 _. pose proof (above_time _ _ Ha1).
  destruct (require_db_ingest (now_view w1)) eqn:Eg; cbn [negb].
  2: { apply HQ; [done|]. intros _. left. apply since_now; [lia|done]. }
  apply ok_bind, ok_look. intros w2 Ha2 _. destruct (stat (now_view w2) p) as [[m n]|]; [|apply HQ; [later|done]].
  apply ok_bind, ok_look. intros w3 Ha3 _. fold (time w3). pose proof (above_time _ _ Ha2). pose proof (above_time _ _ Ha3).
  apply ok_bind, ok_ask. intros w4 Ha4 Hi4. destruct (fresh_answer _ _ _ _) as [b|] eqn:E.
  - apply HQ; [later|]. intros [= ->]. apply fresh_answer_Some in E as (c & Hc & Hold). right; left.
    eapply admitted_earlier; [|by eapply wf_ready]. unfold PATH_READY_CACHE_REFRESH_SECONDS, minute in *. lia.
  - pose proof (above_time _ _ Ha4). apply ok_bind, (ok_active _ _ (time w3)); [done|].
    intros [active|e] w5' Ha5' H5'; [|apply HQ; [later|done]]. pose proof (above_time _ _ Ha5').
    apply ok_bind, (ok_decide _ _ _ (time w3)); [lia|by intros ->; apply H5'|].
    intros [b|e] w5 Ha5 H5; [|apply HQ; [later|done]].
    apply ok_bind, ok_act; [done| |].
    + intros w' Ha' Hi'. apply wf_put_ready; [done|]. intros ->. eapply admitted_later; [done|]. by apply H5.
    + intros w6 Ha6. apply ok_bind, ok_act; [done|by intros; apply wf_trim_ready|].
      intros w7 Ha7. apply HQ; [later|]. intros [= ->]. right; left. assert (above w5 w7) as Ha57 by later.
      eapply admitted_later; [exact Ha57|]. eapply admitted_earlier; [|by apply H5]. unfold minute, SECOND. lia.
Qed.

(** A batch. *)

Lemma items_insert {V} k (v : V) (d : dict string V) k' v' :
  (k', v') ∈ dict_items (<[k := v]> d) -> (k' = k /\ v' = v) \/ (k', v') ∈ dict_items d.
Proof.
  destruct d as [l]. unfold insert, dict_insert. cbn [dict_items].
  induction l as [|[k0 v0] l IH]; cbn [assoc_set]; [intros [?|Hn]%elem_of_cons; [simplify_eq; by left|by apply not_elem_of_nil in Hn]|].
  case_decide; intros [?|Hin]%elem_of_cons; simplify_eq; [by left|right; by right|right; by left|].
  destruct (IH Hin); [by left|right; by right].
Qed.

(** The seconds of every path gathered are among those asked for. *)
Definition gathered (gate : dict string gate_seconds) (t : Z) (samples : dict string gate_seconds) (by_host : dict string (gset Z)) (w : world) : Prop :=
  dict_wf by_host /\
  forall p sampled, (p, sampled) ∈ dict_items samples ->
    since t (not_active p) w /\ gate !! p = Some sampled /\ dict_items sampled <> [] /\
    forall h secs, (h, secs) ∈ dict_items sampled -> exists all, by_host !! h = Some all /\ secs ⊆ all.

Definition add_seconds (d : dict string (gset Z)) (hs : string * gset Z) : dict string (gset Z) := <[hs.1 := hs.2 ∪ default ∅ (d !! hs.1)]> d.

Lemma add_all_seconds l d :
  dict_wf d -> dict_wf (foldl add_seconds d l) /\
  (forall h all, d !! h = Some all -> exists all', foldl add_seconds d l !! h = Some all' /\ all ⊆ all') /\
  (forall h secs, (h, secs) ∈ l -> exists all, foldl add_seconds d l !! h = Some all /\ secs ⊆ all).
Proof.
  revert d. induction l as [|[h0 s0] l IH]; intros d Hd; cbn [foldl].
  { split_and!; [done|eauto|intros h secs Hn; by apply not_elem_of_nil in Hn]. }
  destruct (IH (add_seconds d (h0, s0))) as (H1 & H2 & H3); [by apply dict_wf_insert|]. split_and!; [done| |].
  - intros h all Hh. destruct (decide (h0 = h)) as [->|Hne].
    + destruct (H2 h (s0 ∪ all)) as (all' & E & Hs); [|exists all'; split; [done|set_solver]].
      unfold add_seconds. cbn [fst snd]. by rewrite dict_lookup_insert_eq, Hh.
    + apply H2. unfold add_seconds. cbn [fst snd]. by rewrite dict_lookup_insert_ne.
  - intros h secs [?|Hin]%elem_of_cons; [simplify_eq|by apply H3].
    destruct (H2 h0 (s0 ∪ default ∅ (d !! h0))) as (all' & E & Hs); [|exists all'; split; [done|set_solver]].
    unfold add_seconds. cbn [fst snd]. apply dict_lookup_insert_eq.
Qed.

Lemma gathered_later gate t samples by_host w w' : above w w' -> gathered gate t samples by_host w -> gathered gate t samples by_host w'.
Proof.
  intros Ha [Hw H]. split; [done|]. intros p sampled Hin. destruct (H p sampled Hin) as (H1 & ?). split; [by eapply since_later|done].
Qed.

Lemma ok_gather (Q : result (dict string gate_seconds * dict string (gset Z)) -> world -> Prop) paths gate t w :
  t <= time w ->
  (forall r w', above w w' -> (forall sb, r = Ok sb -> gathered gate t sb.1 sb.2 w') -> Q r w') ->
  ok Q (gather_samples paths gate) w.
Proof.
  intros Ht HQ. apply (ok_for _ (fun _ sb w' => above w w' /\ gathered gate t sb.1 sb.2 w')).
  - intros l s w1 w1' Ha [Hw Hs]. split; [later|by eapply gathered_later].
  - intros p l [samples by_host] w1 [Hw Hs]. pose proof (above_time _ _ Hw).
    apply ok_bind, (ok_active _ _ t); [lia|]. intros [[]|e] w2 Ha2 H2; [| |apply HQ; [later|done]].
    { split; [later|by eapply gathered_later]. }
    specialize (H2 eq_refl). destruct (gate !! p) as [sampled|] eqn:Eg; [|split; [later|by eapply gathered_later]].
    cbn [fst snd] in *. case_decide as Ene; (split; [later|]); [by eapply gathered_later|].
    eapply gathered_later in Hs as [Hwf Hs]; [|exact Ha2]. cbn [fst snd].
    destruct (add_all_seconds (dict_items sampled) by_host Hwf) as (H4 & H5 & H6). split; [exact H4|].
    intros p' s' [[-> ->]|Hin]%items_insert; [by split_and!|].
    destruct (Hs p' s' Hin) as (H7 & H8 & H9 & H10). split_and!; [done|done|done|].
    intros h secs (all & Hh & Hsub)%H10. destruct (H5 h all Hh) as (all' & Hh' & Hsub'). exists all'. split; [exact Hh'|set_solver].
  - intros [samples by_host] w' Ha [Hw Hs]. apply HQ; [done|]. by intros sb [= <-].
  - split; [reflexivity|]. split; [apply dict_wf_empty|]. intros p s Hn. by apply not_elem_of_nil in Hn.
Qed.

(** The hosts all of whose seconds have rows. *)
Lemma ok_hosts (Q : result (dict string bool) -> world -> Prop) (hosts : list (string * gset Z)) t w :
  t <= time w ->
  (forall r w', above w w' ->
     (forall out, r = Ok out -> forall h, out !! h = Some true ->
        exists secs, (h, secs) ∈ hosts /\ all_rows (py_strip h) (t - minute) secs w') -> Q r w') ->
  ok Q (prog_for hosts (fun hs (okd : dict string bool) =>
          b ← host_sampled_timestamp_seconds_all_present hs.1 hs.2;
          mret (<[hs.1 := b]> okd)) ∅) w.
Proof.
  intros Ht HQ. apply (ok_for _ (fun l (out : dict string bool) w' => above w w' /\ l ⊆ hosts /\
    forall h, out !! h = Some true -> exists secs, (h, secs) ∈ hosts /\ all_rows (py_strip h) (t - minute) secs w')).
  - intros l s w1 w1' Ha (Hw & Hl & Hs). split_and!; [later|done|]. intros h Hh. destruct (Hs h Hh) as (secs & Hin & H).
    exists secs. split; [done|by eapply all_rows_later].
  - intros [h0 s0] l out w1 (Hw & Hl & Hs). pose proof (above_time _ _ Hw). cbn [fst snd].
    apply ok_bind, (ok_all_present _ _ _ t); [lia|]. intros [b|e] w2 Ha2 H2; [|apply HQ; [later|done]].
    split_and!; [later|set_solver|]. intros h. rewrite dict_lookup_insert. case_decide.
    + intros [= ->]. simplify_eq. exists s0. split; [apply Hl; by left|by apply H2].
    + intros Hh. destruct (Hs h Hh) as (secs & Hin & H'). exists secs. split; [done|by eapply all_rows_later].
  - intros s w' Ha (Hw & _ & Hs). apply HQ; [done|]. by intros out [= <-].
  - split_and!; [reflexivity|done|]. intros h Hh. by rewrite dict_lookup_empty in Hh.
Qed.

Lemma ready_by_rows gate t samples by_host (host_ok : dict string bool) w p :
  gathered gate t samples by_host w ->
  (forall h, host_ok !! h = Some true -> exists secs, (h, secs) ∈ dict_items by_host /\ all_rows (py_strip h) (t - minute) secs w) ->
  since t listend_off w ->
  p ∈ (list_to_set (omap (fun ps => if forallb (fun h => default false (host_ok !! h)) (dict_keys ps.2)
                                     then Some ps.1 else None) (dict_items samples)) : gset string) ->
  admitted_by_rows gate p t w.
Proof.
  intros [Hwf Hg] Hok Hoff Hp. apply elem_of_list_to_set, list_elem_of_omap in Hp as ([p' sampled] & Hin & Hp).
  cbn [fst snd] in Hp. case_match eqn:Hall; simplify_eq. destruct (Hg p sampled Hin) as (H1 & H2 & H3 & H4).
  split_and!; [done|done|]. exists sampled. split_and!; [done|done|]. intros h secs s Hh Hs.
  destruct (H4 h secs Hh) as (all & Ha & Hsub). eapply forallb_forall in Hall.
  2: { apply list_elem_of_In, list_elem_of_fmap. exists (h, secs). split; [reflexivity|exact Hh]. }
  cbn [fst] in Hall. destruct (host_ok !! h) as [[]|] eqn:E; try done. destruct (Hok h E) as (secs' & Hin' & Hrows).
  apply dict_items_lookup in Hin'; [|done]. simplify_eq. apply Hrows. by apply Hsub.
Qed.

Lemma ok_build (Q : result (gset string) -> world -> Prop) paths gate t w :
  t <= time w ->
  (forall r w', above w w' -> (forall ready p, r = Ok ready -> p ∈ ready -> let_through (Some gate) p t w') -> Q r w') ->
  ok Q (build_head_ingest_ready_set archive_dir paths gate) w.
Proof.
  intros Ht HQ. apply ok_bind, ok_look. intros w1 Ha1 _. pose proof (above_time _ _ Ha1).
  destruct (require_db_ingest (now_view w1)) eqn:Eg; cbn [negb].
  2: { apply HQ; [done|]. intros ready p _ _. left. apply since_now; [lia|done]. }
  set (marked_too := prog_for paths _).
  assert (forall ready w', above w w' -> (forall p, p ∈ ready -> let_through (Some gate) p t w') -> ok Q (marked_too ready) w') as Hlast.
  { intros ready w2 Ha2 Hr. pose proof (above_time _ _ Ha2).
    apply (ok_for _ (fun _ ready w' => above w w' /\ forall p, p ∈ ready -> let_through (Some gate) p t w')).
    - intros l s w3 w3' Ha [Hw Hs]. split; [later|]. intros p Hp. eapply let_through_later; [done|by apply Hs].
    - intros p l s w3 [Hw Hs]. pose proof (above_time _ _ Hw). case_decide; [by split|].
      assert (forall w', above w3 w' -> forall q, q ∈ s -> let_through (Some gate) q t w') as Hold.
      { intros w' Ha q Hq. eapply let_through_later; [done|by apply Hs]. }
      apply ok_bind, (ok_active _ _ t); [lia|]. intros [[]|e] w4 Ha4 H4; [split; [later|by apply Hold]| |apply HQ; [later|done]].
      pose proof (above_time _ _ Ha4). apply ok_bind, (ok_via_mark _ _ t); [lia|].
      intros [b|e] w5 Ha5 H5; [|apply HQ; [later|done]]. split; [later|]. destruct b; [|apply Hold; later].
      intros q [->%elem_of_singleton|Hq]%elem_of_union; [|apply Hold; [later|done]].
      right; left. apply (admitted_earlier _ t); [unfold minute, SECOND; lia|]. split; [|left; by apply H5].
      eapply since_later; [done|by apply H4].
    - intros s w' Ha [Hw Hs]. apply HQ; [done|]. intros ready' p [= <-]. apply Hs.
    - by split. }
  apply ok_bind, (ok_live _ t); [lia|]. intros [live|e] w2 Ha2 Hlive; [|apply HQ; [later|done]]. pose proof (above_time _ _ Ha2).
  apply ok_bind. destruct live; [apply Hlast; [later|]; intros p Hp; by apply elem_of_empty in Hp|].
  apply ok_bind, (ok_gather _ _ _ t); [lia|]. intros [[samples by_host]|e] w3 Ha3 H3; [|apply HQ; [later|done]].
  specialize (H3 _ eq_refl). cbn [fst snd] in H3. pose proof (above_time _ _ Ha3).
  apply ok_bind, (ok_hosts _ _ t); [lia|]. intros [host_ok|e] w4 Ha4 H4; [|apply HQ; [later|done]].
  apply Hlast; [later|]. intros p Hp. right; right. exists gate. split; [done|].
  eapply ready_by_rows; [by eapply gathered_later|by apply H4| |exact Hp].
  eapply since_later; [|by apply Hlive]. later.
Qed.

Definition partition_of (paths ready skipped : list string) : Prop :=
  ready `sublist_of` paths /\ skipped `sublist_of` paths /\ ready ++ skipped ≡ₚ paths.

Lemma filter_partition (P : string -> Prop) `{forall x, Decision (P x)} l : partition_of l (filter P l) (filter (fun x => ~ P x) l).
Proof.
  split_and!; [apply sublist_filter..|]. induction l as [|x l IH]; [done|]. rewrite !filter_cons. case_decide.
  - rewrite decide_False by (by intros []). simpl. by rewrite IH.
  - rewrite decide_True by done. rewrite <- Permutation_middle. by rewrite IH.
Qed.

Lemma ok_filter Q paths gate t w :
  t <= time w ->
  (forall r w', above w w' ->
     (forall rs, r = Ok rs -> partition_of paths rs.1 rs.2 /\ forall p, p ∈ rs.1 -> let_through gate p t w') -> Q r w') ->
  ok Q (filter_paths_head_ingested archive_dir paths gate) w.
Proof.
  intros Ht HQ. destruct gate as [gate|]; cbn [filter_paths_head_ingested].
  - apply ok_bind, (ok_build _ _ _ t); [done|]. intros [ready|e] w1 Ha1 H1; [|by apply HQ].
    apply HQ; [done|]. intros rs [= <-]. cbn [fst snd]. split; [apply filter_partition|].
    intros p [Hp _]%list_elem_of_filter. by apply (H1 ready).
  - apply (ok_for _ (fun l rs w' => above w w' /\ (exists seen_paths, paths = seen_paths ++ l /\ partition_of seen_paths rs.1 rs.2) /\
      forall p, p ∈ rs.1 -> let_through None p t w')).
    + intros l s w1 w1' Ha (Hw & Hp & Hs). split_and!; [later|done|]. intros p Hin. eapply let_through_later; [done|by apply Hs].
    + intros p l [ready skipped] w1 (Hw & (sp & -> & Hr & Hk & Hperm) & Hs). cbn [fst snd] in *. pose proof (above_time _ _ Hw).
      apply ok_bind, (ok_check _ _ t); [lia|]. intros [b|e] w2 Ha2 H2; [|apply HQ; [later|done]].
      assert (forall q, q ∈ ready -> let_through None q t w2) as Hold.
      { intros q Hq. eapply let_through_later; [done|by apply Hs]. }
      destruct b; (split_and!; [later| |]); cbn [fst snd].
      * exists (sp ++ [p]). split; [by rewrite <- app_assoc|]. split_and!; [by apply sublist_app| |].
        -- by apply sublist_inserts_r.
        -- rewrite <- app_assoc, (Permutation_app_comm [p]), app_assoc. by rewrite Hperm.
      * intros q [Hq| ->%list_elem_of_singleton]%elem_of_app; [by apply Hold|by apply H2].
      * exists (sp ++ [p]). split; [by rewrite <- app_assoc|]. split_and!; [by apply sublist_inserts_r|by apply sublist_app|].
        rewrite app_assoc. by rewrite Hperm.
      * done.
    + intros rs w' Ha (Hw & (sp & E & Hp) & Hs). rewrite app_nil_r in E. subst sp. apply HQ; [done|]. by intros rs' [= <-].
    + split_and!; [reflexivity| |intros p Hn; by apply not_elem_of_nil in Hn]. exists []. split; [done|].
      split_and!; [apply sublist_nil_l..|done].
Qed.

(** ** All calls together *)

Definition promised (c : call) (start : world) (r : result answer) (w : world) : Prop :=
  match c with
  | Check p => r = Ok (Ready true) -> let_through None p (time start) w
  | Filter paths gate =>
      forall ready skipped, r = Ok (Sorted ready skipped) ->
        partition_of paths ready skipped /\ forall p, p ∈ ready -> let_through gate p (time start) w
  | _ => True
  end.

Lemma ok_fmap {A B} (Q : result B -> world -> Prop) (f : A -> B) (p : io A) w :
  ok (fun r => Q (f <$> r)) p w -> ok Q (f <$> p) w.
Proof.
  intros H. apply (ok_bind Q (fun a => Return (Ok (f a)))). eapply safe_weaken; [apply _| |exact H]. by intros [].
Qed.

Lemma ok_clear_marks Q z paths w : (forall r w', above w w' -> Q r w') -> ok Q (clear_ingest_marks archive_dir py_repr z paths) w.
Proof.
  intros HQ. unfold clear_ingest_marks. case_decide; [by apply HQ|]. case_decide; [by apply HQ|].
  set (sel := mark_selected py_repr _). apply (ok_store _ z (fun v => (length (doomed (sel v) (marks v z)), remove_if (sel v) (marks v z)))).
  - intros w' Ha Hi. apply good_remove. by apply wf_marks.
  - intros. apply HQ. later.
Qed.

Lemma ok_reset Q w : (forall r w', Q r w') -> ok Q (_ ← reset_sync_ingest_readiness_caches; reset_host_itimes_caches) w.
Proof.
  intros HQ. apply ok_bind, ok_bind, ok_act; [done|intros; by apply wf_clear|]. intros w1 _.
  apply ok_act; [done|intros; by apply wf_clear|]. intros w2 _.
  apply ok_bind, ok_act; [done|intros; by apply wf_clear|]. intros w3 _.
  apply ok_act; [done|intros; by apply wf_clear|]. intros. apply HQ.
Qed.

Lemma ok_program c w : wf (note c w) ->
  ok (promised c (note c w)) (program archive_dir py_repr c) (note c w).
Proof.
  intros _. destruct c as [p|paths gate|p rok outcome db_skip stats_rows|[] paths|]; apply ok_fmap.
  - apply (ok_check _ _ (time (note (Check p) w))); [done|]. intros [b|e] w' _ H; [|done]. intros [= ->]. by apply H.
  - apply (ok_filter _ _ _ (time (note (Filter paths gate) w))); [done|]. intros [[rd sk]|e] w' _ H; [|done].
    intros ready skipped [= <- <-]. by apply (H (rd, sk)).
  - set (w0 := note _ w). assert (Ingested p rok outcome db_skip stats_rows ∈ made w0) as Hin by by left.
    apply ok_bind, (ok_record_zero _ _ _ _ db_skip); [done|]. intros [b|e] w1 Ha1; [|done].
    apply ok_bind, (ok_record_complete _ _ _ _ _ stats_rows); [by apply Ha1|]. by intros [] w2 _.
  - by apply ok_clear_marks.
  - by apply ok_clear_marks.
  - by apply ok_reset.
Qed.

Lemma promised_later c s r w w' : above w w' -> promised c s r w -> promised c s r w'.
Proof.
  intros Ha. destruct c; cbn [promised]; [|intros H rd sk E; destruct (H rd sk E) as [Hp Hl]; split; [done|]|done..].
  - intros H E. eapply let_through_later; [done|by apply H].
  - intros p Hp'. eapply let_through_later; [done|by apply Hl].
Qed.

Lemma reaches_wf w ths : reaches archive_dir py_repr disk0 w ths ->
  wf w /\ forall t, t ∈ ths -> ok (promised (th_call t) (th_start t)) (th_prog t) w.
Proof.
  intros (w0 & Hb & Hr). apply (threads_safe (program archive_dir py_repr) note outside wf above promised) in Hr as [Hw Hall].
  - split; [done|]. by apply Forall_forall.
  - by apply wf_boot.
  - intros w1 w2 Ho Hw1. by apply wf_outside.
  - intros c w1 Hw1. by apply wf_note.
  - intros c s r w1 w2. apply promised_later.
  - apply ok_program.
Qed.

(** ** Why a file was let through *)

(** The evidence, traced to its source. *)
Definition justified (gate : option (dict string gate_seconds)) (p : string) (t : Z) (w : world) : Prop :=
  since t gate_off w \/
  (since (t - minute) (not_active p) w /\
   ((exists z st, since (t - minute) (fun v => stat v p = Some st) w /\ since (t - minute) (in_marks z (mark_key p st)) w /\
       (is_Some (disk0 z !! mark_key p st) \/ reported z p st w)) \/
    head_tail_in_db p (t - minute) w)) \/
  (exists g, gate = Some g /\ admitted_by_rows g p t w).

Lemma let_through_justified gate p t w : wf w -> let_through gate p t w -> justified gate p t w.
Proof.
  intros Hw [H|[[Hn [(z & st & Hst & Hm)|H]]|H]]; [by left| |right; left; split; [done|by right]|by right; right].
  right; left. split; [done|]. left. exists z, st. split_and!; [done|done|].
  destruct Hm as (v & Hv & _ & Hk). apply origin_of_key. unfold seen in Hv. apply elem_of_cons in Hv as [->|Hv].
  - by apply (good_live _ _ (wf_marks w Hw z)).
  - by eapply wf_past.
Qed.


(** [C6] A batch is split into the paths that may go and the others, in their order, and every
    path that may go is justified as in a single check, or by rows for all the seconds
    that were read from it. *)
Theorem filtered_files_are_ingested (w w0 : world) (ths : list (thread world call answer))
    (paths ready skipped : list string) (gate : option (dict string gate_seconds)) :
  reaches archive_dir py_repr disk0 w ths -> Thread (Filter paths gate) w0 (Return (Ok (Sorted ready skipped))) ∈ ths ->
  partition_of paths ready skipped /\ forall p, p ∈ ready -> justified gate p (time w0) w.
Proof.
  intros [Hw Hall]%reaches_wf Hin. destruct (Hall _ Hin ready skipped eq_refl) as [Hp Hl]. split; [done|].
  intros p Hr. apply let_through_justified; [done|by apply Hl].
Qed.

(** The caches of the probes never outgrow their limits. *)
Theorem probe_caches_bounded (w : world) (ths : list (thread world call answer)) :
  reaches archive_dir py_repr disk0 w ths ->
  Z.of_nat (dict_len (host_itimes_cache w)) <= HOST_ITIMES_CACHE_MAX_ENTRIES /\
  Z.of_nat (dict_len (second_present_cache w)) <= HOST_SECOND_PRESENT_CACHE_MAX_ENTRIES.
Proof. intros [[] _]%reaches_wf. done. Qed.

End safety.

(** ** Clearing marks *)

Lemma split_once_at c (a b : string) : no_char c a = true -> split_once c (a +:+ String c b) = (a, Some b).
Proof.
  induction a as [|x a IH]; intros Ha.
  - change ("" +:+ String c b) with (String c b). simpl. by rewrite Ascii.eqb_refl.
  - apply andb_true_iff in Ha as [Hx Ha]. change (String x a +:+ String c b) with (String x (a +:+ String c b)). simpl.
    apply negb_true_iff in Hx. by rewrite Hx, (IH Ha).
Qed.

Lemma key_path_mark_key q st : no_char bar (normpath q) = true -> key_path (mark_key q st) = normpath q.
Proof.
  intros Hq. unfold key_path, mark_key. destruct st as [m n]. cbn [fst snd].
  assert (split_once bar (normpath q +:+ "|" +:+ str_of_Z m +:+ "|" +:+ str_of_Z n) = (normpath q, Some (str_of_Z m +:+ "|" +:+ str_of_Z n)))
    as E by exact (split_once_at bar (normpath q) _ Hq).
  unfold bar in E. by rewrite E.
Qed.

Section clear.
Context (archive_dir : string) (py_repr : json -> string).

Lemma entry_path_mark q st t : entry_path py_repr (mark_entry q st t) = normpath q.
Proof. unfold entry_path, mark_entry. cbn [dict_of_items]. apply normpath_idem. Qed.

Lemma mark_selected_own path_set v q st st' t :
  no_char bar (normpath q) = true -> Forall (fun p => normpath p = p) path_set ->
  mark_selected py_repr path_set v (mark_key q st) (mark_entry q st' t) = bool_decide (normpath q ∈ path_set).
Proof.
  intros Hq Hn. unfold mark_selected. rewrite entry_path_mark, key_path_mark_key by done.
  destruct (bool_decide_reflect (normpath q ∈ path_set)) as [Hin|Hin].
  - by rewrite bool_decide_eq_true_2 by by left.
  - rewrite bool_decide_eq_false_2 by tauto. simpl. apply not_true_iff_false. intros (p & Hp & E)%existsb_exists.
    apply bool_decide_eq_true in E. apply list_elem_of_In in Hp. destruct (stat v p) as [sp|]; [|done].
    simplify_option_eq. apply mark_key_inj in E as [E _]. eapply Forall_forall in Hn; [|exact Hp]. cbn in Hn.
    by rewrite <- E, Hn in Hin.
Qed.

Lemma remove_if_lookup {V} (pred : string -> V -> bool) (e : estate V) k x :
  dict_wf (ensure_loaded e) -> ensure_loaded e !! k = Some x ->
  ensure_loaded (remove_if pred e) !! k = if pred k x then None else Some x.
Proof.
  intros Hw Hk. unfold ensure_loaded at 1, remove_if. cbn [entries]. rewrite foldl_delete_lookup.
  assert (k ∈ doomed pred e <-> pred k x = true) as Hd.
  { unfold doomed. rewrite dict_keys_lookup. split.
    - intros [y Hy]. apply dict_filter_lookup in Hy as [Hy Hp]; [|done]. by simplify_eq.
    - intros Hp. exists x. by apply dict_filter_lookup. }
  case_decide as H; rewrite Hd in H; [by rewrite H|]. by apply not_true_is_false in H; rewrite H.
Qed.

(** [C7] Clearing paths takes away exactly their marks, for every fingerprint they were given
    for: the mark of another path stays, a path is the same under any spelling, and no
    path left out of the list loses one. *)
Theorem clear_takes_marks_of_paths (z : which) (paths : list string) (w : world) (q : string) (st st' : Z * Z) (t : Z) :
  archive_dir <> "" -> dict_wf (ensure_loaded (marks (now_view w) z)) ->
  ensure_loaded (marks (now_view w) z) !! mark_key q st = Some (mark_entry q st' t) -> no_char bar (normpath q) = true ->
  in_marks z (mark_key q st) (now_view (alone (clear_ingest_marks archive_dir py_repr z paths) w).2) <->
  forall p, p ∈ paths -> p <> "" -> normpath p <> normpath q.
Proof.
  intros Hdir Hw Hk Hq. unfold clear_ingest_marks. set (path_set := remove_dups _).
  assert (normpath q ∈ path_set <-> exists p, p ∈ paths /\ p <> "" /\ normpath p = normpath q) as Hset.
  { unfold path_set. rewrite elem_of_remove_dups, list_elem_of_fmap. setoid_rewrite list_elem_of_filter. naive_solver. }
  assert (Forall (fun p => normpath p = p) path_set) as Hn.
  { apply Forall_forall. intros p. unfold path_set. rewrite elem_of_remove_dups. intros (p' & -> & _)%list_elem_of_fmap.
    apply normpath_idem. }
  transitivity (normpath q ∉ path_set); [|rewrite Hset; naive_solver].
  case_decide as E; [rewrite E; split; [set_solver|]; intros _; eexists; exact Hk|].
  rewrite decide_False by done. cbn [access alone snd move with_marks now_view]. unfold in_marks. cbn [with_marks marks].
  rewrite decide_True by done. rewrite (remove_if_lookup _ _ _ _ Hw Hk), mark_selected_own by done.
  destruct (bool_decide_reflect (normpath q ∈ path_set)); split; try done; by intros [].
Qed.
End clear.
