(* ===== verification/IngestReadyDemo.v ===== *)
(** Runs of the archive gate: the theorems applied to them, and where it does not do what
    it says. *)
From S2P Require Import Prelude PyDict Json EntryStore Prog IngestReady IngestReadySpec.
Local Open Scope Z_scope.

Definition no_repr (j : json) : string := "".
Definition no_marks (z : which) : dict string json := ∅.

(** Two closed files of one host; the rows are those of the second 100. *)
Definition quiet (listend : result bool) : view := {|
  clock := 1000 * SECOND;
  stat := fun p => if decide (p = "/raw/n1/100" \/ p = "/raw/n1/200") then Some (100, 5) else None;
  isfile := fun _ => false;
  samefile := fun _ _ => None;
  head_identity := fun p => Ok (if decide (p = "/raw/n1/100") then Some ("n1", 100) else Some ("n1", 200));
  tail_identity := fun p => Ok (if decide (p = "/raw/n1/100") then Some ("n1", 100) else Some ("n1", 200));
  rows := fun h => if decide (h = "n1") then [100 * SECOND + 5] else [];
  db_error := None;
  makedirs := Ok tt;
  require_db_ingest := true;
  listend_enabled := listend;
  max_timestamps := 1000;
  marks := fun z => created (no_marks z);
|}.

Definition booted (v : view) : world := World v ∅ ∅ ∅ ∅ [] [].

Definition after (v : view) (cs : list call) : world * list (thread world call answer) :=
  foldl (turn (program "/arc" no_repr) note) (booted v, []) cs.

Lemma after_reaches l cs : reaches "/arc" no_repr no_marks (after (quiet l) cs).1 (after (quiet l) cs).2.
Proof. exists (booted (quiet l)). split; [by split|]. rewrite <- surjective_pairing. apply in_turn_steps. Qed.

(** What the last call answered. *)
Definition last_answer (v : view) (cs : list call) (c : call) : result answer :=
  (alone (program "/arc" no_repr c) (note c (after v cs).1)).1.

Lemma last_in v cs c r :
  last_answer v cs c = r -> Thread c (note c (after v cs).1) (Return r) ∈ (after v (cs ++ [c])).2.
Proof. intros <-. unfold after. rewrite foldl_app. apply elem_of_app. right. by left. Qed.

Definition one_ingested : list call := [Ingested "/raw/n1/200" true "ingested" "" (Some 3)].


Definition seconds_of_files : dict string gate_seconds :=
  dict_of_items [("/raw/n1/100", dict_of_items [("n1", {[100]})]); ("/raw/n1/200", dict_of_items [("n1", {[200]})])].

Lemma filtered_files_are_ingested_witness :
  let c := Filter ["/raw/n1/100"; "/raw/n1/200"] (Some seconds_of_files) in
  partition_of ["/raw/n1/100"; "/raw/n1/200"] ["/raw/n1/200"] ["/raw/n1/100"] /\
  forall p, p ∈ ["/raw/n1/200"] ->
    justified no_marks (Some seconds_of_files) p (time (note c (after (quiet (Ok false)) one_ingested).1))
      (after (quiet (Ok false)) (one_ingested ++ [c])).1.
Proof.
  intros c. eapply (filtered_files_are_ingested "/arc" no_repr no_marks); [apply after_reaches|].
  apply last_in. vm_compute. reflexivity.
Defined.

Lemma probe_caches_bounded_witness :
  let w := (after (quiet (Ok false)) one_ingested).1 in
  Z.of_nat (dict_len (host_itimes_cache w)) <= HOST_ITIMES_CACHE_MAX_ENTRIES /\
  Z.of_nat (dict_len (second_present_cache w)) <= HOST_SECOND_PRESENT_CACHE_MAX_ENTRIES.
Proof. eapply (probe_caches_bounded "/arc" no_repr no_marks), after_reaches. Defined.

Lemma clear_takes_marks_of_paths_witness :
  let w := (after (quiet (Ok false)) one_ingested).1 in
  in_marks FileComplete (mark_key "/raw/n1/200" (100, 5))
    (now_view (alone (clear_ingest_marks "/arc" no_repr FileComplete ["/raw//n1/200"]) w).2) <->
  forall p, p ∈ ["/raw//n1/200"] -> p <> "" -> PosixPath.normpath p <> PosixPath.normpath "/raw/n1/200".
Proof.
  intros w. apply (clear_takes_marks_of_paths "/arc" no_repr FileComplete _ w _ (100, 5) (100, 5) (1000 * SECOND)); [done| |by vm_compute..].
  apply (bool_decide_unpack _). by vm_compute.
Defined.

(** A batch asks for all the seconds of a host together: one file that was not ingested
    keeps back every file of its host, although a check of its own lets the other one through. *)
Example one_missing_blocks_host :
  last_answer (quiet (Ok false)) [] (Check "/raw/n1/100") = Ok (Ready true) /\
  last_answer (quiet (Ok false)) [] (Filter ["/raw/n1/100"] (Some seconds_of_files)) = Ok (Sorted ["/raw/n1/100"] []) /\
  last_answer (quiet (Ok false)) [] (Filter ["/raw/n1/100"; "/raw/n1/200"] (Some seconds_of_files)) =
    Ok (Sorted [] ["/raw/n1/100"; "/raw/n1/200"]).
Proof. vm_compute. done. Qed.

(** When the setting of the live listener cannot be read, the marks take it for on and the
    gate takes it for off: head and tail, too weak to mark a file, are enough to delete it. *)
Example unreadable_setting_opens_gate :
  last_answer (quiet (Raise ValueError)) [Ingested "/raw/n1/100" true "db_skip" "head_tail" None] (Check "/raw/n1/100") = Ok (Ready true) /\
  ensure_loaded (marks (now_view (after (quiet (Raise ValueError)) [Ingested "/raw/n1/100" true "db_skip" "head_tail" None]).1) FileComplete) = ∅.
Proof. vm_compute. done. Qed.

(** A mark that was cleared lets its file through for another minute. *)
Example cleared_mark_lingers :
  last_answer (quiet (Ok true)) (one_ingested ++ [Check "/raw/n1/200"; Clear FileComplete ["/raw/n1/200"]]) (Check "/raw/n1/200") = Ok (Ready true) /\
  last_answer (quiet (Ok true)) (one_ingested ++ [Clear FileComplete ["/raw/n1/200"]]) (Check "/raw/n1/200") = Ok (Ready false).
Proof. vm_compute. done. Qed.
