(* ===== verification/NegativeStates.v ===== *)
(** Whose fault a failure is, and what happens next:
    [dbload/lib/sync_timedb_negative_states.py].

    A failure of the environment never counts against a file; every other negative state
    has a way out in a table.  Before the migrations of this release rewrite the sidecars,
    they are copied and verified, once: a marker written last says so.

    An exception is what the code looks at: the class names of its method resolution order,
    its [errno], its cause.  Error numbers are those of Linux.  The snapshot is the list of
    changes it makes to the disk, so that a crash can stop it anywhere; what a copy leaves
    behind, or the exception it raises, is an argument, and so is the digest. *)
From S2P Require Import Prelude PyDict PyStr PosixPath.
From stdpp Require Import gmap.
Local Open Scope Z_scope.

(** ** Classification *)

Definition ENVIRONMENT_ERRNOS : list Z := [11; 12; 24; 23; 16; 5; 28; 122].

Definition ENVIRONMENT_STDERR_MARKERS : list string :=
  ["resource temporarily unavailable"; "cannot allocate memory"; "too many open files"; "no space left on device";
   "disk quota exceeded"; "device or resource busy"].

Definition ENVIRONMENT_EXCEPTION_NAMES : list string :=
  ["OperationalError"; "InterfaceError"; "PermissionError"; "IngestWriteStageShutdownError"].

Definition READABLE : string := "readable".
Definition CORRUPT : string := "corrupt".
Definition TRANSIENT : string := "transient".
Definition MISSING : string := "missing".

(** [mro] starts with the name of the class itself. *)
Inductive exc := Exc (mro : list string) (errno : option Z) (cause : option exc).

Definition exc_mro (e : exc) : list string := match e with Exc m _ _ => m end.
Definition exc_errno (e : exc) : option Z := match e with Exc _ n _ => n end.

Fixpoint is_environment_error (e : exc) : bool :=
  match e with
  | Exc mro errno cause =>
      if bool_decide ("ArchiveMembersStoreUnavailableError" ∈ mro) then true
      else if existsb (fun c => bool_decide (c ∈ ENVIRONMENT_EXCEPTION_NAMES)) mro then true
      else if bool_decide ("OSError" ∈ mro) && match errno with Some n => bool_decide (n ∈ ENVIRONMENT_ERRNOS) | None => false end then true
      else match cause with Some c => is_environment_error c | None => false end
  end.

(** [errorcode]: [errno.errorcode]. *)
Definition environment_error_tag (errorcode : Z -> option string) (e : exc) : string :=
  match exc_errno e ≫= errorcode with
  | Some name => "env:" +:+ name
  | None => "env:" +:+ default "" (head (exc_mro e))
  end.

Definition stderr_reports_environment_error (text : option string) : bool :=
  existsb (fun marker => str_contains marker (py_lower (str_or_empty text))) ENVIRONMENT_STDERR_MARKERS.

(** ** Ways out *)

Definition DEFAULT_NEGATIVE_EXIT : string := "retry_or_dead_letter".

Definition SYNC_TIMEDB_NEGATIVE_STATE_EXITS : dict string (dict string string) :=
  Dict [
   ("ingest_outcome", Dict [("timeout", "bounded_timeout"); ("lookup_budget", "bounded_timeout"); ("ingest_mark_failed", "env_requeue");
      ("write_failed", "env_requeue"); ("ingested", "env_requeue"); ("restore_deferred", "env_requeue"); ("probe_transient", "env_requeue");
      ("active_segment", "ack_rediscovered"); ("parse_fail", DEFAULT_NEGATIVE_EXIT); ("repair_failed", DEFAULT_NEGATIVE_EXIT);
      ("quarantine", DEFAULT_NEGATIVE_EXIT); ("fail", DEFAULT_NEGATIVE_EXIT)]);
   ("day_close_outcome", Dict [("yielded", "cooperative_requeue"); ("deferred_age", "cooperative_requeue"); ("incomplete_raw", "cooperative_requeue");
      ("skipped", "cooperative_requeue"); ("verify_failed", DEFAULT_NEGATIVE_EXIT); ("error", DEFAULT_NEGATIVE_EXIT)]);
   ("day_removal_status", Dict [("skipped_not_head_tail_ingested", "retryable_reclassify"); ("skipped_not_head_ingested", "retryable_reclassify");
      ("skipped_not_sample_ingested", "retryable_reclassify"); ("skipped_not_in_archive", "retryable_reclassify");
      ("skipped_size_mismatch", "retryable_reclassify"); ("skipped_seal_invalid", "repair_reseal"); ("skipped_fingerprint_changed", "repair_reclassify");
      ("skipped_active_segment", "repair_reclassify"); ("skipped_quarantine", "terminal_quarantine"); ("skipped_locked", "retryable_reclassify");
      ("skipped_no_gz", "repair_reseal"); ("skipped_no_work", "retryable_reclassify")]);
   ("day_skip_kind", Dict [("open_tar_gnu_tvf_failed", "revalidate_or_salvage"); ("tar_truncated_or_unreadable", "revalidate_or_salvage");
      ("zst_frame_invalid", "revalidate_or_reseal"); ("read_error", "revalidate"); ("salvage_backup_failed", "revalidate_or_salvage")])]%string.

Definition negative_state_exit (domain value : string) : string :=
  default DEFAULT_NEGATIVE_EXIT (default ∅ (SYNC_TIMEDB_NEGATIVE_STATE_EXITS !! domain) !! value).

(** ** The snapshot *)

Definition DEAD_END_MIGRATION_ID : string := "dead-ends-v1".
Definition MIGRATION_BACKUP_DIRNAME : string := ".sync_timedb_migration_backup".

(** Regular files by path, and the directories. *)
Record disk := Disk { files : gmap string string; dirs : gset string }.

Definition isfile (p : string) (d : disk) : bool := bool_decide (is_Some (files d !! p)).
Definition isdir (p : string) (d : disk) : bool := bool_decide (p ∈ dirs d).

(** A change: a directory made, a file written with what it then holds. *)
Inductive change := MakeDir (p : string) | WriteFile (p content : string).

Definition apply_change (d : disk) (c : change) : disk :=
  match c with
  | MakeDir p => Disk (files d) ({[p]} ∪ dirs d)
  | WriteFile p content => Disk (<[p := content]> (files d)) (dirs d)
  end.

Definition apply_changes (d : disk) (cs : list change) : disk := foldl apply_change d cs.

Section snapshot.
(** [os.walk], which passes over directories it cannot read; [makedirs]: whether making a
    directory raises; [copy2 n]: what is in the destination after the [n]th copy, or its
    exception; [read_back]: whether hashing the two files raises; [write_marker]: what the
    marker then holds, and whether writing it succeeded. *)
Context (sha256 : string -> string) (walk : disk -> string -> list string)
  (makedirs : string -> result unit) (copy2 : nat -> string -> string -> result string)
  (read_back : nat -> result unit) (write_marker : option string * bool).

Definition backup_root (archive_data_dir : string) : string :=
  path_join (path_join archive_data_dir MIGRATION_BACKUP_DIRNAME) DEAD_END_MIGRATION_ID.
Definition backup_marker (archive_data_dir : string) : string := path_join (backup_root archive_data_dir) ".complete".

(** [os.path.relpath(path, archive_data_dir)], for a path that lies in it. *)
Definition relpath (path archive_data_dir : string) : string :=
  let prefix := path_join archive_data_dir "" in
  String.substring (String.length prefix) (String.length path) path.

Definition backup_of (archive_data_dir path : string) : string := path_join (backup_root archive_data_dir) (relpath path archive_data_dir).

Definition snapshot_sources (archive_data_dir : string) : list string :=
  path_join archive_data_dir <$> [".sync_timedb_day_raw_removal"; ".sync_timedb_queue_dead_letter.json"; ".sync_timedb_unparsable_raw.json"].

Definition source_files (d : disk) (src : string) : list string :=
  if isdir src d then walk d src else if isfile src d then [src] else [].

(** The copies, from the [n]th on: the changes made, and whether an exception ended them. *)
Fixpoint copy_files (archive_data_dir : string) (d : disk) (n : nat) (paths : list string) : list change * bool :=
  match paths with
  | [] => ([], true)
  | path :: paths =>
      let dest := backup_of archive_data_dir path in
      match makedirs (path_dirname dest) with
      | Raise _ => ([], false)
      | Ok _ =>
          match files d !! path with
          | None => ([MakeDir (path_dirname dest)], false)
          | Some content =>
              match copy2 n path content with
              | Raise _ => ([MakeDir (path_dirname dest)], false)
              | Ok copied =>
                  let made := [MakeDir (path_dirname dest); WriteFile dest copied] in
                  match read_back n with
                  | Raise _ => (made, false)
                  | Ok _ =>
                      if decide (sha256 content = sha256 copied)
                      then let '(more, ok) := copy_files archive_data_dir d (S n) paths in (made ++ more, ok)
                      else (made, false)
                  end
              end
          end
      end
  end.

(** The changes of [snapshot_dead_end_sidecars], its answer, and whether it sets
    [_SNAPSHOT_FAILED]. *)
Definition snapshot_dead_end_sidecars (archive_data_dir : string) (d : disk) : list change * bool * bool :=
  let root := backup_root archive_data_dir in
  if isfile (backup_marker archive_data_dir) d then ([], true, false)
  else if negb (isdir archive_data_dir d) then ([], false, true)
  else match makedirs root with
       | Raise _ => ([], false, true)
       | Ok _ =>
           let '(cs, ok) := copy_files archive_data_dir d 0 (concat (source_files d <$> snapshot_sources archive_data_dir)) in
           if negb ok then (MakeDir root :: cs, false, true)
           else (MakeDir root :: cs ++ match write_marker.1 with
                                        | Some content => [WriteFile (backup_marker archive_data_dir) content]
                                        | None => []
                                        end, write_marker.2, negb write_marker.2)
       end.
End snapshot.

Definition effective_remediation_mode (snapshot_failed : bool) (configured : string) : string :=
  if snapshot_failed then "report" else configured.
