(* ===== verification/NegativeStatesSpec.v ===== *)
(** The snapshot taken before the migrations is whole once its marker is there, wherever a
    crash stops it; the classification of failures. *)
From S2P Require Import Prelude PyDict PyStr PosixPath NegativeStates.
From stdpp Require Import gmap.
From Stdlib Require Import Ascii.
Local Open Scope Z_scope.

(** ** Classification *)

(** The causes are followed to the end of their chain. *)
Fixpoint causes (e : exc) : list exc :=
  e :: match e with Exc _ _ (Some c) => causes c | _ => [] end.

Definition names_environment (e : exc) : Prop :=
  "ArchiveMembersStoreUnavailableError" ∈ exc_mro e \/
  (exists c, c ∈ exc_mro e /\ c ∈ ENVIRONMENT_EXCEPTION_NAMES) \/
  ("OSError" ∈ exc_mro e /\ exists n, exc_errno e = Some n /\ n ∈ ENVIRONMENT_ERRNOS).

Definition exc_nested_ind (P : exc -> Prop) (step : forall mro errno cause, (forall c, cause = Some c -> P c) -> P (Exc mro errno cause)) :
  forall e, P e :=
  fix go e := match e with
              | Exc mro errno (Some c) => step mro errno (Some c) (fun c' (E : Some c = Some c') => match E in _ = o return match o with Some x => P x | None => True end with eq_refl => go c end)
              | Exc mro errno None => step mro errno None (fun c' (E : None = Some c') => match E in _ = o return match o with Some x => P x | None => True end with eq_refl => I end)
              end.

Lemma environment_error_step mro errno cause :
  is_environment_error (Exc mro errno cause) = true <->
  names_environment (Exc mro errno cause) \/ exists c, cause = Some c /\ is_environment_error c = true.
Proof.
  unfold names_environment. cbn [is_environment_error exc_mro exc_errno].
  destruct (bool_decide_reflect ("ArchiveMembersStoreUnavailableError" ∈ mro)) as [?|Hna]; [tauto|].
  destruct (existsb _ mro) eqn:Ex.
  { apply existsb_exists in Ex as (c & Hc & E%bool_decide_eq_true). apply list_elem_of_In in Hc. split; [|done].
    intros _. left. right. left. by exists c. }
  assert (~ exists c, c ∈ mro /\ c ∈ ENVIRONMENT_EXCEPTION_NAMES) as Hn.
  { intros (c & Hc & E). apply not_true_iff_false in Ex. apply Ex, existsb_exists. exists c.
    split; [by apply list_elem_of_In|by apply bool_decide_eq_true]. }
  destruct (bool_decide_reflect ("OSError" ∈ mro)) as [Ho|Ho]; cbn [andb].
  - destruct errno as [n|].
    + destruct (bool_decide_reflect (n ∈ ENVIRONMENT_ERRNOS)) as [Hin|Hin].
      * split; [|done]. intros _. left. right. right. split; [done|]. by exists n.
      * split; [intros H; right; destruct cause as [c|]; [by exists c|done]|].
        intros [[?|[?|(_ & n' & [= ->] & ?)]]|(c & -> & H)]; done.
    + split; [intros H; right; destruct cause as [c|]; [by exists c|done]|].
      intros [[?|[?|(_ & n' & ? & ?)]]|(c & -> & H)]; done.
  - split; [intros H; right; destruct cause as [c|]; [by exists c|done]|].
    intros [[?|[?|[? _]]]|(c & -> & H)]; done.
Qed.

(** A failure is the environment's exactly when it or one of the exceptions it was raised
    from is of a class, or an [OSError] with a number, that says so; its text never counts. *)
Theorem environment_error_iff (e : exc) : is_environment_error e = true <-> exists c, c ∈ causes e /\ names_environment c.
Proof.
  induction e as [mro errno cause IH] using exc_nested_ind. rewrite environment_error_step. cbn [causes]. split.
  - intros [H|(c & -> & H)]; [eexists; split; [by left|done]|].
    apply (IH c eq_refl) in H as (c' & Hc & H). exists c'. split; [by right|done].
  - intros (c & [->|Hc]%elem_of_cons & H); [by left|]. destruct cause as [c0|]; [|by apply not_elem_of_nil in Hc].
    right. exists c0. split; [done|]. apply (IH c0 eq_refl). by exists c.
Qed.

(** ** Paths *)

Lemma path_join_below a c b : a <> "" -> Ascii.eqb c slash = false -> path_join a (String c b) = path_join a "" +:+ String c b.
Proof.
  intros Ha Hc. unfold path_join. rewrite Hc, !decide_False by done. destruct (ends_with_slash a).
  - f_equal. symmetry. apply string_app_nil_r.
  - exact (string_app_assoc a "/" (String c b)).
Qed.

Section snapshot_spec.
Context (sha256 : string -> string) (walk : disk -> string -> list string)
  (makedirs : string -> result unit) (copy2 : nat -> string -> string -> result string)
  (read_back : nat -> result unit) (write_marker : option string * bool).
Context (dir : string) (Hdir : dir <> "") (Hwalk : forall d src p, p ∈ walk d src -> exists r, p = src +:+ "/" +:+ r).

Abbreviation copies := (copy_files sha256 makedirs copy2 read_back dir).
Abbreviation snapshot := (snapshot_dead_end_sidecars sha256 walk makedirs copy2 read_back write_marker dir).

Definition in_sidecars (x : string) : Prop := exists y, x = ".sync_timedb_" +:+ y.
Definition is_source (p : string) : Prop := exists x, in_sidecars x /\ p = path_join dir "" +:+ x.
Lemma below_app (a : string) x : a <> "" -> in_sidecars x -> path_join a x = path_join a "" +:+ x.
Proof. intros Ha [y ->]. by apply (path_join_below a "."%char). Qed.

Lemma relpath_below x : relpath (path_join dir "" +:+ x) dir = x.
Proof. unfold relpath. apply substring_app. rewrite string_length_app. lia. Qed.

Lemma path_join_nonempty a b : b <> "" -> path_join a b <> "".
Proof.
  intros Hb. destruct b as [|c b]; [done|]. unfold path_join. repeat case_match; try done;
    (intros E; apply (f_equal String.length) in E; rewrite ?string_length_app in E; simpl in E; lia).
Qed.

Lemma backup_of_below x : in_sidecars x -> backup_of dir (path_join dir "" +:+ x) = path_join (backup_root dir) "" +:+ x.
Proof. intros Hx. unfold backup_of. rewrite relpath_below. by apply below_app; [apply path_join_nonempty|]. Qed.

Lemma app_inj_r (a x y : string) : a +:+ x = a +:+ y -> x = y.
Proof. induction a as [|c a IH]; [done|]. change (String c a +:+ x = String c a +:+ y) with (String c (a +:+ x) = String c (a +:+ y)). intros [= E]. by apply IH. Qed.

Lemma backup_of_inj p q : is_source p -> is_source q -> backup_of dir p = backup_of dir q -> p = q.
Proof. intros (x & Hx & ->) (y & Hy & ->). rewrite !backup_of_below by done. by intros ->%app_inj_r. Qed.

Lemma backup_not_marker p : is_source p -> backup_of dir p <> backup_marker dir.
Proof.
  intros (x & [y ->] & ->). rewrite backup_of_below by by exists y. unfold backup_marker.
  rewrite (path_join_below _ "."%char) by (done || by apply path_join_nonempty). by intros ?%app_inj_r.
Qed.

Lemma sources_below d : Forall is_source (concat (source_files walk d <$> snapshot_sources dir)).
Proof.
  apply Forall_forall. intros p Hp. apply list_elem_of_In, in_concat in Hp as (l & Hl & Hp). apply list_elem_of_In in Hl, Hp.
  apply list_elem_of_fmap in Hl as (src & -> & Hsrc). apply list_elem_of_fmap in Hsrc as (rel & -> & Hrel).
  assert (in_sidecars rel) as Hs.
  { repeat (apply elem_of_cons in Hrel as [->|Hrel]); [by eexists..|by apply not_elem_of_nil in Hrel]. }
  unfold source_files in Hp. destruct (isdir _ _).
  - apply Hwalk in Hp as [r ->]. rewrite below_app by done. exists (rel +:+ "/" +:+ r). split.
    + destruct Hs as [y ->]. exists (y +:+ "/" +:+ r). symmetry. apply (string_app_assoc ".sync_timedb_").
    + symmetry. apply (string_app_assoc (path_join dir "") rel).
  - destruct (isfile _ _); [|by apply not_elem_of_nil in Hp]. apply list_elem_of_singleton in Hp as ->.
    exists rel. split; [done|by apply below_app].
Qed.

(** ** The changes *)

Definition writes (c : change) : list string := match c with MakeDir _ => [] | WriteFile p _ => [p] end.

Lemma changes_keep d cs q : q ∉ concat (writes <$> cs) -> files (apply_changes d cs) !! q = files d !! q.
Proof.
  revert d. induction cs as [|c cs IH]; intros d; [done|]. cbn. rewrite not_elem_of_app. intros [Hc Hcs].
  change (files (apply_changes (apply_change d c) cs) !! q = files d !! q). rewrite IH by done.
  destruct c as [p|p x]; [done|]. cbn. apply lookup_insert_ne. intros ->. apply Hc. by left.
Qed.

Lemma copies_write d n paths : concat (writes <$> (copies d n paths).1) ⊆ backup_of dir <$> paths.
Proof.
  revert n. induction paths as [|p paths IH]; intros n; cbn [copy_files]; [cbn; set_solver|].
  destruct (makedirs _); [|cbn; set_solver]. destruct (files d !! p) as [c|]; [|cbn; set_solver].
  destruct (copy2 n p c) as [c'|]; [|cbn; set_solver]. destruct (read_back n); [|cbn; set_solver]. case_decide; [|cbn; set_solver]. specialize (IH (S n)).
  destruct (copies d (S n) paths) as [cs b]. cbn. set_solver.
Qed.

(** The copies of a run that got to its end. *)
Lemma copies_done d n paths cs d0 :
  Forall is_source paths -> copies d n paths = (cs, true) ->
  Forall (fun p => exists c c', files d !! p = Some c /\ files (apply_changes d0 cs) !! backup_of dir p = Some c' /\ sha256 c = sha256 c') paths.
Proof.
  revert n cs d0. induction paths as [|p paths IH]; intros n cs d0 Hsrc E; [constructor|].
  apply Forall_cons in Hsrc as [Hp Hps]. cbn [copy_files] in E.
  destruct (makedirs _); [|done]. destruct (files d !! p) as [c|] eqn:Ec; [|done]. destruct (copy2 n p c) as [c'|]; [|done].
  destruct (read_back n); [|done]. case_decide as Hsha; [|done].
  pose proof (copies_write d (S n) paths) as Hw. destruct (copies d (S n) paths) as [more b] eqn:Em. simplify_eq. cbn [fst] in Hw.
  set (d1 := apply_change (apply_change d0 (MakeDir (path_dirname (backup_of dir p)))) (WriteFile (backup_of dir p) c')).
  change (apply_changes d0 _) with (apply_changes d1 more). specialize (IH (S n) more d1 Hps Em). constructor; [|exact IH].
  destruct (decide (p ∈ paths)) as [Hin|Hin]; [eapply Forall_forall in IH; [exact IH|exact Hin]|].
  exists c, c'. split_and!; [done| |done]. rewrite changes_keep; [unfold d1; cbn; by rewrite lookup_insert_eq|].
  intros Hin'. apply Hw, list_elem_of_fmap in Hin' as (q & E & Hq). apply backup_of_inj in E as ->; [done|done|].
  by eapply Forall_forall.
Qed.

End snapshot_spec.

(** ** Runs *)

Module SnapshotDemo.
Definition manifest : string := "/a/.sync_timedb_day_raw_removal/2024-01-01.json".

Definition one_manifest : disk :=
  Disk {[manifest := "state"]} {["/a"; "/a/.sync_timedb_day_raw_removal"]}.

Definition walk_one (d : disk) (src : string) : list string :=
  if decide (src = "/a/.sync_timedb_day_raw_removal") then [src +:+ "/" +:+ "2024-01-01.json"] else [].

Definition same (s : string) : string := s.
Definition fine (p : string) : result unit := Ok tt.
Definition copied (n : nat) (p content : string) : result string := Ok content.
Definition read (n : nat) : result unit := Ok tt.

Lemma walk_one_below d src p : p ∈ walk_one d src -> exists r, p = src +:+ "/" +:+ r.
Proof. unfold walk_one. case_decide; [intros ->%list_elem_of_singleton; by eexists|by intros ?%not_elem_of_nil]. Qed.


(** [os.walk] passes over a directory it cannot read without an error, so the snapshot of
    sidecars that cannot be listed is marked whole, and holds nothing. *)
Example unreadable_directory_left_out :
  let '(cs, answer, failed) := snapshot_dead_end_sidecars same (fun _ _ => []) fine copied read (Some "ok", true) "/a" one_manifest in
  answer = true /\ failed = false /\ files (apply_changes one_manifest cs) !! backup_of "/a" manifest = None.
Proof. by vm_compute. Qed.

(** "Chained causes are followed once": they are followed to the end. *)
Example causes_followed_to_end :
  is_environment_error (Exc ["ValueError"] None (Some (Exc ["RuntimeError"] None (Some (Exc ["OperationalError"] None None))))) = true.
Proof. done. Qed.
End SnapshotDemo.
