(* ===== verification/MembersStore.v ===== *)
(** The archive members store: what each daily tar is known to hold.

    Models [SyncTimedbArchiveMembersStore] of
    [dbload/lib/sync_timedb_archive_members_store.py].  Each block under a shard's
    lock (or the queue's) is one function; a method composes its blocks, the setting of
    the events it popped and the write of the day's sidecar the way the code does.

    Member dictionaries are shared between threads and compared by identity
    ([is not]) when a merge is published, so a stored map carries the identity of its
    object; an object is never changed once stored.  Identities of maps and events are
    drawn from one counter.  A shard that was never touched is a new one. *)
From S2P Require Import Prelude PyDict PyStr PosixPath Json Persistence.
Local Open Scope Z_scope.

Definition ARCHIVE_MEMBERS_STORE_DIR_KIND : string := "archive_members_store_dir".
Definition MEMBERS_DAY_SCHEMA_VERSION : Z := 1.
Definition MEMBERS_DAY_KIND : string := "archive_members_day".

(** A member map and the identity of its object. *)
Abbreviation member_map := (dict string Z).
Abbreviation member_obj := (Z * member_map)%type.

(** The day-skip record; [set_at] is missing in a loaded one. *)
Record day_skip := DaySkip { sk_kind : string; sk_detail : string; sk_set_at : option Z }.

#[export] Instance day_skip_eq_dec : EqDecision day_skip.
Proof. solve_decision. Defined.

(** [_DayShard]. *)
Record shard := Shard {
  sh_members : dict string member_obj;
  sh_complete : dict string bool;
  sh_day_skip : option day_skip;
  sh_degraded : bool;
  sh_dedupe_hint : bool;
  sh_events : dict string Z;
  sh_populate_owner : dict string Z;
  sh_tar_hot : string;
  sh_append_inflight : bool;
  sh_restore : string;
  sh_populate_source : dict string string;
}.

Definition new_shard : shard := Shard ∅ ∅ None false false ∅ ∅ "" false "" ∅.

#[export] Instance shard_inhabited : Inhabited shard := populate new_shard.

Definition with_members m sh := Shard m (sh_complete sh) (sh_day_skip sh) (sh_degraded sh) (sh_dedupe_hint sh) (sh_events sh) (sh_populate_owner sh) (sh_tar_hot sh) (sh_append_inflight sh) (sh_restore sh) (sh_populate_source sh).
Definition with_complete c sh := Shard (sh_members sh) c (sh_day_skip sh) (sh_degraded sh) (sh_dedupe_hint sh) (sh_events sh) (sh_populate_owner sh) (sh_tar_hot sh) (sh_append_inflight sh) (sh_restore sh) (sh_populate_source sh).
Definition with_day_skip k sh := Shard (sh_members sh) (sh_complete sh) k (sh_degraded sh) (sh_dedupe_hint sh) (sh_events sh) (sh_populate_owner sh) (sh_tar_hot sh) (sh_append_inflight sh) (sh_restore sh) (sh_populate_source sh).
Definition with_degraded d sh := Shard (sh_members sh) (sh_complete sh) (sh_day_skip sh) d (sh_dedupe_hint sh) (sh_events sh) (sh_populate_owner sh) (sh_tar_hot sh) (sh_append_inflight sh) (sh_restore sh) (sh_populate_source sh).
Definition with_dedupe_hint h sh := Shard (sh_members sh) (sh_complete sh) (sh_day_skip sh) (sh_degraded sh) h (sh_events sh) (sh_populate_owner sh) (sh_tar_hot sh) (sh_append_inflight sh) (sh_restore sh) (sh_populate_source sh).
Definition with_events e sh := Shard (sh_members sh) (sh_complete sh) (sh_day_skip sh) (sh_degraded sh) (sh_dedupe_hint sh) e (sh_populate_owner sh) (sh_tar_hot sh) (sh_append_inflight sh) (sh_restore sh) (sh_populate_source sh).
Definition with_populate_owner o sh := Shard (sh_members sh) (sh_complete sh) (sh_day_skip sh) (sh_degraded sh) (sh_dedupe_hint sh) (sh_events sh) o (sh_tar_hot sh) (sh_append_inflight sh) (sh_restore sh) (sh_populate_source sh).
Definition with_tar_hot h sh := Shard (sh_members sh) (sh_complete sh) (sh_day_skip sh) (sh_degraded sh) (sh_dedupe_hint sh) (sh_events sh) (sh_populate_owner sh) h (sh_append_inflight sh) (sh_restore sh) (sh_populate_source sh).
Definition with_append_inflight a sh := Shard (sh_members sh) (sh_complete sh) (sh_day_skip sh) (sh_degraded sh) (sh_dedupe_hint sh) (sh_events sh) (sh_populate_owner sh) (sh_tar_hot sh) a (sh_restore sh) (sh_populate_source sh).
Definition with_restore r sh := Shard (sh_members sh) (sh_complete sh) (sh_day_skip sh) (sh_degraded sh) (sh_dedupe_hint sh) (sh_events sh) (sh_populate_owner sh) (sh_tar_hot sh) (sh_append_inflight sh) r (sh_populate_source sh).
Definition with_populate_source p sh := Shard (sh_members sh) (sh_complete sh) (sh_day_skip sh) (sh_degraded sh) (sh_dedupe_hint sh) (sh_events sh) (sh_populate_owner sh) (sh_tar_hot sh) (sh_append_inflight sh) (sh_restore sh) p.

(** A populate job: a dictionary of strings, or anything else. *)
Inductive populate_job :=
| DictJob (f : gmap string string)
| OtherJob (tag : Z).

#[export] Instance populate_job_eq_dec : EqDecision populate_job.
Proof. solve_decision. Defined.

(** [str(job.get("day_token") or "")], and [""] for a job that is no dictionary. *)
Definition job_day (job : populate_job) : string :=
  match job with DictJob f => str_or_empty (f !! "day_token") | OtherJob _ => "" end.

(** [SyncTimedbArchiveMembersStore]; [ms_set] are the events that are set, [ms_disk] the
    files of the store's directory. *)
Record members_store := MembersStore {
  ms_shards : gmap string shard;
  ms_jobs_hot : list populate_job;
  ms_jobs_cold : list populate_job;
  ms_queued : gset string;
  ms_next : Z;
  ms_set : gset Z;
  ms_disk : gmap string file_content;
}.

Definition with_shards x s := MembersStore x (ms_jobs_hot s) (ms_jobs_cold s) (ms_queued s) (ms_next s) (ms_set s) (ms_disk s).
Definition with_queue h c q s := MembersStore (ms_shards s) h c q (ms_next s) (ms_set s) (ms_disk s).
Definition with_next n s := MembersStore (ms_shards s) (ms_jobs_hot s) (ms_jobs_cold s) (ms_queued s) n (ms_set s) (ms_disk s).
Definition with_set e s := MembersStore (ms_shards s) (ms_jobs_hot s) (ms_jobs_cold s) (ms_queued s) (ms_next s) e (ms_disk s).
Definition with_disk d s := MembersStore (ms_shards s) (ms_jobs_hot s) (ms_jobs_cold s) (ms_queued s) (ms_next s) (ms_set s) d.

(** [__init__] before the reload, over a directory [disk]. *)
Definition empty_members_store (disk : gmap string file_content) : members_store :=
  MembersStore ∅ [] [] ∅ 0 ∅ disk.

(** [_shard]. *)
Definition day_shard (day : string) (s : members_store) : shard := ms_shards s !!! day.

Definition set_shard (day : string) (sh : shard) (s : members_store) : members_store :=
  with_shards (<[day := sh]> (ms_shards s)) s.

(** A block under the shard's lock that may create one object. *)
Definition locked {A} (day : string) (f : Z -> shard -> A * shard) (s : members_store) : A * members_store :=
  let '(a, sh) := f (ms_next s) (day_shard day s) in (a, with_next (ms_next s + 1) (set_shard day sh s)).

Definition locked_ (day : string) (f : shard -> shard) (s : members_store) : members_store :=
  set_shard day (f (day_shard day s)) s.

(** ** Events *)

Definition set_threading_events (events : list (option Z)) (s : members_store) : members_store :=
  with_set (ms_set s ∪ list_to_set (omap id events)) s.

Definition event_locked (identity : string) (fresh : Z) (sh : shard) : Z * shard :=
  match sh_events sh !! identity with
  | Some e => (e, sh)
  | None => (fresh, with_events (<[identity := fresh]> (sh_events sh)) sh)
  end.

Definition wake_and_drop_event (identity : string) (sh : shard) : option Z * shard :=
  (sh_events sh !! identity, with_events (delete identity (sh_events sh)) sh).

Definition is_stale (keep : string) (sh : shard) (identity : string) : Prop :=
  identity <> keep /\ sh_populate_owner sh !! identity = None.

Definition drop_stale_identities (keep : string) (sh : shard) : list Z * shard :=
  let ms := filter (is_stale keep sh) (dict_keys (sh_members sh)) in
  let es := filter (is_stale keep sh) (dict_keys (sh_events sh)) in
  (omap (fun i => sh_events sh !! i) es,
   with_events (foldr delete (sh_events sh) es)
     (with_complete (foldr delete (sh_complete sh) ms) (with_members (foldr delete (sh_members sh) ms) sh))).

(** ** The day's sidecar *)

Definition day_file (day : string) : string := day +:+ ".json".

Definition skip_json (k : day_skip) : json :=
  JDict (Dict ([("kind", JStr (sk_kind k)); ("detail", JStr (sk_detail k))] ++
               match sk_set_at k with Some t => [("set_at", JFloat (FFin t 1))] | None => [] end)).

Definition members_json (m : member_map) : json :=
  JDict (Dict ((fun ns => (ns.1, JInt ns.2)) <$> dict_items m)).

Definition is_complete_in (sh : shard) (identity : string) : bool := default false (sh_complete sh !! identity).

(** The identities a write takes: those that are complete. *)
Definition day_snapshots (sh : shard) : list (string * member_obj) :=
  filter (fun io => is_complete_in sh io.1 = true) (dict_items (sh_members sh)).

Definition day_payload (day : string) (sh : shard) : json :=
  JDict (Dict
    [("schema_version", JInt MEMBERS_DAY_SCHEMA_VERSION); ("day_token", JStr day);
     ("identities", JDict (Dict ((fun io =>
        (io.1, JDict (Dict [("members", members_json io.2.2); ("complete", JBool true)]))) <$> day_snapshots sh)));
     ("day_skip", from_option skip_json JNull (sh_day_skip sh));
     ("degraded", JBool (sh_degraded sh)); ("dedupe_hint", JBool (sh_dedupe_hint sh))]).

(** [persist_day]: the payload is taken under the lock, the save follows. *)
Definition persist_save (day : string) (payload : json) (s : members_store) : members_store :=
  match save_persistence_document MEMBERS_DAY_KIND payload true with
  | Ok f => with_disk (<[day_file day := f]> (ms_disk s)) s
  | Raise _ => s
  end.

Definition persist_day (day : string) (s : members_store) : members_store :=
  persist_save day (day_payload day (day_shard day s)) s.

(** ** Populating an identity *)

Definition try_begin_populate_locked (identity : string) (thread fresh : Z) (sh : shard) : (bool * option Z) * shard :=
  if decide (is_Some (sh_populate_owner sh !! identity)) then ((false, None), sh)
  else if is_complete_in sh identity then ((false, None), sh)
  else
    let '(e, sh) := event_locked identity fresh (with_populate_owner (<[identity := thread]> (sh_populate_owner sh)) sh) in
    ((true, Some e), sh).

(** The event is cleared under the lock. *)
Definition try_begin_populate (day identity : string) (thread : Z) (s : members_store) : bool * members_store :=
  let '((ok, e), s) := locked day (try_begin_populate_locked identity thread) s in
  (ok, match e with Some e => with_set (ms_set s ∖ {[e]}) s | None => s end).

Definition finish_populate_locked (identity : string) (members : option member_map) (complete : bool) (fresh : Z)
    (sh : shard) : list (option Z) * shard :=
  let sh := match members with
            | Some m => with_members (<[identity := (fresh, m)]> (sh_members sh)) sh
            | None => sh
            end in
  let sh := if complete then with_complete (<[identity := true]> (sh_complete sh)) sh else sh in
  let sh := with_populate_owner (delete identity (sh_populate_owner sh)) sh in
  let '(e, sh) := wake_and_drop_event identity sh in
  if complete then let '(es, sh) := drop_stale_identities identity sh in (e :: (Some <$> es), sh)
  else ([e], sh).

Definition finish_populate (day identity : string) (members : option member_map) (complete : bool)
    (s : members_store) : members_store :=
  let '(es, s) := locked day (finish_populate_locked identity members complete) s in
  let s := set_threading_events es s in
  if complete then persist_day day s else s.

Definition store_complete_locked (identity : string) (members : member_map) (saw_duplicates : bool) (fresh : Z)
    (sh : shard) : list (option Z) * shard :=
  let sh := with_members (<[identity := (fresh, members)]> (sh_members sh)) sh in
  let sh := with_complete (<[identity := true]> (sh_complete sh)) sh in
  let sh := if saw_duplicates then with_dedupe_hint true sh else sh in
  let '(e, sh) := wake_and_drop_event identity sh in
  let '(es, sh) := drop_stale_identities identity sh in
  (e :: (Some <$> es), sh).

Definition store_complete (day identity : string) (members : member_map) (saw_duplicates : bool)
    (s : members_store) : members_store :=
  let '(es, s) := locked day (store_complete_locked identity members saw_duplicates) s in
  persist_day day (set_threading_events es s).

Definition clear_incomplete_locked (identity : string) (sh : shard) : option Z * shard :=
  if is_complete_in sh identity then (None, sh)
  else
    let sh := with_members (delete identity (sh_members sh)) sh in
    let sh := with_populate_owner (delete identity (sh_populate_owner sh)) sh in
    wake_and_drop_event identity sh.

Definition clear_incomplete (day identity : string) (s : members_store) : members_store :=
  let '(e, sh) := clear_incomplete_locked identity (day_shard day s) in
  set_threading_events [e] (set_shard day sh s).

Definition invalidate_locked (identity : string) (sh : shard) : option Z * shard :=
  let sh := with_members (delete identity (sh_members sh)) sh in
  let sh := with_complete (delete identity (sh_complete sh)) sh in
  let sh := with_populate_owner (delete identity (sh_populate_owner sh)) sh in
  let sh := with_populate_source ∅ sh in
  wake_and_drop_event identity sh.

Definition invalidate (day identity : string) (s : members_store) : members_store :=
  let '(e, sh) := invalidate_locked identity (day_shard day s) in
  persist_day day (set_threading_events [e] (set_shard day sh s)).

(** The map object a reader takes under the lock, [{}] when there is none. *)
Definition members_of (identity : string) (sh : shard) : member_map :=
  match sh_members sh !! identity with Some o => o.2 | None => ∅ end.

(** One pass of [wait_for_complete]'s loop, and what follows the deadline. *)
Inductive wait_result :=
| WaitSkipped
| WaitReady (m : member_map)
| WaitEvent (e : Z).

Definition wait_poll_locked (identity : string) (fresh : Z) (sh : shard) : wait_result * shard :=
  match sh_day_skip sh with
  | Some _ => (WaitSkipped, sh)
  | None =>
      if is_complete_in sh identity then (WaitReady (members_of identity sh), sh)
      else let '(e, sh) := event_locked identity fresh sh in (WaitEvent e, sh)
  end.

Definition wait_last (day identity : string) (s : members_store) : option member_map :=
  let sh := day_shard day s in
  if is_complete_in sh identity then Some (members_of identity sh) else None.

(** [wait_for_complete]: [rounds] is what the other threads do during each wait; the
    deadline has passed when the list is used up. *)
Fixpoint wait_for_complete (rounds : list (members_store -> members_store)) (day identity : string)
    (s : members_store) : option member_map * members_store :=
  match rounds with
  | [] => (wait_last day identity s, s)
  | others :: rounds =>
      let '(r, s) := locked day (wait_poll_locked identity) s in
      match r with
      | WaitSkipped => (None, s)
      | WaitReady m => (Some m, s)
      | WaitEvent _ => wait_for_complete rounds day identity (others s)
      end
  end.

(** ** Reading *)

Definition is_complete (day identity : string) (s : members_store) : bool := is_complete_in (day_shard day s) identity.

Definition lookup_member (day identity name : string) (s : members_store) : option Z :=
  let sh := day_shard day s in
  match sh_day_skip sh with
  | Some _ => None
  | None => o ← sh_members sh !! identity; o.2 !! name
  end.

Definition lookup_complete_map (day identity : string) (s : members_store) : option member_map :=
  let sh := day_shard day s in
  if is_complete_in sh identity then Some (members_of identity sh) else None.

Definition is_fully_warm (day identity : string) (s : members_store) : bool :=
  let sh := day_shard day s in
  is_complete_in sh identity && negb (bool_decide (dict_items (members_of identity sh) = [])).

Definition complete_identity_count (day : string) (s : members_store) : Z :=
  Z.of_nat (length (filter (fun b => b = true) (dict_values (sh_complete (day_shard day s))))).

Definition any_complete_identity (day : string) (s : members_store) : bool := 0 <? complete_identity_count day s.

Definition populate_owner_active (day : string) (s : members_store) : bool :=
  negb (bool_decide (dict_items (sh_populate_owner (day_shard day s)) = [])).

(** ** Merging *)

(** The incoming sizes into a copy of the map: the larger size wins. *)
Definition merge_member (current : member_map) (name : string) (size : Z) : member_map :=
  match current !! name with
  | Some prev => if prev <? size then <[name := size]> current else current
  | None => <[name := size]> current
  end.

Definition merge_current (incoming : member_map) (ref : option member_obj) : member_map :=
  foldl (fun c ns => merge_member c ns.1 ns.2) (from_option snd ∅ ref) (dict_items incoming).

Definition merge_read (day identity : string) (s : members_store) : option member_obj :=
  sh_members (day_shard day s) !! identity.

(** [shard.members.get(ident) is members_ref]: [None] is itself, objects compare by
    identity. *)
Definition same_ref (a b : option member_obj) : bool :=
  match a, b with
  | None, None => true
  | Some a, Some b => a.1 =? b.1
  | _, _ => false
  end.

(** The second block: [None] when the map was replaced meanwhile. *)
Definition merge_publish_locked (identity : string) (ref : option member_obj) (current : member_map)
    (saw_duplicates : bool) (fresh : Z) (sh : shard) : option (list (option Z)) * shard :=
  if same_ref (sh_members sh !! identity) ref then
    let sh := with_members (<[identity := (fresh, current)]> (sh_members sh)) sh in
    let sh := with_complete (<[identity := true]> (sh_complete sh)) sh in
    let sh := if saw_duplicates then with_dedupe_hint true sh else sh in
    let sh := with_degraded false sh in
    let '(e, sh) := wake_and_drop_event identity sh in
    let '(es, sh) := drop_stale_identities identity sh in
    (Some (e :: (Some <$> es)), sh)
  else (None, sh).

(** [merge_members]; [rounds] is what the other threads do between the two blocks of
    each attempt, nothing once it is used up. *)
Fixpoint merge_loop (rounds : list (members_store -> members_store)) (day identity : string)
    (incoming : member_map) (saw_duplicates : bool) (s : members_store) : option members_store :=
  let ref := merge_read day identity s in
  let current := merge_current incoming ref in
  match rounds with
  | [] =>
      let '(r, s) := locked day (merge_publish_locked identity ref current saw_duplicates) s in
      es ← r; Some (persist_day day (set_threading_events es s))
  | others :: rounds =>
      let '(r, s) := locked day (merge_publish_locked identity ref current saw_duplicates) (others s) in
      match r with
      | Some es => Some (persist_day day (set_threading_events es s))
      | None => merge_loop rounds day identity incoming saw_duplicates s
      end
  end.

Definition merge_members (rounds : list (members_store -> members_store)) (day identity : string)
    (incoming : member_map) (saw_duplicates : bool) (s : members_store) : option (bool * members_store) :=
  if decide (dict_items incoming = []) then Some (false, s)
  else s ← merge_loop rounds day identity incoming saw_duplicates s; Some (true, s).

(** ** Day flags *)

Definition set_day_skip_locked (kind detail : string) (now : Z) (sh : shard) : list (option Z) * shard :=
  (Some <$> dict_values (sh_events sh), with_events ∅ (with_day_skip (Some (DaySkip kind detail (Some now))) sh)).

Definition set_day_skip (day kind detail : string) (now : Z) (s : members_store) : members_store :=
  let '(es, sh) := set_day_skip_locked kind detail now (day_shard day s) in
  persist_day day (set_threading_events es (set_shard day sh s)).

Definition get_day_skip (day : string) (s : members_store) : option day_skip := sh_day_skip (day_shard day s).

Definition touch_day_skip (day : string) (now : Z) (s : members_store) : members_store :=
  match sh_day_skip (day_shard day s) with
  | None => s
  | Some k => persist_day day (locked_ day (with_day_skip (Some (DaySkip (sk_kind k) (sk_detail k) (Some now)))) s)
  end.

Definition clear_day_skip (day : string) (s : members_store) : members_store :=
  persist_day day (locked_ day (with_day_skip None) s).

Definition set_degraded (day : string) (s : members_store) : members_store := persist_day day (locked_ day (with_degraded true) s).
Definition clear_degraded (day : string) (s : members_store) : members_store := persist_day day (locked_ day (with_degraded false) s).
Definition is_degraded (day : string) (s : members_store) : bool := sh_degraded (day_shard day s).

Definition dedupe_hint_is_set (day : string) (s : members_store) : bool := sh_dedupe_hint (day_shard day s).
Definition clear_dedupe_hint (day : string) (s : members_store) : members_store :=
  persist_day day (locked_ day (with_dedupe_hint false) s).
Definition list_dedupe_hint_days (s : members_store) : list string :=
  merge_sort String.le (filter (fun d => sh_dedupe_hint (ms_shards s !!! d) = true) (map_to_list (ms_shards s)).*1).

Definition set_ingest_tar_hot (day reason : string) (s : members_store) : members_store := locked_ day (with_tar_hot reason) s.
Definition ingest_tar_hot_reason (day : string) (s : members_store) : string := sh_tar_hot (day_shard day s).
Definition clear_ingest_tar_hot (day : string) (s : members_store) : members_store := locked_ day (with_tar_hot "") s.
Definition ingest_tar_hot (day : string) (s : members_store) : bool := negb (bool_decide (ingest_tar_hot_reason day s = "")).

Definition set_append_inflight (day : string) (s : members_store) : members_store := locked_ day (with_append_inflight true) s.
Definition clear_append_inflight (day : string) (s : members_store) : members_store := locked_ day (with_append_inflight false) s.
Definition append_inflight (day : string) (s : members_store) : bool := sh_append_inflight (day_shard day s).

(** ** Restores *)

Definition try_acquire_restore (day token : string) (s : members_store) : bool * members_store :=
  if decide (day = "" \/ day = "unknown") then (false, s)
  else
    let current := sh_restore (day_shard day s) in
    if decide (current <> "" /\ current <> token) then (false, s)
    else (true, locked_ day (with_restore token) s).

Definition renew_restore (day token : string) (s : members_store) : bool := bool_decide (sh_restore (day_shard day s) = token).

Definition clear_restore (day : string) (token : option string) (s : members_store) : members_store :=
  if decide (token = None \/ token = Some (sh_restore (day_shard day s))) then locked_ day (with_restore "") s else s.

Definition restore_in_progress (day : string) (s : members_store) : bool := negb (bool_decide (sh_restore (day_shard day s) = "")).
Definition restore_reason (day : string) (s : members_store) : string := sh_restore (day_shard day s).

(** ** Populate sources *)

Definition day_token_from_canonical (canonical : string) : string :=
  let base := path_basename canonical in
  match strip_suffix ".tar.zst" base, strip_suffix ".tar.gz" base, strip_suffix ".tar" base with
  | Some d, _, _ | None, Some d, _ | None, None, Some d => d
  | None, None, None => if decide (base = "") then "unknown" else base
  end.

Definition set_populate_source (canonical source : string) (s : members_store) : members_store :=
  locked_ (day_token_from_canonical canonical)
    (fun sh => with_populate_source (<[canonical := source]> (sh_populate_source sh)) sh) s.

Definition peek_populate_source (canonical : string) (s : members_store) : option string :=
  sh_populate_source (day_shard (day_token_from_canonical canonical) s) !! canonical.

Definition consume_populate_source (canonical : string) (s : members_store) : option string * members_store :=
  (peek_populate_source canonical s,
   locked_ (day_token_from_canonical canonical)
     (fun sh => with_populate_source (delete canonical (sh_populate_source sh)) sh) s).

(** ** The populate queue *)

Definition populate_job_hot_rank (job : populate_job) (s : members_store) : Z :=
  match job with
  | OtherJob _ => 0
  | DictJob _ =>
      let day := job_day job in
      if decide (day = "") then 0
      else let reason := ingest_tar_hot_reason day s in
           if decide (reason = "chunk_prewarm") then 3
           else if decide (reason = "populate_wait") then 2
           else if decide (reason = "populate_enqueue") then 1 else 0
  end.

Definition enqueue_populate_job (job : populate_job) (hot_rank : Z) (s : members_store) : members_store :=
  if 0 <? hot_rank then with_queue (ms_jobs_hot s ++ [job]) (ms_jobs_cold s) (ms_queued s) s
  else with_queue (ms_jobs_hot s) (ms_jobs_cold s ++ [job]) (ms_queued s) s.

(** The rank is read before the queue's lock is taken; [rank] is the value read. *)
Definition enqueue_populate_ranked (job : populate_job) (rank : Z) (s : members_store) : bool * members_store :=
  let day := job_day job in
  if decide (day <> "" /\ day ∈ ms_queued s) then (false, s)
  else
    let s := if decide (day = "") then s else with_queue (ms_jobs_hot s) (ms_jobs_cold s) ({[day]} ∪ ms_queued s) s in
    (true, enqueue_populate_job job rank s).

Definition enqueue_populate (job : populate_job) (s : members_store) : bool * members_store :=
  enqueue_populate_ranked job (populate_job_hot_rank job s) s.

(** [dequeue_populate] once it need not wait any longer: [None] on an empty queue at the
    deadline. *)
Definition dequeue_populate (s : members_store) : option populate_job * members_store :=
  match ms_jobs_hot s, ms_jobs_cold s with
  | j :: hot, cold => (Some j, with_queue hot cold (ms_queued s) s)
  | [], j :: cold => (Some j, with_queue [] cold (ms_queued s) s)
  | [], [] => (None, s)
  end.

Definition complete_populate_job (job : populate_job) (s : members_store) : members_store :=
  if decide (job_day job = "") then s
  else with_queue (ms_jobs_hot s) (ms_jobs_cold s) (ms_queued s ∖ {[job_day job]}) s.

Definition requeue_populate_job (job : populate_job) (s : members_store) : members_store :=
  match job with
  | OtherJob _ => s
  | DictJob _ => enqueue_populate_job job (populate_job_hot_rank job s) s
  end.

(** ** Invalidation and reload *)

Definition is_json_name (name : string) : bool := bool_decide (is_Some (strip_suffix ".json" name)).

(** [invalidate_all]; [stuck] tells which unlinks fail. *)
Definition invalidate_all (stuck : string -> bool) (s : members_store) : members_store :=
  let events := mjoin ((fun ds => Some <$> dict_values (sh_events ds.2)) <$> map_to_list (ms_shards s)) in
  let s := with_queue [] [] ∅ (with_shards ∅ s) in
  let s := set_threading_events events s in
  with_disk (filter (fun nf => is_json_name nf.1 = false \/ stuck nf.1 = true) (ms_disk s)) s.

Section reload.

(** [str(x)] on floats, lists and dictionaries. *)
Variable py_repr : json -> string.

Definition json_str (j : json) : string :=
  match j with
  | JStr s => s
  | JNull => "None"
  | JBool b => if b then "True" else "False"
  | JInt z => str_of_Z z
  | _ => py_repr j
  end.

Definition load_skip (j : json) : option day_skip :=
  match j with
  | JDict d =>
      if json_truthy (json_get "kind" d)
      then Some (DaySkip (json_str (json_get "kind" d)) (json_str (json_or (json_get "detail" d) (JStr ""))) None)
      else None
  | _ => None
  end.

(** [{str(member): int(size) for member, size in members.items()}]. *)
Fixpoint load_sizes (l : list (string * json)) : result (list (string * Z)) :=
  match l with
  | [] => Ok []
  | (name, size) :: l =>
      z ← json_int size;
      rest ← load_sizes l;
      Ok ((name, z) :: rest)
  end.

Definition load_members (body : jdict) : result member_map :=
  match json_or (json_get "members" body) (JDict ∅) with
  | JDict d => l ← load_sizes (dict_items d); Ok (dict_of_items l)
  | _ => Raise AttributeError
  end.

(** The complete identities of a document, as [members_ready]. *)
Fixpoint load_identities (l : list (string * json)) : result (list (string * member_map)) :=
  match l with
  | [] => Ok []
  | (identity, body) :: l =>
      match body with
      | JDict b =>
          if json_truthy (json_get "complete" b) then
            m ← load_members b;
            rest ← load_identities l;
            Ok ((identity, m) :: rest)
          else load_identities l
      | _ => load_identities l
      end
  end.

(** Each map becomes an object of the shard. *)
Fixpoint load_ready (ready : list (string * member_map)) (fresh : Z) (sh : shard) : shard :=
  match ready with
  | [] => sh
  | (identity, m) :: ready =>
      load_ready ready (fresh + 1)
        (with_complete (<[identity := true]> (sh_complete sh))
          (with_members (<[identity := (fresh, m)]> (sh_members sh)) sh))
  end.

(** One file of [load]'s loop: [name] ends in [".json"]. *)
Definition load_day (name : string) (file : file_content) (s : members_store) : result members_store :=
  raw ← load_persistence_document (Some file) MEMBERS_DAY_KIND (JDict ∅);
  match raw with
  | JDict raw =>
      let day := json_str (json_or (json_get "day_token" raw) (JStr (default name (strip_suffix ".json" name)))) in
      ready ← match json_or (json_get "identities" raw) (JDict ∅) with
              | JDict d => load_identities (dict_items d)
              | _ => Ok []
              end;
      let sh := day_shard day s in
      let sh := match load_skip (json_get "day_skip" raw) with Some k => with_day_skip (Some k) sh | None => sh end in
      let sh := if json_truthy (json_get "degraded" raw) then with_degraded true sh else sh in
      let sh := if json_truthy (json_get "dedupe_hint" raw) then with_dedupe_hint true sh else sh in
      Ok (with_next (ms_next s + Z.of_nat (length ready)) (set_shard day (load_ready ready (ms_next s) sh) s))
  | _ => Ok s
  end.

(** [load]: [names] is the directory's listing. *)
Fixpoint load_names (names : list string) (s : members_store) : result members_store :=
  match names with
  | [] => Ok s
  | name :: names =>
      if is_json_name name then
        match ms_disk s !! name with
        | Some file => s ← load_day name file s; load_names names s
        | None => load_names names s
        end
      else load_names names s
  end.

(** [__init__]. *)
Definition open_members_store (names : list string) (disk : gmap string file_content) : result members_store :=
  load_names names (empty_members_store disk).
End reload.
