(* ===== verification/MembersStoreSpec.v ===== *)
(** What the archive members store promises: a merge loses no concurrent update and
    returns, one thread populates an identity at a time, nobody waits for a completed
    identity, and a day read back is the day that was written.

    The threads are a step relation on [world]: a step is one block under a lock, the
    setting of one popped event, or one half of a write. *)
From S2P Require Import Prelude PyDict PyStr PosixPath Json Persistence PersistenceSpec MembersStore.
Local Open Scope Z_scope.

(** ** Shards *)

Lemma day_shard_set d day sh s : day_shard d (set_shard day sh s) = if decide (d = day) then sh else day_shard d s.
Proof.
  unfold day_shard, set_shard; simpl. case_decide as E; [subst|].
  - apply lookup_total_insert_eq.
  - by apply lookup_total_insert_ne.
Qed.

Lemma day_shard_empty d s : ms_shards s = ∅ -> day_shard d s = new_shard.
Proof. unfold day_shard. intros ->. by rewrite lookup_total_alt, lookup_empty. Qed.

Lemma day_shard_locked {A} d day (f : Z -> shard -> A * shard) s :
  day_shard d (locked day f s).2 = if decide (d = day) then (f (ms_next s) (day_shard day s)).2 else day_shard d s.
Proof. unfold locked. destruct (f _ _) as [a sh]. apply day_shard_set. Qed.

Lemma locked_fst {A} day (f : Z -> shard -> A * shard) s : (locked day f s).1 = (f (ms_next s) (day_shard day s)).1.
Proof. unfold locked. by destruct (f _ _). Qed.

Lemma locked_next {A} day (f : Z -> shard -> A * shard) s : ms_next (locked day f s).2 = ms_next s + 1.
Proof. unfold locked. by destruct (f _ _). Qed.

Lemma locked_set {A} day (f : Z -> shard -> A * shard) s : ms_set (locked day f s).2 = ms_set s.
Proof. unfold locked. by destruct (f _ _). Qed.

Lemma lookup_foldr_delete {V} (d : dict string V) ks k : foldr delete d ks !! k = if decide (k ∈ ks) then None else d !! k.
Proof.
  induction ks as [|k' ks IH]; [by rewrite decide_False by set_solver|]. cbn [foldr].
  rewrite dict_lookup_delete, IH. repeat case_decide; set_solver.
Qed.

Lemma foldr_delete_wf {V} (d : dict string V) ks : dict_wf d -> dict_wf (foldr delete d ks).
Proof. intros Hd. induction ks; simpl; [done|by apply dict_wf_delete]. Qed.

(** ** Blocks on a shard *)

(** What every block under a shard's lock respects, [es] the events it popped and
    [ending] the identities whose populate it may end. *)
Record shard_step (ending : string -> Prop) (fresh : Z) (sh : shard) (es : list (option Z)) (sh' : shard) : Prop := {
  ss_wf : dict_wf (sh_events sh');
  ss_members : forall i o, sh_members sh' !! i = Some o -> sh_members sh !! i = Some o \/ o.1 = fresh;
  ss_owner : forall i, is_Some (sh_populate_owner sh !! i) -> is_Some (sh_populate_owner sh' !! i) \/ ending i;
  ss_kept : forall i e, sh_events sh !! i = Some e -> sh_events sh' !! i = Some e \/ Some e ∈ es;
  ss_new : forall i e, sh_events sh' !! i = Some e -> sh_events sh !! i = Some e \/
    (e = fresh /\ forall j, j <> i -> sh_events sh' !! j = sh_events sh !! j);
  ss_popped : forall e, Some e ∈ es -> exists i, sh_events sh !! i = Some e /\ sh_events sh' !! i = None;
  ss_complete : (forall i, is_complete_in sh i = true -> sh_events sh !! i = None) ->
    forall i, is_complete_in sh' i = true -> sh_events sh' !! i = None;
  ss_skip : sh_day_skip sh = None -> sh_day_skip sh' = None \/ sh_events sh' = ∅;
}.

(** A block that leaves the maps, the events and the owners alone. *)
Lemma shard_step_quiet P fresh sh sh' :
  dict_wf (sh_events sh) -> sh_members sh' = sh_members sh -> sh_complete sh' = sh_complete sh ->
  sh_events sh' = sh_events sh -> sh_populate_owner sh' = sh_populate_owner sh ->
  (sh_day_skip sh = None -> sh_day_skip sh' = None) -> shard_step P fresh sh [] sh'.
Proof.
  intros Hw Em Ec Ee Eo Es. constructor; unfold is_complete_in; rewrite ?Em, ?Ec, ?Ee, ?Eo; try tauto; try tauto; try (intros; by left); try set_solver.
Qed.

(** Dropping the stale identities. *)

Lemma drop_stale_lookup keep sh i :
  let r := drop_stale_identities keep sh in
  sh_members r.2 !! i = (if decide (is_stale keep sh i) then None else sh_members sh !! i) /\
  sh_events r.2 !! i = (if decide (is_stale keep sh i) then None else sh_events sh !! i) /\
  (is_complete_in r.2 i = true -> is_complete_in sh i = true) /\
  (~ is_stale keep sh i -> sh_complete r.2 !! i = sh_complete sh !! i) /\
  sh_populate_owner r.2 = sh_populate_owner sh /\ sh_day_skip r.2 = sh_day_skip sh.
Proof.
  cbv zeta. unfold drop_stale_identities. cbn [snd sh_members sh_events with_events with_complete with_members
    sh_populate_owner sh_day_skip]. unfold is_complete_in. cbn [sh_complete].
  assert (forall V (d : dict string V), (i ∈ filter (is_stale keep sh) (dict_keys d)) <-> is_stale keep sh i /\ is_Some (d !! i)) as Hf
    by (intros; by rewrite list_elem_of_filter, dict_keys_lookup).
  rewrite !lookup_foldr_delete. split_and!; [| | | |done..].
  - pose proof (Hf _ (sh_members sh)) as H. destruct (sh_members sh !! i) as [o|] eqn:E; case_decide; case_decide; try done.
    + exfalso. tauto.
    + exfalso. apply H0, H. by split; [|eexists].
  - pose proof (Hf _ (sh_events sh)) as H. destruct (sh_events sh !! i) as [o|] eqn:E; case_decide; case_decide; try done.
    + exfalso. tauto.
    + exfalso. apply H0, H. by split; [|eexists].
  - simpl. rewrite lookup_foldr_delete. by case_decide.
  - intros Hn. simpl. rewrite lookup_foldr_delete, decide_False; [done|]. rewrite Hf. tauto.
Qed.

Lemma drop_stale_popped keep sh e :
  e ∈ (drop_stale_identities keep sh).1 <-> exists i, is_stale keep sh i /\ sh_events sh !! i = Some e.
Proof.
  unfold drop_stale_identities. cbn [fst]. rewrite list_elem_of_omap. split.
  - intros (i & [Hs _]%list_elem_of_filter & He). by exists i.
  - intros (i & Hs & He). exists i. rewrite list_elem_of_filter, dict_keys_lookup. by split_and!; [|rewrite He|].
Qed.

Lemma drop_stale_wf keep sh : dict_wf (sh_events sh) -> dict_wf (sh_events (drop_stale_identities keep sh).2).
Proof. intros. by apply foldr_delete_wf. Qed.

(** The part of a block before it pops events: [identity] may become complete. *)
Record prepared (ending : string -> Prop) (fresh : Z) (identity : string) (sh sh1 : shard) : Prop := {
  pr_wf : dict_wf (sh_events sh);
  pr_events : sh_events sh1 = sh_events sh;
  pr_members : forall i o, sh_members sh1 !! i = Some o -> sh_members sh !! i = Some o \/ o.1 = fresh;
  pr_owner : forall i, is_Some (sh_populate_owner sh !! i) -> is_Some (sh_populate_owner sh1 !! i) \/ ending i;
  pr_complete : forall i, i <> identity -> is_complete_in sh1 i = true -> is_complete_in sh i = true;
  pr_skip : sh_day_skip sh1 = sh_day_skip sh;
}.

Lemma wake_step P fresh identity sh sh1 :
  prepared P fresh identity sh sh1 ->
  shard_step P fresh sh [(wake_and_drop_event identity sh1).1] (wake_and_drop_event identity sh1).2.
Proof.
  intros [Hw He Hm Ho Hc Hk]. unfold wake_and_drop_event. cbn [fst snd].
  constructor; unfold is_complete_in in *; cbn; rewrite ?He; auto.
  - by apply dict_wf_delete.
  - intros i e Hi. rewrite dict_lookup_delete. case_decide; subst; [right; set_solver|by left].
  - intros i e. rewrite dict_lookup_delete. case_decide; [done|]. by left.
  - intros e Hin%list_elem_of_singleton. exists identity. by rewrite dict_lookup_delete_eq.
  - intros Hall i Hi. rewrite dict_lookup_delete. case_decide; [done|]. apply Hall, Hc; [done|exact Hi].
  - intros Hs. left. by rewrite Hk.
Qed.

(** Then the stale identities go. *)
Lemma wake_drop_step P fresh identity sh sh1 :
  prepared P fresh identity sh sh1 ->
  let '(e, sh2) := wake_and_drop_event identity sh1 in
  let '(es, sh3) := drop_stale_identities identity sh2 in
  shard_step P fresh sh (e :: (Some <$> es)) sh3.
Proof.
  intros Hp. pose proof (wake_step P fresh identity sh sh1 Hp) as Hs. unfold wake_and_drop_event in *.
  set (sh2 := with_events _ sh1) in *. cbn [fst snd] in Hs.
  assert (forall i x, sh_events sh2 !! i = Some x -> sh_events sh !! i = Some x) as Hsub.
  { intros i x. unfold sh2. cbn. rewrite (pr_events _ _ _ _ _ Hp), dict_lookup_delete. by case_decide. }
  assert (sh_day_skip sh2 = sh_day_skip sh) as Hskip by apply (pr_skip _ _ _ _ _ Hp).
  pose proof (drop_stale_lookup identity sh2) as Hl. pose proof (drop_stale_popped identity sh2) as Hpop.
  pose proof (drop_stale_wf identity sh2 (ss_wf _ _ _ _ _ Hs)) as Hwf. generalize dependent sh2. intros sh2 Hs Hsub Hskip Hl Hpop Hwf.
  destruct (drop_stale_identities identity sh2) as [es sh3]. cbn [fst snd] in *. destruct Hs. constructor; [done|..].
  - intros i o. rewrite (proj1 (Hl i)). case_decide; [done|]. auto.
  - intros i Hi. destruct (Hl i) as (_ & _ & _ & _ & -> & _). auto.
  - intros i x Hi. destruct (Hl i) as (_ & -> & _). destruct (ss_kept0 i x Hi) as [H2|H2].
    + case_decide; [right|by left]. apply elem_of_cons. right. apply list_elem_of_fmap. exists x. split; [done|].
      apply Hpop. by exists i.
    + right. apply list_elem_of_singleton in H2 as <-. left.
  - intros i x. rewrite (proj1 (proj2 (Hl i))). case_decide; [done|]. intros Hx. left. by apply Hsub.
  - intros x [Hx|Hx]%elem_of_cons.
    + destruct (ss_popped0 x) as (i & Hi & Hn); [rewrite Hx; left|]. exists i. split; [done|].
      rewrite (proj1 (proj2 (Hl i))), Hn. by case_decide.
    + apply list_elem_of_fmap in Hx as (y & [= ->] & (i & Hst & Hi)%Hpop). exists i. split; [by apply Hsub|].
      rewrite (proj1 (proj2 (Hl i))). by rewrite decide_True.
  - intros Hall i Hi. rewrite (proj1 (proj2 (Hl i))). case_decide; [done|]. apply ss_complete0; [done|]. by apply Hl.
  - intros Hn. destruct (Hl identity) as (_ & _ & _ & _ & _ & ->). left. congruence.
Qed.

(** ** The blocks *)

Lemma complete_insert i j c b : default false ((<[i := b]> c : dict string bool) !! j) = if decide (i = j) then b else default false (c !! j).
Proof. rewrite dict_lookup_insert. by case_decide. Qed.

Lemma event_step P identity fresh sh :
  dict_wf (sh_events sh) -> is_complete_in sh identity = false ->
  shard_step P fresh sh [] (event_locked identity fresh sh).2.
Proof.
  intros Hw Hc. unfold event_locked. destruct (sh_events sh !! identity) as [e|] eqn:Ee; [by apply shard_step_quiet|].
  constructor; cbn; try (intros; by left); try set_solver.
  - by apply dict_wf_insert.
  - intros i e Hi. left. rewrite dict_lookup_insert_ne; [done|]. intros E. congruence.
  - intros i e. rewrite dict_lookup_insert. case_decide; [|by left]. intros [= <-]. right. split; [done|].
    intros j Hj. rewrite dict_lookup_insert_ne by congruence. done.
  - unfold is_complete_in in *. cbn. intros Hall i Hi. rewrite dict_lookup_insert. case_decide; [congruence|by apply Hall].
Qed.

Lemma begin_step P identity thread fresh sh :
  dict_wf (sh_events sh) ->
  shard_step P fresh sh [] (try_begin_populate_locked identity thread fresh sh).2.
Proof.
  intros Hw. unfold try_begin_populate_locked. case_decide; [by apply shard_step_quiet|].
  destruct (is_complete_in sh identity) eqn:Ec; [by apply shard_step_quiet|].
  set (sh1 := with_populate_owner _ sh).
  pose proof (event_step (fun _ => False) identity fresh sh1 Hw Ec) as Hs. destruct (event_locked identity fresh sh1) as [e sh2].
  cbn [snd] in *. destruct Hs. constructor; auto.
  intros i Hi. left. destruct (ss_owner0 i) as [?|?]; [|done..].
  unfold sh1. cbn. rewrite dict_lookup_insert. case_decide; [by eexists|done].
Qed.

Lemma wait_step P identity fresh sh :
  dict_wf (sh_events sh) -> shard_step P fresh sh [] (wait_poll_locked identity fresh sh).2.
Proof.
  intros Hw. unfold wait_poll_locked. destruct (sh_day_skip sh); [by apply shard_step_quiet|].
  destruct (is_complete_in sh identity) eqn:Ec; [by apply shard_step_quiet|].
  pose proof (event_step P identity fresh sh Hw Ec) as Hs. by destruct (event_locked identity fresh sh).
Qed.

(** Field by field; [identity] may get a map, become complete and lose its owner. *)
Ltac prepare Hw :=
  constructor; [exact Hw|reflexivity|..]; cbn;
    [ intros ? ?; rewrite ?dict_lookup_insert, ?dict_lookup_delete; repeat case_decide;
        first [by left | by intros [= <-]; right | done]
    | intros ?; rewrite ?dict_lookup_insert, ?dict_lookup_delete; repeat case_decide; by eauto
    | intros ? ?; unfold is_complete_in; cbn; rewrite ?dict_lookup_insert, ?dict_lookup_delete; repeat case_decide; congruence
    | reflexivity ].

Lemma finish_step identity members complete fresh sh :
  dict_wf (sh_events sh) ->
  let r := finish_populate_locked identity members complete fresh sh in
  shard_step (eq identity) fresh sh r.1 r.2.
Proof.
  intros Hw. unfold finish_populate_locked. set (sh1 := with_populate_owner _ _).
  assert (prepared (eq identity) fresh identity sh sh1) as Hp by (unfold sh1; destruct members, complete; prepare Hw).
  destruct complete.
  - pose proof (wake_drop_step _ _ _ _ _ Hp) as Hs. destruct (wake_and_drop_event identity sh1) as [e sh2].
    by destruct (drop_stale_identities identity sh2).
  - apply (wake_step _ _ _ _ _ Hp).
Qed.

Lemma store_complete_step P identity members dup fresh sh :
  dict_wf (sh_events sh) ->
  let r := store_complete_locked identity members dup fresh sh in shard_step P fresh sh r.1 r.2.
Proof.
  intros Hw. unfold store_complete_locked. set (sh1 := if dup then _ else _).
  assert (prepared P fresh identity sh sh1) as Hp by (unfold sh1; destruct dup; prepare Hw).
  pose proof (wake_drop_step _ _ _ _ _ Hp) as Hs. destruct (wake_and_drop_event identity sh1) as [e sh2].
  by destruct (drop_stale_identities identity sh2).
Qed.

Lemma publish_step P identity ref current dup fresh sh :
  dict_wf (sh_events sh) ->
  let r := merge_publish_locked identity ref current dup fresh sh in shard_step P fresh sh (default [] r.1) r.2.
Proof.
  intros Hw. unfold merge_publish_locked. destruct (same_ref _ ref); [|by apply shard_step_quiet].
  set (sh1 := with_degraded false _).
  assert (prepared P fresh identity sh sh1) as Hp by (unfold sh1; destruct dup; prepare Hw).
  pose proof (wake_drop_step _ _ _ _ _ Hp) as Hs. destruct (wake_and_drop_event identity sh1) as [e sh2].
  by destruct (drop_stale_identities identity sh2).
Qed.

Lemma clear_step identity fresh sh :
  dict_wf (sh_events sh) ->
  let r := clear_incomplete_locked identity sh in shard_step (eq identity) fresh sh [r.1] r.2.
Proof.
  intros Hw. unfold clear_incomplete_locked. destruct (is_complete_in sh identity) eqn:Ec.
  - constructor; cbn; try (intros; by left); try done. by intros e ?%list_elem_of_singleton.
  - set (sh1 := with_populate_owner _ _). apply (wake_step (eq identity) fresh identity sh sh1). unfold sh1. prepare Hw.
Qed.

Lemma invalidate_step identity fresh sh :
  dict_wf (sh_events sh) ->
  let r := invalidate_locked identity sh in shard_step (eq identity) fresh sh [r.1] r.2.
Proof.
  intros Hw. unfold invalidate_locked. set (sh1 := with_populate_source _ _).
  apply (wake_step (eq identity) fresh identity sh sh1). unfold sh1. prepare Hw.
Qed.

Lemma skip_step P kind detail now fresh sh :
  dict_wf (sh_events sh) ->
  let r := set_day_skip_locked kind detail now sh in shard_step P fresh sh r.1 r.2.
Proof.
  intros Hw. cbn. constructor; cbn; try (intros; by left); try done.
  - intros i e Hi. right. apply list_elem_of_fmap. exists e. split; [done|]. apply elem_values; [done|by exists i].
  - intros e (x & [= ->] & Hx)%list_elem_of_fmap. apply elem_values in Hx as [i Hi]; [|done]. by exists i.
  - by right.
Qed.

(** ** Threads *)

(** The store, the popped events still to be set, the payloads still to be saved. *)
Record world := World {
  w_store : members_store;
  w_waking : list Z;
  w_saving : list (string * json);
}.

(** What a step does to populates: begin one, with the answer, or end those of an
    identity, or all. *)
Inductive label :=
| LBegin (day identity : string) (ok : bool)
| LEnds (day identity : string)
| LEndsAll
| LOther.

Definition ends (l : label) (day identity : string) : Prop := l = LEnds day identity \/ l = LEndsAll.

(** The single-field updates: flags, reasons, restore tokens, populate sources. *)
Inductive flag_update : (shard -> shard) -> Prop :=
| fu_degraded b : flag_update (with_degraded b)
| fu_dedupe_hint : flag_update (with_dedupe_hint false)
| fu_tar_hot r : flag_update (with_tar_hot r)
| fu_append_inflight b : flag_update (with_append_inflight b)
| fu_clear_skip : flag_update (with_day_skip None)
| fu_touch_skip now : flag_update (fun sh => match sh_day_skip sh with
    | Some k => with_day_skip (Some (DaySkip (sk_kind k) (sk_detail k) (Some now))) sh | None => sh end)
| fu_restore r : flag_update (with_restore r)
| fu_set_source c v : flag_update (fun sh => with_populate_source (<[c := v]> (sh_populate_source sh)) sh)
| fu_take_source c : flag_update (fun sh => with_populate_source (delete c (sh_populate_source sh)) sh).

(** A block under a shard's lock: its day, its label, the function and the events it
    hands out. *)
Inductive shard_block : string -> label -> (Z -> shard -> list (option Z) * shard) -> Prop :=
| sb_finish day i members complete : shard_block day (LEnds day i) (finish_populate_locked i members complete)
| sb_store day i members dup : shard_block day LOther (store_complete_locked i members dup)
| sb_publish day i ref current dup :
    shard_block day LOther (fun fresh sh => let r := merge_publish_locked i ref current dup fresh sh in (default [] r.1, r.2))
| sb_clear day i : shard_block day (LEnds day i) (fun _ sh => let r := clear_incomplete_locked i sh in ([r.1], r.2))
| sb_invalidate day i : shard_block day (LEnds day i) (fun _ sh => let r := invalidate_locked i sh in ([r.1], r.2))
| sb_wait day i : shard_block day LOther (fun fresh sh => ([], (wait_poll_locked i fresh sh).2))
| sb_skip day kind detail now : shard_block day LOther (fun _ sh => set_day_skip_locked kind detail now sh)
| sb_flag day f : flag_update f -> shard_block day LOther (fun _ sh => ([], f sh)).

(** The queue's blocks leave the shards alone. *)
Inductive queue_block : members_store -> members_store -> Prop :=
| qb_enqueue job rank s : queue_block s (enqueue_populate_ranked job rank s).2
| qb_dequeue s : queue_block s (dequeue_populate s).2
| qb_complete job s : queue_block s (complete_populate_job job s)
| qb_requeue job rank s : queue_block s (enqueue_populate_job job rank s).

Inductive wstep : label -> world -> world -> Prop :=
| ws_begin day i thread s wk sv :
    wstep (LBegin day i (try_begin_populate day i thread s).1) (World s wk sv)
      (World (try_begin_populate day i thread s).2 wk sv)
| ws_block day l f s wk sv :
    shard_block day l f ->
    wstep l (World s wk sv) (World (locked day f s).2 (wk ++ omap id (locked day f s).1) sv)
| ws_queue s s' wk sv : queue_block s s' -> wstep LOther (World s wk sv) (World s' wk sv)
| ws_invalidate_all s wk sv :
    wstep LEndsAll (World s wk sv)
      (World (with_queue [] [] ∅ (with_shards ∅ s))
        (wk ++ mjoin ((fun ds => dict_values (sh_events ds.2)) <$> map_to_list (ms_shards s))) sv)
| ws_unlink name s wk sv : wstep LOther (World s wk sv) (World (with_disk (delete name (ms_disk s)) s) wk sv)
| ws_wake s wk1 e wk2 sv :
    wstep LOther (World s (wk1 ++ e :: wk2) sv) (World (set_threading_events [Some e] s) (wk1 ++ wk2) sv)
| ws_persist day s wk sv :
    wstep LOther (World s wk sv) (World s wk (sv ++ [(day, day_payload day (day_shard day s))]))
| ws_save day payload s wk sv1 sv2 :
    wstep LOther (World s wk (sv1 ++ (day, payload) :: sv2)) (World (persist_save day payload s) wk (sv1 ++ sv2)).

(** A run and the labels of its steps. *)
Inductive run : world -> list label -> world -> Prop :=
| run_nil w : run w [] w
| run_step w l w1 ls w2 : wstep l w w1 -> run w1 ls w2 -> run w (l :: ls) w2.

Definition members_reachable (w : world) : Prop :=
  exists disk ls, run (World (empty_members_store disk) [] []) ls w.

(** ** The invariant of the threads *)

Definition reg (s : members_store) (day identity : string) : option Z := sh_events (day_shard day s) !! identity.
Definition map_at (s : members_store) (day identity : string) : option member_obj := sh_members (day_shard day s) !! identity.

(** Objects are older than the counter, an event is registered in one place and not yet
    handed out, and none is registered for a complete identity. *)
Record world_wf (w : world) : Prop := {
  ww_dict : forall d, dict_wf (sh_events (day_shard d (w_store w)));
  ww_maps : forall d i o, map_at (w_store w) d i = Some o -> o.1 < ms_next (w_store w);
  ww_regs : forall d i e, reg (w_store w) d i = Some e -> e < ms_next (w_store w);
  ww_inj : forall d i d' i' e, reg (w_store w) d i = Some e -> reg (w_store w) d' i' = Some e -> d = d' /\ i = i';
  ww_out : forall d i e, reg (w_store w) d i = Some e -> e ∉ w_waking w /\ e ∉ ms_set (w_store w);
  ww_ids : forall e, e ∈ w_waking w \/ e ∈ ms_set (w_store w) -> e < ms_next (w_store w);
  ww_complete : forall d i, is_complete d i (w_store w) = true -> reg (w_store w) d i = None;
}.

(** What a step does to one day. *)
Record day_step (w w' : world) : Prop := {
  ds_next : ms_next (w_store w) <= ms_next (w_store w');
  ds_maps : forall d i o, map_at (w_store w') d i = Some o -> map_at (w_store w) d i = Some o \/ ms_next (w_store w) <= o.1;
  ds_regs : forall d i e, reg (w_store w) d i = Some e ->
    reg (w_store w') d i = Some e \/ e ∈ w_waking w' \/ e ∈ ms_set (w_store w');
  ds_out : forall e, e ∈ w_waking w \/ e ∈ ms_set (w_store w) -> e ∈ w_waking w' \/ e ∈ ms_set (w_store w');
  ds_skip : forall d i e, get_day_skip d (w_store w) = None -> reg (w_store w) d i = Some e -> reg (w_store w') d i = Some e ->
    get_day_skip d (w_store w') = None;
}.

Lemma elem_omap_id (es : list (option Z)) e : e ∈ omap id es <-> Some e ∈ es.
Proof. rewrite list_elem_of_omap. split; [intros (x & Hin & E); unfold id in E; by subst x|]. by exists (Some e). Qed.

Lemma flag_step P f fresh sh : flag_update f -> dict_wf (sh_events sh) -> shard_step P fresh sh [] (f sh).
Proof. destruct 1; intros Hw; try (by apply shard_step_quiet). by apply shard_step_quiet; destruct (sh_day_skip sh) eqn:E. Qed.

Lemma block_shard_step day l f fresh sh :
  shard_block day l f -> dict_wf (sh_events sh) ->
  shard_step (fun i => ends l day i) fresh sh (f fresh sh).1 (f fresh sh).2.
Proof.
  assert (forall (P Q : string -> Prop) es sh', (forall i, P i -> Q i) -> shard_step P fresh sh es sh' -> shard_step Q fresh sh es sh') as Hmono.
  { intros P Q es sh' HPQ [? ? Ho ? ? ? ? ?]. constructor; auto. intros i Hi. destruct (Ho i Hi); auto. }
  assert (forall d j, forall i, j = i -> ends (LEnds d j) d i) as He by (intros d j i ->; by left).
  destruct 1; intros Hw.
  - eapply Hmono; [apply He|]. by apply finish_step.
  - by apply store_complete_step.
  - by apply publish_step.
  - eapply Hmono; [apply He|]. by apply clear_step.
  - eapply Hmono; [apply He|]. by apply invalidate_step.
  - by apply wait_step.
  - by apply skip_step.
  - by apply flag_step.
Qed.

Section lift.
Context (P : string -> Prop) (day : string) (s : members_store) (wk : list Z) (sv : list (string * json)).
Context (es : list (option Z)) (sh' : shard).
Hypothesis Hstep : shard_step P (ms_next s) (day_shard day s) es sh'.
Hypothesis Hwf : world_wf (World s wk sv).

Let s' := with_next (ms_next s + 1) (set_shard day sh' s).

Lemma lift_shard d : day_shard d s' = if decide (d = day) then sh' else day_shard d s.
Proof. apply day_shard_set. Qed.

Lemma lift_new d i e : reg s' d i = Some e -> reg s d i = Some e \/
  (e = ms_next s /\ forall d' j, (d', j) <> (d, i) -> reg s' d' j = Some e -> reg s d' j = Some e).
Proof.
  unfold reg. rewrite lift_shard. case_decide as Hd; [subst d|by left]. intros He.
  destruct (ss_new _ _ _ _ _ Hstep i e He) as [|[-> Hj]]; [by left|right]. split; [done|]. intros d' j Hne.
  rewrite lift_shard. case_decide as Hd; [subst|done]. rewrite Hj; [done|congruence].
Qed.

Lemma lift_wf : world_wf (World s' (wk ++ omap id es) sv).
Proof.
  destruct Hwf as [Hd Hm Hr Hi Ho Hids Hc]. cbn [w_store w_waking] in *.
  assert (forall d i, reg s d i <> Some (ms_next s)) as Hnf by (intros d i Hx%Hr; lia).
  assert (forall e, Some e ∈ es -> exists i, reg s day i = Some e /\ reg s' day i = None) as Hpop.
  { intros e (i & H1 & H2)%(ss_popped _ _ _ _ _ Hstep). exists i. split; [done|]. unfold reg. rewrite lift_shard. by rewrite decide_True. }
  constructor; cbn [w_store w_waking]; change (ms_next s') with (ms_next s + 1); change (ms_set s') with (ms_set s).
  - intros d. rewrite lift_shard. case_decide; [apply Hstep|apply Hd].
  - intros d i o. unfold map_at. rewrite lift_shard. case_decide as E.
    + subst. intros [Hx%(Hm day)| ->]%(ss_members _ _ _ _ _ Hstep); lia.
    + intros Hx%Hm. lia.
  - intros d i e [Hx%Hr|[-> _]]%lift_new; lia.
  - intros d i d' i' e H1 H2. destruct (decide ((d', i') = (d, i))) as [[= -> ->]|Hne]; [done|].
    destruct (lift_new _ _ _ H1) as [H1'|[-> Hn1]]; [|by apply Hn1, Hnf in H2].
    destruct (lift_new _ _ _ H2) as [H2'|[-> Hn2]]; [by eapply Hi|]. by apply Hnf in H1'.
  - intros d i e H1. rewrite elem_of_app, elem_omap_id. destruct (lift_new _ _ _ H1) as [H1'|[-> _]].
    + destruct (Ho _ _ _ H1') as [H2 H3]. split; [|done]. intros [?|Hx]; [done|].
      apply Hpop in Hx as (j & Hj & Hn). destruct (Hi _ _ _ _ _ H1' Hj) as [-> ->]. congruence.
    + split; [|intros Hx; specialize (Hids (ms_next s)); lia || (assert (ms_next s < ms_next s) by (apply Hids; by right); lia)].
      intros [Hx|(j & Hj & _)%Hpop]; [|by apply Hnf in Hj]. assert (ms_next s < ms_next s) by (apply Hids; by left). lia.
  - intros e. rewrite elem_of_app, elem_omap_id. intros [[Hx|(j & Hj%Hr & _)%Hpop]|Hx]; [|lia|];
      assert (e < ms_next s) by (apply Hids; auto); lia.
  - intros d i. unfold is_complete, reg. rewrite lift_shard. case_decide as E; [subst|apply Hc].
    apply (ss_complete _ _ _ _ _ Hstep). intros j. apply (Hc day).
Qed.

Lemma lift_day : day_step (World s wk sv) (World s' (wk ++ omap id es) sv).
Proof.
  constructor; cbn [w_store w_waking]; change (ms_next s') with (ms_next s + 1); change (ms_set s') with (ms_set s).
  - lia.
  - intros d i o. unfold map_at. rewrite lift_shard. case_decide; [subst|by left].
    intros [?| ->]%(ss_members _ _ _ _ _ Hstep); [by left|right; lia].
  - intros d i e. unfold reg. rewrite lift_shard, elem_of_app, elem_omap_id. case_decide; [subst|auto].
    intros [?|?]%(ss_kept _ _ _ _ _ Hstep); auto.
  - intros e. rewrite elem_of_app. tauto.
  - intros d i e Hk _. unfold reg, get_day_skip in *. rewrite lift_shard. case_decide; [subst|done].
    intros He. destruct (ss_skip _ _ _ _ _ Hstep Hk) as [|E]; [done|]. by rewrite E in He.
Qed.

Lemma lift_owner d i : is_Some (sh_populate_owner (day_shard d s) !! i) ->
  is_Some (sh_populate_owner (day_shard d s') !! i) \/ (d = day /\ P i).
Proof. intros Hi. rewrite lift_shard. case_decide; [subst|auto]. destruct (ss_owner _ _ _ _ _ Hstep i Hi); auto. Qed.
End lift.

Lemma wf_same s s' wk wk' sv sv' :
  ms_shards s' = ms_shards s -> ms_next s' = ms_next s ->
  (forall e, e ∈ wk' \/ e ∈ ms_set s' -> e ∈ wk \/ e ∈ ms_set s) ->
  world_wf (World s wk sv) -> world_wf (World s' wk' sv').
Proof.
  intros Es En Hsub [Hd Hm Hr Hi Ho Hids Hc]. unfold reg, map_at, is_complete, day_shard in *. cbn [w_store w_waking] in *.
  constructor; cbn [w_store w_waking]; unfold reg, map_at, is_complete, day_shard; rewrite ?Es, ?En; auto.
  intros d i e He. specialize (Ho d i e He). specialize (Hsub e). tauto.
Qed.

Lemma day_same s s' wk wk' sv sv' :
  ms_shards s' = ms_shards s -> ms_next s' = ms_next s ->
  (forall e, e ∈ wk \/ e ∈ ms_set s -> e ∈ wk' \/ e ∈ ms_set s') ->
  day_step (World s wk sv) (World s' wk' sv').
Proof.
  intros Es En Hsub. constructor; cbn [w_store w_waking]; unfold reg, map_at, get_day_skip, day_shard; rewrite ?Es, ?En; auto.
  lia.
Qed.

Lemma queue_block_same s s' : queue_block s s' -> ms_shards s' = ms_shards s /\ ms_next s' = ms_next s /\ ms_set s' = ms_set s.
Proof.
  assert (forall job rank s, let s' := enqueue_populate_job job rank s in
    ms_shards s' = ms_shards s /\ ms_next s' = ms_next s /\ ms_set s' = ms_set s) as He.
  { intros job rank s0. unfold enqueue_populate_job. by destruct (0 <? rank). }
  destruct 1 as [job rank s|s|job s|job rank s].
  - unfold enqueue_populate_ranked. case_decide; [done|]. cbn [snd]. case_decide; [apply He|].
    destruct (He job rank (with_queue (ms_jobs_hot s) (ms_jobs_cold s) ({[job_day job]} ∪ ms_queued s) s)) as (-> & -> & ->). done.
  - unfold dequeue_populate. by destruct (ms_jobs_hot s), (ms_jobs_cold s).
  - unfold complete_populate_job. by case_decide.
  - apply He.
Qed.

Lemma persist_save_same day p s :
  ms_shards (persist_save day p s) = ms_shards s /\ ms_next (persist_save day p s) = ms_next s /\ ms_set (persist_save day p s) = ms_set s.
Proof. unfold persist_save. by destruct (save_persistence_document _ _ _). Qed.

(** Beginning a populate is a block that clears an event still registered. *)
Lemma begin_world day i thread s wk sv :
  world_wf (World s wk sv) ->
  let s' := (try_begin_populate day i thread s).2 in
  world_wf (World s' wk sv) /\ day_step (World s wk sv) (World s' wk sv).
Proof.
  intros Hw. cbv zeta. pose proof (begin_step (fun _ => False) i thread (ms_next s) (day_shard day s) (ww_dict _ Hw day)) as Hs.
  pose proof (lift_wf _ day s wk sv [] _ Hs Hw) as Hw'. pose proof (lift_day _ day s wk sv [] _ Hs) as Hd'. rewrite app_nil_r in *.
  unfold try_begin_populate, locked.
  assert (forall e, (try_begin_populate_locked i thread (ms_next s) (day_shard day s)).1.2 = Some e ->
    sh_events (try_begin_populate_locked i thread (ms_next s) (day_shard day s)).2 !! i = Some e) as He.
  { unfold try_begin_populate_locked, event_locked. intros e. case_decide; [done|]. destruct (is_complete_in _ _); [done|]. cbn.
    destruct (sh_events (day_shard day s) !! i) as [x|] eqn:E; cbn; intros [= <-]; [done|apply dict_lookup_insert_eq]. }
  destruct (try_begin_populate_locked i thread (ms_next s) (day_shard day s)) as [[ok [e|]] sh']; cbn [fst snd] in *; [|done].
  specialize (He e eq_refl). split.
  - eapply wf_same, Hw'; [done..|]. intros x. cbn. set_solver.
  - assert (reg (with_next (ms_next s + 1) (set_shard day sh' s)) day i = Some e) as Hreg.
    { unfold reg. rewrite lift_shard. by rewrite decide_True. }
    destruct Hd' as [H1 H2 H3 H4 H5]. constructor; try done; cbn [w_store w_waking] in *.
    + intros d j x Hx. destruct (H3 d j x Hx) as [|Ho]; [by left|]. exfalso. cbn in Ho. by apply (ww_out _ Hw) in Hx as [? ?]; destruct Ho.
    + intros x Hx. cbn. destruct Hx as [?|Hx]; [by left|right]. apply elem_of_difference. split; [done|].
      intros ->%elem_of_singleton. by destruct (ww_out _ Hw' _ _ _ Hreg).
Qed.

Lemma elem_all_events s e :
  (forall d, dict_wf (sh_events (day_shard d s))) ->
  e ∈ mjoin ((fun ds => dict_values (sh_events ds.2)) <$> map_to_list (ms_shards s)) <-> exists d i, reg s d i = Some e.
Proof.
  intros Hd. rewrite list_elem_of_join. setoid_rewrite list_elem_of_fmap. unfold reg, day_shard in *. split.
  - intros (l & He & ([d sh] & -> & Hin%elem_of_map_to_list)). simpl in He. specialize (Hd d).
    rewrite lookup_total_alt, Hin in Hd. apply elem_values in He as [i Hi]; [|done]. exists d, i.
    by rewrite lookup_total_alt, Hin.
  - intros (d & i & Hi). rewrite lookup_total_alt in Hi. destruct (ms_shards s !! d) as [sh|] eqn:E; [|done].
    exists (dict_values (sh_events sh)). specialize (Hd d). rewrite lookup_total_alt, E in Hd. split.
    + apply elem_values; [done|by exists i].
    + exists (d, sh). split; [done|]. by apply elem_of_map_to_list.
Qed.

Lemma wstep_world l w w' : world_wf w -> wstep l w w' -> world_wf w' /\ day_step w w'.
Proof.
  intros Hw Hs. destruct Hs as [day i thread s wk sv|day l f s wk sv Hb|s s' wk sv Hq|s wk sv|name s wk sv|s wk1 e wk2 sv|day s wk sv|day p s wk sv1 sv2].
  - by apply begin_world.
  - pose proof (block_shard_step day l f (ms_next s) _ Hb (ww_dict _ Hw day)) as Hs. unfold locked. cbn [w_store] in Hs.
    destruct (f (ms_next s) (day_shard day s)) as [es sh']. cbn [fst snd] in *. split; [by eapply lift_wf|by eapply lift_day].
  - apply queue_block_same in Hq as (E1 & E2 & E3). split; [eapply wf_same, Hw|apply day_same]; rewrite ?E3; done.
  - set (s' := with_queue _ _ _ _). assert (forall d, day_shard d s' = new_shard) as Hn
      by (intros; by apply day_shard_empty).
    pose proof (elem_all_events s) as Hall. split.
    + destruct Hw as [Hd Hm Hr Hi Ho Hids Hc]. cbn [w_store w_waking] in *.
      constructor; cbn [w_store w_waking]; unfold map_at, reg, is_complete; intros; try (rewrite Hn in *; done).
      * rewrite Hn. apply dict_wf_empty.
      * rewrite elem_of_app, Hall in H by done. change (ms_set s') with (ms_set s) in H. change (ms_next s') with (ms_next s).
        destruct H as [[?|(d & i & Hx)]|?]; [by apply Hids; left|by eapply Hr|by apply Hids; right].
    + constructor; cbn [w_store w_waking]; unfold map_at, reg, get_day_skip.
      * done.
      * intros d i o. by rewrite Hn.
      * intros d i e He. right; left. apply elem_of_app. right. apply Hall; [apply Hw|]. by exists d, i.
      * intros e [?|?]; [left; apply elem_of_app; by left|by right].
      * intros d i e _ _. by rewrite Hn.
  - split; [by eapply wf_same, Hw|by apply day_same].
  - split; [eapply wf_same, Hw|apply day_same]; try done; cbn; set_solver.
  - split; [by eapply wf_same, Hw|by apply day_same].
  - destruct (persist_save_same day p s) as (E1 & E2 & E3).
    split; [eapply wf_same, Hw|apply day_same]; rewrite ?E3; done.
Qed.

Lemma world_wf_init disk : world_wf (World (empty_members_store disk) [] []).
Proof.
  assert (forall d, day_shard d (empty_members_store disk) = new_shard) as Hn by (intros; by apply day_shard_empty).
  constructor; cbn [w_store w_waking]; unfold map_at, reg, is_complete; intros; try (rewrite Hn in *; done); try set_solver.
  - rewrite Hn. apply dict_wf_empty.
Qed.

Lemma run_wf w ls w' : world_wf w -> run w ls w' -> world_wf w'.
Proof. intros Hw Hr. revert Hw. induction Hr; intros; [done|]. apply IHHr. by eapply wstep_world. Qed.

Lemma members_reachable_wf w : members_reachable w -> world_wf w.
Proof. intros (disk & ls & Hr). eapply run_wf, Hr. apply world_wf_init. Qed.

(** ** Waiters *)


(** ** Merges *)

(** A map found later, older than the counter, was there all along. *)
Lemma run_maps w ls w' d i o :
  world_wf w -> run w ls w' -> map_at (w_store w') d i = Some o -> o.1 < ms_next (w_store w) -> map_at (w_store w) d i = Some o.
Proof.
  intros Hw Hr. revert Hw. induction Hr as [w|w l w1 ls w2 Hs Hr IH]; intros Hw Ho Hlt; [done|].
  destruct (wstep_world _ _ _ Hw Hs) as [Hw1 Hd]. pose proof (ds_next _ _ Hd).
  destruct (ds_maps _ _ Hd d i o) as [|]; [apply IH; [done..|lia]|done|lia].
Qed.

(** Publishing succeeds only on the very map that was read. *)
Lemma same_ref_read w ls w' d i :
  world_wf w -> run w ls w' ->
  same_ref (map_at (w_store w') d i) (map_at (w_store w) d i) = true -> map_at (w_store w') d i = map_at (w_store w) d i.
Proof.
  intros Hw Hr. unfold same_ref. destruct (map_at (w_store w') d i) as [o'|] eqn:E', (map_at (w_store w) d i) as [o|] eqn:E; try done.
  intros Heq%Z.eqb_eq. rewrite <- E, <- E'. symmetry. rewrite E'. eapply run_maps; [done..|].
  rewrite Heq. by apply (ww_maps _ Hw) in E.
Qed.

(** The larger of two sizes, a missing one being no bound. *)
Definition max_size (a b : option Z) : option Z :=
  match a, b with
  | Some x, Some y => Some (Z.max x y)
  | Some x, None => Some x
  | None, b => b
  end.

Lemma merge_member_lookup c name size n :
  merge_member c name size !! n = if decide (n = name) then max_size (c !! n) (Some size) else c !! n.
Proof.
  unfold merge_member. destruct (c !! name) as [p|] eqn:E.
  - destruct (p <? size) eqn:El; [apply Z.ltb_lt in El|apply Z.ltb_ge in El]; case_decide; subst; rewrite ?E; simpl.
    + rewrite dict_lookup_insert_eq. f_equal. lia.
    + by rewrite dict_lookup_insert_ne.
    + f_equal. lia.
    + done.
  - case_decide; subst; rewrite ?E; simpl; [apply dict_lookup_insert_eq|by rewrite dict_lookup_insert_ne].
Qed.

Lemma merge_current_lookup inc ref n :
  dict_wf inc -> merge_current inc ref !! n = max_size (from_option snd ∅ ref !! n) (inc !! n).
Proof.
  unfold merge_current. generalize (from_option snd ∅ ref : member_map). intros c Hinc.
  assert (forall l, NoDup l.*1 -> forall c : member_map,
    foldl (fun c ns => merge_member c ns.1 ns.2) c l !! n = max_size (c !! n) (Dict l !! n)) as Hl.
  { clear. induction l as [|[k z] l IH]; intros Hnd c; [simpl; by destruct (c !! n)|].
    apply NoDup_cons in Hnd as [Hk Hnd]. cbn [foldl fst snd]. rewrite (IH Hnd), merge_member_lookup.
    change (Dict ((k, z) :: l) !! n) with (if decide (n = k) then Some z else Dict l !! n).
    destruct (decide (n = k)) as [->|Hne]; [|done].
    assert (Dict l !! k = None) as ->; [|by destruct (c !! k)].
    apply eq_None_not_Some. intros Hx. apply (dict_keys_lookup (Dict l)) in Hx. done. }
  destruct inc as [l]. by apply Hl.
Qed.

Lemma publish_conflict i ref current dup fresh sh sh' :
  merge_publish_locked i ref current dup fresh sh = (None, sh') -> same_ref (sh_members sh !! i) ref = false.
Proof.
  unfold merge_publish_locked. destruct (same_ref _ ref); [|done]. unfold wake_and_drop_event.
  by destruct (drop_stale_identities _ _).
Qed.

(** The published block, when it succeeds. *)
Lemma publish_spec i ref current dup fresh sh es sh' :
  merge_publish_locked i ref current dup fresh sh = (Some es, sh') ->
  same_ref (sh_members sh !! i) ref = true /\ sh_members sh' !! i = Some (fresh, current) /\ is_complete_in sh' i = true /\
  sh_degraded sh' = false /\ (dup = true -> sh_dedupe_hint sh' = true) /\
  (forall j, j <> i -> sh_members sh' !! j = if decide (is_Some (sh_populate_owner sh !! j)) then sh_members sh !! j else None).
Proof.
  unfold merge_publish_locked. destruct (same_ref _ ref); [|done]. set (sh1 := with_degraded false _).
  unfold wake_and_drop_event. set (sh2 := with_events _ sh1). pose proof (drop_stale_lookup i sh2) as Hl.
  assert (forall x, sh_degraded (drop_stale_identities i x).2 = sh_degraded x /\ sh_dedupe_hint (drop_stale_identities i x).2 = sh_dedupe_hint x)
    as Hf by done. specialize (Hf sh2).
  destruct (drop_stale_identities i sh2) as [es' sh3]. cbn [snd] in *. intros [= <- <-]. split; [done|].
  assert (~ is_stale i sh2 i) as Hn by (by intros [? _]).
  split_and!.
  - rewrite (proj1 (Hl i)). rewrite decide_False by done. unfold sh2, sh1. destruct dup; cbn; apply dict_lookup_insert_eq.
  - destruct (Hl i) as (_ & _ & _ & Hc & _). unfold is_complete_in. rewrite (Hc Hn). unfold sh2, sh1.
    destruct dup; cbn; by rewrite dict_lookup_insert_eq.
  - by rewrite (proj1 Hf).
  - rewrite (proj2 Hf). by destruct dup.
  - intros j Hj. rewrite (proj1 (Hl j)). unfold is_stale.
    assert (sh_populate_owner sh2 = sh_populate_owner sh) as -> by (unfold sh2, sh1; by destruct dup).
    assert (sh_members sh2 !! j = sh_members sh !! j) as -> by (unfold sh2, sh1; destruct dup; cbn; by rewrite dict_lookup_insert_ne).
    destruct (sh_populate_owner sh !! j); case_decide as H1; case_decide as H2; naive_solver.
Qed.



(** ** Populates *)

Definition owned (w : world) (d i : string) : Prop := is_Some (sh_populate_owner (day_shard d (w_store w)) !! i).

Lemma begin_answer i thread fresh sh ok e sh' :
  try_begin_populate_locked i thread fresh sh = ((ok, e), sh') ->
  (ok = true <-> sh_populate_owner sh !! i = None /\ is_complete_in sh i = false) /\
  (ok = true -> sh_populate_owner sh' !! i = Some thread) /\ (ok = false -> sh' = sh /\ e = None).
Proof.
  unfold try_begin_populate_locked. case_decide as Ho; [intros [= <- <- <-]; split_and!; [|done..]|].
  { split; [done|]. intros [E _]. rewrite E in Ho. by destruct Ho. }
  destruct (is_complete_in sh i) eqn:Ec; [intros [= <- <- <-]; split_and!; [|done..]; by split; [|intros []]|].
  unfold event_locked. destruct (sh_events _ !! i); intros [= <- <- <-]; cbn.
  - split_and!; [|intros _; apply dict_lookup_insert_eq|done]. split; [|done]. split; [by apply eq_None_not_Some|done].
  - split_and!; [|intros _; apply dict_lookup_insert_eq|done]. split; [|done]. split; [by apply eq_None_not_Some|done].
Qed.

Lemma try_begin_shard d day i thread s :
  day_shard d (try_begin_populate day i thread s).2 =
    if decide (d = day) then (try_begin_populate_locked i thread (ms_next s) (day_shard day s)).2 else day_shard d s.
Proof.
  unfold try_begin_populate. pose proof (day_shard_locked d day (try_begin_populate_locked i thread) s) as Hl.
  unfold locked in *. destruct (try_begin_populate_locked _ _ _ _) as [[ok [e|]] sh']; exact Hl.
Qed.

Lemma wstep_owned l w w' d i : world_wf w -> wstep l w w' -> owned w d i -> owned w' d i \/ ends l d i.
Proof.
  intros Hw Hs Ho. unfold owned in *. destruct Hs as [day j thread s wk sv|day l f s wk sv Hb|s s' wk sv Hq|s wk sv| | | |day p s wk sv1 sv2];
    cbn [w_store] in *; auto.
  - left. rewrite try_begin_shard. case_decide; [subst|done].
    destruct (ss_owner _ _ _ _ _ (begin_step (fun _ => False) j thread (ms_next s) _ (ww_dict _ Hw day)) i Ho); done.
  - pose proof (block_shard_step day l f (ms_next s) _ Hb (ww_dict _ Hw day)) as Hs. cbn [w_store] in Hs.
    rewrite day_shard_locked. case_decide; [subst|auto]. by apply (ss_owner _ _ _ _ _ Hs).
  - left. apply queue_block_same in Hq as (E & _). unfold day_shard in *. by rewrite E.
  - right. by right.
Qed.

(** A successful begin. *)
Lemma wstep_begin w w' d i : wstep (LBegin d i true) w w' -> ~ owned w d i /\ is_complete d i (w_store w) = false /\ owned w' d i.
Proof.
  inversion 1 as [day j thread s wk sv Hok|day l f s wk sv Hb| | | | | | ]; subst; [|by inversion Hb].
  unfold owned, is_complete. cbn [w_store]. rewrite try_begin_shard, decide_True by done.
  unfold try_begin_populate, locked in *. destruct (try_begin_populate_locked i thread (ms_next s) (day_shard d s)) as [[ok e] sh'] eqn:Eb.
  cbn [fst snd] in *. subst. apply begin_answer in Eb as (Ha & Hb & _). destruct Ha as [Ha _]. destruct (Ha eq_refl) as [E1 E2].
  rewrite E1. split_and!; [by intros []|done|]. rewrite Hb by done. done.
Qed.

Lemma run_owned w ls w' d i : world_wf w -> run w ls w' -> owned w d i -> owned w' d i \/ exists l, l ∈ ls /\ ends l d i.
Proof.
  intros Hw Hr. revert Hw. induction Hr as [w|w l w1 ls w2 Hs Hr IH]; intros Hw Ho; [by left|].
  destruct (wstep_owned _ _ _ d i Hw Hs Ho) as [Ho1|He]; [|right; exists l; by split; [left|]].
  destruct (IH (proj1 (wstep_world _ _ _ Hw Hs)) Ho1) as [|(l' & ? & ?)]; [by left|]. right. exists l'. by split; [right|].
Qed.

Lemma members_run_app w ls1 ls2 w' : run w (ls1 ++ ls2) w' -> exists w1, run w ls1 w1 /\ run w1 ls2 w'.
Proof.
  revert w. induction ls1 as [|l ls1 IH]; intros w Hr; [exists w; by split; [constructor|]|].
  inversion Hr as [|? ? w1 ? ? Hs Hr1]; subst. destruct (IH _ Hr1) as (w2 & ? & ?). exists w2. by split; [econstructor|].
Qed.

(** One thread at a time populates an identity: between two begins of the same identity
    that were both granted, the first was finished, cleared or invalidated. *)
Theorem populate_exclusive disk w ls1 ls2 d i :
  run (World (empty_members_store disk) [] []) (ls1 ++ LBegin d i true :: ls2 ++ [LBegin d i true]) w ->
  exists l, l ∈ ls2 /\ ends l d i.
Proof.
  intros (w1 & Hr1 & Hr2)%members_run_app. inversion Hr2 as [|? ? w2 ? ? Hb1 Hr3]; subst.
  apply members_run_app in Hr3 as (w3 & Hr3 & Hr4). inversion Hr4 as [|? ? w4 ? ? Hb2 Hr5]; subst.
  pose proof (run_wf _ _ _ (world_wf_init disk) Hr1) as Hw1. pose proof (wstep_world _ _ _ Hw1 Hb1) as [Hw2 _].
  destruct (wstep_begin _ _ _ _ Hb1) as (_ & _ & Ho). destruct (wstep_begin _ _ _ _ Hb2) as (Hno & _ & _).
  by destruct (run_owned _ _ _ d i Hw2 Hr3 Ho).
Qed.

(** ** A day written and read back *)

Definition sorted_map (m : member_map) : member_map := Dict (merge_sort by_key (dict_items m)).

Lemma sorted_map_wf m : dict_wf m -> dict_wf (sorted_map m).
Proof. unfold dict_wf, dict_keys. simpl. by rewrite merge_sort_Permutation. Qed.

Lemma sorted_map_equiv m : dict_wf m -> sorted_map m ≡ m.
Proof.
  intros Hm k. apply option_eq. intros v. rewrite <- !dict_items_lookup by (done || by apply sorted_map_wf).
  simpl. by rewrite merge_sort_Permutation.
Qed.

Lemma json_or_dict d : json_or (JDict d) (JDict ∅) = JDict d.
Proof. by destruct d as [[|]]. Qed.

Lemma load_sizes_ints l : load_sizes ((fun ns : string * Z => (ns.1, JInt ns.2)) <$> l) = Ok l.
Proof. induction l as [|[n z] l IH]; [done|]. rewrite fmap_cons. cbn [load_sizes fst snd]. by rewrite IH. Qed.

(** The body of one identity in the file. *)
Definition identity_body (m : member_map) : json := JDict (Dict [("members", members_json m); ("complete", JBool true)]).

Lemma load_members_body m :
  dict_wf m ->
  exists b, sort_keys (identity_body m) = JDict b /\ json_get "complete" b = JBool true /\ load_members b = Ok (sorted_map m).
Proof.
  intros Hm. unfold identity_body. rewrite sort_keys_dict. eexists. split; [done|].
  set (d := Dict _ : jdict). assert (dict_wf d) as Hd by (unfold dict_wf, dict_keys; simpl; repeat constructor; set_solver).
  unfold load_members. rewrite !sorted_dict_get by done. split; [done|].
  change (json_get "members" d) with (members_json m). unfold members_json. rewrite sort_keys_dict, json_or_dict.
  rewrite (sorted_items _ _ (fun ns => (ns.1, JInt ns.2))) by done. cbn [dict_items]. rewrite load_sizes_ints.
  cbn. f_equal. rewrite dict_of_items_NoDup; [done|]. apply sorted_map_wf, Hm.
Qed.

Lemma load_identities_bodies (l : list (string * member_obj)) :
  (forall io, io ∈ l -> dict_wf io.2.2) ->
  load_identities ((fun io => (io.1, sort_keys (identity_body io.2.2))) <$> l) = Ok ((fun io => (io.1, sorted_map io.2.2)) <$> l).
Proof.
  induction l as [|[i o] l IH]; intros Hl; [done|]. rewrite !fmap_cons. cbn [load_identities fst snd].
  destruct (load_members_body o.2) as (b & -> & -> & ->); [apply (Hl (i, o)); left|]. cbn [json_truthy mbind result_bind].
  rewrite IH; [done|]. intros. apply Hl. by right.
Qed.

Lemma load_ready_spec ready fresh sh :
  NoDup ready.*1 ->
  let sh' := load_ready ready fresh sh in
  (forall i m, (i, m) ∈ ready -> is_complete_in sh' i = true /\ exists id, sh_members sh' !! i = Some (id, m)) /\
  (forall i, i ∉ ready.*1 -> is_complete_in sh' i = is_complete_in sh i /\ sh_members sh' !! i = sh_members sh !! i) /\
  sh_day_skip sh' = sh_day_skip sh /\ sh_degraded sh' = sh_degraded sh /\ sh_dedupe_hint sh' = sh_dedupe_hint sh.
Proof.
  cbv zeta. revert fresh sh. induction ready as [|[i m] ready IH]; intros fresh sh Hnd; cbn [load_ready].
  { split_and!; try done. by intros i m ?%elem_of_nil. }
  rewrite fmap_cons in Hnd. apply NoDup_cons in Hnd as [Hi Hnd].
  set (sh1 := with_complete _ _). destruct (IH (fresh + 1) sh1 Hnd) as (H1 & H2 & -> & -> & ->). split_and!; [| |done..].
  - intros j x [[= -> ->]|Hx]%elem_of_cons; [|by apply H1]. destruct (H2 i Hi) as [-> ->].
    unfold sh1, is_complete_in. cbn. rewrite !dict_lookup_insert_eq. split; [done|by eexists].
  - intros j Hj. rewrite fmap_cons, not_elem_of_cons in Hj. destruct Hj as [Hne Hj]. destruct (H2 j Hj) as [-> ->].
    unfold sh1, is_complete_in. cbn. by rewrite !dict_lookup_insert_ne.
Qed.

Lemma load_members_day_kind d : load_persistence_document (Some (FJson (JDict d))) MEMBERS_DAY_KIND (JDict ∅) = Ok (JDict d).
Proof. reflexivity. Qed.

(** The skip a load makes of a written one. *)
Lemma load_skip_written py_repr k : sk_kind k <> "" -> load_skip py_repr (sort_keys (skip_json k)) = Some (DaySkip (sk_kind k) (sk_detail k) None).
Proof.
  intros Hk. unfold skip_json. rewrite sort_keys_dict. unfold load_skip. set (d := Dict _ : jdict).
  assert (dict_wf d) as Hd by (unfold d, dict_wf, dict_keys; destruct (sk_set_at k); simpl; repeat constructor; set_solver).
  rewrite !sorted_dict_get by done.
  assert (json_get "kind" d = JStr (sk_kind k)) as -> by done. assert (json_get "detail" d = JStr (sk_detail k)) as -> by done.
  simpl. rewrite bool_decide_false by done. cbn [negb]. do 2 f_equal. unfold json_or. simpl.
  destruct (decide (sk_detail k = "")) as [E|E]; [rewrite bool_decide_true by done; by rewrite E|by rewrite bool_decide_false].
Qed.

Lemma day_snapshots_elem sh io :
  dict_wf (sh_members sh) ->
  io ∈ day_snapshots sh <-> sh_members sh !! io.1 = Some io.2 /\ is_complete_in sh io.1 = true.
Proof.
  intros Hwf. unfold day_snapshots. rewrite list_elem_of_filter. destruct io as [i o]. simpl. rewrite dict_items_lookup by done. tauto.
Qed.

Lemma day_snapshots_nodup sh : dict_wf (sh_members sh) -> NoDup (day_snapshots sh).*1.
Proof.
  intros Hwf. unfold day_snapshots, dict_wf, dict_keys in *. revert Hwf. induction (dict_items (sh_members sh)) as [|p l IH]; [done|].
  rewrite fmap_cons. intros [Hp Hnd]%NoDup_cons. rewrite filter_cons. case_decide; [|by apply IH]. rewrite fmap_cons.
  apply NoDup_cons. split; [|by apply IH]. intros (q & E & [_ Hq]%list_elem_of_filter)%list_elem_of_fmap.
  apply Hp, list_elem_of_fmap. by exists q.
Qed.

(** The shard before the maps are loaded into it. *)
Definition flags_shard (sh : shard) : shard :=
  Shard ∅ ∅ ((fun k => DaySkip (sk_kind k) (sk_detail k) None) <$> sh_day_skip sh) (sh_degraded sh) (sh_dedupe_hint sh)
    ∅ ∅ "" false "" ∅.

Definition loaded_maps (sh : shard) : list (string * member_map) :=
  (fun io => (io.1, sorted_map io.2.2)) <$> merge_sort by_key (day_snapshots sh).

Lemma load_day_payload py_repr name day sh :
  day <> "" -> dict_wf (sh_members sh) -> (forall i o, sh_members sh !! i = Some o -> dict_wf o.2) ->
  (forall k, sh_day_skip sh = Some k -> sk_kind k <> "") ->
  exists n, load_day py_repr name (FJson (sort_keys (day_payload day sh))) (empty_members_store ∅) =
    Ok (with_next n (set_shard day (load_ready (loaded_maps sh) 0 (flags_shard sh)) (empty_members_store ∅))).
Proof.
  intros Hday Hwf Hmaps Hkind. eexists. unfold load_day, day_payload. rewrite sort_keys_dict, load_members_day_kind. cbn [mbind result_bind].
  set (P := Dict _ : jdict). assert (dict_wf P) as HP by (unfold P, dict_wf, dict_keys; simpl; repeat constructor; set_solver).
  rewrite !sorted_dict_get by done.
  assert (json_get "day_token" P = JStr day) as -> by done.
  assert (json_get "degraded" P = JBool (sh_degraded sh)) as -> by done.
  assert (json_get "dedupe_hint" P = JBool (sh_dedupe_hint sh)) as -> by done.
  assert (json_get "day_skip" P = from_option skip_json JNull (sh_day_skip sh)) as -> by done.
  assert (json_get "identities" P = JDict (Dict ((fun io => (io.1, identity_body io.2.2)) <$> day_snapshots sh))) as -> by done.
  rewrite sort_keys_dict, json_or_dict.
  rewrite (sorted_items _ _ (fun io => (io.1, sort_keys (identity_body io.2.2)))) by (done || by apply day_snapshots_nodup).
  cbn [dict_items]. rewrite load_identities_bodies; cbn [mbind result_bind].
  2: { intros [i o] Hin. rewrite merge_sort_Permutation in Hin. apply day_snapshots_elem in Hin as [Hm _]; [|done]. by eapply Hmaps. }
  fold (loaded_maps sh). do 2 f_equal.
  assert (json_str py_repr (json_or (sort_keys (JStr day)) (JStr (default name (strip_suffix ".json" name)))) = day) as ->
    by (unfold json_or; simpl; by rewrite bool_decide_false).
  f_equal. rewrite day_shard_empty by done. cbn [sort_keys json_truthy].
  assert (load_skip py_repr (sort_keys (from_option skip_json JNull (sh_day_skip sh))) =
    ((fun k => DaySkip (sk_kind k) (sk_detail k) None) <$> sh_day_skip sh)) as ->.
  { destruct (sh_day_skip sh) as [k|] eqn:Ek; [|done]. cbn [from_option]. by rewrite load_skip_written by by apply Hkind. }
  f_equal. unfold flags_shard. destruct (sh_day_skip sh), (sh_degraded sh), (sh_dedupe_hint sh); done.
Qed.

(** A day written to its sidecar and loaded by the next process: the complete maps,
    the skip, the degraded mark and the dedupe hint come back; incomplete maps,
    populates, restores and hot marks do not; and of the skip the time it was set is
    lost. *)
Theorem day_roundtrip py_repr s day :
  let sh := day_shard day s in
  day <> "" -> dict_wf (sh_members sh) -> (forall i o, sh_members sh !! i = Some o -> dict_wf o.2) ->
  (forall k, sh_day_skip sh = Some k -> sk_kind k <> "") ->
  exists f s', ms_disk (persist_day day s) !! day_file day = Some f /\
    load_day py_repr (day_file day) f (empty_members_store ∅) = Ok s' /\
    let sh' := day_shard day s' in
    (forall i o, sh_members sh !! i = Some o -> is_complete_in sh i = true ->
      is_complete_in sh' i = true /\ exists o', sh_members sh' !! i = Some o' /\ o'.2 ≡ o.2) /\
    (forall i, sh_members sh !! i = None \/ is_complete_in sh i = false ->
      is_complete_in sh' i = false /\ sh_members sh' !! i = None) /\
    sh_day_skip sh' = (fun k => DaySkip (sk_kind k) (sk_detail k) None) <$> sh_day_skip sh /\
    sh_degraded sh' = sh_degraded sh /\ sh_dedupe_hint sh' = sh_dedupe_hint sh.
Proof.
  cbv zeta. set (sh := day_shard day s). intros Hday Hwf Hmaps Hkind.
  exists (FJson (sort_keys (day_payload day sh))).
  assert (ms_disk (persist_day day s) !! day_file day = Some (FJson (sort_keys (day_payload day sh)))) as Hdisk
    by apply lookup_insert_eq.
  destruct (load_day_payload py_repr (day_file day) day sh Hday Hwf Hmaps Hkind) as [n Hl].
  eexists. split; [exact Hdisk|]. split; [exact Hl|].
  assert (day_shard day (with_next n (set_shard day (load_ready (loaded_maps sh) 0 (flags_shard sh)) (empty_members_store ∅))) =
    load_ready (loaded_maps sh) 0 (flags_shard sh)) as -> by (unfold day_shard; cbn; apply lookup_total_insert_eq).
  assert (NoDup (loaded_maps sh).*1) as Hnd.
  { unfold loaded_maps. rewrite <- list_fmap_compose. change (NoDup (fst <$> merge_sort by_key (day_snapshots sh))).
    rewrite merge_sort_Permutation. by apply day_snapshots_nodup. }
  destruct (load_ready_spec (loaded_maps sh) 0 (flags_shard sh) Hnd) as (H1 & H2 & -> & -> & ->). split_and!; [| |done..].
  - intros i o Ho Hc. destruct (H1 i (sorted_map o.2)) as (Hc' & id & Hm).
    { apply list_elem_of_fmap. exists (i, o). split; [done|]. rewrite merge_sort_Permutation. by apply day_snapshots_elem. }
    split; [done|]. exists (id, sorted_map o.2). split; [done|]. by apply sorted_map_equiv, (Hmaps i).
  - intros i Hi. destruct (H2 i) as [-> ->]; [|done].
    intros (p & -> & (io & -> & Hin)%list_elem_of_fmap)%list_elem_of_fmap. rewrite merge_sort_Permutation in Hin.
    apply day_snapshots_elem in Hin as [Hm Hc]; [|done]. simpl in Hi. destruct Hi; congruence.
Qed.

(** ** Instances *)

Definition demo_day : string := "2024-01-01".
Definition demo_map : member_map := Dict [("b", 20); ("a", 10)].

(** One waiter registered; then the identity was completed by another thread. *)
Definition demo_w0 : world := World (empty_members_store ∅) [] [].
Definition demo_w1 : world :=
  World (locked demo_day (fun fresh sh => ([] : list (option Z), (wait_poll_locked "id" fresh sh).2)) (empty_members_store ∅)).2 [] [].
Definition demo_w2 : world :=
  let r := locked demo_day (store_complete_locked "id" demo_map true) (w_store demo_w1) in World r.2 (omap id r.1) [].

Lemma demo_run1 : run demo_w0 [LOther] demo_w1.
Proof. econstructor; [|constructor]. exact (ws_block demo_day LOther _ _ [] [] (sb_wait demo_day "id")). Qed.

Lemma demo_run2 : run demo_w1 [LOther] demo_w2.
Proof. econstructor; [|constructor]. exact (ws_block demo_day LOther _ _ [] [] (sb_store demo_day "id" demo_map true)). Qed.

Lemma demo_reachable : members_reachable demo_w1.
Proof. exists ∅, [LOther]. exact demo_run1. Qed.


(** A merge into the completed map. *)
Definition demo_inc : member_map := Dict [("b", 15); ("c", 30)].
Definition demo_publish : option (list (option Z)) * members_store :=
  let ref := merge_read demo_day "id" (w_store demo_w2) in
  locked demo_day (merge_publish_locked "id" ref (merge_current demo_inc ref) false) (w_store demo_w2).

Lemma demo_reachable2 : members_reachable demo_w2.
Proof.
  exists ∅, [LOther; LOther]. econstructor; [|exact demo_run2].
  exact (ws_block demo_day LOther _ _ [] [] (sb_wait demo_day "id")).
Qed.

Lemma demo_publish_eq : demo_publish = (Some [None], demo_publish.2).
Proof. vm_compute. reflexivity. Qed.

Lemma demo_inc_wf : dict_wf demo_inc.
Proof. unfold dict_wf; simpl; repeat constructor; set_solver. Qed.



Lemma populate_exclusive_witness :
  let s1 := (try_begin_populate demo_day "id" 1 (empty_members_store ∅)).2 in
  let r := locked demo_day (finish_populate_locked "id" None false) s1 in
  exists l, l ∈ [LEnds demo_day "id"] /\ ends l demo_day "id".
Proof.
  cbv zeta. eapply (populate_exclusive ∅ _ [] [LEnds demo_day "id"] demo_day "id").
  eapply run_step; [exact (ws_begin demo_day "id" 1 (empty_members_store ∅) [] [])|].
  eapply run_step; [eapply (ws_block demo_day (LEnds demo_day "id") _ _ [] []), (sb_finish demo_day "id" None false)|].
  eapply run_step; [|apply run_nil].
  exact (ws_begin demo_day "id" 2 (locked demo_day (finish_populate_locked "id" None false)
    (try_begin_populate demo_day "id" 1 (empty_members_store ∅)).2).2 _ []).
Defined.

Definition demo_store : members_store :=
  set_day_skip demo_day "corrupt" "" 500 (store_complete demo_day "id" demo_map true (empty_members_store ∅)).

Lemma day_roundtrip_witness :
  let sh := day_shard demo_day demo_store in
  exists f s', ms_disk (persist_day demo_day demo_store) !! day_file demo_day = Some f /\
    load_day (fun _ => "") (day_file demo_day) f (empty_members_store ∅) = Ok s' /\
    let sh' := day_shard demo_day s' in
    (forall i o, sh_members sh !! i = Some o -> is_complete_in sh i = true ->
      is_complete_in sh' i = true /\ exists o', sh_members sh' !! i = Some o' /\ o'.2 ≡ o.2) /\
    (forall i, sh_members sh !! i = None \/ is_complete_in sh i = false ->
      is_complete_in sh' i = false /\ sh_members sh' !! i = None) /\
    sh_day_skip sh' = (fun k => DaySkip (sk_kind k) (sk_detail k) None) <$> sh_day_skip sh /\
    sh_degraded sh' = sh_degraded sh /\ sh_dedupe_hint sh' = sh_dedupe_hint sh.
Proof.
  apply (day_roundtrip (fun _ => "") demo_store demo_day).
  - discriminate.
  - vm_compute. repeat constructor; set_solver.
  - intros i o. assert (sh_members (day_shard demo_day demo_store) = Dict [("id", (0, demo_map))]) as -> by (vm_compute; reflexivity).
    unfold lookup, dict_lookup. simpl. case_decide; [|discriminate]. intros E. injection E as <-.
    unfold dict_wf. simpl. repeat constructor; set_solver.
  - intros k. vm_compute. intros E. injection E as <-. discriminate.
Defined.

(** ** What the code does not do *)

(** Two writes of one day can be saved in the opposite order of their payloads: the older
    payload then stays on disk, with nothing left to save, and the next process does not
    find the completed map. *)
Theorem persist_race_loses_map :
  exists w ls, run (World (empty_members_store ∅) [] []) ls w /\ w_saving w = [] /\ w_waking w = [] /\
    is_complete demo_day "id" (w_store w) = true /\
    exists f s', ms_disk (w_store w) !! day_file demo_day = Some f /\
      load_day (fun _ => "") (day_file demo_day) f (empty_members_store ∅) = Ok s' /\
      is_complete demo_day "id" s' = false.
Proof.
  eexists _, _. split.
  { eapply run_step; [eapply (ws_block demo_day LOther _ _ [] []), (sb_flag demo_day _ (fu_degraded true))|].
    eapply run_step; [eapply (ws_persist demo_day)|].
    eapply run_step; [eapply (ws_block demo_day), (sb_store demo_day "id" demo_map false)|].
    eapply run_step; [eapply (ws_persist demo_day)|].
    eapply run_step; [eapply (ws_save demo_day _ _ _ [_] [])|].
    eapply run_step; [eapply (ws_save demo_day _ _ _ [] [])|].
    apply run_nil. }
  split_and!; [vm_compute; reflexivity..|]. eexists _, _. split_and!; vm_compute; reflexivity.
Qed.
