(* ===== verification/MembersQueue.v ===== *)
(** The populate queue of the archive members store: one job per day, hot days first. *)
From S2P Require Import Prelude PyDict PyStr PosixPath Json Persistence MembersStore.
Local Open Scope Z_scope.

(** The store and the jobs handed to workers that are neither completed nor requeued. *)
Record populate_world := PopulateWorld {
  pw_store : members_store;
  pw_running : list populate_job;
}.

Inductive populate_step : populate_world -> populate_world -> Prop :=
| ps_enqueue job rank s run :
    populate_step (PopulateWorld s run) (PopulateWorld (enqueue_populate_ranked job rank s).2 run)
| ps_dequeue job s s' run :
    dequeue_populate s = (Some job, s') -> populate_step (PopulateWorld s run) (PopulateWorld s' (run ++ [job]))
| ps_complete job s run1 run2 :
    populate_step (PopulateWorld s (run1 ++ job :: run2)) (PopulateWorld (complete_populate_job job s) (run1 ++ run2))
| ps_requeue job s run1 run2 :
    populate_step (PopulateWorld s (run1 ++ job :: run2)) (PopulateWorld (requeue_populate_job job s) (run1 ++ run2))
| ps_other s s' run :
    ms_jobs_hot s' = ms_jobs_hot s -> ms_jobs_cold s' = ms_jobs_cold s -> ms_queued s' = ms_queued s ->
    populate_step (PopulateWorld s run) (PopulateWorld s' run).

Inductive populate_reachable : populate_world -> Prop :=
| pr_init disk : populate_reachable (PopulateWorld (empty_members_store disk) [])
| pr_step w w' : populate_reachable w -> populate_step w w' -> populate_reachable w'.

(** The jobs that are queued or running, and their days. *)
Definition all_jobs (w : populate_world) : list populate_job :=
  ms_jobs_hot (pw_store w) ++ ms_jobs_cold (pw_store w) ++ pw_running w.

Definition job_days (l : list populate_job) : list string := filter (fun d => d <> "") (job_day <$> l).

Lemma job_days_app l1 l2 : job_days (l1 ++ l2) = job_days l1 ++ job_days l2.
Proof. unfold job_days. by rewrite fmap_app, filter_app. Qed.

Lemma job_days_one j : job_days [j] = if decide (job_day j = "") then [] else [job_day j].
Proof.
  unfold job_days. simpl. case_decide as H.
  - by rewrite filter_cons_False by tauto.
  - by rewrite filter_cons_True by done.
Qed.

#[export] Instance job_days_perm : Proper ((≡ₚ) ==> (≡ₚ)) job_days.
Proof. intros l1 l2 Hl. unfold job_days. by rewrite Hl. Qed.

Definition queue_wf (w : populate_world) : Prop :=
  NoDup (job_days (all_jobs w)) /\ forall d, d ∈ ms_queued (pw_store w) <-> d ∈ job_days (all_jobs w).

(** Only the jobs as a multiset and the set of queued days matter. *)
Lemma queue_wf_perm w w' :
  all_jobs w' ≡ₚ all_jobs w -> ms_queued (pw_store w') = ms_queued (pw_store w) -> queue_wf w -> queue_wf w'.
Proof. unfold queue_wf. intros Hp ->. by setoid_rewrite Hp. Qed.

Lemma all_jobs_enqueue job rank s run : all_jobs (PopulateWorld (enqueue_populate_job job rank s) run) ≡ₚ job :: all_jobs (PopulateWorld s run).
Proof. unfold all_jobs, enqueue_populate_job. destruct (0 <? rank); simpl; solve_Permutation. Qed.

Lemma queued_enqueue job rank s : ms_queued (enqueue_populate_job job rank s) = ms_queued s.
Proof. unfold enqueue_populate_job. by destruct (0 <? rank). Qed.

Lemma populate_step_wf w w' : queue_wf w -> populate_step w w' -> queue_wf w'.
Proof.
  intros Hw Hs. destruct Hs as [job rank s run|job s s' run Hd|job s run1 run2|job s run1 run2|s s' run H1 H2 H3].
  - unfold enqueue_populate_ranked. case_decide as Hd; [done|]. cbn [snd]. destruct Hw as [Hn Hq]. unfold queue_wf.
    cbn [pw_store] in *. rewrite queued_enqueue. setoid_rewrite all_jobs_enqueue. change (?j :: ?l) with ([j] ++ l).
    setoid_rewrite job_days_app. setoid_rewrite job_days_one.
    destruct (decide (job_day job = "")) as [E|E]; [by split|].
    set (s1 := with_queue _ _ _ _). change (all_jobs (PopulateWorld s1 run)) with (all_jobs (PopulateWorld s run)).
    change (ms_queued s1) with ({[job_day job]} ∪ ms_queued s). split.
    + apply NoDup_cons. split; [|done]. intros Hin%Hq. tauto.
    + intros d. rewrite elem_of_union, elem_of_singleton, elem_of_app, list_elem_of_singleton, Hq. done.
  - eapply queue_wf_perm; [| |exact Hw]; unfold dequeue_populate in Hd; cbn [pw_store];
      destruct (ms_jobs_hot s) as [|j hot] eqn:Eh, (ms_jobs_cold s) as [|j' cold] eqn:Ec; try done; injection Hd as <- <-; try done;
      unfold all_jobs; cbn [pw_store pw_running]; rewrite Eh, Ec; simpl; solve_Permutation.
  - destruct Hw as [Hn Hq]. assert (all_jobs (PopulateWorld s (run1 ++ job :: run2)) ≡ₚ job :: all_jobs (PopulateWorld s (run1 ++ run2))) as Hp
      by (unfold all_jobs; simpl; solve_Permutation).
    rewrite Hp in Hn. setoid_rewrite Hp in Hq. change (?j :: ?l) with ([j] ++ l) in Hn, Hq.
    rewrite job_days_app, job_days_one in Hn. setoid_rewrite job_days_app in Hq. setoid_rewrite job_days_one in Hq.
    unfold complete_populate_job. case_decide as E; [by split|].
    unfold queue_wf. cbn [pw_store]. apply NoDup_cons in Hn as [Hni Hn]. split; [exact Hn|]. intros d. cbn [ms_queued with_queue].
    change (all_jobs (PopulateWorld (with_queue _ _ _ s) (run1 ++ run2))) with (all_jobs (PopulateWorld s (run1 ++ run2))).
    rewrite elem_of_difference, elem_of_singleton, Hq, elem_of_app, list_elem_of_singleton. naive_solver.
  - assert (all_jobs (PopulateWorld s (run1 ++ job :: run2)) ≡ₚ job :: all_jobs (PopulateWorld s (run1 ++ run2))) as Hp
      by (unfold all_jobs; simpl; solve_Permutation).
    destruct job as [f|t]; simpl.
    + eapply queue_wf_perm; [| |exact Hw]; [by rewrite all_jobs_enqueue, Hp|cbn; apply queued_enqueue].
    + destruct Hw as [Hn Hq]. rewrite Hp in Hn. setoid_rewrite Hp in Hq. split; [exact Hn|exact Hq].
  - eapply queue_wf_perm; [| |exact Hw]; unfold all_jobs; cbn; by rewrite ?H1, ?H2, ?H3.
Qed.

(** One job per day: however jobs are enqueued, handed out, completed and requeued, no
    day has two jobs queued or running, and the set of queued days is exactly the days
    of those jobs, so a day is refused while its job is not done and accepted after. *)
Theorem one_job_per_day w :
  populate_reachable w ->
  NoDup (job_days (all_jobs w)) /\ (forall d, d ∈ ms_queued (pw_store w) <-> d ∈ job_days (all_jobs w)) /\
  forall job, job_day job <> "" ->
    ((enqueue_populate job (pw_store w)).1 = false <-> job_day job ∈ job_days (all_jobs w)).
Proof.
  intros Hr. assert (queue_wf w) as [Hn Hq].
  { induction Hr as [disk|w w' _ IH Hs]; [|by eapply populate_step_wf]. split; [apply NoDup_nil_2|]. cbn. set_solver. }
  split_and!; [done..|]. intros job Hj. rewrite <- Hq. unfold enqueue_populate, enqueue_populate_ranked.
  case_decide as Hd; cbn [fst]; [tauto|]. split; [done|intros; exfalso; tauto].
Qed.

(** Hot jobs are handed out before cold ones, each group first in, first out, and none
    is lost. *)
Theorem hot_jobs_first s :
  let q := ms_jobs_hot s ++ ms_jobs_cold s in
  match dequeue_populate s with
  | (None, s') => q = [] /\ s' = s
  | (Some job, s') => q = job :: ms_jobs_hot s' ++ ms_jobs_cold s' /\ ms_queued s' = ms_queued s
  end.
Proof. unfold dequeue_populate. destruct (ms_jobs_hot s) as [|j hot] eqn:Eh, (ms_jobs_cold s) as [|j' cold] eqn:Ec; simpl; by rewrite ?Eh, ?Ec. Qed.

(** ** Instances *)

Definition day_job : populate_job := DictJob {["day_token" := "2024-01-01"]}.
Definition one_queued : members_store := (enqueue_populate day_job (empty_members_store ∅)).2.
Definition one_running : members_store := (dequeue_populate one_queued).2.

Lemma one_running_reachable : populate_reachable (PopulateWorld one_running [day_job]).
Proof.
  eapply pr_step; [eapply pr_step; [apply (pr_init ∅)|apply (ps_enqueue day_job 0)]|]. apply (ps_dequeue day_job _ _ []). reflexivity.
Qed.

Lemma one_job_per_day_witness :
  (enqueue_populate day_job one_running).1 = false <-> job_day day_job ∈ job_days (all_jobs (PopulateWorld one_running [day_job])).
Proof.
  assert (job_day day_job <> "") as Hd by (vm_compute; discriminate).
  exact (proj2 (proj2 (one_job_per_day _ one_running_reachable)) day_job Hd).
Defined.

(** [invalidate_all] forgets the queued days while a worker still runs one: the day is
    accepted again, the first worker's completion then forgets the second job, and a third
    is accepted, so the queue holds two jobs of one day. *)
Theorem invalidate_all_duplicates_jobs :
  let r1 := enqueue_populate day_job (invalidate_all (fun _ => false) one_running) in
  let r2 := enqueue_populate day_job (complete_populate_job day_job r1.2) in
  r1.1 = true /\ r2.1 = true /\ ms_jobs_hot r2.2 ++ ms_jobs_cold r2.2 = [day_job; day_job].
Proof. split_and!; vm_compute; reflexivity. Qed.
