(* ===== verification/SpacePressure.v ===== *)
(** Archive space pressure: [dbload/lib/sync_timedb_space_pressure.py].

    When free space falls below a threshold, appends go to one day at a time and
    restores take turns; the state clears at twice the threshold.  [_STATE] is the
    record [pressure_state] and each block under [_LOCK] is one function on it.  What
    the disk and the configuration answer is an argument ([disk], [limits]); a
    function that runs callbacks between its blocks takes what the other threads do
    there ([others]).  Clocks are integers. *)
From S2P Require Import Prelude PyDict PyStr PosixPath.
Local Open Scope Z_scope.

Definition DAY_CLOSE_START_GRACE_S : Z := 600.
Definition UNKNOWN_RATIO : Z := 10.

Definition FINISHING_STAGES : list string :=
  ["reconcile_merge"; "dedupe"; "raw_delete_pre_seal"; "seal"; "post_seal_verify"; "raw_delete"; "tar_drop"].

(** A reservation: bytes, tar path, and the tar's bytes on disk when it was made. *)
Abbreviation reservation := (Z * string * Z)%type.

Record pressure_state := PressureState {
  ps_pressure : bool;
  ps_stages : dict string string;
  ps_append_day : option string;
  ps_hold_since : option Z;
  ps_finished_since_hold : bool;
  ps_reserved : dict string reservation;
  ps_epoch : Z;
  ps_expanded : gset string;
}.

(** [reset_for_tests], which also runs at import. *)
Definition initial_pressure : pressure_state := PressureState false ∅ None None false ∅ 0 ∅.

Definition with_pressure p st := PressureState p (ps_stages st) (ps_append_day st) (ps_hold_since st) (ps_finished_since_hold st) (ps_reserved st) (ps_epoch st) (ps_expanded st).
Definition with_stages x st := PressureState (ps_pressure st) x (ps_append_day st) (ps_hold_since st) (ps_finished_since_hold st) (ps_reserved st) (ps_epoch st) (ps_expanded st).
Definition with_append_day d st := PressureState (ps_pressure st) (ps_stages st) d (ps_hold_since st) (ps_finished_since_hold st) (ps_reserved st) (ps_epoch st) (ps_expanded st).
Definition with_hold h f st := PressureState (ps_pressure st) (ps_stages st) (ps_append_day st) h f (ps_reserved st) (ps_epoch st) (ps_expanded st).
Definition with_reserved r st := PressureState (ps_pressure st) (ps_stages st) (ps_append_day st) (ps_hold_since st) (ps_finished_since_hold st) r (ps_epoch st) (ps_expanded st).
Definition with_epoch e st := PressureState (ps_pressure st) (ps_stages st) (ps_append_day st) (ps_hold_since st) (ps_finished_since_hold st) (ps_reserved st) e (ps_expanded st).
Definition with_expanded x st := PressureState (ps_pressure st) (ps_stages st) (ps_append_day st) (ps_hold_since st) (ps_finished_since_hold st) (ps_reserved st) (ps_epoch st) x.

(** The configured limits. *)
Record limits := Limits { lim_pressure_free : Z; lim_min_free : Z; lim_daily_dir : string }.

(** What the disk answers: free bytes ([None] when unknown), the size of a file ([None]
    when it cannot be read), whether it is a file, and its first bytes. *)
Record disk := Disk {
  dk_free : string -> option Z;
  dk_size : string -> option Z;
  dk_isfile : string -> bool;
  dk_head : string -> option (list Z);
}.

Definition size (dk : disk) (path : string) : Z := default 0 (dk_size dk path).

(** ** The pressure state *)

(** The block of [under_pressure], [free] the reading ([Some 0] when the feature is
    off). *)
Definition sample (threshold : Z) (free : option Z) (st : pressure_state) : pressure_state :=
  match free with
  | None => st
  | Some free =>
      if (0 <? threshold) && (free <? threshold) then with_pressure true st
      else if (threshold <=? 0) || (2 * threshold <=? free)
      then with_epoch (ps_epoch st + 1) (with_hold None (ps_finished_since_hold st) (with_append_day None (with_pressure false st)))
      else st
  end.

Definition under_pressure (lim : limits) (dk : disk) (path : string) (st : pressure_state) : bool * pressure_state :=
  let threshold := lim_pressure_free lim in
  let target := if decide (path = "") then (if decide (lim_daily_dir lim = "") then "/" else lim_daily_dir lim) else path in
  let free := if 0 <? threshold then dk_free dk target else Some 0 in
  let st := sample threshold free st in
  (ps_pressure st, st).

Definition note_day_close_stage (job stage : string) (st : pressure_state) : pressure_state :=
  with_stages (<[job := stage]> (ps_stages st)) st.
Definition note_space_freed (st : pressure_state) : pressure_state := with_hold (ps_hold_since st) true st.
Definition clear_day_close (job : string) (st : pressure_state) : pressure_state := with_stages (delete job (ps_stages st)) st.

Definition finishing (st : pressure_state) : bool :=
  existsb (fun s => bool_decide (s ∈ FINISHING_STAGES)) (dict_values (ps_stages st)).

(** ** Selecting the day to append to *)

(** [ALL_DAYS], [None], or a day, [""] when none fits. *)
Inductive selection :=
| AllDays
| NoDay
| Day (d : string).

#[export] Instance selection_eq_dec : EqDecision selection.
Proof. solve_decision. Defined.

(** The block after the current day was given up: [None] to go on to the candidates. *)
Definition select_hold (now : Z) (fin : bool) (current : option string) (epoch : Z) (parked : list string)
    (st : pressure_state) : option selection * pressure_state :=
  if negb (ps_epoch st =? epoch) then (Some AllDays, st)
  else
    let st := match current with
              | Some d => if decide (d ∈ parked) then st else with_hold (Some now) false st
              | None => st
              end in
    let st := with_append_day None st in
    let waiting := match ps_hold_since st with
                   | Some since => negb (ps_finished_since_hold st) && (now - since <? DAY_CLOSE_START_GRACE_S)
                   | None => false
                   end in
    if fin || waiting then (Some NoDay, st)
    else (None, with_hold None (ps_finished_since_hold st) st).

Definition select_commit (chosen : string) (epoch : Z) (st : pressure_state) : selection * pressure_state :=
  if negb (ps_epoch st =? epoch) then (AllDays, st)
  else (Day chosen, with_append_day (if decide (chosen = "") then None else Some chosen) st).

(** The steps of the other threads between the blocks: after the pressure reading, while
    the current day is examined, and while the candidates are. *)
Record others := Others { o_read : pressure_state -> pressure_state; o_current : pressure_state -> pressure_state;
                          o_candidates : pressure_state -> pressure_state }.

Definition alone : others := Others id id id.

Definition select_append_day (lim : limits) (dk : disk) (fits : string -> bool) (now : Z) (o : others)
    (parked_days busy_days : list string) (st : pressure_state) : selection * pressure_state :=
  let '(pressed, st) := under_pressure lim dk "" st in
  if negb pressed then (AllDays, st)
  else
    let parked := merge_sort String.le parked_days in
    let st := o_read o st in
    let fin := finishing st in
    let current := ps_append_day st in
    let epoch := ps_epoch st in
    let st := o_current o st in
    let keep := match current with
                | Some d => bool_decide (d ∈ busy_days) || (bool_decide (d ∈ parked) && fits d)
                | None => false
                end in
    if keep then (match current with Some d => if fin then NoDay else Day d | None => NoDay end, st)
    else
      let candidates := if fin then [] else filter (fun d => Some d <> current) parked in
      match select_hold now fin current epoch parked st with
      | (Some r, st) => (r, st)
      | (None, st) =>
          let st := o_candidates o st in
          select_commit (default "" (head (filter (fun d => fits d = true) candidates))) epoch st
      end.

(** ** Reservations *)

Definition tar_bytes_on_disk (dk : disk) (tar_path : string) : Z :=
  if decide (tar_path = "") then 0 else size dk tar_path + size dk (tar_path +:+ ".decomp.tmp").

Definition reserve (dk : disk) (key : string) (nbytes : Z) (tar_path : string) (st : pressure_state) : pressure_state :=
  with_reserved (<[key := (Z.max 0 nbytes, tar_path, tar_bytes_on_disk dk tar_path)]> (ps_reserved st)) st.

Definition release (key : string) (st : pressure_state) : pressure_state :=
  with_reserved (delete key (ps_reserved st)) st.

Definition outstanding (dk : disk) (r : reservation) : Z :=
  let '(nbytes, tar, base) := r in Z.max 0 (nbytes - Z.max 0 (tar_bytes_on_disk dk tar - base)).

Definition reserved_bytes (dk : disk) (st : pressure_state) : Z :=
  foldr Z.add 0 (outstanding dk <$> dict_values (ps_reserved st)).

(** The [reserving] context: the body's steps, then the release, also when it raises. *)
Definition reserving {A} (dk : disk) (key : string) (nbytes : Z) (tar_path : string)
    (body : pressure_state -> result A * pressure_state) (st : pressure_state) : result A * pressure_state :=
  let '(r, st) := body (reserve dk key nbytes tar_path st) in (r, release key st).

Definition fits_hard_reserve (lim : limits) (dk : disk) (path : string) (need restore_need : Z) (st : pressure_state) : bool :=
  if need <=? 0 then true
  else match dk_free dk path with
       | None => false
       | Some free => lim_min_free lim <=? free - reserved_bytes dk st - need - restore_need / 2
       end.

(** ** The restore slot *)

Definition note_expansion (tar_path : string) (st : pressure_state) : pressure_state :=
  with_expanded ({[tar_path]} ∪ ps_expanded st) st.

(** An expanded tar is live while its file exists or a reservation names it. *)
Definition tar_live (dk : disk) (st : pressure_state) (t : string) : bool :=
  dk_isfile dk t || bool_decide (is_Some (ps_reserved st !! t)) ||
  bool_decide (is_Some (ps_reserved st !! ("restore:" +:+ t))).

Definition slot_holders (dk : disk) (exclude : string) (st : pressure_state) : list string * pressure_state :=
  let live := filter (fun t => tar_live dk st t = true) (ps_expanded st) in
  (merge_sort String.le (elements (live ∖ {[exclude]})), with_expanded live st).

(** The block of [try_claim_restore_slot]. *)
Definition claim_slot (dk : disk) (tar key : string) (need base : Z) (pressed : bool) (st : pressure_state)
    : bool * pressure_state :=
  let '(holders, st) := if pressed then slot_holders dk tar st else ([], st) in
  match holders with
  | _ :: _ => (false, st)
  | [] => (true, with_reserved (<[key := (Z.max 0 need, tar, base)]> (ps_reserved st)) (note_expansion tar st))
  end.

Definition try_claim_restore_slot (lim : limits) (dk : disk) (tar key : string) (need : Z) (st : pressure_state)
    : bool * pressure_state :=
  let '(pressed, st) := under_pressure lim dk tar st in
  claim_slot dk tar key need (tar_bytes_on_disk dk tar) pressed st.

Definition restore_slot_free (lim : limits) (dk : disk) (tar_path : string) (st : pressure_state) : bool * pressure_state :=
  let '(pressed, st) := under_pressure lim dk tar_path st in
  if negb pressed then (true, st)
  else let '(holders, st) := slot_holders dk tar_path st in (bool_decide (holders = []), st).

(** ** Sizes of sealed tars *)

Definition ZSTD_MAGIC : list Z := [0x28; 0xb5; 0x2f; 0xfd].

(** [int.from_bytes(field, "little")]. *)
Fixpoint from_bytes_little (l : list Z) : Z :=
  match l with
  | [] => 0
  | b :: l => b + 256 * from_bytes_little l
  end.

(** [_zst_frame_content_size] on the bytes read (at most 18). *)
Definition zst_frame_content_size (file : option (list Z)) : option Z :=
  match take 18 <$> file with
  | None => None
  | Some head =>
      if (length head <? 6)%nat || negb (bool_decide (take 4 head = ZSTD_MAGIC)) then None
      else
        let fhd := nth 4 head 0 in
        let single_segment := Z.land (Z.shiftr fhd 5) 1 in
        let fcs_len := match Z.shiftr fhd 6 with
                       | 0 => if single_segment =? 0 then 0%nat else 1%nat
                       | 1 => 2%nat
                       | 2 => 4%nat
                       | _ => 8%nat
                       end in
        let dict_len := match Z.land fhd 3 with 0 => 0%nat | 1 => 1%nat | 2 => 2%nat | _ => 4%nat end in
        let window_len := if single_segment =? 0 then 1%nat else 0%nat in
        let pos := (5 + window_len + dict_len)%nat in
        let field := take fcs_len (drop pos head) in
        if (fcs_len =? 0)%nat || negb (length field =? fcs_len)%nat then None
        else let value := from_bytes_little field in
             Some (if (fcs_len =? 2)%nat then value + 256 else value)
  end.

Definition restore_bytes_estimate (dk : disk) (tar_path : string) : Z :=
  if 0 <? size dk tar_path then 0
  else
    let zst := tar_path +:+ ".zst" in
    let gz := tar_path +:+ ".gz" in
    if dk_isfile dk zst then
      match zst_frame_content_size (dk_head dk zst) with
      | Some known => if known =? 0 then size dk zst * UNKNOWN_RATIO else known
      | None => size dk zst * UNKNOWN_RATIO
      end
    else if dk_isfile dk gz then size dk gz * UNKNOWN_RATIO
    else 0.

(** [admit_restore]; the denial is logged. *)
Definition admit_restore (lim : limits) (dk : disk) (tar_path mode : string) (st : pressure_state) : bool * pressure_state :=
  if decide (mode = "off") then (true, st)
  else
    let need := restore_bytes_estimate dk tar_path in
    let '(pressed, st) := if negb (bool_decide (mode = "finish")) && (0 <? need) then under_pressure lim dk tar_path st
                          else (false, st) in
    if pressed then (false, st)
    else if negb (fits_hard_reserve lim dk tar_path need need st) then (false, st)
    else if need <=? 0 then (true, st)
    else try_claim_restore_slot lim dk tar_path ("restore:" +:+ tar_path) need st.

(** ** The census token *)

(** [f"{n / (1 << 40):.1f}T"] for [0 <= n < 2 ** 53], where the division is exact: ties
    to even. *)
Definition tib (n : Z) : string :=
  let unit := Z.shiftl 1 40 in
  let q := 10 * n / unit in
  let r := 10 * n mod unit in
  let tenths := if (unit <? 2 * r) || ((2 * r =? unit) && Z.odd q) then q + 1 else q in
  str_of_Z (tenths / 10) +:+ "." +:+ str_of_Z (tenths mod 10) +:+ "T".

Definition census_token (lim : limits) (dk : disk) (daily_dir : string) (st : pressure_state) : string * pressure_state :=
  let threshold := lim_pressure_free lim in
  if threshold <=? 0 then ("", st)
  else
    let '(pressed, st) := under_pressure lim dk daily_dir st in
    let free := match dk_free dk (if decide (daily_dir = "") then "/" else daily_dir) with
                | None => "unknown"
                | Some n => tib n
                end in
    if negb pressed then (" space=ok free=" +:+ free +:+ " pressure_below=" +:+ tib threshold, st)
    else
      let day := match ps_append_day st with Some d => if decide (d = "") then "none" else d | None => "none" end in
      let '(holders, st) := slot_holders dk "" st in
      let slot := match holders with
                  | [] => "none"
                  | _ => let names := (fun t => String.substring 0 10 (path_basename t)) <$> holders in
                         let joined := py_join "," names in if decide (joined = "") then "none" else joined
                  end in
      (" space=pressure free=" +:+ free +:+ " resume_at=" +:+ tib (2 * threshold) +:+
       " append_day=" +:+ day +:+ " restore_slot=" +:+ slot, st).
