(* ===== verification/SpacePressureSpec.v ===== *)
(** Space pressure: the hysteresis, the selection of the append day, the accounting of
    reservations, the exclusive restore slot and the parsing of zstd headers. *)
From S2P Require Import Prelude PyDict PyStr PosixPath SpacePressure.
Local Open Scope Z_scope.

(** ** Hysteresis *)

(** A reading that ends the pressure. *)
Definition clears (threshold : Z) (f : option Z) : Prop := exists x, f = Some x /\ 2 * threshold <= x.

Lemma sample_pressure threshold f st :
  0 < threshold ->
  ps_pressure (sample threshold f st) = true <->
  (exists x, f = Some x /\ x < threshold) \/ (ps_pressure st = true /\ ~ clears threshold f).
Proof.
  intros Ht. unfold sample, clears. destruct f as [x|].
  - assert ((0 <? threshold) = true) as -> by (apply Z.ltb_lt; lia). assert ((threshold <=? 0) = false) as -> by (apply Z.leb_gt; lia).
    cbn [andb orb]. destruct (x <? threshold) eqn:E1; [apply Z.ltb_lt in E1|apply Z.ltb_ge in E1].
    { split; [intros _; left; by exists x|done]. }
    destruct (2 * threshold <=? x) eqn:E2; [apply Z.leb_le in E2|apply Z.leb_gt in E2].
    + split; [done|]. intros [(y & [= <-] & ?)|[_ Hn]]; [lia|]. destruct Hn. by exists x.
    + split; [|intros [(y & [= <-] & ?)|[? _]]; [lia|done]]. intros Hp. right. split; [done|]. intros (y & [= <-] & ?). lia.
  - split; [intros Hp; right; split; [done|by intros (? & ? & _)]|by intros [(? & ? & _)|[? _]]].
Qed.

(** After any readings the state is on exactly when one fell below the threshold, or it
    was on before, and none since reached twice the threshold; a reading in between and
    an unknown one change nothing. *)
Theorem pressure_hysteresis threshold readings st :
  0 < threshold ->
  ps_pressure (foldl (fun st f => sample threshold f st) st readings) = true <->
  (exists pre x post, readings = pre ++ Some x :: post /\ x < threshold /\ Forall (fun f => ~ clears threshold f) post) \/
  (ps_pressure st = true /\ Forall (fun f => ~ clears threshold f) readings).
Proof.
  intros Ht. induction readings as [|f readings IH] using rev_ind; cbn [foldl].
  { split; [intros Hp; right; by split; [|constructor]|]. intros [(pre & x & post & E & _)|[? _]]; [|done]. by destruct pre. }
  rewrite foldl_app. cbn [foldl]. rewrite sample_pressure, IH by done. split.
  - intros [(x & -> & Hx)|[[(pre & x & post & -> & Hx & Hp)|[Hst Hr]] Hn]].
    + left. exists readings, x, []. by split_and!; [|done|constructor].
    + left. exists pre, x, (post ++ [f]). rewrite <- app_assoc. split_and!; [done..|]. by apply Forall_app_2; [|constructor].
    + right. split; [done|]. by apply Forall_app_2; [|constructor].
  - intros [(pre & x & post & E & Hx & Hp)|[Hst Hr]].
    + destruct post as [|g post _] using rev_ind.
      * apply app_inj_tail in E as [_ ->]. left. by exists x.
      * rewrite app_comm_cons, app_assoc in E. apply app_inj_tail in E as [-> ->].
        apply Forall_app in Hp as [Hp Hg]. right. split; [|by apply Forall_cons_1 in Hg as [? _]]. left. exists pre, x, post. done.
    + apply Forall_app in Hr as [Hr Hf]. right. split; [by right|]. by apply Forall_cons_1 in Hf as [? _].
Qed.

(** ** Selection *)

Lemma head_filter_strongly (P : string -> Prop) `{!forall x, Decision (P x)} (m : list string) :
  StronglySorted String.le m ->
  match head (filter P m) with
  | Some d => d ∈ m /\ P d /\ forall d', d' ∈ m -> P d' -> String.le d d'
  | None => forall d', d' ∈ m -> ~ P d'
  end.
Proof.
  induction m as [|x m IH]; intros Hs; [by intros d ?%elem_of_nil|].
  apply StronglySorted_inv in Hs as [Hs Hx]. destruct (decide (P x)) as [HP|HP].
  - rewrite filter_cons_True by done. cbn [head]. split_and!; [left|done|]. intros d' [->|Hd]%elem_of_cons _; [reflexivity|].
    rewrite Forall_forall in Hx. by apply Hx.
  - rewrite filter_cons_False by done. specialize (IH Hs). destruct (head (filter P m)) as [d|].
    + destruct IH as (H1 & H2 & H3). split_and!; [by right|done|]. intros d' [->|Hd]%elem_of_cons HP'; [done|by apply H3].
    + intros d' [->|Hd]%elem_of_cons; [done|by apply IH].
Qed.

(** What a selection with nobody else running answers. *)
Inductive selects (lim : limits) (fits : string -> bool) (now : Z) (parked busy : list string)
    (st : pressure_state) : selection -> option string -> Prop :=
| sel_keep d :
    ps_append_day st = Some d -> d ∈ busy \/ (d ∈ parked /\ fits d = true) ->
    selects lim fits now parked busy st (if finishing st then NoDay else Day d) (Some d)
| sel_finishing :
    finishing st = true -> selects lim fits now parked busy st NoDay None
| sel_waiting since :
    (ps_hold_since st = Some since /\ ps_finished_since_hold st = false \/
     since = now /\ exists d, ps_append_day st = Some d /\ d ∉ parked) ->
    now - since < DAY_CLOSE_START_GRACE_S ->
    selects lim fits now parked busy st NoDay None
| sel_next d :
    d ∈ parked -> Some d <> ps_append_day st -> fits d = true -> d <> "" ->
    (forall d', d' ∈ parked -> Some d' <> ps_append_day st -> fits d' = true -> String.le d d') ->
    selects lim fits now parked busy st (Day d) (Some d)
| sel_none :
    (forall d, d ∈ parked -> Some d <> ps_append_day st -> fits d = false) ->
    selects lim fits now parked busy st (Day "") None.

Lemma select_hold_stops now fin current epoch parked st r st' :
  select_hold now fin current epoch parked st = (Some r, st') -> epoch = ps_epoch st -> 
  r = NoDay /\ ps_append_day st' = None /\ ps_pressure st' = ps_pressure st /\
  (fin = true \/ exists since,
    (ps_hold_since st = Some since /\ ps_finished_since_hold st = false \/ since = now /\ exists d, current = Some d /\ d ∉ parked) /\
    now - since < DAY_CLOSE_START_GRACE_S).
Proof.
  unfold select_hold. intros Hh ->. rewrite Z.eqb_refl in Hh. cbn [negb] in Hh.
  set (st2 := with_append_day None _) in Hh.
  assert (ps_append_day st2 = None /\ ps_pressure st2 = ps_pressure st) as [Ha Hp]
    by (unfold st2; split; [done|]; destruct current; [by case_decide|done]).
  destruct (fin || _) eqn:Ef; [|done]. injection Hh as <- <-. split_and!; [done..|].
  apply orb_true_iff in Ef as [Ef|Ef]; [by left|right]. destruct (ps_hold_since st2) as [since|] eqn:Es; [|done].
  apply andb_true_iff in Ef as [Ef1 Ef2]. apply negb_true_iff in Ef1. apply Z.ltb_lt in Ef2. exists since. split; [|done].
  unfold st2 in *. destruct current as [d|]; [|by left]. case_decide; [by left|]. right. injection Es as <-. split; [done|]. by exists d.
Qed.

Lemma select_hold_goes now fin current epoch parked st st' :
  select_hold now fin current epoch parked st = (None, st') ->
  fin = false /\ epoch = ps_epoch st' /\ ps_pressure st' = ps_pressure st.
Proof.
  unfold select_hold. destruct (ps_epoch st =? epoch) eqn:Ee; [apply Z.eqb_eq in Ee|done]. cbn [negb].
  set (st2 := with_append_day None _).
  assert (ps_epoch st2 = ps_epoch st /\ ps_pressure st2 = ps_pressure st) as [He Hp]
    by (unfold st2; destruct current; [by case_decide|done]).
  destruct (fin || _) eqn:Ef; [done|]. intros [= <-]. apply orb_false_iff in Ef as [Ef _]. split_and!; [done| |done].
  rewrite <- Ee, <- He. done.
Qed.

(** One day at a time.  Under pressure the selected day is kept while it is busy, or
    parked and fits; when it is given up, nothing is selected while a day is being
    finished or for ten minutes unless space was freed, and then the first other parked
    day that fits is, in the order of their names. *)
Theorem select_one_day lim dk fits now parked busy st :
  (under_pressure lim dk "" st).1 = true -> "" ∉ parked ->
  let st1 := (under_pressure lim dk "" st).2 in
  let '(r, st') := select_append_day lim dk fits now alone parked busy st in
  selects lim fits now parked busy st1 r (ps_append_day st') /\ ps_pressure st' = true /\ r <> AllDays.
Proof.
  intros Hp Hne0. cbv zeta. unfold select_append_day. destruct (under_pressure lim dk "" st) as [pressed st1] eqn:Eu. cbn [fst snd] in *. subst.
  assert (ps_pressure st1 = true) as Hp1 by (unfold under_pressure in Eu; injection Eu as Eu <-; exact Eu).
  cbn [negb alone o_read o_current o_candidates]. unfold id.
  assert (forall d, d ∈ merge_sort String.le parked <-> d ∈ parked) as Hin by (intros; by rewrite merge_sort_Permutation).
  destruct (match ps_append_day st1 with Some d => _ | None => false end) eqn:Ek.
  { destruct (ps_append_day st1) as [d|] eqn:Ea; [|done]. rewrite ?Ea. split_and!; [|done|by destruct (finishing st1)].
    apply sel_keep; [done|]. apply orb_true_iff in Ek as [Hb|Hb]; [left; by apply bool_decide_eq_true in Hb|right].
    apply andb_true_iff in Hb as [Hb ?]. by apply bool_decide_eq_true, Hin in Hb. }
  destruct (select_hold _ _ _ _ _ _) as [[r|] st2] eqn:Eh.
  - apply select_hold_stops in Eh as (-> & Ha & Hp2 & [Hf|(since & Hs & Hlt)]); [..|done]; rewrite Ha, Hp2; split_and!; try done.
    + by apply sel_finishing.
    + apply (sel_waiting _ _ _ _ _ _ since); [|done]. by setoid_rewrite Hin in Hs.
  - apply select_hold_goes in Eh as (Hf & He & Hp2). rewrite Hf. unfold select_commit. rewrite He, Z.eqb_refl. cbn [negb].
    rewrite list_filter_filter.
    pose proof (head_filter_strongly (fun d => fits d = true /\ Some d <> ps_append_day st1) (merge_sort String.le parked)
      (Sorted_StronglySorted _ _ (Sorted_merge_sort String.le parked))) as Hh.
    destruct (head _) as [d|]; cbn [default from_option].
    + destruct Hh as (H1 & [H2 H3] & H4). split_and!; [|cbn; congruence|done]. cbn [ps_append_day with_append_day]. apply Hin in H1.
      assert (d <> "") as Hd by (intros E; subst; by apply Hne0).
      rewrite decide_False by done. apply sel_next; [done..|].
      intros d' Hd' Hne Hf'. apply H4; [by apply Hin|done].
    + split_and!; [|cbn; congruence|done]. apply sel_none. intros d Hd Hne. apply not_true_iff_false. intros Hf'.
      apply (Hh d); [by apply Hin|done].
Qed.

(** ** Reservations *)

Lemma sum_perm (l1 l2 : list Z) : l1 ≡ₚ l2 -> foldr Z.add 0 l1 = foldr Z.add 0 l2.
Proof. induction 1; simpl; lia. Qed.

Lemma reserved_bytes_split dk st key r :
  ps_reserved st !! key = Some r -> dict_wf (ps_reserved st) ->
  reserved_bytes dk st = outstanding dk r + reserved_bytes dk (release key st).
Proof.
  intros Hk Hwf. unfold reserved_bytes, dict_values, release. cbn [ps_reserved with_reserved].
  pose proof (dict_items_delete_perm _ _ _ Hwf Hk) as Hp. rewrite (sum_perm _ (outstanding dk <$> (r :: (dict_items (delete key (ps_reserved st))).*2))).
  - done.
  - by rewrite Hp.
Qed.

Lemma reserved_bytes_nonneg dk st : 0 <= reserved_bytes dk st.
Proof.
  unfold reserved_bytes. induction (dict_values (ps_reserved st)) as [|[[n t] b] l IH]; [done|].
  rewrite fmap_cons. cbn [foldr]. unfold outstanding at 1. lia.
Qed.

(** The readings of the disk agree away from [tar]. *)
Definition same_elsewhere (tar : string) (dk dk' : disk) : Prop :=
  forall t, t <> tar -> tar_bytes_on_disk dk' t = tar_bytes_on_disk dk t.

(** A reservation is not charged twice.  While a reserved tar grows by at most what was
    reserved for it, and free space shrinks by as much, every answer about the hard
    reserve stays the same: the growth was already accounted for. *)
Theorem growth_already_reserved lim dk dk' st key nbytes tar g path need restore_need :
  dict_wf (ps_reserved st) -> ps_reserved st !! key = Some (nbytes, tar, tar_bytes_on_disk dk tar) ->
  (forall k n b, ps_reserved st !! k = Some (n, tar, b) -> k = key) ->
  0 <= g <= nbytes -> tar_bytes_on_disk dk' tar = tar_bytes_on_disk dk tar + g -> same_elsewhere tar dk dk' ->
  dk_free dk' path = (fun f => f - g) <$> dk_free dk path ->
  reserved_bytes dk' st = reserved_bytes dk st - g /\
  fits_hard_reserve lim dk' path need restore_need st = fits_hard_reserve lim dk path need restore_need st.
Proof.
  intros Hwf Hk Hone Hg Htar Helse Hfree.
  assert (reserved_bytes dk' (release key st) = reserved_bytes dk (release key st)) as Hrest.
  { unfold reserved_bytes. f_equal. apply list_fmap_ext. intros i [[n t] b] Hi%list_elem_of_lookup_2.
    apply elem_values in Hi as [k Hlk]; [|by apply dict_wf_delete]. cbn in Hlk. rewrite dict_lookup_delete in Hlk.
    case_decide as Hd; [done|]. unfold outstanding. destruct (decide (t = tar)) as [->|Ht]; [|by rewrite Helse].
    exfalso. apply Hd. symmetry. by eapply Hone. }
  assert (reserved_bytes dk' st = reserved_bytes dk st - g) as Hb.
  { rewrite !(reserved_bytes_split _ _ _ _ Hk Hwf), Hrest. unfold outstanding. rewrite Htar. lia. }
  split; [done|]. unfold fits_hard_reserve. destruct (need <=? 0); [done|]. rewrite Hfree.
  destruct (dk_free dk path) as [f|]; [|done]. simpl. f_equal. lia.
Qed.

(** A body run under [reserving] leaves no reservation of its key behind, whether it
    returned or raised. *)
Theorem reserving_releases {A} dk key nbytes tar (body : pressure_state -> result A * pressure_state) st :
  let '(r, st') := reserving dk key nbytes tar body st in
  ps_reserved st' !! key = None /\ exists st1, body (reserve dk key nbytes tar st) = (r, st1) /\
    forall k, k <> key -> ps_reserved st' !! k = ps_reserved st1 !! k.
Proof.
  unfold reserving. destruct (body _) as [r st1]. cbn. split; [apply dict_lookup_delete_eq|].
  exists st1. split; [done|]. intros k Hk. by apply dict_lookup_delete_ne.
Qed.

(** ** The restore slot *)

(** A tar holds the slot by its file, or by a reservation under its name. *)
Definition held (dk : disk) (st : pressure_state) (t : string) : Prop :=
  dk_isfile dk t = true \/ is_Some (ps_reserved st !! t) \/ is_Some (ps_reserved st !! ("restore:" +:+ t)).

Lemma tar_live_held dk st t : tar_live dk st t = true <-> held dk st t.
Proof. unfold tar_live, held. rewrite !orb_true_iff, !bool_decide_eq_true. tauto. Qed.

Lemma slot_holders_elem dk exclude st t :
  t ∈ (slot_holders dk exclude st).1 <-> t ∈ ps_expanded st /\ held dk st t /\ t <> exclude.
Proof.
  unfold slot_holders. cbn [fst]. rewrite merge_sort_Permutation, elem_of_elements, elem_of_difference, elem_of_singleton, elem_of_filter.
  rewrite tar_live_held. tauto.
Qed.

Lemma slot_holders_nil dk e st :
  (slot_holders dk e st).1 = [] <-> forall t, t ∈ ps_expanded st -> held dk st t -> t = e.
Proof.
  split.
  - intros E t Ht Hl. destruct (decide (t = e)) as [|Hne]; [done|]. exfalso.
    assert (t ∈ (slot_holders dk e st).1) as Hin by by apply slot_holders_elem. rewrite E in Hin. by apply elem_of_nil in Hin.
  - intros Ha. destruct (slot_holders dk e st).1 as [|t l] eqn:E; [done|]. exfalso.
    assert (t ∈ (slot_holders dk e st).1) as Hin by (rewrite E; left). apply slot_holders_elem in Hin as (H1 & H2 & H3). auto.
Qed.

Lemma claim_slot_granted dk tar key need base st :
  (claim_slot dk tar key need base true st).1 = true <->
  forall t, t ∈ ps_expanded st -> held dk st t -> t = tar.
Proof.
  rewrite <- slot_holders_nil. unfold claim_slot. by destruct (slot_holders dk tar st) as [[|] ?].
Qed.

(** The threads' calls that touch reservations and expanded tars. *)
Inductive slot_op :=
| SlotReserve (key : string) (nbytes : Z) (tar : string)
| SlotRelease (key : string)
| SlotClaim (tar key : string) (need base : Z) (pressed : bool)
| SlotHolders (exclude : string)
| SlotExpand (tar : string)
| SlotSample (threshold : Z) (free : option Z).

Definition slot_step (dk : disk) (o : slot_op) (st : pressure_state) : pressure_state :=
  match o with
  | SlotReserve key nbytes tar => reserve dk key nbytes tar st
  | SlotRelease key => release key st
  | SlotClaim tar key need base pressed => (claim_slot dk tar key need base pressed st).2
  | SlotHolders exclude => (slot_holders dk exclude st).2
  | SlotExpand tar => note_expansion tar st
  | SlotSample threshold free => sample threshold free st
  end.

(** The states of a run in which [t] holds the slot before every step. *)
Inductive held_run (t : string) : pressure_state -> pressure_state -> Prop :=
| held_nil st : held_run t st st
| held_step dk o st st' : held dk st t -> held_run t (slot_step dk o st) st' -> held_run t st st'.

Lemma slot_holders_expanded dk e st t :
  t ∈ ps_expanded st -> held dk st t -> t ∈ ps_expanded (slot_holders dk e st).2.
Proof. intros Ht Hl. unfold slot_holders. cbn. apply elem_of_filter. by rewrite tar_live_held. Qed.

Lemma slot_step_expanded dk o st t :
  t ∈ ps_expanded st -> held dk st t -> t ∈ ps_expanded (slot_step dk o st).
Proof.
  intros Ht Hl. destruct o as [| |tar key need base pressed|e|tar|threshold free]; try done; simpl.
  - unfold claim_slot. destruct pressed; [|cbn; apply elem_of_union; by right].
    pose proof (slot_holders_expanded dk tar st t Ht Hl) as H'.
    destruct (slot_holders dk tar st) as [[|] st1]; cbn in *; [|done]. apply elem_of_union. by right.
  - exact (slot_holders_expanded dk e st t Ht Hl).
  - set_solver.
  - unfold sample. destruct free as [f|]; [|done]. destruct (_ && _); [done|]. by destruct (_ || _).
Qed.

(** The restore slot is exclusive.  Under pressure a claim is granted exactly when no
    other expanded tar has its file or a reservation; the claimant is then reserved, and
    whatever calls follow, as long as it has its file or its reservation, no claim
    for another tar is granted. *)
Theorem restore_slot_exclusive dk tar need base st :
  let key := "restore:" +:+ tar in
  let '(ok, st') := claim_slot dk tar key need base true st in
  (ok = true <-> forall t, t ∈ ps_expanded st -> held dk st t -> t = tar) /\
  (ok = true -> ps_reserved st' !! key = Some (Z.max 0 need, tar, base) /\
    forall st2 dk' key' tar' need' base', tar' <> tar -> held_run tar st' st2 -> held dk' st2 tar ->
      (claim_slot dk' tar' key' need' base' true st2).1 = false).
Proof.
  cbv zeta. set (key := "restore:" +:+ tar).
  pose proof (claim_slot_granted dk tar key need base st) as Hg.
  destruct (claim_slot dk tar key need base true st) as [ok st'] eqn:Ec. cbn in Hg. split; [done|].
  intros ->. assert (ps_reserved st' !! key = Some (Z.max 0 need, tar, base) /\ tar ∈ ps_expanded st') as [Hr He].
  { unfold claim_slot in Ec. destruct (slot_holders dk tar st) as [[|] st1]; simplify_eq.
    split; [apply dict_lookup_insert_eq|set_solver]. }
  split; [done|]. intros st2 dk' key' tar' need' base' Hne Hrun Hl. clear Hg Ec Hr.
  induction Hrun as [st2|dk2 o st2 st3 Hh Hrun IH]; [|apply IH; [by apply slot_step_expanded|done]].
  apply not_true_iff_false. rewrite claim_slot_granted. intros Ha. destruct Hne. symmetry. by apply Ha.
Qed.

(** ** Zstandard frame headers *)

(** The format (RFC 8878, 3.1.1.1): how many bytes the descriptor [d] announces for the
    window, the dictionary id and the content size. *)
Definition window_bytes (d : Z) := if decide (d / 32 mod 2 = 1) then 0%nat else 1%nat.
Definition dict_id_bytes (d : Z) := match d mod 4 with 0 => 0%nat | 1 => 1%nat | 2 => 2%nat | _ => 4%nat end.
Definition content_size_bytes (d : Z) :=
  match d / 64 with
  | 0 => if decide (d / 32 mod 2 = 1) then 1%nat else 0%nat
  | 1 => 2%nat
  | 2 => 4%nat
  | _ => 8%nat
  end.

(** A two-byte field holds the size less 256. *)
Definition content_size_bias (d : Z) : Z := if decide (content_size_bytes d = 2%nat) then 256 else 0.

Fixpoint to_bytes_little (k : nat) (v : Z) : list Z :=
  match k with
  | O => []
  | S k => v mod 256 :: to_bytes_little k (v / 256)
  end.

Definition frame_header (d : Z) (window dict_id : list Z) (content : Z) : list Z :=
  ZSTD_MAGIC ++ d :: window ++ dict_id ++ to_bytes_little (content_size_bytes d) (content - content_size_bias d).

Lemma length_to_bytes k v : length (to_bytes_little k v) = k.
Proof. revert v. induction k; intros v; simpl; [done|by rewrite IHk]. Qed.

Lemma from_to_bytes k v : 0 <= v < 256 ^ Z.of_nat k -> from_bytes_little (to_bytes_little k v) = v.
Proof.
  revert v. induction k as [|k IH]; intros v Hv; [simpl in *; lia|]. cbn [to_bytes_little from_bytes_little].
  rewrite Nat2Z.inj_succ, Z.pow_succ_r in Hv by lia. rewrite IH.
  - pose proof (Z.div_mod v 256). lia.
  - split; [apply Z.div_pos; lia|]. apply Z.div_lt_upper_bound; lia.
Qed.

(** What the parser reads from a descriptor is what the format says. *)
Lemma descriptor_fields d :
  0 <= d < 256 ->
  (if Z.land (Z.shiftr d 5) 1 =? 0 then 1%nat else 0%nat) = window_bytes d /\
  match Z.land d 3 with 0 => 0%nat | 1 => 1%nat | 2 => 2%nat | _ => 4%nat end = dict_id_bytes d /\
  match Z.shiftr d 6 with
  | 0 => if Z.land (Z.shiftr d 5) 1 =? 0 then 0%nat else 1%nat
  | 1 => 2%nat
  | 2 => 4%nat
  | _ => 8%nat
  end = content_size_bytes d.
Proof.
  intros Hd. change 3 with (Z.ones 2). change 1 with (Z.ones 1).
  rewrite !Z.shiftr_div_pow2, !Z.land_ones by lia. change (2 ^ 5) with 32. change (2 ^ 6) with 64. change (2 ^ 2) with 4. change (2 ^ 1) with 2.
  unfold window_bytes, dict_id_bytes, content_size_bytes. pose proof (Z.mod_pos_bound (d / 32) 2).
  assert (d / 32 mod 2 = 0 \/ d / 32 mod 2 = 1) as [E|E] by lia; rewrite E; simpl; done.
Qed.

Lemma content_bytes_cases d : (content_size_bytes d <= 8)%nat /\ (dict_id_bytes d <= 4)%nat /\ (window_bytes d <= 1)%nat.
Proof.
  unfold content_size_bytes, dict_id_bytes, window_bytes. split_and!.
  - destruct (d / 64) as [|[| |]|]; try lia; try (case_decide; lia); destruct p; lia.
  - destruct (d mod 4) as [|[| |]|]; try lia; destruct p; lia.
  - case_decide; lia.
Qed.

Lemma header_bytes d : (1 <= window_bytes d + content_size_bytes d)%nat.
Proof.
  unfold window_bytes, content_size_bytes. case_decide; [|lia].
  destruct (d / 64) as [|[p|p|]|]; try lia; destruct p; lia.
Qed.

(** The content size of a frame that announces one is read back, whatever the window, the
    dictionary id and the rest of the file; a frame that announces none has none. *)
Theorem zst_size_roundtrip d window dict_id content rest :
  0 <= d < 256 -> length window = window_bytes d -> length dict_id = dict_id_bytes d ->
  content_size_bias d <= content < content_size_bias d + 256 ^ Z.of_nat (content_size_bytes d) ->
  zst_frame_content_size (Some (frame_header d window dict_id content ++ rest)) =
    if decide (content_size_bytes d = 0%nat) then None else Some content.
Proof.
  intros Hd Hw Hi Hc. destruct (descriptor_fields d Hd) as (E1 & E2 & E3). destruct (content_bytes_cases d) as (B1 & B2 & B3).
  set (field := to_bytes_little (content_size_bytes d) (content - content_size_bias d)).
  assert (length field = content_size_bytes d) as Hf by apply length_to_bytes.
  unfold frame_header. fold field. unfold zst_frame_content_size. cbn [fmap option_fmap option_map].
  set (all := (ZSTD_MAGIC ++ d :: window ++ dict_id ++ field) ++ rest).
  assert (take 4 (take 18 all) = ZSTD_MAGIC) as Hmagic by (unfold all; reflexivity).
  assert (nth 4 (take 18 all) 0 = d) as Hnth by (unfold all; reflexivity).
  set (pos := (5 + window_bytes d + dict_id_bytes d)%nat).
  assert (length all = (pos + content_size_bytes d + length rest)%nat) as Hlen.
  { unfold all, pos. rewrite !length_app. cbn [length ZSTD_MAGIC]. rewrite !length_app. lia. }
  assert (take (content_size_bytes d) (drop pos (take 18 all)) = field) as Hfield.
  { rewrite take_drop_commute, take_take, Nat.min_l, <- take_drop_commute by (unfold pos; lia).
    assert (all = (ZSTD_MAGIC ++ d :: window ++ dict_id) ++ field ++ rest) as -> by (unfold all; rewrite <- !app_assoc; simpl; by rewrite <- !app_assoc).
    rewrite drop_app_length' by (rewrite length_app; cbn [length ZSTD_MAGIC]; rewrite length_app; unfold pos; lia).
    by apply take_app_length'. }
  assert ((length (take 18 all) <? 6)%nat = false) as ->.
  { apply Nat.ltb_ge. rewrite length_take, Hlen. pose proof (header_bytes d). unfold pos. lia. }
  rewrite Hmagic, bool_decide_true by done. cbn [orb negb]. rewrite Hnth. cbv zeta. rewrite E1, E2, E3. fold pos. rewrite Hfield.
  rewrite Hf, Nat.eqb_refl. cbn [negb]. rewrite orb_false_r.
  destruct (content_size_bytes d =? 0)%nat eqn:E0; [apply Nat.eqb_eq in E0; by rewrite decide_True|apply Nat.eqb_neq in E0].
  rewrite decide_False by done. f_equal. unfold field. rewrite from_to_bytes by lia. unfold content_size_bias in *.
  destruct (Nat.eqb_spec (content_size_bytes d) 2); [rewrite decide_True by done|rewrite decide_False by done]; lia.
Qed.

(** ** What the code does not do *)

Lemma sample_clear threshold st :
  0 < threshold ->
  sample threshold (Some (2 * threshold)) st =
    with_epoch (ps_epoch st + 1) (with_hold None (ps_finished_since_hold st) (with_append_day None (with_pressure false st))).
Proof.
  intros Ht. unfold sample. assert ((2 * threshold <? threshold) = false) as -> by (apply Z.ltb_ge; lia).
  by rewrite andb_false_r, Z.leb_refl, orb_true_r.
Qed.

(** [under_pressure] and the epoch are read in two blocks.  When the pressure ends
    between them, the selection takes the epoch of the relaxed state, and writes a day
    back although the state is off. *)
Theorem selection_outlives_pressure lim fits now d :
  0 < lim_pressure_free lim -> d <> "" -> fits d = true ->
  exists dk o st, ps_pressure st = true /\
    (forall x, o_read o x = sample (lim_pressure_free lim) (Some (2 * lim_pressure_free lim)) x) /\ o_current o = id /\ o_candidates o = id /\
    let '(r, st') := select_append_day lim dk fits now o [d] [] st in
    r = Day d /\ ps_pressure st' = false /\ ps_append_day st' = Some d.
Proof.
  intros Ht Hd Hfit.
  exists (Disk (fun _ => None) (fun _ => None) (fun _ => false) (fun _ => None)),
    (Others (sample (lim_pressure_free lim) (Some (2 * lim_pressure_free lim))) id id), (with_pressure true initial_pressure).
  split_and!; [done..|]. set (dk := Disk _ _ _ _). set (o := Others _ _ _).
  assert (under_pressure lim dk "" (with_pressure true initial_pressure) = (true, with_pressure true initial_pressure)) as Eu.
  { unfold under_pressure. assert ((0 <? lim_pressure_free lim) = true) as -> by (apply Z.ltb_lt; lia). done. }
  unfold select_append_day. rewrite Eu. cbn [negb]. unfold o. cbn [o_read o_current o_candidates].
  rewrite sample_clear by done. unfold select_hold, select_commit. cbn.
  rewrite (decide_True (P := Some d <> None)) by done. rewrite (filter_cons_True (fun d => fits d = true)) by done.
  cbn. by rewrite decide_False.
Qed.

(** ** Instances *)

Definition demo_limits : limits := Limits 100 10 "/archive".

(** A disk with 150 bytes free: between the threshold and twice the threshold. *)
Definition demo_disk : disk := Disk (fun _ => Some 150) (fun _ => None) (fun _ => false) (fun _ => None).

Lemma pressure_hysteresis_witness :
  ps_pressure (foldl (fun st f => sample 100 f st) initial_pressure [Some 90; Some 150; None; Some 199]) = true.
Proof.
  apply (pressure_hysteresis 100); [lia|]. left. exists [], 90, [Some 150; None; Some 199]. split_and!; [done|lia|].
  repeat constructor; intros (x & E & Hx); simplify_eq; lia.
Defined.

Lemma select_one_day_witness :
  let st := with_pressure true initial_pressure in
  selects demo_limits (fun d => bool_decide (d = "2024-01-02")) 0 ["2024-01-02"; "2024-01-01"] []
    st (Day "2024-01-02") (Some "2024-01-02").
Proof.
  cbv zeta.
  assert ("" ∉ ["2024-01-02"; "2024-01-01"]) as Hn by (rewrite !not_elem_of_cons; split_and!; [done..|apply not_elem_of_nil]).
  exact (proj1 (select_one_day demo_limits demo_disk (fun d => bool_decide (d = "2024-01-02")) 0 ["2024-01-02"; "2024-01-01"] []
    (with_pressure true initial_pressure) eq_refl Hn)).
Defined.

Lemma growth_already_reserved_witness :
  let tar := "/archive/2024-01-01.tar" in
  let dk := Disk (fun _ => Some 150) (fun _ => None) (fun _ => false) (fun _ => None) in
  let dk' := Disk (fun _ => Some 120) (fun p => if decide (p = tar) then Some 30 else None) (fun _ => true) (fun _ => None) in
  let st := reserve dk "restore" 40 tar initial_pressure in
  reserved_bytes dk' st = reserved_bytes dk st - 30 /\
  fits_hard_reserve demo_limits dk' "/archive" 20 0 st = fits_hard_reserve demo_limits dk "/archive" 20 0 st.
Proof.
  cbv zeta. apply (growth_already_reserved demo_limits _ _ _ "restore" 40 "/archive/2024-01-01.tar" 30).
  - vm_compute. repeat constructor; set_solver.
  - reflexivity.
  - intros k n b. unfold reserve. cbn [ps_reserved with_reserved initial_pressure]. rewrite dict_lookup_insert. by case_decide.
  - lia.
  - reflexivity.
  - intros t Ht. unfold tar_bytes_on_disk, size. cbn [dk_size]. case_decide; [done|].
    rewrite (decide_False (P := t = _)) by done. case_decide as E; [|done]. apply (f_equal (strip_suffix ".decomp.tmp")) in E. by rewrite strip_suffix_app in E.
  - reflexivity.
Defined.

Lemma zst_size_roundtrip_witness :
  zst_frame_content_size (Some (frame_header 0x60 [] [] 1000 ++ [1; 2; 3])) = Some 1000.
Proof. apply (zst_size_roundtrip 0x60 [] [] 1000 [1; 2; 3]); vm_compute; intuition discriminate. Defined.
