(* ===== verification/FileLock.v ===== *)
(** File locks with a sidecar that comes and goes: [dbload/lib/file_locking.py].

    A lock on a target is a [flock] on its sidecar file.  The sidecar is removed when a
    writer releases it and by cleaners, so the path may name another file (inode) than
    the one a process opened and locked: every acquire checks after locking that the
    path still names its inode ([_sidecar_is_current]).

    One sidecar path is modelled, with any number of processes on it: [pc] are the
    points between two system calls of [file_write_lock], [file_read_lock_wait] and
    [_maybe_reset_stale_lock_file], [pstep] the next system call of one process, and
    [sys_step] lets any process move or die at any time.  Inode numbers are not reused.
    Each process has one file descriptor open at a time; it is named by the process. *)
From S2P Require Import Prelude PyDict PyStr.
Local Open Scope Z_scope.

Definition LOCK_SUFFIX : string := ".fnctl.lock".
Definition LOCK_EXPIRY_SECONDS : Z := 4 * 60 * 60.
Definition READ_WAIT_TIMEOUT_SECONDS : Z := 60.

(** [_lock_path]: trailing suffixes collapse into one. *)
Fixpoint strip_lock_suffixes (fuel : nat) (base : string) : string :=
  match fuel with
  | O => base
  | S fuel => match strip_suffix LOCK_SUFFIX base with
              | Some base => strip_lock_suffixes fuel base
              | None => base
              end
  end.

Definition target_path_from_lock_sidecar (lock_path : string) : string :=
  strip_lock_suffixes (S (String.length lock_path)) lock_path.

Definition lock_path (target_path : string) : string := target_path_from_lock_sidecar target_path +:+ LOCK_SUFFIX.

(** ** The files *)

(** The inode the sidecar path names, the flocks by process (inode, exclusive), the
    next inode. *)
Record lock_fs := LockFs {
  lf_path : option Z;
  lf_flocks : gmap Z (Z * bool);
  lf_next : Z;
}.

Definition open_sidecar (fs : lock_fs) : Z * lock_fs :=
  match lf_path fs with
  | Some i => (i, fs)
  | None => (lf_next fs, LockFs (Some (lf_next fs)) (lf_flocks fs) (lf_next fs + 1))
  end.

(** [flock(fd, LOCK_EX | LOCK_NB)] or [LOCK_SH]: refused when another descriptor's lock
    conflicts. *)
Definition conflicts (p i : Z) (ex : bool) (q : Z) (l : Z * bool) : Prop := q <> p /\ l.1 = i /\ (ex = true \/ l.2 = true).

#[export] Instance conflicts_dec p i ex q l : Decision (conflicts p i ex q l).
Proof. unfold conflicts. apply _. Defined.

Definition flock_nb (p i : Z) (ex : bool) (fs : lock_fs) : option lock_fs :=
  if decide (map_Forall (fun q l => ~ conflicts p i ex q l) (lf_flocks fs))
  then Some (LockFs (lf_path fs) (<[p := (i, ex)]> (lf_flocks fs)) (lf_next fs))
  else None.

(** Unlocking and closing. *)
Definition unlock (p : Z) (fs : lock_fs) : lock_fs := LockFs (lf_path fs) (delete p (lf_flocks fs)) (lf_next fs).

Definition sidecar_is_current (i : Z) (fs : lock_fs) : bool := bool_decide (lf_path fs = Some i).

Definition remove_sidecar (fails : bool) (fs : lock_fs) : lock_fs :=
  if fails then fs else LockFs None (lf_flocks fs) (lf_next fs).

(** ** The processes *)

(** A writer, a reader with its timeout; or a cleaner with its expiry. *)
Inductive lock_kind :=
| Writer (timeout : Z)
| Reader (timeout : Z)
| Cleaner (expiry : Z).

Definition is_writer (k : lock_kind) : bool := match k with Reader _ => false | _ => true end.

(** Where a process is: resetting a stale sidecar ([R]), acquiring ([A]), in the
    protected section, releasing ([U]), or out. *)
Inductive pc :=
| RExists
| ROpen
| RFlock (i : Z)
| RCurrent (i : Z)
| RRemove (i : Z)
| RClose (i : Z)
| AOpen
| AFlock (i : Z)
| ACurrent (i : Z)
| AClose (i : Z)
| Retry
| Holding (i : Z)
| UCurrent (i : Z)
| URemove (i : Z)
| UUnlock (i : Z)
| Done
| TimedOut
| Failed.

(** What the environment answers to a step: seconds since the start, the sidecar's age,
    whether the parent directory exists, whether an unlink fails. *)
Record lock_env := LockEnv { le_elapsed : Z; le_age : Z; le_parent : bool; le_remove_fails : bool }.

(** After the reset a cleaner is done, the others acquire. *)
Definition after_reset (k : lock_kind) : pc := match k with Cleaner _ => Done | _ => AOpen end.

(** [_maybe_reset_stale_lock_file], one system call. *)
Definition reset_step (e : lock_env) (k : lock_kind) (p : Z) (fs : lock_fs) (at_ : pc) : lock_fs * pc :=
  match at_ with
  | RExists =>
      match lf_path fs with
      | None => (fs, after_reset k)
      | Some _ =>
          match k with
          | Cleaner expiry => if (0 <? expiry) && (le_age e <=? expiry) then (fs, Done) else (fs, ROpen)
          | _ => (fs, ROpen)
          end
      end
  | ROpen => if le_parent e then let '(i, fs) := open_sidecar fs in (fs, RFlock i) else (fs, after_reset k)
  | RFlock i => match flock_nb p i true fs with Some fs => (fs, RCurrent i) | None => (fs, after_reset k) end
  | RCurrent i => if sidecar_is_current i fs then (fs, RRemove i) else (fs, RClose i)
  | RRemove i => (remove_sidecar (le_remove_fails e) fs, RClose i)
  | RClose i => (unlock p fs, after_reset k)
  | _ => (fs, at_)
  end.

(** The rest of an attempt, writer's or reader's: open, lock, check, and after a failure
    give up or start over. *)
Definition acquire_step (e : lock_env) (k : lock_kind) (p : Z) (fs : lock_fs) (at_ : pc) : lock_fs * pc :=
  match at_ with
  | AOpen => if le_parent e then let '(i, fs) := open_sidecar fs in (fs, AFlock i) else (fs, Failed)
  | AFlock i => match flock_nb p i (is_writer k) fs with Some fs => (fs, ACurrent i) | None => (fs, Retry) end
  | ACurrent i => if sidecar_is_current i fs then (fs, Holding i) else (fs, AClose i)
  | AClose i => (unlock p fs, Retry)
  | Retry =>
      match k with
      | Writer timeout | Reader timeout => if timeout <=? le_elapsed e then (fs, TimedOut) else (fs, RExists)
      | Cleaner _ => (fs, Done)
      end
  | _ => (fs, at_)
  end.

(** The end of the section: a writer removes its sidecar before it unlocks. *)
Definition release_step (e : lock_env) (k : lock_kind) (p : Z) (fs : lock_fs) (at_ : pc) : lock_fs * pc :=
  match at_ with
  | Holding i => if is_writer k then (fs, UCurrent i) else (fs, UUnlock i)
  | UCurrent i => if sidecar_is_current i fs then (fs, URemove i) else (fs, UUnlock i)
  | URemove i => (remove_sidecar (le_remove_fails e) fs, UUnlock i)
  | UUnlock i => (unlock p fs, Done)
  | _ => (fs, at_)
  end.

Definition pstep (e : lock_env) (k : lock_kind) (p : Z) (fs : lock_fs) (at_ : pc) : lock_fs * pc :=
  match at_ with
  | RExists | ROpen | RFlock _ | RCurrent _ | RRemove _ | RClose _ => reset_step e k p fs at_
  | AOpen | AFlock _ | ACurrent _ | AClose _ | Retry => acquire_step e k p fs at_
  | Holding _ | UCurrent _ | URemove _ | UUnlock _ => release_step e k p fs at_
  | Done | TimedOut | Failed => (fs, at_)
  end.

(** ** The system *)

Record lock_sys := LockSys { ls_fs : lock_fs; ls_procs : gmap Z (lock_kind * pc) }.

Inductive sys_step : lock_sys -> lock_sys -> Prop :=
| step_enter p k fs procs :
    procs !! p = None -> sys_step (LockSys fs procs) (LockSys fs (<[p := (k, RExists)]> procs))
| step_move e p k at_ fs procs :
    procs !! p = Some (k, at_) ->
    sys_step (LockSys fs procs)
      (LockSys (pstep e k p fs at_).1 (<[p := (k, (pstep e k p fs at_).2)]> procs))
| step_die p fs procs :
    sys_step (LockSys fs procs) (LockSys (unlock p fs) (delete p procs)).

(** The sidecar may be left over from an earlier run. *)
Inductive lock_reachable : lock_sys -> Prop :=
| lr_init path next : (forall i, path = Some i -> i < next) -> lock_reachable (LockSys (LockFs path ∅ next) ∅)
| lr_step s s' : lock_reachable s -> sys_step s s' -> lock_reachable s'.

Definition holds (s : lock_sys) (p : Z) (k : lock_kind) : Prop := exists i, ls_procs s !! p = Some (k, Holding i).
