(* ===== verification/FileLockSpec.v ===== *)
(** File locks: exclusion of writers, bounded attempts, and success when nobody else
    holds the sidecar. *)
From S2P Require Import Prelude PyDict PyStr FileLock.
Local Open Scope Z_scope.

(** The lock a process has at a point, and the inode it knows the path to name. *)
Definition pc_lock (k : lock_kind) (at_ : pc) : option (Z * bool) :=
  match at_ with
  | RCurrent i | RRemove i | RClose i => Some (i, true)
  | ACurrent i | AClose i | Holding i | UCurrent i | URemove i | UUnlock i => Some (i, is_writer k)
  | _ => None
  end.

Definition pc_current (at_ : pc) : option Z :=
  match at_ with
  | RRemove i | Holding i | UCurrent i | URemove i => Some i
  | _ => None
  end.

(** The points only a writer reaches. *)
Definition pc_writer (k : lock_kind) (at_ : pc) : bool :=
  match at_ with UCurrent _ | URemove _ => is_writer k | _ => true end.

(** The inodes a process refers to. *)
Definition pc_inode (at_ : pc) : option Z :=
  match at_ with
  | RFlock i | RCurrent i | RRemove i | RClose i | AFlock i | ACurrent i | AClose i | Holding i | UCurrent i | URemove i | UUnlock i => Some i
  | _ => None
  end.

Record lock_inv (s : lock_sys) : Prop := {
  li_locks : forall p, lf_flocks (ls_fs s) !! p = match ls_procs s !! p with Some (k, at_) => pc_lock k at_ | None => None end;
  li_compat : forall p q i a b, lf_flocks (ls_fs s) !! p = Some (i, a) -> lf_flocks (ls_fs s) !! q = Some (i, b) ->
    p <> q -> a = false /\ b = false;
  li_current : forall p k at_ i, ls_procs s !! p = Some (k, at_) -> pc_current at_ = Some i -> lf_path (ls_fs s) = Some i;
  li_writer : forall p k at_, ls_procs s !! p = Some (k, at_) -> pc_writer k at_ = true;
  li_inodes : forall p k at_ i, ls_procs s !! p = Some (k, at_) -> pc_inode at_ = Some i -> i < lf_next (ls_fs s);
  li_path : forall i, lf_path (ls_fs s) = Some i -> i < lf_next (ls_fs s);
}.

(** The step of one process, as the others see it: their locks stay, the path only gets a
    new inode when it had none, and only an exclusive holder of its inode removes it. *)
Record step_ok (k : lock_kind) (p : Z) (fs : lock_fs) (at_ : pc) (fs' : lock_fs) (at' : pc) : Prop := {
  so_others : forall q, q <> p -> lf_flocks fs' !! q = lf_flocks fs !! q;
  so_own : lf_flocks fs' !! p = pc_lock k at';
  so_compat : forall q i a b, q <> p -> lf_flocks fs' !! p = Some (i, a) -> lf_flocks fs !! q = Some (i, b) -> a = false /\ b = false;
  so_path : lf_path fs' = lf_path fs \/ (lf_path fs = None /\ lf_path fs' = Some (lf_next fs) /\ lf_next fs' = lf_next fs + 1) \/
    (exists i, lf_path fs = Some i /\ lf_path fs' = None /\ lf_flocks fs !! p = Some (i, true));
  so_current : forall i, pc_current at' = Some i -> lf_path fs' = Some i;
  so_writer : pc_writer k at' = true;
  so_next : lf_next fs <= lf_next fs';
  so_inode : forall i, pc_inode at' = Some i -> i < lf_next fs';
}.

Lemma flock_nb_ok p i ex fs fs' :
  flock_nb p i ex fs = Some fs' ->
  fs' = LockFs (lf_path fs) (<[p := (i, ex)]> (lf_flocks fs)) (lf_next fs) /\
  forall q j b, q <> p -> lf_flocks fs !! q = Some (j, b) -> j = i -> ex = false /\ b = false.
Proof.
  unfold flock_nb. case_decide as H; [|done]. intros [= <-]. split; [done|]. intros q j b Hq Hl ->.
  specialize (H q (i, b) Hl). unfold conflicts in H. simpl in H. destruct ex, b; try (split; done); exfalso; apply H; auto.
Qed.

Lemma unlock_lookup p q fs : lf_flocks (unlock p fs) !! q = if decide (q = p) then None else lf_flocks fs !! q.
Proof. unfold unlock; simpl. case_decide; subst; [apply lookup_delete_eq|by apply lookup_delete_ne]. Qed.

(** What is known of a process before its step. *)
Record pre_ok (k : lock_kind) (p : Z) (fs : lock_fs) (at_ : pc) : Prop := {
  po_own : lf_flocks fs !! p = pc_lock k at_;
  po_compat : forall q i a b, q <> p -> lf_flocks fs !! p = Some (i, a) -> lf_flocks fs !! q = Some (i, b) -> a = false /\ b = false;
  po_current : forall i, pc_current at_ = Some i -> lf_path fs = Some i;
  po_writer : pc_writer k at_ = true;
  po_inode : forall i, pc_inode at_ = Some i -> i < lf_next fs;
  po_path : forall i, lf_path fs = Some i -> i < lf_next fs;
}.

(** The file system stays. *)
Lemma step_ok_same k p fs at_ at' :
  pre_ok k p fs at_ -> pc_lock k at' = pc_lock k at_ ->
  (forall i, pc_current at' = Some i -> lf_path fs = Some i) -> pc_writer k at' = true ->
  (forall i, pc_inode at' = Some i -> i < lf_next fs) ->
  step_ok k p fs at_ fs at'.
Proof. intros [Ho Hc Hcur Hw Hi Hp] El Ec Ew Ei. constructor; auto; [by rewrite El|lia]. Qed.

(** The process locks. *)
Lemma step_ok_flock k p fs fs' at_ at' i ex :
  pre_ok k p fs at_ -> flock_nb p i ex fs = Some fs' -> pc_inode at_ = Some i -> pc_lock k at' = Some (i, ex) ->
  pc_current at' = None -> pc_writer k at' = true -> pc_inode at' = Some i -> step_ok k p fs at_ fs' at'.
Proof.
  intros [Ho Hc Hcur Hw Hi Hp] [-> Hf]%flock_nb_ok Ei El Ec Ew Ei'. constructor; cbn [lf_flocks lf_path lf_next].
  - intros q Hq. by apply lookup_insert_ne.
  - by rewrite lookup_insert_eq, El.
  - intros q j a b Hq. rewrite lookup_insert_eq. intros [= <- <-] Hl. by eapply Hf.
  - by left.
  - by rewrite Ec.
  - done.
  - lia.
  - intros j. rewrite Ei'. intros [= <-]. by apply Hi.
Qed.

(** The process unlocks. *)
Lemma step_ok_unlock k p fs at_ at' :
  pre_ok k p fs at_ -> pc_lock k at' = None -> pc_current at' = None -> pc_writer k at' = true -> pc_inode at' = None ->
  step_ok k p fs at_ (unlock p fs) at'.
Proof.
  intros [Ho Hc Hcur Hw Hi Hp] El Ec Ew Ei. constructor; rewrite ?Ec, ?Ei; try done.
  - intros q Hq. rewrite unlock_lookup. by rewrite decide_False.
  - rewrite unlock_lookup, El. by rewrite decide_True.
  - intros q i a b _. rewrite unlock_lookup. by rewrite decide_True.
  - by left.
Qed.

(** The process removes the sidecar it holds exclusively. *)
Lemma step_ok_remove k p fs at_ at' i b :
  pre_ok k p fs at_ -> pc_lock k at_ = Some (i, true) -> pc_current at_ = Some i -> pc_inode at_ = Some i ->
  pc_lock k at' = Some (i, true) -> pc_current at' = None -> pc_writer k at' = true -> pc_inode at' = Some i ->
  step_ok k p fs at_ (remove_sidecar b fs) at'.
Proof.
  intros Hpre El0 Ec0 Ei0 El Ec Ew Ei. destruct b.
  { apply step_ok_same; [done|congruence|by rewrite Ec|done|]. intros j. rewrite Ei, <- Ei0. apply Hpre. }
  destruct Hpre as [Ho Hc Hcur Hw Hi Hp]. constructor; cbn [remove_sidecar lf_flocks lf_path lf_next]; auto.
  - by rewrite Ho, El.
  - right; right. exists i. split_and!; [by apply Hcur|done|by rewrite Ho].
  - by rewrite Ec.
  - lia.
  - intros j. rewrite Ei, <- Ei0. apply Hi.
Qed.

(** The process opens the sidecar, creating it. *)
Lemma step_ok_open k p fs at_ (mk : Z -> pc) :
  pre_ok k p fs at_ -> pc_lock k at_ = None -> (forall i, pc_lock k (mk i) = None /\ pc_current (mk i) = None /\
    pc_writer k (mk i) = true /\ pc_inode (mk i) = Some i) ->
  step_ok k p fs at_ (open_sidecar fs).2 (mk (open_sidecar fs).1).
Proof.
  intros Hpre El0 Hmk. destruct (Hmk (open_sidecar fs).1) as (El & Ec & Ew & Ei). unfold open_sidecar in *.
  destruct (lf_path fs) as [i|] eqn:Ep; cbn [fst snd] in *.
  { apply step_ok_same; [done|congruence|by rewrite Ec|done|]. intros j. rewrite Ei. intros [= <-]. by apply (po_path _ _ _ _ Hpre). }
  destruct Hpre as [Ho Hc Hcur Hw Hi Hp]. constructor; cbn [lf_flocks lf_path lf_next]; rewrite ?Ec, ?Ei; auto.
  - congruence.
  - done.
  - lia.
  - intros j [= <-]. lia.
Qed.

Lemma after_reset_free k : pc_lock k (after_reset k) = None /\ pc_current (after_reset k) = None /\
  pc_writer k (after_reset k) = true /\ pc_inode (after_reset k) = None.
Proof. by destruct k. Qed.

Lemma pstep_ok e k p fs at_ : pre_ok k p fs at_ -> step_ok k p fs at_ (pstep e k p fs at_).1 (pstep e k p fs at_).2.
Proof.
  intros Hpre. pose proof (after_reset_free k) as (A1 & A2 & A3 & A4). pose proof Hpre as [Ho Hc Hcur Hw Hi Hp].
  assert (forall at', pc_lock k at_ = None -> pc_lock k at' = None /\ pc_current at' = None /\ pc_writer k at' = true /\ pc_inode at' = None ->
    step_ok k p fs at_ fs at') as Hfree.
  { intros at' El (E1 & E2 & E3 & E4). apply step_ok_same; [done|congruence|by rewrite E2|done|by rewrite E4]. }
  destruct at_ as [| |i|i|i|i| |i|i|i| |i|i|i|i| | | ]; cbn [pstep reset_step acquire_step release_step].
  - destruct (lf_path fs); [|by apply Hfree]. destruct k; cbn [fst snd]; try (by apply Hfree).
    destruct (_ && _); by apply Hfree.
  - destruct (le_parent e); [|by apply Hfree].
    pose proof (step_ok_open k p fs ROpen RFlock Hpre eq_refl) as Hs. destruct (open_sidecar fs); by apply Hs.
  - destruct (flock_nb p i true fs) as [fs'|] eqn:Ef; [|by apply Hfree]. by eapply step_ok_flock.
  - unfold sidecar_is_current. case_bool_decide as E; apply step_ok_same; try done. by intros j [= <-].
  - by eapply step_ok_remove.
  - by apply step_ok_unlock.
  - destruct (le_parent e); [|by apply Hfree].
    pose proof (step_ok_open k p fs AOpen AFlock Hpre eq_refl) as Hs. destruct (open_sidecar fs); by apply Hs.
  - destruct (flock_nb p i (is_writer k) fs) as [fs'|] eqn:Ef; [|by apply Hfree]. by eapply step_ok_flock.
  - unfold sidecar_is_current. case_bool_decide as E; apply step_ok_same; try done. by intros j [= <-].
  - by apply step_ok_unlock.
  - destruct k; [destruct (_ <=? _)|destruct (_ <=? _)|]; by apply Hfree.
  - destruct (is_writer k) eqn:Ek; apply step_ok_same; try done; cbn [pc_lock]; by rewrite Ek.
  - unfold sidecar_is_current. case_bool_decide as E; apply step_ok_same; done.
  - cbn [pc_writer] in Hw. apply (step_ok_remove k p fs (URemove i) (UUnlock i) i); cbn [pc_lock]; rewrite ?Hw; done.
  - by apply step_ok_unlock.
  - by apply Hfree.
  - by apply Hfree.
  - by apply Hfree.
Qed.

(** ** The invariant *)

Lemma lock_inv_step s s' : lock_inv s -> sys_step s s' -> lock_inv s'.
Proof.
  intros [Hl Hc Hcur Hw Hi Hp] Hs. destruct Hs as [p k fs procs Hn|e p k at_ fs procs Hpr|p fs procs]; cbn [ls_fs ls_procs] in *.
  - assert (forall q k' a', <[p := (k, RExists)]> procs !! q = Some (k', a') -> procs !! q = Some (k', a') \/ a' = RExists) as Hq.
    { intros q k' a'. destruct (decide (q = p)) as [->|Hne]; [rewrite lookup_insert_eq; intros [= <- <-]; by right|].
      rewrite lookup_insert_ne by done. by left. }
    constructor; cbn [ls_fs ls_procs]; auto.
    + intros q. destruct (decide (q = p)) as [->|Hne]; [rewrite lookup_insert_eq, Hl, Hn; done|by rewrite lookup_insert_ne].
    + intros q k' a' i [H| ->]%Hq; [by eapply Hcur|done].
    + intros q k' a' [H| ->]%Hq; [by eapply Hw|done].
    + intros q k' a' i [H| ->]%Hq; [by eapply Hi|done].
  - assert (pre_ok k p fs at_) as Hpre.
    { constructor; auto; [by rewrite Hl, Hpr| |by intros; eapply Hcur|by eapply Hw|by intros; eapply Hi].
      intros q i a b Hq H1 H2. by apply (Hc p q i a b). }
    pose proof (pstep_ok e k p fs at_ Hpre) as Hso. destruct (pstep e k p fs at_) as [fs' at']. cbn [fst snd] in *. destruct Hso.
    assert (forall q k' a', <[p := (k, at')]> procs !! q = Some (k', a') -> (q = p /\ k' = k /\ a' = at') \/ (q <> p /\ procs !! q = Some (k', a'))) as Hq.
    { intros q k' a'. destruct (decide (q = p)) as [->|Hne]; [rewrite lookup_insert_eq; intros [= <- <-]; by left|].
      rewrite lookup_insert_ne by done. by right. }
    constructor; cbn [ls_fs ls_procs].
    + intros q. destruct (decide (q = p)) as [->|Hne]; [by rewrite lookup_insert_eq, so_own0|].
      rewrite lookup_insert_ne by done. by rewrite so_others0, Hl.
    + intros q r i a b H1 H2 Hne. destruct (decide (q = p)) as [->|Hqp]; [|destruct (decide (r = p)) as [->|Hrp]].
      * rewrite so_others0 in H2 by done. by eapply so_compat0.
      * rewrite so_others0 in H1 by done. destruct (so_compat0 q i b a Hqp H2 H1); done.
      * rewrite so_others0 in H1, H2 by done. by eapply (Hc q r).
    + intros q k' a' i [(-> & -> & ->)|[Hne H]]%Hq Hcu; [by apply so_current0|].
      pose proof (Hcur q k' a' i H Hcu) as Hpath. destruct so_path0 as [->|[[E _]|(j & E & E' & Hlock)]]; [done|congruence|].
      exfalso. assert (j = i) as -> by congruence.
      assert (exists b, lf_flocks fs !! q = Some (i, b)) as [b Hb].
      { rewrite Hl, H. destruct a'; try done; injection Hcu as ->; simpl; eauto. }
      destruct (Hc p q i true b Hlock Hb) as [? _]; [done|]. done.
    + intros q k' a' [(-> & -> & ->)|[_ H]]%Hq; [done|by eapply Hw].
    + intros q k' a' i [(-> & -> & ->)|[_ H]]%Hq Hin; [by apply so_inode0|]. pose proof (Hi _ _ _ _ H Hin). lia.
    + intros i Hpi. destruct so_path0 as [E|[(E & E' & E'')|(j & _ & E' & _)]]; [rewrite E in Hpi; apply Hp in Hpi; lia| |congruence].
      rewrite E' in Hpi. injection Hpi as <-. lia.
  - assert (forall q k' a', delete p procs !! q = Some (k', a') -> q <> p /\ procs !! q = Some (k', a')) as Hq
      by (intros q k' a'; rewrite lookup_delete_Some; intros [? ?]; done).
    constructor; cbn [ls_fs ls_procs].
    + intros q. rewrite unlock_lookup, lookup_delete. case_decide as E; [by rewrite decide_True|by rewrite decide_False].
    + intros q r i a b. rewrite !unlock_lookup. repeat case_decide; try done. apply Hc.
    + intros q k' a' i [_ H]%Hq. by apply (Hcur q k' a').
    + intros q k' a' [_ H]%Hq. by apply (Hw q).
    + intros q k' a' i [_ H]%Hq. by apply (Hi q k' a').
    + done.
Qed.

Lemma lock_reachable_inv s : lock_reachable s -> lock_inv s.
Proof.
  induction 1 as [path next Hn|s s' _ IH Hs]; [|by eapply lock_inv_step].
  constructor; cbn; try done; intros *; rewrite lookup_empty; done.
Qed.

(** [C13] Writers exclude everybody.  Whatever the interleaving of acquires, releases,
    cleaners and crashes, two processes in their protected sections are both readers;
    and while a process is in its section the sidecar path names the file it locked, so
    newcomers meet its lock. *)
Theorem writers_exclude s p q k k' :
  lock_reachable s -> p <> q -> holds s p k -> holds s q k' ->
  is_writer k = false /\ is_writer k' = false /\
  exists i, lf_path (ls_fs s) = Some i /\ lf_flocks (ls_fs s) !! p = Some (i, false) /\ lf_flocks (ls_fs s) !! q = Some (i, false).
Proof.
  intros Hr Hne [i Hp] [j Hq]. pose proof (lock_reachable_inv s Hr) as [Hl Hc Hcur _ _ _].
  pose proof (Hcur p k _ i Hp eq_refl) as H1. pose proof (Hcur q k' _ j Hq eq_refl) as H2.
  assert (j = i) as -> by congruence.
  assert (lf_flocks (ls_fs s) !! p = Some (i, is_writer k)) as L1 by by rewrite Hl, Hp.
  assert (lf_flocks (ls_fs s) !! q = Some (i, is_writer k')) as L2 by by rewrite Hl, Hq.
  destruct (Hc p q i _ _ L1 L2 Hne) as [E1 E2]. rewrite E1 in L1. rewrite E2 in L2. split_and!; [done..|]. by exists i.
Qed.

(** ** Attempts are bounded *)

(** Where an attempt comes to rest. *)
Definition settled (at_ : pc) : bool :=
  match at_ with Holding _ | Retry | Done | TimedOut | Failed => true | _ => false end.

Definition rank (at_ : pc) : nat :=
  match at_ with
  | RExists => 10 | ROpen => 9 | RFlock _ => 8 | RCurrent _ => 7 | RRemove _ => 6 | RClose _ => 5
  | AOpen => 4 | AFlock _ => 3 | ACurrent _ => 2 | AClose _ => 1
  | UCurrent _ => 3 | URemove _ => 2 | UUnlock _ => 1
  | _ => 0
  end%nat.

Lemma pstep_rank e k p fs at_ : settled at_ = false -> (rank (pstep e k p fs at_).2 < rank at_)%nat.
Proof.
  assert (rank (after_reset k) <= 4)%nat as Ha by (destruct k; simpl; lia).
  destruct at_; try done; intros _; cbn [pstep reset_step acquire_step release_step]; unfold flock_nb;
    repeat (case_match || case_decide); simplify_eq; cbn [snd rank]; lia.
Qed.

(** The steps of one process, [ws] what it meets at each: the answers and the files as
    the other processes left them. *)
Fixpoint own_steps (k : lock_kind) (p : Z) (ws : list (lock_env * lock_fs)) (at_ : pc) : pc :=
  match ws with
  | [] => at_
  | (e, fs) :: ws => if settled at_ then at_ else own_steps k p ws (pstep e k p fs at_).2
  end.

Lemma own_steps_settle k p ws at_ : (rank at_ <= length ws)%nat -> settled (own_steps k p ws at_) = true.
Proof.
  revert at_. induction ws as [|[e fs] ws IH]; intros at_ Hr; cbn [own_steps].
  - destruct at_; simpl in *; try done; lia.
  - destruct (settled at_) eqn:E; [done|]. apply IH. pose proof (pstep_rank e k p fs at_ E). simpl in Hr. lia.
Qed.


(** ** Success without contention *)

(** The steps of [p] with nobody else moving, nothing failing. *)
Definition calm : lock_env := LockEnv 0 0 true false.

Fixpoint alone_steps (n : nat) (k : lock_kind) (p : Z) (fs : lock_fs) (at_ : pc) : lock_fs * pc :=
  match n with
  | O => (fs, at_)
  | S n => if settled at_ then (fs, at_) else let '(fs, at_) := pstep calm k p fs at_ in alone_steps n k p fs at_
  end.

Lemma alone_step n k p fs at_ :
  settled at_ = false -> alone_steps (S n) k p fs at_ = alone_steps n k p (pstep calm k p fs at_).1 (pstep calm k p fs at_).2.
Proof. intros Hs. cbn [alone_steps]. rewrite Hs. by destruct (pstep calm k p fs at_). Qed.

Lemma alone_settled n k p fs at_ : settled at_ = true -> alone_steps n k p fs at_ = (fs, at_).
Proof. intros Hs. destruct n; cbn [alone_steps]; [done|by rewrite Hs]. Qed.

(** No other process has a lock on inode [i] that excludes [ex]. *)
Definition free_for (p i : Z) (ex : bool) (fs : lock_fs) : Prop :=
  forall q b, q <> p -> lf_flocks fs !! q = Some (i, b) -> ex = false /\ b = false.

Lemma flock_nb_free p i ex fs :
  free_for p i ex fs -> flock_nb p i ex fs = Some (LockFs (lf_path fs) (<[p := (i, ex)]> (lf_flocks fs)) (lf_next fs)).
Proof.
  intros Hf. unfold flock_nb. rewrite decide_True; [done|]. intros q [j b] Hl (Hq & E & Hor). simpl in *. subst.
  destruct (Hf q b Hq Hl) as [-> ->]. by destruct Hor.
Qed.

(** From the opening of the sidecar. *)
Lemma acquire_alone k p fs n :
  (forall q i a, lf_flocks fs !! q = Some (i, a) -> i < lf_next fs) ->
  (forall i, lf_path fs = Some i -> free_for p i (is_writer k) fs) ->
  exists i fs', alone_steps (4 + n) k p fs AOpen = (fs', Holding i) /\ lf_path fs' = Some i /\ lf_flocks fs' !! p = Some (i, is_writer k).
Proof.
  intros Hn Hf. destruct (open_sidecar fs) as [i fs1] eqn:Eo.
  assert (lf_path fs1 = Some i /\ free_for p i (is_writer k) fs1) as [Hp Hfree].
  { unfold open_sidecar in Eo. destruct (lf_path fs) as [j|] eqn:Ep; injection Eo as <- <-; (split; [done|]); [by apply Hf|].
    intros q b _ Hl%Hn. simpl in Hl. lia. }
  change (4 + n)%nat with (S (S (S (S n)))). rewrite alone_step by done. cbn [pstep reset_step acquire_step release_step calm le_parent]. rewrite Eo. cbn [fst snd].
  rewrite alone_step by done. cbn [pstep reset_step acquire_step release_step]. rewrite (flock_nb_free _ _ _ _ Hfree). cbn [fst snd].
  rewrite alone_step by done. cbn [pstep reset_step acquire_step release_step]. unfold sidecar_is_current. cbn [lf_path]. rewrite bool_decide_true by done. cbn [fst snd].
  rewrite alone_settled by done. eexists _, _. split; [reflexivity|]. cbn [lf_path lf_flocks]. split; [done|apply lookup_insert_eq].
Qed.

(** A newcomer gets the lock: with nobody else moving, a writer that finds no lock on the
    sidecar, and a reader that finds no exclusive one, is in its section after ten
    system calls, whether the sidecar is missing, left over, or in use by readers. *)
Theorem uncontended_acquire s p k :
  lock_reachable s -> ls_procs s !! p = None -> (forall x, k <> Cleaner x) ->
  (forall i, lf_path (ls_fs s) = Some i -> free_for p i (is_writer k) (ls_fs s)) ->
  exists i fs', alone_steps 10 k p (ls_fs s) RExists = (fs', Holding i) /\
    lf_path fs' = Some i /\ lf_flocks fs' !! p = Some (i, is_writer k).
Proof.
  intros Hr Hnone Hk Hf. pose proof (lock_reachable_inv s Hr) as [Hl Hc Hcur Hw Hi Hp].
  assert (lf_flocks (ls_fs s) !! p = None) as Hown by by rewrite Hl, Hnone.
  assert (forall q i a, lf_flocks (ls_fs s) !! q = Some (i, a) -> i < lf_next (ls_fs s)) as Hn.
  { intros q i a. rewrite Hl. destruct (ls_procs s !! q) as [[k' a']|] eqn:Eq; [|done]. intros Hlk.
    apply (Hi q k' a'); [done|]. destruct a'; simpl in *; congruence. }
  destruct s as [fs procs]. cbn [ls_fs ls_procs] in *.
  assert (forall a, after_reset k = a -> a = AOpen) as Hafter by (intros a <-; destruct k; [done..|by destruct (Hk expiry)]).
  specialize (Hafter _ eq_refl).
  destruct (lf_path fs) as [i|] eqn:Ep.
  - assert (pstep calm k p fs RExists = (fs, ROpen)) as E1 by (cbn [pstep reset_step acquire_step release_step]; rewrite Ep; destruct k; [done..|by destruct (Hk expiry)]).
    assert (pstep calm k p fs ROpen = (fs, RFlock i)) as E2 by (cbn [pstep reset_step acquire_step release_step calm le_parent]; unfold open_sidecar; by rewrite Ep).
    rewrite alone_step, E1 by done. cbn [fst snd]. rewrite alone_step, E2 by done. cbn [fst snd].
    rewrite alone_step by done. cbn [pstep reset_step acquire_step release_step]. destruct (flock_nb p i true fs) as [fs1|] eqn:Ef; cbn [fst snd].
    + apply flock_nb_ok in Ef as [-> _].
      rewrite alone_step by done. cbn [pstep reset_step acquire_step release_step]. unfold sidecar_is_current. cbn [lf_path]. rewrite bool_decide_true by done. cbn [fst snd].
      rewrite alone_step by done. cbn [pstep reset_step acquire_step release_step calm le_remove_fails remove_sidecar fst snd].
      rewrite alone_step by done. cbn [pstep reset_step acquire_step release_step fst snd]. rewrite Hafter. apply (acquire_alone k p _ 0); [|done].
      intros q j a. rewrite unlock_lookup. cbn [lf_flocks lf_next]. case_decide; [done|]. rewrite lookup_insert_ne by done. apply Hn.
    + rewrite Hafter. apply (acquire_alone k p fs 3); [done|]. intros j Hj. apply Hf. congruence.
  - rewrite alone_step by done. cbn [pstep reset_step acquire_step release_step]. rewrite Ep. cbn [fst snd]. rewrite Hafter.
    apply (acquire_alone k p fs 5); [done|]. intros j Hj. congruence.
Qed.

(** ** Names *)

Lemma strip_suffixes_end n s : (String.length s < n)%nat -> strip_suffix LOCK_SUFFIX (strip_lock_suffixes n s) = None.
Proof.
  revert s. induction n as [|n IH]; intros s Hn; [lia|]. cbn [strip_lock_suffixes].
  destruct (strip_suffix LOCK_SUFFIX s) as [b|] eqn:E; [|done]. apply IH. apply strip_suffix_spec in E as ->.
  rewrite string_length_app in Hn. simpl in Hn. lia.
Qed.

(** One sidecar per target: locking a path or its sidecar is the same lock, and
    collapsing is stable. *)
Theorem lock_path_stable target :
  lock_path (lock_path target) = lock_path target /\ lock_path (target_path_from_lock_sidecar target) = lock_path target /\
  target_path_from_lock_sidecar (lock_path target) = target_path_from_lock_sidecar target.
Proof.
  set (base := target_path_from_lock_sidecar target).
  assert (strip_suffix LOCK_SUFFIX base = None) as Hb by (apply strip_suffixes_end; lia).
  assert (target_path_from_lock_sidecar base = base) as E1 by (unfold target_path_from_lock_sidecar; cbn [strip_lock_suffixes]; by rewrite Hb).
  assert (target_path_from_lock_sidecar (lock_path target) = base) as E2.
  { unfold lock_path. fold base. unfold target_path_from_lock_sidecar at 1. cbn [strip_lock_suffixes]. rewrite strip_suffix_app.
    rewrite string_length_app. destruct (String.length base + _)%nat eqn:En; [simpl in En; lia|]. cbn [strip_lock_suffixes]. by rewrite Hb. }
  split_and!; [|unfold lock_path; by rewrite E1|done]. unfold lock_path at 1. by rewrite E2.
Qed.

(** ** Instances *)

Definition enter (p : Z) (k : lock_kind) (s : lock_sys) : lock_sys :=
  match ls_procs s !! p with None => LockSys (ls_fs s) (<[p := (k, RExists)]> (ls_procs s)) | Some _ => s end.

Definition move (s : lock_sys) (p : Z) : lock_sys :=
  match ls_procs s !! p with
  | Some (k, at_) => LockSys (pstep calm k p (ls_fs s) at_).1 (<[p := (k, (pstep calm k p (ls_fs s) at_).2)]> (ls_procs s))
  | None => s
  end.

Lemma enter_reachable p k s : lock_reachable s -> lock_reachable (enter p k s).
Proof.
  unfold enter. intros Hr. destruct (ls_procs s !! p) eqn:E; [done|]. destruct s as [fs procs].
  eapply lr_step; [exact Hr|by apply step_enter].
Qed.

Lemma moves_reachable s ps : lock_reachable s -> lock_reachable (foldl move s ps).
Proof.
  revert s. induction ps as [|p ps IH]; intros s Hr; [done|]. apply IH. unfold move.
  destruct (ls_procs s !! p) as [[k at_]|] eqn:E; [|done]. destruct s as [fs procs].
  eapply lr_step; [exact Hr|by apply step_move].
Qed.

Definition no_sidecar : lock_sys := LockSys (LockFs None ∅ 0) ∅.

Lemma no_sidecar_reachable : lock_reachable no_sidecar.
Proof. by apply lr_init. Qed.

(** Two readers share the sidecar. *)
Definition two_readers : lock_sys :=
  foldl move (enter 2 (Reader 60) (enter 1 (Reader 60) no_sidecar)) [1; 1; 2; 1; 2; 1; 2; 2; 2; 2].

Lemma two_readers_reachable : lock_reachable two_readers.
Proof. apply moves_reachable, enter_reachable, enter_reachable, no_sidecar_reachable. Qed.

Lemma writers_exclude_witness :
  holds two_readers 1 (Reader 60) /\ holds two_readers 2 (Reader 60) /\
  exists i, lf_path (ls_fs two_readers) = Some i /\ lf_flocks (ls_fs two_readers) !! 1 = Some (i, false) /\
    lf_flocks (ls_fs two_readers) !! 2 = Some (i, false).
Proof.
  assert (holds two_readers 1 (Reader 60)) as H1 by (exists 0; vm_compute; reflexivity).
  assert (holds two_readers 2 (Reader 60)) as H2 by (exists 0; vm_compute; reflexivity).
  assert (1 <> 2) as Hne by discriminate.
  split; [exact H1|]. split; [exact H2|].
  exact (proj2 (proj2 (writers_exclude two_readers 1 2 _ _ two_readers_reachable Hne H1 H2))).
Defined.


Lemma uncontended_acquire_witness :
  exists i fs', alone_steps 10 (Reader 60) 3 (ls_fs two_readers) RExists = (fs', Holding i) /\
    lf_path fs' = Some i /\ lf_flocks fs' !! 3 = Some (i, false).
Proof.
  apply (uncontended_acquire two_readers 3 (Reader 60) two_readers_reachable).
  - vm_compute. reflexivity.
  - discriminate.
  - intros i _ q b _ Hq. split; [reflexivity|].
    assert (map_Forall (fun _ l => l.2 = false) (lf_flocks (ls_fs two_readers))) as Hall
      by (apply (bool_decide_unpack _); vm_compute; exact I).
    apply (Hall q (i, b) Hq).
Defined.
