(* ===== verification/DayClose.v ===== *)
(** Day-close cooperation: [dbload/lib/sync_timedb_day_close_cooperation.py].

    The janitor that closes a day yields to ingest: before it changes a daily tar it asks
    [daily_tar_janitor_mutation_should_defer], and a tracker spaces its retries.  Clocks
    are integers (seconds).  The day of a tar path
    ([calendar_date_from_daily_tar_path]) and whether its write lock is free
    ([try_file_write_lock]) are arguments; the hot marks, populates and restores are read
    from the archive members store ([None] when none is installed). *)
From S2P Require Import Prelude PyDict PyStr PosixPath MembersStore.
Local Open Scope Z_scope.

Definition DAY_CLOSE_YIELD_POLL_SECONDS : Z := 5.
Definition JANITOR_DEFER_CAP_TICKS : Z := 3.
Definition JANITOR_DEFER_CAP_WALL_SECONDS : Z := 15 * 60.
Definition WRITE_LOCK_BACKOFF_BASE_S : Z := 30.
Definition WRITE_LOCK_BACKOFF_MAX_S : Z := 300.

(** ** Yield signals *)

(** [_yield_events] and [_yield_reasons]; an event is true when set. *)
Record yields := Yields { y_events : dict string bool; y_reasons : dict string string }.

Definition tar_norm (tar_path : string) : string := normpath tar_path.

Definition signal_day_close_yield (tar_path reason : string) (y : yields) : yields :=
  let t := tar_norm tar_path in
  if decide (t = "") then y
  else Yields (<[t := true]> (y_events y)) (<[t := if decide (reason = "") then "yield_requested" else reason]> (y_reasons y)).

Definition clear_day_close_yield (tar_path : string) (y : yields) : yields :=
  let t := tar_norm tar_path in
  if decide (t = "") then y else Yields (delete t (y_events y)) (delete t (y_reasons y)).

Definition day_close_yield_event_set (tar_path : string) (y : yields) : bool :=
  let t := tar_norm tar_path in
  if decide (t = "") then false else default false (y_events y !! t).

(** ** Contention *)

Definition ingest_tar_hot_for_day (store : option members_store) (day : string) : bool :=
  match store with Some s => negb (bool_decide (day = "")) && ingest_tar_hot day s | None => false end.
Definition archive_members_populate_owner_active_for_day (store : option members_store) (day : string) : bool :=
  match store with Some s => negb (bool_decide (day = "")) && populate_owner_active day s | None => false end.
Definition daily_tar_restore_in_progress_for_day (store : option members_store) (day : string) : bool :=
  match store with Some s => negb (bool_decide (day = "")) && restore_in_progress day s | None => false end.

Section contention.

(** The ISO day of a daily tar's normal path, [""] when it has none. *)
Variable day_token_of : string -> string.
Variable store : option members_store.

Definition hot_path_contention_reasons (tar_path : string) (y : yields) : (bool * string) * yields :=
  let t := tar_norm tar_path in
  if decide (t = "") then ((false, ""), y)
  else
    let day := day_token_of t in
    if negb (bool_decide (day = "")) && ingest_tar_hot_for_day store day then ((true, "ingest_tar_hot"), y)
    else if negb (bool_decide (day = "")) && archive_members_populate_owner_active_for_day store day then ((true, "populate_active"), y)
    else ((false, ""), if day_close_yield_event_set t y then clear_day_close_yield t y else y).

Definition day_close_yield_requested := hot_path_contention_reasons.

Definition should_poll_day_close_yield (now last_poll : Z) : bool := DAY_CLOSE_YIELD_POLL_SECONDS <=? now - last_poll.

(** [check_day_close_yield_or_continue]: the time of the last poll, or the reason of the
    [DayCloseYieldError] it raises.  [later] is the clock after the poll. *)
Definition check_day_close_yield_or_continue (tar_path : string) (now later last_poll : Z) (y : yields)
    : (Z + string) * yields :=
  if negb (should_poll_day_close_yield now last_poll) then (inl last_poll, y)
  else let '((requested, reason), y) := day_close_yield_requested tar_path y in
       if requested then (inr reason, y) else (inl later, y).

(** [daily_tar_janitor_mutation_should_defer]: the tars of appends in flight, those that
    must not be deleted ([None]: the same), the days of the chunk in progress. *)
Definition daily_tar_janitor_mutation_should_defer (lock_free : string -> bool) (disqualified : gset string)
    (delete_disqualified : option (gset string)) (chunk_in_progress : bool) (chunk_day_tokens : gset string)
    (tar_path : string) (y : yields) : (bool * string) * yields :=
  let t := tar_norm tar_path in
  if decide (t = "") then ((false, ""), y)
  else
    let day := day_token_of t in
    if negb (bool_decide (day = "")) && daily_tar_restore_in_progress_for_day store day then ((true, "daily_tar_restore"), y)
    else
      let '((hot, reason), y) := hot_path_contention_reasons tar_path y in
      if hot then ((true, reason), y)
      else if chunk_in_progress && negb (bool_decide (day = "")) && bool_decide (day ∈ chunk_day_tokens)
      then ((true, "chunk_in_progress_day"), y)
      else if bool_decide (t ∈ disqualified) then ((true, "inflight_append"), y)
      else if bool_decide (t ∈ default disqualified delete_disqualified) then ((true, "delete_disqualified"), y)
      else if negb (lock_free t) then ((true, "write_lock_contended"), y)
      else ((false, ""), y).
End contention.

(** ** The defer tracker *)

(** One tar's entry; a streak that was never set reads as 0, an "until" as 0. *)
Record defer_entry := DeferEntry {
  de_count : Z;
  de_first_ts : Z;
  de_last_ts : option Z;
  de_last_reason : option string;
  de_write_lock_streak : Z;
  de_write_lock_until : Z;
  de_yield_streak : Z;
  de_yield_until : Z;
}.

#[export] Instance defer_entry_eq_dec : EqDecision defer_entry.
Proof. solve_decision. Defined.

Abbreviation tracker := (dict string defer_entry).

Definition new_entry (now : Z) : defer_entry := DeferEntry 0 now None None 0 0 0 0.

(** 30 s, 60 s, 120 s, 240 s, then 300 s. *)
Definition backoff_delay (streak : Z) : Z :=
  let exp := Z.min (Z.max 0 (streak - 1)) 4 in
  Z.min WRITE_LOCK_BACKOFF_MAX_S (WRITE_LOCK_BACKOFF_BASE_S * 2 ^ exp).

Definition record_defer (tar_path reason : string) (now : Z) (tr : tracker) : tracker :=
  let t := tar_norm tar_path in
  if decide (t = "") then tr
  else
    let e := default (new_entry now) (tr !! t) in
    let contended := bool_decide (reason = "write_lock_contended") in
    let streak := de_write_lock_streak e + 1 in
    <[t := DeferEntry (de_count e + 1) (de_first_ts e) (Some now) (Some reason)
             (if contended then streak else de_write_lock_streak e)
             (if contended then now + backoff_delay streak else de_write_lock_until e)
             (de_yield_streak e) (de_yield_until e)]> tr.

Definition record_yield_backoff (tar_path : string) (now : Z) (tr : tracker) : tracker :=
  let t := tar_norm tar_path in
  if decide (t = "") then tr
  else
    let e := default (new_entry now) (tr !! t) in
    let streak := de_yield_streak e + 1 in
    <[t := DeferEntry (de_count e) (de_first_ts e) (Some now) (Some "yielded")
             (de_write_lock_streak e) (de_write_lock_until e) streak (now + backoff_delay streak)]> tr.

Definition yield_backoff_active (tar_path : string) (now : Z) (tr : tracker) : bool :=
  let t := tar_norm tar_path in
  if decide (t = "") then false
  else match tr !! t with Some e => now <? de_yield_until e | None => false end.

Definition write_lock_backoff_active (tar_path : string) (now : Z) (tr : tracker) : bool :=
  let t := tar_norm tar_path in
  if decide (t = "") then false
  else match tr !! t with Some e => now <? de_write_lock_until e | None => false end.

Definition write_lock_backoff_skip_tars (tar_paths : list string) (now : Z) (tr : tracker) : gset string :=
  list_to_set (tar_norm <$> filter (fun t => write_lock_backoff_active t now tr = true) tar_paths).

Definition defer_cap_exceeded (tar_path : string) (now : Z) (tr : tracker) : bool :=
  let t := tar_norm tar_path in
  if decide (t = "") then false
  else match tr !! t with
       | Some e => (JANITOR_DEFER_CAP_TICKS <=? de_count e) ||
                   (negb (de_first_ts e =? 0) && (JANITOR_DEFER_CAP_WALL_SECONDS <=? now - de_first_ts e))
       | None => false
       end.

Definition clear_tar (tar_path : string) (tr : tracker) : tracker := delete (tar_norm tar_path) tr.
