(* ===== verification/DayCloseSpec.v ===== *)
(** Day close: when the janitor may change a tar, and how its retries are spaced. *)
From S2P Require Import Prelude PyDict PyStr PosixPath MembersStore DayClose.
Local Open Scope Z_scope.

(** ** Permission *)

(** No normal path is empty: the guards for an empty path never apply. *)
Lemma tar_norm_not_empty p : tar_norm p <> "".
Proof. unfold tar_norm, normpath. case_decide; [done|]. by case_decide. Qed.

Lemma hot_path_clear day_of store tar y :
  let day := day_of (tar_norm tar) in
  let r := hot_path_contention_reasons day_of store tar y in
  (r.1.1 = false <-> ingest_tar_hot_for_day store day = false /\ archive_members_populate_owner_active_for_day store day = false) /\
  (r.1.1 = false -> r.1.2 = "") /\ (r.1.1 = true -> r.2 = y /\ (r.1.2 = "ingest_tar_hot" \/ r.1.2 = "populate_active")).
Proof.
  cbv zeta. unfold hot_path_contention_reasons. rewrite decide_False by apply tar_norm_not_empty.
  set (day := day_of (tar_norm tar)).
  assert (day = "" -> ingest_tar_hot_for_day store day = false /\ archive_members_populate_owner_active_for_day store day = false) as He.
  { intros ->. unfold ingest_tar_hot_for_day, archive_members_populate_owner_active_for_day. by destruct store. }
  destruct (decide (day = "")) as [Hd|Hd].
  - rewrite bool_decide_true by done. cbn [negb andb]. destruct (He Hd) as [-> ->]. cbn. done.
  - rewrite bool_decide_false by done. cbn [negb andb].
    destruct (ingest_tar_hot_for_day store day); cbn; [split_and!; [by split; [|intros []]|done|auto]|].
    destruct (archive_members_populate_owner_active_for_day store day); cbn; [split_and!; [by split; [|intros []]|done|auto]|].
    done.
Qed.

(** The janitor changes a tar only when nothing else needs it: the day is not being
    restored, not hot for ingest, not being populated, not in the chunk in progress; the
    tar has no append in flight, is not protected from deletion, and its write lock is
    free.  Otherwise it defers, with a reason. *)
Theorem mutation_allowed_iff day_of store lock_free disq del chunk days tar y :
  let t := tar_norm tar in
  let day := day_of t in
  let r := daily_tar_janitor_mutation_should_defer day_of store lock_free disq del chunk days tar y in
  (r.1.1 = false <->
    daily_tar_restore_in_progress_for_day store day = false /\
    ingest_tar_hot_for_day store day = false /\
    archive_members_populate_owner_active_for_day store day = false /\
    ~ (chunk = true /\ day <> "" /\ day ∈ days) /\ t ∉ disq /\ t ∉ default disq del /\ lock_free t = true) /\
  (r.1.1 = true <-> r.1.2 <> "").
Proof.
  cbv zeta. unfold daily_tar_janitor_mutation_should_defer. rewrite decide_False by apply tar_norm_not_empty.
  set (t := tar_norm tar). set (day := day_of t).
  pose proof (hot_path_clear day_of store tar y) as Hh. cbv zeta in Hh. fold t day in Hh.
  assert (day = "" -> daily_tar_restore_in_progress_for_day store day = false) as He.
  { intros ->. unfold daily_tar_restore_in_progress_for_day. by destruct store. }
  destruct (negb (bool_decide (day = "")) && daily_tar_restore_in_progress_for_day store day) eqn:E1.
  { apply andb_true_iff in E1 as [_ E1]. cbn. rewrite E1. split; [|done]. by split; [|intros [? _]]. }
  assert (daily_tar_restore_in_progress_for_day store day = false) as Hrest.
  { destruct (decide (day = "")) as [Hd|Hd]; [by apply He|]. by rewrite bool_decide_false in E1. }
  destruct (hot_path_contention_reasons day_of store tar y) as [[hot reason] y']. cbn [fst snd] in Hh. destruct Hh as (H1 & H2 & H3).
  destruct hot.
  { cbn. split; [|split; [|done]; by destruct (proj2 (H3 eq_refl)) as [-> | ->]].
    split; [done|]. intros (_ & A & B & _). destruct H1 as [_ H1]. by discriminate H1. }
  destruct H1 as [H1 _]. destruct (H1 eq_refl) as [Hi Hp].
  destruct (chunk && negb (bool_decide (day = "")) && bool_decide (day ∈ days)) eqn:E2.
  { rewrite !andb_true_iff, negb_true_iff, bool_decide_eq_false, bool_decide_eq_true in E2. cbn. split; [|done].
    split; [done|]. intros (_ & _ & _ & Hn & _). exfalso. apply Hn. tauto. }
  rewrite !andb_false_iff, negb_false_iff, bool_decide_eq_false, bool_decide_eq_true in E2.
  assert (~ (chunk = true /\ day <> "" /\ day ∈ days)) as Hchunk by (intros (-> & ? & ?); destruct E2 as [[?|?]|?]; done).
  clear E1. repeat case_bool_decide; cbn; try (split; [split; [done|tauto]|done]).
  destruct (lock_free t); cbn; (split; [|done]); naive_solver.
Qed.

(** ** Retries *)

Inductive defer_event :=
| Defer (reason : string) (now : Z)
| Yielded (now : Z).

Definition apply_event (tar : string) (tr : tracker) (ev : defer_event) : tracker :=
  match ev with
  | Defer reason now => record_defer tar reason now tr
  | Yielded now => record_yield_backoff tar now tr
  end.

Definition contended (ev : defer_event) : bool := match ev with Defer r _ => bool_decide (r = "write_lock_contended") | Yielded _ => false end.
Definition is_defer (ev : defer_event) : bool := match ev with Defer _ _ => true | Yielded _ => false end.
Definition ev_time (ev : defer_event) : Z := match ev with Defer _ t | Yielded t => t end.

Definition count (p : defer_event -> bool) (evs : list defer_event) : Z := Z.of_nat (length (filter (fun ev => p ev = true) evs)).

(** When the back-off of the last event satisfying [p] ends, 0 without one. *)
Definition until_step (p : defer_event -> bool) (nu : Z * Z) (ev : defer_event) : Z * Z :=
  if p ev then (nu.1 + 1, ev_time ev + backoff_delay (nu.1 + 1)) else nu.

Definition until_of (p : defer_event -> bool) (evs : list defer_event) : Z := (foldl (until_step p) (0, 0) evs).2.

Lemma count_app p evs ev : count p (evs ++ [ev]) = count p evs + if p ev then 1 else 0.
Proof.
  unfold count. rewrite filter_app, length_app. destruct (p ev) eqn:E.
  - rewrite filter_cons_True by done. simpl. lia.
  - rewrite filter_cons_False by congruence. simpl. lia.
Qed.

Lemma until_count p evs :
  (foldl (until_step p) (0, 0) evs).1 = count p evs.
Proof.
  induction evs as [|ev evs IH] using rev_ind; [done|]. rewrite foldl_app, count_app. cbn [foldl]. unfold until_step at 1.
  destruct (p ev); cbn [fst]; rewrite IH; lia.
Qed.

Lemma until_app p evs ev : until_of p (evs ++ [ev]) = if p ev then ev_time ev + backoff_delay (count p evs + 1) else until_of p evs.
Proof. unfold until_of. rewrite foldl_app. cbn [foldl]. unfold until_step at 1. by destruct (p ev); cbn [snd]; rewrite ?until_count. Qed.

(** The entry after the events since the last clear. *)
Lemma tracker_entry tar tr evs :
  evs <> [] ->
  exists e, foldl (apply_event tar) (clear_tar tar tr) evs !! tar_norm tar = Some e /\
    de_count e = count is_defer evs /\ Some (de_first_ts e) = ev_time <$> head evs /\
    de_write_lock_streak e = count contended evs /\ de_write_lock_until e = until_of contended evs /\
    de_yield_streak e = count (fun ev => negb (is_defer ev)) evs /\
    de_yield_until e = until_of (fun ev => negb (is_defer ev)) evs.
Proof.
  induction evs as [|ev evs IH] using rev_ind; [done|]. intros _. rewrite foldl_app. cbn [foldl].
  set (tr1 := foldl (apply_event tar) (clear_tar tar tr) evs) in *. rewrite !count_app, !until_app.
  assert (exists e0 : defer_entry, default (new_entry (ev_time ev)) (tr1 !! tar_norm tar) = e0 /\ de_count e0 = count is_defer evs /\
    Some (de_first_ts e0) = ev_time <$> head (evs ++ [ev]) /\
    de_write_lock_streak e0 = count contended evs /\ de_write_lock_until e0 = until_of contended evs /\
    de_yield_streak e0 = count (fun ev => negb (is_defer ev)) evs /\
    de_yield_until e0 = until_of (fun ev => negb (is_defer ev)) evs) as (e0 & E0 & H1 & H2 & H3 & H4 & H5 & H6).
  { destruct evs as [|ev0 evs']; [|destruct IH as (e & -> & IH); [done|]; exists e; exact (conj eq_refl IH)].
    unfold tr1, clear_tar. cbn [foldl]. rewrite dict_lookup_delete_eq. by eexists. }
  destruct ev as [r t|t]; cbn [apply_event ev_time] in *.
  - unfold record_defer. rewrite decide_False by apply tar_norm_not_empty. rewrite E0. eexists. split; [apply dict_lookup_insert_eq|].
    cbn. rewrite ?H1, ?H3, ?H4, ?H5, ?H6. split_and!; try done; try lia; case_bool_decide; done || lia.
  - unfold record_yield_backoff. rewrite decide_False by apply tar_norm_not_empty. rewrite E0. eexists. split; [apply dict_lookup_insert_eq|].
    cbn. rewrite ?H1, ?H3, ?H4, ?H5, ?H6. split_and!; try done; lia.
Qed.

Lemma count_nonneg p evs : 0 <= count p evs.
Proof. unfold count. lia. Qed.

Lemma until_spec p evs now :
  0 <= now ->
  now < until_of p evs <-> exists pre ev post, evs = pre ++ ev :: post /\ p ev = true /\ count p post = 0 /\
    now < ev_time ev + backoff_delay (count p pre + 1).
Proof.
  intros Hnow. induction evs as [|x evs IH] using rev_ind.
  { split; [unfold until_of; simpl; lia|]. intros (pre & ev & post & E & _). by destruct pre. }
  rewrite until_app. destruct (p x) eqn:Ex; [|rewrite IH]; split.
  - intros Hlt. by exists evs, x, [].
  - intros (pre & ev & post & E & Hp & Hc & Hlt). destruct post as [|y post _] using rev_ind.
    + apply app_inj_tail in E as [-> ->]. done.
    + rewrite app_comm_cons, app_assoc in E. apply app_inj_tail in E as [_ <-].
      rewrite count_app, Ex in Hc. pose proof (count_nonneg p post). lia.
  - intros (pre & ev & post & -> & Hp & Hc & Hlt). exists pre, ev, (post ++ [x]). rewrite <- app_assoc, count_app, Ex.
    by rewrite Z.add_0_r.
  - intros (pre & ev & post & E & Hp & Hc & Hlt). destruct post as [|y post _] using rev_ind.
    + apply app_inj_tail in E as [_ ->]. congruence.
    + rewrite app_comm_cons, app_assoc in E. apply app_inj_tail in E as [-> <-]. exists pre, ev, post. split_and!; try done.
      by rewrite count_app, Ex, Z.add_0_r in Hc.
Qed.

Lemma backoff_next p pre : backoff_delay (count p pre + 1) = Z.min 300 (30 * 2 ^ Z.min (count p pre) 4).
Proof.
  pose proof (count_nonneg p pre). unfold backoff_delay, WRITE_LOCK_BACKOFF_MAX_S, WRITE_LOCK_BACKOFF_BASE_S.
  do 4 f_equal; lia.
Qed.

Lemma backoff_bounds n : 1 <= n -> WRITE_LOCK_BACKOFF_BASE_S <= backoff_delay n <= WRITE_LOCK_BACKOFF_MAX_S.
Proof.
  intros Hn. unfold backoff_delay, WRITE_LOCK_BACKOFF_BASE_S, WRITE_LOCK_BACKOFF_MAX_S.
  assert (1 <= 2 ^ Z.min (Z.max 0 (n - 1)) 4) by (apply (Z.pow_le_mono_r 2 0); lia). lia.
Qed.

(** Retries are spaced.  After any events on a tar since it was cleared, the write-lock
    back-off holds exactly until the last contended deferral plus its delay, the delay
    being 30 s doubled with each contended deferral and at most 300 s; deferrals for
    other reasons and yields leave it; and the cap is reached at the third deferral, or
    fifteen minutes after the first event. *)
Theorem retry_schedule tar tr evs now :
  Forall (fun ev => 0 < ev_time ev) evs -> 0 <= now ->
  let tr' := foldl (apply_event tar) (clear_tar tar tr) evs in
  (write_lock_backoff_active tar now tr' = true <->
    exists pre t post, evs = pre ++ Defer "write_lock_contended" t :: post /\ count contended post = 0 /\
      now < t + Z.min 300 (30 * 2 ^ Z.min (count contended pre) 4)) /\
  (defer_cap_exceeded tar now tr' = true <->
    3 <= count is_defer evs \/ exists ev, head evs = Some ev /\ 900 <= now - ev_time ev).
Proof.
  intros Hpos Hnow. cbv zeta. unfold write_lock_backoff_active, defer_cap_exceeded.
  rewrite !decide_False by apply tar_norm_not_empty. destruct (decide (evs = [])) as [->|Hne].
  { cbn [foldl]. unfold clear_tar. rewrite dict_lookup_delete_eq. split; (split; [done|]).
    - intros (pre & t & post & E & _). by destruct pre.
    - intros [H|(ev & H & _)]; [|done]. by vm_compute in H. }
  destruct (tracker_entry tar tr evs Hne) as (e & -> & H1 & H2 & _ & H4 & _). rewrite H1, H4. split.
  - rewrite Z.ltb_lt, (until_spec contended evs now Hnow). split.
    + intros (pre & [r t|t] & post & -> & Hp & Hc & Hlt); [|done]. apply bool_decide_eq_true in Hp as ->.
      exists pre, t, post. rewrite backoff_next in Hlt. done.
    + intros (pre & t & post & -> & Hc & Hlt). exists pre, (Defer "write_lock_contended" t), post. by rewrite backoff_next.
  - unfold JANITOR_DEFER_CAP_TICKS, JANITOR_DEFER_CAP_WALL_SECONDS. rewrite orb_true_iff, andb_true_iff, negb_true_iff, Z.leb_le, Z.eqb_neq, Z.leb_le.
    destruct evs as [|ev evs]; [done|]. cbn in H2. injection H2 as H2. rewrite H2. apply Forall_cons_1 in Hpos as [Hp _].
    split; [intros [?|[_ ?]]; [by left|right; by exists ev]|]. intros [?|(ev' & [= <-] & ?)]; [by left|]. right. split; [lia|done].
Qed.

(** ** What the code does not do *)

(** The guards for an empty path do not work: [os.path.normpath("")] is ["."], so a
    deferral without a path is recorded, and backs off, under ["."]. *)
Theorem empty_path_is_tracked now :
  0 <= now ->
  write_lock_backoff_active "" now (record_defer "" "write_lock_contended" now ∅) = true /\
  write_lock_backoff_active "." now (record_defer "" "write_lock_contended" now ∅) = true.
Proof.
  intros Hn. unfold write_lock_backoff_active, record_defer. change (tar_norm "") with ".". change (tar_norm ".") with ".".
  rewrite !decide_False by done. rewrite dict_lookup_insert_eq. cbn [de_write_lock_until].
  rewrite bool_decide_true by done. change (backoff_delay _) with 30. split; apply Z.ltb_lt; lia.
Qed.

(** ** Instances *)

Definition demo_events : list defer_event :=
  [Defer "write_lock_contended" 1000; Defer "ingest_tar_hot" 1010; Defer "write_lock_contended" 1040; Yielded 1050].

Lemma retry_schedule_witness :
  let tr := foldl (apply_event "/a/2024-01-01.tar") (clear_tar "/a/2024-01-01.tar" ∅) demo_events in
  write_lock_backoff_active "/a/2024-01-01.tar" 1099 tr = true /\ defer_cap_exceeded "/a/2024-01-01.tar" 1099 tr = true.
Proof.
  cbv zeta. assert (Forall (fun ev => 0 < ev_time ev) demo_events) as Hp by (repeat constructor).
  assert (0 <= 1099) as Hn by lia.
  destruct (retry_schedule "/a/2024-01-01.tar" ∅ demo_events 1099 Hp Hn) as [H1 H2]. split.
  - apply H1. exists [Defer "write_lock_contended" 1000; Defer "ingest_tar_hot" 1010], 1040, [Yielded 1050].
    split_and!; [reflexivity|reflexivity|vm_compute; reflexivity].
  - apply H2. left. vm_compute. discriminate.
Defined.
