(* ===== verification/AppendDays.v ===== *)
(** Append day lists: [dbload/lib/sync_timedb_append_day_lists.py].

    The coordinator parks append claims per calendar day ([AppendDayClaimLists]) until
    a day has a batch worth one tar write, and counts per day how many files the
    queues still owe ([note_day_remainder], rebuilt from the job store after a
    restart).  The size of a file ([os.path.getsize]), its modification time and the
    local calendar are arguments.  Locks: each block under a lock is run whole; the
    coordinator is the only caller, so a method is one function. *)
From S2P Require Import Prelude PyDict PyStr PosixPath PriorityQueue IngestScore JobStore.
From Stdlib Require Import Ascii.
Local Open Scope Z_scope.

(** ** Parked claims *)

(** [_days] keeps its keys in insertion order; [_sizes] is only looked up. *)
Record day_lists := DayLists {
  dl_days : dict string (list ClaimedJob);
  dl_sizes : gmap string Z;
}.

Definition empty_day_lists : day_lists := DayLists ∅ ∅.

Definition add (day : string) (claim : ClaimedJob) (l : day_lists) : day_lists :=
  if decide (day = "") then l
  else DayLists (<[day := default [] (dl_days l !! day) ++ [claim]]> (dl_days l)) (dl_sizes l).

(** The [while take > 0 and bucket] loop: claims taken, bucket left, sizes left. *)
Fixpoint pop_loop (take : nat) (bucket : list ClaimedJob) (sizes : gmap string Z)
    : list ClaimedJob * list ClaimedJob * gmap string Z :=
  match take, bucket with
  | S take, c :: bucket =>
      let '(out, rest, sizes) := pop_loop take bucket (delete (cj_identity c) sizes) in
      (c :: out, rest, sizes)
  | _, _ => ([], bucket, sizes)
  end.

Definition pop_batch (day : string) (n : Z) (l : day_lists) : list ClaimedJob * day_lists :=
  let take := Z.max 0 n in
  if decide (day = "" \/ take = 0) then ([], l)
  else match dl_days l !! day with
       | None => ([], l)
       | Some bucket =>
           let '(out, rest, sizes) := pop_loop (Z.to_nat take) bucket (dl_sizes l) in
           (out, DayLists (match rest with
                           | [] => delete day (dl_days l)
                           | _ => <[day := rest]> (dl_days l)
                           end) sizes)
       end.

Definition peek_len (day : string) (l : day_lists) : nat :=
  match dl_days l !! day with
  | None => 0
  | Some bucket => length bucket
  end.

Definition peek_batch (day : string) (n : Z) (l : day_lists) : list ClaimedJob :=
  match dl_days l !! day with
  | None => []
  | Some bucket => take (Z.to_nat (Z.max 0 n)) bucket
  end.

Definition peek_first (day : string) (l : day_lists) : option ClaimedJob :=
  match dl_days l !! day with
  | None => None
  | Some bucket => head bucket
  end.

Definition day_keys (l : day_lists) : list string := dict_keys (dl_days l).

Definition claim_identities (l : day_lists) : list string :=
  filter (fun i => i <> "") (cj_identity <$> mjoin (dict_values (dl_days l))).

Definition clear (l : day_lists) : day_lists := empty_day_lists.

Section sizes.

(** [os.path.getsize], [None] when it raises [OSError]. *)
Variable getsize : string -> option Z.

(** The loop over the identities without a cached size. *)
Definition stat_missing (missing : list string) (known sizes : gmap string Z)
    : gmap string Z * gmap string Z :=
  foldl (fun ks ident =>
    match getsize ident with
    | None => ks
    | Some z => (<[ident := z]> ks.1, <[ident := z]> ks.2)
    end) (known, sizes) missing.

Definition batch_bytes (day : string) (n : Z) (l : day_lists) : Z * day_lists :=
  let idents := cj_identity <$> peek_batch day n l in
  let known := filter (fun p => p.1 ∈ idents) (dl_sizes l) in
  let missing := elements ((list_to_set idents : gset string) ∖ dom known) in
  let '(known, sizes) := stat_missing missing known (dl_sizes l) in
  (foldr Z.add 0 ((fun i => default 0 (known !! i)) <$> idents), DayLists (dl_days l) sizes).
End sizes.

(** ** What each day still owes *)

(** [_DAY_INGEST_LEFT] and [_DAY_APPEND_LEFT]. *)
Record remainders := Remainders { ingest_left : gmap string Z; append_left : gmap string Z }.

Definition no_remainders : remainders := Remainders ∅ ∅.

Definition bucket_of (kind : string) (r : remainders) : gmap string Z :=
  if decide (kind = "append") then append_left r else ingest_left r.

Definition with_bucket (kind : string) (b : gmap string Z) (r : remainders) : remainders :=
  if decide (kind = "append") then Remainders (ingest_left r) b else Remainders b (append_left r).

Definition note_day_remainder (kind day : string) (delta : Z) (r : remainders) : remainders :=
  if decide (day = "" \/ kind ∉ ["ingest"; "append"] \/ delta = 0) then r
  else
    let bucket := bucket_of kind r in
    let cur := default 0 (bucket !! day) + delta in
    with_bucket kind (if cur <=? 0 then delete day bucket else <[day := cur]> bucket) r.

Definition day_remainder (kind day : string) (r : remainders) : Z :=
  if decide (day = "" \/ kind ∉ ["ingest"; "append"]) then 0
  else default 0 (bucket_of kind r !! day).

(** [text.rsplit("|", 2)[0] if "|" in text else text]. *)
Definition path_of_identity (text : string) : string :=
  let parts := py_split "|"%char text in
  py_join "|" (take (Nat.max 1 (length parts - 2)) parts).

Section days.

(** [datetime.fromtimestamp(t).date().isoformat()], [None] when it raises, and
    [int(os.path.getmtime(path))], [None] when it raises. *)
Variable local_day : Z -> option string.
Variable getmtime : string -> option Z.

(** [_derive_stats_path_date(path, None)] of [sync_timedb_archive_helpers.py]. *)
Definition derive_stats_path_date (stats_path : string) : option string :=
  match py_int (path_basename stats_path) ≫= local_day with
  | Some day => Some day
  | None => getmtime stats_path ≫= local_day
  end.

Definition remainder_day_for_identity (identity : string) : option string :=
  let path := path_of_identity identity in
  if decide (path = "") then None else derive_stats_path_date path.

(** The inner loop over the identities of one kind; the counts too. *)
Definition count_kind (kind : string) (seen : list string) (rc : remainders * Z) : remainders * Z :=
  foldl (fun rc ident =>
    match remainder_day_for_identity ident with
    | Some day => if decide (day = "") then rc else (note_day_remainder kind day 1 rc.1, rc.2 + 1)
    | None => rc
    end) rc seen.

Context {H : Type} `{PQ : !PriorityQueue H}.

Definition seen_identities (kind : string) (idents : list string) (s : store H) : gset string :=
  list_to_set idents ∪ list_to_set (dict_keys (inflight s !!! kind)).

(** The counts per kind (ingest, append), and the new remainders; the old ones
    are cleared first. *)
Definition rebuild_day_remainders_from_job_store (job_store : option (store H))
    : (Z * Z) * remainders :=
  match job_store with
  | None => ((0, 0), no_remainders)
  | Some s =>
      let '(r, ni) := count_kind "ingest"
        (elements (seen_identities "ingest" (ingest_identities s) s)) (no_remainders, 0) in
      let '(r, na) := count_kind "append"
        (elements (seen_identities "append" (list_slice "append" 0 (-1) s) s)) (r, 0) in
      ((ni, na), r)
  end.
End days.
