(* ===== verification/AppendDaysSpec.v ===== *)
(** Correctness of the append day lists and of the day remainders. *)
From S2P Require Import Prelude PyDict PyStr PriorityQueue IngestScore JobStore JobStoreInv JobStoreOps JobStoreSteps JobStoreSafety AppendDays.
Local Open Scope Z_scope.

(** ** The parked claims *)

Definition parked (day : string) (l : day_lists) : list ClaimedJob := default [] (dl_days l !! day).

(** No bucket is empty, and a size is cached only for a parked claim. *)
Record day_lists_wf (l : day_lists) : Prop := {
  dlw_dict : dict_wf (dl_days l);
  dlw_named : parked "" l = [];
  dlw_full : forall day, dl_days l !! day <> Some [];
  dlw_sizes : forall i z, dl_sizes l !! i = Some z ->
    exists day c, c ∈ parked day l /\ cj_identity c = i;
}.

(** The cache tells the truth. *)
Definition sizes_true (getsize : string -> option Z) (l : day_lists) : Prop :=
  forall i z, dl_sizes l !! i = Some z -> getsize i = Some z.

Lemma parked_add day c l day' :
  parked day' (add day c l) =
    if decide (day <> "" /\ day' = day) then parked day' l ++ [c] else parked day' l.
Proof.
  unfold parked, add. destruct (decide (day = "")) as [->|Hd]; [case_decide; naive_solver|].
  simpl. rewrite dict_lookup_insert. repeat case_decide; naive_solver.
Qed.

Lemma pop_loop_out n bucket sizes :
  (pop_loop n bucket sizes).1 = (take n bucket, drop n bucket).
Proof.
  revert bucket sizes. induction n as [|n IH]; intros [|c bucket] sizes; [done..|].
  simpl. specialize (IH bucket (delete (cj_identity c) sizes)).
  destruct (pop_loop _ _ _) as [[out rest] sz]. simpl in *. by simplify_eq.
Qed.

Lemma pop_loop_sizes n bucket sizes i :
  (pop_loop n bucket sizes).2 !! i =
    if decide (i ∈ cj_identity <$> take n bucket) then None else sizes !! i.
Proof.
  revert bucket sizes. induction n as [|n IH]; intros [|c bucket] sizes; [done..|]. simpl.
  specialize (IH bucket (delete (cj_identity c) sizes)).
  destruct (pop_loop _ _ _) as [[out rest] sz]. simpl in *. rewrite IH.
  destruct (decide (i = cj_identity c)) as [->|Hne].
  - rewrite lookup_delete_eq. repeat case_decide; set_solver.
  - rewrite lookup_delete_ne by done. repeat case_decide; set_solver.
Qed.

Lemma pop_batch_out day n l :
  day <> "" -> (pop_batch day n l).1 = take (Z.to_nat n) (parked day l).
Proof.
  intros Hd. unfold pop_batch, parked. case_decide as E.
  - destruct E as [|E]; [done|]. by replace (Z.to_nat n) with O by lia.
  - replace (Z.to_nat n) with (Z.to_nat (Z.max 0 n)) by lia.
    destruct (dl_days l !! day) as [b|]; simpl; [|by rewrite take_nil].
    pose proof (pop_loop_out (Z.to_nat (Z.max 0 n)) b (dl_sizes l)) as Hp.
    destruct (pop_loop _ _ _) as [[out rest] sz]. simpl in *. by simplify_eq.
Qed.

Lemma parked_pop day n l day' :
  parked day' (pop_batch day n l).2 =
    if decide (day <> "" /\ day' = day) then drop (Z.to_nat n) (parked day l) else parked day' l.
Proof.
  unfold pop_batch. case_decide as E.
  - simpl. case_decide as E2; [|done]. destruct E as [|E], E2; [done|]. subst.
    by replace (Z.to_nat n) with O by lia.
  - replace (Z.to_nat n) with (Z.to_nat (Z.max 0 n)) by lia. unfold parked at 2.
    destruct (dl_days l !! day) as [b|] eqn:Eb.
    + pose proof (pop_loop_out (Z.to_nat (Z.max 0 n)) b (dl_sizes l)) as Hp.
      destruct (pop_loop _ _ _) as [[out rest] sz]. simpl in *. simplify_eq.
      unfold parked; simpl. destruct (drop _ b) eqn:Er.
      * rewrite dict_lookup_delete. repeat case_decide; naive_solver.
      * rewrite dict_lookup_insert. repeat case_decide; naive_solver.
    + simpl. case_decide as E2; [|done]. destruct E2 as [_ ->]. unfold parked. by rewrite Eb, drop_nil.
Qed.

Lemma parked_empty day : parked day empty_day_lists = [].
Proof. done. Qed.

Lemma parked_bytes getsize day n l day' : parked day' (batch_bytes getsize day n l).2 = parked day' l.
Proof. unfold batch_bytes. by destruct (stat_missing _ _ _ _). Qed.

(** ** Histories *)

(** A coordinator's calls; what it only reads leaves no trace but the size cache. *)
Inductive dl_op :=
| OpAdd (day : string) (c : ClaimedJob)
| OpPop (day : string) (n : Z)
| OpBytes (day : string) (n : Z)
| OpClear.

Definition run_op (getsize : string -> option Z) (l : day_lists) (o : dl_op) : list ClaimedJob * day_lists :=
  match o with
  | OpAdd day c => ([], add day c l)
  | OpPop day n => pop_batch day n l
  | OpBytes day n => ([], (batch_bytes getsize day n l).2)
  | OpClear => ([], clear l)
  end.

(** The claims handed out for [day], in order, and the lists after the calls. *)
Fixpoint run_ops (getsize : string -> option Z) (day : string) (ops : list dl_op) (l : day_lists)
    : list ClaimedJob * day_lists :=
  match ops with
  | [] => ([], l)
  | o :: ops =>
      let '(out, l) := run_op getsize l o in
      let '(rest, l) := run_ops getsize day ops l in
      ((match o with OpPop d _ => if decide (d = day) then out else [] | _ => [] end) ++ rest, l)
  end.

(** The claims added for [day], in order. *)
Definition added (day : string) (ops : list dl_op) : list ClaimedJob :=
  omap (fun o => match o with OpAdd d c => if decide (d = day) then Some c else None | _ => None end) ops.

Lemma run_ops_parked getsize day ops l :
  day <> "" -> OpClear ∉ ops ->
  (run_ops getsize day ops l).1 ++ parked day (run_ops getsize day ops l).2 = parked day l ++ added day ops.
Proof.
  intros Hd. revert l. induction ops as [|o ops IH]; intros l Hc; simpl; [by rewrite app_nil_r|].
  apply not_elem_of_cons in Hc as [Ho Hc].
  destruct (run_op getsize l o) as [out l'] eqn:Eo. specialize (IH l' Hc).
  destruct (run_ops getsize day ops l') as [rest l'']. cbn [fst snd] in *. rewrite <- app_assoc, IH.
  destruct o as [d c|d n|d n|]; cbn [run_op] in Eo; simplify_eq.
  - rewrite parked_add. repeat case_decide; simpl; rewrite <- ?app_assoc; naive_solver.
  - assert (out = (pop_batch d n l).1 /\ l' = (pop_batch d n l).2) as [-> ->] by by rewrite Eo.
    rewrite parked_pop. destruct (decide (d = day)) as [->|Hne].
    + rewrite decide_True by done. rewrite pop_batch_out by done. by rewrite app_assoc, take_drop.
    + by rewrite decide_False by naive_solver.
  - by rewrite parked_bytes.
Qed.

(** ** The size cache *)

Lemma decide_elem_cons {A} (i m : string) l (x y : A) :
  (if decide (i ∈ m :: l) then x else y) =
    if decide (i = m) then x else if decide (i ∈ l) then x else y.
Proof. repeat case_decide; rewrite elem_of_cons in *; tauto. Qed.

Section cache.
Variable getsize : string -> option Z.

Lemma stat_missing_lookup missing known sizes i :
  (stat_missing getsize missing known sizes).1 !! i =
    (if decide (i ∈ missing) then from_option Some (known !! i) (getsize i) else known !! i) /\
  (stat_missing getsize missing known sizes).2 !! i =
    (if decide (i ∈ missing) then from_option Some (sizes !! i) (getsize i) else sizes !! i).
Proof.
  unfold stat_missing. revert known sizes.
  induction missing as [|m missing IH]; intros known sizes; [done|]. cbn [foldl].
  rewrite !decide_elem_cons.
  destruct (getsize m) as [z|] eqn:Em; cbn [fst snd].
  - destruct (IH (<[m := z]> known) (<[m := z]> sizes)) as [-> ->].
    destruct (decide (i = m)) as [->|Hne].
    + rewrite !lookup_insert_eq, Em. by case_decide.
    + by rewrite !lookup_insert_ne.
  - destruct (IH known sizes) as [-> ->]. destruct (decide (i = m)) as [->|]; [|done].
    rewrite Em. by case_decide.
Qed.

Lemma batch_bytes_sizes day n l i :
  dl_sizes (batch_bytes getsize day n l).2 !! i =
    if decide (i ∈ cj_identity <$> peek_batch day n l /\ dl_sizes l !! i = None)
    then getsize i else dl_sizes l !! i.
Proof.
  unfold batch_bytes. set (idents := cj_identity <$> _).
  set (known := filter (fun p => p.1 ∈ idents) (dl_sizes l)).
  set (missing := elements _).
  destruct (stat_missing_lookup missing known (dl_sizes l) i) as [_ E].
  destruct (stat_missing _ _ _ _) as [k sz]. cbn [fst snd dl_sizes] in *. rewrite E.
  assert (i ∈ missing <-> i ∈ idents /\ dl_sizes l !! i = None) as Hm.
  { unfold missing, known. rewrite elem_of_elements, elem_of_difference, elem_of_list_to_set, not_elem_of_dom.
    rewrite map_lookup_filter_None. destruct (dl_sizes l !! i); naive_solver. }
  repeat case_decide; try naive_solver. destruct Hm as [Hm _]. destruct (Hm ltac:(done)) as [_ ->].
  by destruct (getsize i).
Qed.

(** The number answered is the size of the batch on disk. *)
Lemma batch_bytes_sum day n l :
  sizes_true getsize l ->
  (batch_bytes getsize day n l).1 =
    foldr Z.add 0 ((fun c => default 0 (getsize (cj_identity c))) <$> peek_batch day n l).
Proof.
  intros Ht. unfold batch_bytes. set (idents := cj_identity <$> _).
  set (known := filter (fun p => p.1 ∈ idents) (dl_sizes l)).
  set (missing := elements _).
  pose proof (fun i => proj1 (stat_missing_lookup missing known (dl_sizes l) i)) as E.
  destruct (stat_missing _ _ _ _) as [k sz]. cbn [fst snd] in *. f_equal.
  unfold idents at 1. rewrite <- list_fmap_compose. apply list_fmap_ext. intros j c Hc. cbn.
  assert (cj_identity c ∈ idents) as Hi.
  { apply list_elem_of_fmap. exists c. split; [done|]. by eapply list_elem_of_lookup_2. }
  rewrite E. f_equal.
  assert (cj_identity c ∈ missing <-> known !! cj_identity c = None) as Hm.
  { unfold missing. rewrite elem_of_elements, elem_of_difference, elem_of_list_to_set, not_elem_of_dom. tauto. }
  case_decide as Hd.
  - apply Hm in Hd. rewrite Hd. by destruct (getsize _).
  - destruct (known !! cj_identity c) as [z|] eqn:Ez; [|by destruct Hd; apply Hm].
    apply map_lookup_filter_Some in Ez as [Ez _]. by rewrite (Ht _ _ Ez).
Qed.

Lemma peek_batch_parked day n l : peek_batch day n l = take (Z.to_nat n) (parked day l).
Proof.
  unfold peek_batch, parked. replace (Z.to_nat (Z.max 0 n)) with (Z.to_nat n) by lia.
  destruct (dl_days l !! day); [done|]. cbn; by rewrite take_nil.
Qed.
End cache.

(** ** Every call keeps the lists well formed *)

Lemma parked_key day l : dl_days l !! day <> Some [] -> parked day l = [] <-> dl_days l !! day = None.
Proof. unfold parked. destruct (dl_days l !! day) as [[|]|]; naive_solver. Qed.

Lemma day_lists_wf_empty : day_lists_wf empty_day_lists.
Proof. constructor; try done. apply dict_wf_empty. Qed.

Lemma day_lists_wf_add day c l : day_lists_wf l -> day_lists_wf (add day c l).
Proof.
  intros [Hd Hn Hf Hs]. constructor.
  - unfold add. case_decide; [done|]. by apply dict_wf_insert.
  - rewrite parked_add. case_decide; [naive_solver|done].
  - intros d. unfold add. case_decide; [apply Hf|]. simpl. rewrite dict_lookup_insert.
    case_decide; [|apply Hf]. by destruct (default [] (dl_days l !! day)).
  - intros i z Hi. assert (dl_sizes l !! i = Some z) as Hi' by (unfold add in Hi; by case_decide).
    destruct (Hs i z Hi') as (d & c' & Hc & E). exists d, c'. split; [|done].
    rewrite parked_add. case_decide; [|done]. apply elem_of_app. by left.
Qed.

Lemma pop_batch_sizes day n l i :
  dl_sizes (pop_batch day n l).2 !! i =
    if decide (day <> "" /\ i ∈ cj_identity <$> take (Z.to_nat n) (parked day l)) then None else dl_sizes l !! i.
Proof.
  unfold pop_batch. case_decide as E.
  - simpl. case_decide as E2; [|done]. destruct E as [|E], E2; [done|].
    replace (Z.to_nat n) with O in * by lia. set_solver.
  - replace (Z.to_nat n) with (Z.to_nat (Z.max 0 n)) by lia. unfold parked.
    destruct (dl_days l !! day) as [b|] eqn:Eb; simpl.
    + pose proof (pop_loop_sizes (Z.to_nat (Z.max 0 n)) b (dl_sizes l) i) as Hp.
      destruct (pop_loop _ _ _) as [[out rest] sz]. simpl in *. rewrite Hp.
      repeat case_decide; naive_solver.
    + rewrite take_nil. rewrite decide_False; [done|]. set_solver.
Qed.

Lemma pop_batch_wf_dict day n l : dict_wf (dl_days l) -> dict_wf (dl_days (pop_batch day n l).2).
Proof.
  intros Hd. unfold pop_batch. case_decide; [done|]. destruct (dl_days l !! day) as [b|]; [|done].
  destruct (pop_loop _ _ _) as [[out [|c rest]] sz]; simpl; [by apply dict_wf_delete|by apply dict_wf_insert].
Qed.

Lemma pop_batch_no_empty day n l d :
  (forall day, dl_days l !! day <> Some []) -> dl_days (pop_batch day n l).2 !! d <> Some [].
Proof.
  intros Hf. unfold pop_batch. case_decide; [done|]. destruct (dl_days l !! day) as [b|]; [|done].
  destruct (pop_loop _ _ _) as [[out [|c rest]] sz]; simpl;
    rewrite ?dict_lookup_delete, ?dict_lookup_insert; case_decide; naive_solver.
Qed.

Lemma day_lists_wf_pop day n l : day_lists_wf l -> day_lists_wf (pop_batch day n l).2.
Proof.
  intros [Hd Hn Hf Hs]. constructor.
  - by apply pop_batch_wf_dict.
  - rewrite parked_pop. case_decide; naive_solver.
  - intros d. by apply pop_batch_no_empty.
  - intros i z Hi. rewrite pop_batch_sizes in Hi. case_decide as E; [done|].
    destruct (Hs i z Hi) as (d & c & Hc & Ec). exists d, c. split; [|done].
    rewrite parked_pop. case_decide as E2; [|done]. destruct E2 as [E2 ->].
    rewrite <- (take_drop (Z.to_nat n)) in Hc. apply elem_of_app in Hc as [Hc|Hc]; [|done].
    destruct E. split; [done|]. apply list_elem_of_fmap. eauto.
Qed.

Lemma day_lists_wf_bytes getsize day n l : day_lists_wf l -> day_lists_wf (batch_bytes getsize day n l).2.
Proof.
  intros [Hd Hn Hf Hs].
  assert (dl_days (batch_bytes getsize day n l).2 = dl_days l) as Ed
    by (unfold batch_bytes; by destruct (stat_missing _ _ _ _)).
  constructor; rewrite ?Ed, ?parked_bytes; try done.
  intros i z Hi. rewrite batch_bytes_sizes in Hi. setoid_rewrite parked_bytes. case_decide as E; [|by eapply Hs].
  destruct E as [E _]. apply list_elem_of_fmap in E as (c & -> & Hc). rewrite peek_batch_parked in Hc.
  exists day, c. split; [|done]. by eapply subseteq_take.
Qed.

Lemma run_op_wf getsize o l : day_lists_wf l -> day_lists_wf (run_op getsize l o).2.
Proof.
  destruct o; simpl.
  - apply day_lists_wf_add.
  - apply day_lists_wf_pop.
  - apply day_lists_wf_bytes.
  - intros _. apply day_lists_wf_empty.
Qed.

Lemma run_op_true getsize o l : sizes_true getsize l -> sizes_true getsize (run_op getsize l o).2.
Proof.
  intros Ht i z. destruct o as [day c|day n|day n|]; simpl; [|rewrite pop_batch_sizes|rewrite batch_bytes_sizes|done].
  - unfold add. case_decide; apply Ht.
  - case_decide; [done|apply Ht].
  - case_decide; [done|apply Ht].
Qed.

Lemma run_ops_keeps getsize day ops l :
  day_lists_wf l -> sizes_true getsize l ->
  day_lists_wf (run_ops getsize day ops l).2 /\ sizes_true getsize (run_ops getsize day ops l).2.
Proof.
  revert l. induction ops as [|o ops IH]; intros l Hw Ht; [done|]. simpl.
  pose proof (run_op_wf getsize o l Hw) as Hw'. pose proof (run_op_true getsize o l Ht) as Ht'.
  destruct (run_op getsize l o) as [out l']. simpl in *. specialize (IH l' Hw' Ht').
  by destruct (run_ops getsize day ops l').
Qed.

(** ** What each day still owes *)

(** A count that is kept is positive. *)
Definition remainders_ok (r : remainders) : Prop :=
  forall kind day v, bucket_of kind r !! day = Some v -> 0 < v.

Lemma bucket_of_with kind b r kind' :
  kind ∈ ["ingest"; "append"] -> kind' ∈ ["ingest"; "append"] ->
  bucket_of kind' (with_bucket kind b r) = if decide (kind' = kind) then b else bucket_of kind' r.
Proof.
  intros Hk Hk'. unfold bucket_of, with_bucket.
  repeat case_decide; simplify_eq; try done; set_solver.
Qed.

Lemma bucket_of_other kind r : kind ∉ ["ingest"; "append"] -> bucket_of kind r = bucket_of "ingest" r.
Proof. intros Hk. unfold bucket_of. rewrite !decide_False; [done|done|set_solver]. Qed.

Lemma remainders_ok_note kind day delta r :
  remainders_ok r -> remainders_ok (note_day_remainder kind day delta r).
Proof.
  intros Hr. unfold note_day_remainder. case_decide as E; [done|].
  assert (kind ∈ ["ingest"; "append"]) as Hk by (apply dec_stable; naive_solver).
  assert (forall k d v, k ∈ ["ingest"; "append"] ->
    bucket_of k (note_day_remainder kind day delta r) !! d = Some v -> 0 < v) as Hn.
  { intros k d v Hk' Hv. unfold note_day_remainder in Hv. rewrite decide_False, bucket_of_with in Hv by done.
    case_decide; [|by eapply Hr].
    destruct (_ <=? 0) eqn:El; [apply lookup_delete_Some in Hv as [_ Hv]; by eapply Hr|].
    apply lookup_insert_Some in Hv as [[_ <-]|[_ Hv]]; [lia|by eapply Hr]. }
  unfold note_day_remainder in Hn. rewrite decide_False in Hn by done.
  intros k d v Hv. destruct (decide (k ∈ ["ingest"; "append"])) as [Hk'|Hk']; [by eapply Hn|].
  rewrite bucket_of_other in Hv by done. eapply Hn; [|done]. set_solver.
Qed.

Lemma day_remainder_eq kind day r :
  kind ∈ ["ingest"; "append"] -> day <> "" -> day_remainder kind day r = default 0 (bucket_of kind r !! day).
Proof. intros Hk Hd. unfold day_remainder. by rewrite decide_False by tauto. Qed.

Lemma day_remainder_nonneg kind day r : remainders_ok r -> 0 <= day_remainder kind day r.
Proof.
  intros Hr. unfold day_remainder. destruct (decide _); [done|].
  destruct (bucket_of kind r !! day) as [v|] eqn:Ev; simpl; [|done]. apply Hr in Ev. lia.
Qed.

(** A note adds its delta to one count, which stays at least 0. *)
Lemma day_remainder_note kind day delta r kind' day' :
  remainders_ok r -> kind ∈ ["ingest"; "append"] -> kind' ∈ ["ingest"; "append"] ->
  day <> "" -> day' <> "" ->
  day_remainder kind' day' (note_day_remainder kind day delta r) =
    if decide (kind' = kind /\ day' = day) then Z.max 0 (day_remainder kind day r + delta)
    else day_remainder kind' day' r.
Proof.
  intros Hr Hk Hk' Hd Hd'. rewrite !day_remainder_eq by done.
  pose proof (Hr kind day) as Hpos. unfold note_day_remainder. case_decide as E.
  - destruct E as [|[| ->]]; [done|done|]. case_decide as E2; [|done]. destruct E2 as [-> ->].
    destruct (bucket_of kind r !! day); simpl; [|done]. specialize (Hpos _ eq_refl). lia.
  - rewrite bucket_of_with by done. destruct (decide (kind' = kind)) as [->|Hne]; [|by rewrite decide_False by tauto].
    destruct (decide (day' = day)) as [->|Hned].
    + rewrite decide_True by done. destruct (_ <=? 0) eqn:El;
        rewrite ?lookup_delete_eq, ?lookup_insert_eq; simpl; lia.
    + rewrite decide_False by tauto. destruct (_ <=? 0); by rewrite ?lookup_delete_ne, ?lookup_insert_ne by done.
Qed.

Section rebuild.
Variable local_day : Z -> option string.
Variable getmtime : string -> option Z.
Abbreviation day_of := (remainder_day_for_identity local_day getmtime).

Lemma count_kind_cons kind i seen rc :
  count_kind local_day getmtime kind (i :: seen) rc =
    count_kind local_day getmtime kind seen
      match day_of i with
      | Some day => if decide (day = "") then rc else (note_day_remainder kind day 1 rc.1, rc.2 + 1)
      | None => rc
      end.
Proof. done. Qed.

Lemma count_kind_spec kind seen rc kind' day :
  remainders_ok rc.1 -> kind ∈ ["ingest"; "append"] -> kind' ∈ ["ingest"; "append"] -> day <> "" ->
  remainders_ok (count_kind local_day getmtime kind seen rc).1 /\
  day_remainder kind' day (count_kind local_day getmtime kind seen rc).1 =
    day_remainder kind' day rc.1 +
    (if decide (kind' = kind) then Z.of_nat (length (filter (fun i => day_of i = Some day) seen)) else 0) /\
  (count_kind local_day getmtime kind seen rc).2 =
    rc.2 + Z.of_nat (length (filter (fun i => default "" (day_of i) <> "") seen)).
Proof.
  intros Hr Hk Hk' Hd. revert rc Hr.
  induction seen as [|i seen IH]; intros rc Hr; [unfold count_kind; simpl; split_and!; [done| |by rewrite Z.add_0_r]; case_decide; by rewrite Z.add_0_r|].
  rewrite count_kind_cons, !filter_length_cons. destruct (day_of i) as [d|] eqn:Ed; cbn [from_option id].
  2: { rewrite (decide_False (P := None = Some day)), (decide_False (P := "" <> "")) by auto. by apply IH. }
  destruct (decide (d = "")) as [->|Hne].
  { rewrite (decide_False (P := Some "" = Some day)), (decide_False (P := "" <> "")) by (auto; congruence). by apply IH. }
  destruct (IH (note_day_remainder kind d 1 rc.1, rc.2 + 1)) as (Ho & -> & ->);
    [by apply remainders_ok_note|].
  split; [done|]. cbn [fst snd]. rewrite day_remainder_note by done.
  pose proof (day_remainder_nonneg kind d rc.1 Hr) as Hpos.
  rewrite (decide_True (P := d <> "")) by done.
  destruct (decide (kind' = kind)) as [->|]; [|rewrite decide_False by naive_solver; lia].
  destruct (decide (day = d)) as [->|Hdd].
  - rewrite !decide_True by done. lia.
  - rewrite (decide_False (P := kind = kind /\ _)), (decide_False (P := Some d = Some day)) by naive_solver. lia.
Qed.
End rebuild.

Section present.
Context {H : Type} `{PQ : !PriorityQueue H}.
Implicit Types s : store H.

Lemma elem_sort_by_score (p : string * Z) l : p ∈ sort_by_score l <-> p ∈ l.
Proof.
  unfold sort_by_score. induction l as [|q l IH]; [done|]. simpl. rewrite elem_of_cons, <- IH.
  generalize (foldr insert_by_score [] l) as m. induction m as [|x m IHm]; simpl; [set_solver|].
  destruct (q.2 <=? x.2); rewrite ?elem_of_cons; rewrite ?IHm; rewrite ?elem_of_cons; tauto.
Qed.

Lemma list_slice_all kind s : list_slice kind 0 (-1) s = lists s !!! kind.
Proof.
  unfold list_slice. case_decide as E; [done|]. change (-1 =? -1) with true. cbn iota.
  assert (0 < Z.of_nat (length (lists s !!! kind))) as Hl by (destruct (lists s !!! kind); [done|simpl; lia]).
  change (0 <? 0) with false. cbn iota.
  rewrite !(proj2 (Z.ltb_ge (Z.of_nat (length (lists s !!! kind)) - 1) 0)) by lia.
  rewrite (proj2 (Z.leb_gt _ 0)) by lia. cbn [orb]. change (Z.to_nat 0) with O. rewrite drop_0.
  apply take_ge. lia.
Qed.

Lemma size_filter_elements (P : string -> Prop) `{forall x, Decision (P x)} (X : gset string) :
  size (filter P X) = length (filter P (elements X)).
Proof.
  rewrite <- (size_list_to_set (C := gset string)) by apply NoDup_filter, NoDup_elements.
  apply (f_equal size). apply set_eq. intros x.
  by rewrite elem_of_list_to_set, elem_of_filter, list_elem_of_filter, elem_of_elements.
Qed.

(** The identities the rebuild sees are the jobs the store knows. *)
Lemma seen_present kind idents s i :
  (i ∈ idents <-> queued s kind i) -> i ∈ seen_identities kind idents s <-> present s kind i.
Proof.
  intros Hq. unfold seen_identities, present, claimed.
  rewrite elem_of_union, !elem_of_list_to_set, dict_keys_lookup. tauto.
Qed.

Lemma seen_ingest s i :
  store_wf s -> i ∈ seen_identities "ingest" (ingest_identities s) s <-> present s "ingest" i.
Proof.
  intros Hw. apply seen_present. rewrite queued_ingest by by apply no_ingest_list, sw_core.
  unfold ingest_identities. rewrite list_elem_of_fmap. split.
  - intros ([j sc] & -> & Hj). rewrite elem_sort_by_score in Hj. exists sc.
    apply dict_elem_lookup; [|done]. apply iqw_dict. by apply sw_iq, sw_core.
  - intros [sc Hi]. exists (i, sc). split; [done|]. by apply elem_sort_by_score, dict_lookup_elem.
Qed.

Lemma seen_append s i :
  i ∈ seen_identities "append" (list_slice "append" 0 (-1) s) s <-> present s "append" i.
Proof. apply seen_present. rewrite list_slice_all. symmetry. by apply queued_list. Qed.
End present.

(** ** The properties *)

(** The parked claims of a day are a FIFO queue: over any calls since the lists were
    last cleared, the claims handed out for the day, followed by those still parked, are
    the claims added, in that order: none is lost, doubled or overtaken.  The next
    batch is the first [n] of them, peeking shows the same ones, and a day is
    listed exactly while it has a claim. *)
Theorem claims_leave_in_order getsize ops day n :
  day <> "" -> OpClear ∉ ops ->
  let '(out, l) := run_ops getsize day ops empty_day_lists in
  out ++ parked day l = added day ops /\
  (pop_batch day n l).1 = take (Z.to_nat n) (parked day l) /\
  peek_batch day n l = (pop_batch day n l).1 /\
  peek_first day l = head (parked day l) /\
  peek_len day l = length (parked day l) /\
  (day ∈ day_keys l <-> parked day l <> []).
Proof.
  intros Hd Hc. pose proof (run_ops_parked getsize day ops empty_day_lists Hd Hc) as Hp.
  destruct (run_ops_keeps getsize day ops empty_day_lists day_lists_wf_empty) as [Hw _]; [done|].
  destruct (run_ops getsize day ops empty_day_lists) as [out l]. cbn [fst snd] in *.
  split; [by rewrite parked_empty in Hp|]. split; [by apply pop_batch_out|].
  split; [by rewrite pop_batch_out, peek_batch_parked|].
  pose proof (dlw_full l Hw day) as Hf. unfold peek_first, peek_len, day_keys.
  rewrite dict_keys_lookup. unfold parked. destruct (dl_days l !! day) as [[|c b]|]; [done|..]; simpl;
    (split_and!; [done..|]); split; [done|by eexists|by intros []|done].
Qed.

(** The bytes of a batch are the sizes of its files on disk, one missing file
    counting 0, however calls before it filled the cache and dropped from it; asking
    moves no claim; and the cache holds sizes of parked claims only. *)
Theorem batch_bytes_exact getsize ops day n :
  let l := (run_ops getsize day ops empty_day_lists).2 in
  let r := batch_bytes getsize day n l in
  r.1 = foldr Z.add 0 ((fun c => default 0 (getsize (cj_identity c))) <$> take (Z.to_nat n) (parked day l)) /\
  dl_days r.2 = dl_days l /\
  forall i z, dl_sizes r.2 !! i = Some z -> exists d c, c ∈ parked d l /\ cj_identity c = i.
Proof.
  destruct (run_ops_keeps getsize day ops empty_day_lists day_lists_wf_empty) as [Hw Ht]; [done|].
  cbv zeta. set (l := (run_ops _ _ _ _).2) in *. split; [|split].
  - by rewrite batch_bytes_sum, peek_batch_parked by done.
  - unfold batch_bytes. by destruct (stat_missing _ _ _ _).
  - intros i z Hi. pose proof (dlw_sizes _ (day_lists_wf_bytes getsize day n l Hw) i z Hi) as (d & c & Hc & E).
    rewrite parked_bytes in Hc. eauto.
Qed.

(** The counts rebuilt after a restart are exact: what a day still owes of a kind is
    the number of jobs of that kind the store knows, queued or claimed, whose raw
    file belongs to that day; the total of the kind counts those with any day. *)
Theorem rebuild_counts_present {H : Type} `{!PriorityQueue H} local_day getmtime (s : store H) kind day :
  reachable s -> kind ∈ ["ingest"; "append"] -> day <> "" ->
  let '((ni, na), r) := rebuild_day_remainders_from_job_store local_day getmtime (Some s) in
  exists owed dated : gset string,
    (forall i, i ∈ owed <-> present s kind i /\ remainder_day_for_identity local_day getmtime i = Some day) /\
    (forall i, i ∈ dated <-> present s kind i /\ default "" (remainder_day_for_identity local_day getmtime i) <> "") /\
    day_remainder kind day r = Z.of_nat (size owed) /\
    (if decide (kind = "ingest") then ni else na) = Z.of_nat (size dated).
Proof.
  intros Hr%reachable_wf Hk Hd. unfold rebuild_day_remainders_from_job_store.
  set (si := seen_identities "ingest" (ingest_identities s) s).
  set (sa := seen_identities "append" (list_slice "append" 0 (-1) s) s).
  assert (remainders_ok no_remainders) as H0 by (intros k d v; unfold bucket_of; by case_decide).
  destruct (count_kind_spec local_day getmtime "ingest" (elements si) (no_remainders, 0) kind day)
    as (Hok1 & E1 & C1); [done|set_solver|done|done|].
  destruct (count_kind _ _ "ingest" _ _) as [r1 ni]. cbn [fst snd] in *.
  destruct (count_kind_spec local_day getmtime "append" (elements sa) (r1, 0) kind day)
    as (Hok2 & E2 & C2); [done|set_solver|done|done|].
  destruct (count_kind _ _ "append" _ _) as [r2 na]. cbn [fst snd] in *.
  assert (day_remainder kind day no_remainders = 0) as E0
    by (rewrite day_remainder_eq by done; unfold bucket_of; by case_decide).
  set (sk := if decide (kind = "ingest") then si else sa).
  assert (forall i, i ∈ sk <-> present s kind i) as Hsk.
  { intros i. unfold sk. destruct (decide (kind = "ingest")) as [->|Ek]; [by apply seen_ingest|].
    assert (kind = "append") as -> by set_solver. apply seen_append. }
  exists (filter (fun i => remainder_day_for_identity local_day getmtime i = Some day) sk),
    (filter (fun i => default "" (remainder_day_for_identity local_day getmtime i) <> "") sk).
  split_and!; [intros i; rewrite elem_of_filter, Hsk; tauto..| |].
  - rewrite E2, E1, E0, size_filter_elements. unfold sk.
    destruct (decide (kind = "ingest")) as [->|Ek]; [by rewrite Z.add_0_r|].
    assert (kind = "append") as -> by set_solver. done.
  - rewrite size_filter_elements. unfold sk. by destruct (decide (kind = "ingest")).
Qed.

(** ** Witnesses *)

Definition demo_claim (i : string) : ClaimedJob := Build_ClaimedJob "append" i "o" 0 None "" "".
Definition demo_ops : list dl_op :=
  [OpAdd "2026-06-01" (demo_claim "/raw/1"); OpAdd "2026-06-02" (demo_claim "/raw/2");
   OpAdd "2026-06-01" (demo_claim "/raw/3"); OpBytes "2026-06-01" 5; OpPop "2026-06-01" 1].

Lemma claims_leave_in_order_witness :
  let '(out, l) := run_ops (fun _ => Some 7) "2026-06-01" demo_ops empty_day_lists in
  out ++ parked "2026-06-01" l = added "2026-06-01" demo_ops /\
  (pop_batch "2026-06-01" 4 l).1 = take (Z.to_nat 4) (parked "2026-06-01" l) /\
  peek_batch "2026-06-01" 4 l = (pop_batch "2026-06-01" 4 l).1 /\
  peek_first "2026-06-01" l = head (parked "2026-06-01" l) /\
  peek_len "2026-06-01" l = length (parked "2026-06-01" l) /\
  ("2026-06-01" ∈ day_keys l <-> parked "2026-06-01" l <> []).
Proof.
  apply (claims_leave_in_order (fun _ => Some 7) demo_ops "2026-06-01" 4); [done|].
  unfold demo_ops. rewrite !not_elem_of_cons. split_and!; [done..|apply not_elem_of_nil].
Defined.

Definition demo_mtime (p : string) : option Z := Some 1000.
Definition demo_day (t : Z) : option string := Some "2026-06-01".

Lemma rebuild_counts_present_witness :
  let '((ni, na), r) := rebuild_day_remainders_from_job_store demo_day demo_mtime (Some Demo.s5) in
  exists owed dated : gset string,
    (forall i, i ∈ owed <-> present Demo.s5 "ingest" i /\ remainder_day_for_identity demo_day demo_mtime i = Some "2026-06-01") /\
    (forall i, i ∈ dated <-> present Demo.s5 "ingest" i /\ default "" (remainder_day_for_identity demo_day demo_mtime i) <> "") /\
    day_remainder "ingest" "2026-06-01" r = Z.of_nat (size owed) /\
    (if decide ("ingest" = "ingest") then ni else na) = Z.of_nat (size dated).
Proof.
  refine (rebuild_counts_present demo_day demo_mtime Demo.s5 "ingest" "2026-06-01" Demo.s5_reachable _ _).
  - apply elem_of_cons. by left.
  - discriminate.
Defined.

(** Three files are owed there: one of them claimed. *)
Example rebuild_demo :
  let '((ni, na), r) := rebuild_day_remainders_from_job_store demo_day demo_mtime (Some Demo.s5) in
  (ni, na, day_remainder "ingest" "2026-06-01" r, day_remainder "append" "2026-06-01" r) = (3, 1, 3, 1).
Proof. vm_compute. reflexivity. Qed.

(** The path of an identity: the file name with its two trailing fields cut off. *)
Example path_of_identity_demo :
  path_of_identity "/raw/a|b|10|20" = "/raw/a|b" /\ path_of_identity "/raw/a" = "/raw/a".
Proof. done. Qed.
