(* ===== verification/SealedMap.v ===== *)
(** The member maps of the sealed archives:
    [dbload/lib/sync_timedb_sealed_member_map.py].

    A map names the members of a sealed daily archive with their sizes, and is saved
    beside it stamped with the archive's identity: inode, size, modification time.  A
    lookup trusts it only for an archive with that very identity; otherwise it asks a
    daemon thread for a rebuild.  The maps last used are cached.

    The blocks between two calls of other threads are functions here; the calls
    compose them.  SHA-256 and the scan of an archive are parameters; paths have no
    symbolic links, so [stat] goes by the normal path. *)
From S2P Require Import Prelude PyDict PyStr PosixPath Json Persistence.
From Stdlib Require Import Ascii.
Local Open Scope Z_scope.

(** Inode, size and modification time of an archive; member names to sizes. *)
Abbreviation archive_id := (Z * Z * Z)%type.
Abbreviation members := (dict string Z).
Abbreviation map_cache := (dict string (archive_id * members)).

Definition SEALED_MEMBER_MAP_DIRNAME : string := ".sync_timedb_sealed_members".
Definition SEALED_MEMBER_MAP_KIND : string := "sealed_member_map".
Definition CACHE_MAX : nat := 8.

(** The module's globals, and the part of the disk it reads and writes. *)
Record maps := Maps {
  sm_cache : map_cache;              (* _CACHE, the last used at the end *)
  sm_queue : list string;            (* _REBUILD_QUEUE *)
  sm_pending : gset string;          (* _REBUILD_PENDING *)
  sm_files : gmap string file_content;
  sm_archives : gmap string archive_id;
}.

Definition with_cache c (m : maps) : maps := Maps c (sm_queue m) (sm_pending m) (sm_files m) (sm_archives m).
Definition with_queue q p (m : maps) : maps := Maps (sm_cache m) q p (sm_files m) (sm_archives m).
Definition with_map_file path f (m : maps) : maps := Maps (sm_cache m) (sm_queue m) (sm_pending m) (<[path := f]> (sm_files m)) (sm_archives m).

(** A new process: the globals are empty, the disk is as it was. *)
Definition new_process (m : maps) : maps := Maps ∅ [] ∅ (sm_files m) (sm_archives m).

Definition archive_identity (path : string) (m : maps) : option archive_id := sm_archives m !! normpath path.

Definition sealed_member_map_path (sealed_path : string) : string :=
  let norm := normpath sealed_path in
  let day := default "" (head (py_split "."%char (path_basename norm))) in
  path_join (path_join (path_dirname norm) SEALED_MEMBER_MAP_DIRNAME) (day +:+ ".json").

(** The lines of the digest, in the order of the names. *)
Definition digest_line (name : string) (size : Z) : string := name +:+ ":" +:+ str_of_Z size +:+ String "010"%char "".

Definition digest_text (names : list string) (size : string -> Z) : string :=
  foldr (fun name rest => digest_line name (size name) +:+ rest) "" names.

Definition members_sha256 (sha256 : string -> string) (ms : members) : string :=
  sha256 (digest_text (merge_sort String.le (dict_keys ms)) (fun name => default 0 (ms !! name))).

(** [int()] of every value, in the order of the items. *)
Fixpoint int_items (l : list (string * json)) : result (list (string * Z)) :=
  match l with
  | [] => Ok []
  | (name, v) :: l => z ← json_int v; l ← int_items l; Ok ((name, z) :: l)
  end.

(** [_members_sha256] of a dictionary as it was loaded: the first value in the order of
    the names that is no number raises. *)
Definition members_sha256_json (sha256 : string -> string) (es : jdict) : result string :=
  l ← int_items ((fun name => (name, json_get name es)) <$> merge_sort String.le (dict_keys es));
  Ok (members_sha256 sha256 (Dict l)).

(** ** The document *)

Definition identity_json (id : archive_id) : json :=
  let '(ino, size, mtime_ns) := id in JDict (Dict [("ino", JInt ino); ("size", JInt size); ("mtime_ns", JInt mtime_ns)]).

(** [x == z] for a value of the document. *)
Definition json_is_int (j : json) (z : Z) : bool :=
  match j with
  | JInt i => i =? z
  | JBool b => (if b then 1 else 0) =? z
  | JFloat (FFin n d) => n =? z * Zpos d
  | _ => false
  end.

(** [x == live]: the same keys with equal values. *)
Definition identity_matches (j : json) (live : archive_id) : bool :=
  let '(ino, size, mtime_ns) := live in
  match j with
  | JDict d => (dict_len d =? 3)%nat && json_is_int (json_get "ino" d) ino && json_is_int (json_get "size" d) size &&
               json_is_int (json_get "mtime_ns" d) mtime_ns
  | _ => false
  end.

Definition map_document (sha256 : string -> string) (sealed_path source : string) (now : pyfloat) (live : archive_id)
    (ms : members) : result file_content :=
  save_persistence_document SEALED_MEMBER_MAP_KIND
    (JDict (Dict [("sealed_path", JStr (normpath sealed_path)); ("zst_identity", identity_json live);
                  ("entries", JDict (Dict ((fun nz => (nz.1, JInt nz.2)) <$> dict_items ms)));
                  ("members_sha256", JStr (members_sha256 sha256 ms)); ("source", JStr source); ("written_at", JFloat now)]))
    true.

(** The members of a stored map that is valid for [live]. *)
Definition read_map (sha256 : string -> string) (file : option file_content) (live : archive_id) : result (option members) :=
  doc ← load_persistence_document file SEALED_MEMBER_MAP_KIND JNull;
  match doc with
  | JDict d =>
      if identity_matches (json_get "zst_identity" d) live then
        match json_get "entries" d with
        | JDict es =>
            digest ← members_sha256_json sha256 es;
            if match json_get "members_sha256" d with JStr s => bool_decide (s = digest) | _ => false end
            then l ← int_items (dict_items es); Ok (Some (Dict l))
            else Ok None
        | _ => Ok None
        end
      else Ok None
  | _ => Ok None
  end.

(** ** The cache *)

(** Assignment, [move_to_end], and the oldest out while there are too many. *)
Definition cache_store (map_path : string) (v : archive_id * members) (c : map_cache) : map_cache :=
  let c := <[map_path := v]> (delete map_path c) in Dict (drop (dict_len c - CACHE_MAX) (dict_items c)).

Definition cache_put (map_path : string) (live : archive_id) (ms : members) (m : maps) : maps :=
  with_cache (cache_store map_path (live, ms) (sm_cache m)) m.

(** A hit is moved to the end. *)
Definition cache_probe (map_path : string) (live : archive_id) (m : maps) : option members * maps :=
  match sm_cache m !! map_path with
  | Some (id, ms) =>
      if decide (id = live) then (Some ms, with_cache (<[map_path := (id, ms)]> (delete map_path (sm_cache m))) m) else (None, m)
  | None => (None, m)
  end.

(** ** Rebuild requests *)

Definition request_sealed_member_map_rebuild (sealed_path : string) (m : maps) : bool * maps :=
  let norm := normpath sealed_path in
  if decide (norm ∈ sm_pending m) then (false, m)
  else (true, with_queue (sm_queue m ++ [norm]) ({[norm]} ∪ sm_pending m) m).

(** ** Writing and looking up *)

(** What is saved is the file, or nothing when the save fails. *)
Definition save_map (sha256 : string -> string) (sealed_path source : string) (now : pyfloat) (saves : bool)
    (live : archive_id) (ms : members) (m : maps) : bool * maps :=
  match map_document sha256 sealed_path source now live ms with
  | Ok f => if saves then (true, with_map_file (sealed_member_map_path sealed_path) f m) else (false, m)
  | Raise _ => (false, m) (* not reached *)
  end.

(** [write_sealed_member_map]; [saves] when the disk accepts the file. *)
Definition write_sealed_member_map (sha256 : string -> string) (sealed_path : string) (ms : members) (source : string)
    (identity : option archive_id) (now : pyfloat) (saves : bool) (m : maps) : bool * maps :=
  match archive_identity sealed_path m with
  | None => (false, m)
  | Some live =>
      if match identity with Some id => negb (bool_decide (id = live)) | None => false end then (false, m)
      else let '(ok, m) := save_map sha256 sealed_path source now saves live ms m in
           if ok : bool then (true, cache_put (sealed_member_map_path sealed_path) live ms m) else (false, m)
  end.

Definition sealed_members_lookup (sha256 : string -> string) (sealed_path : string) (request_rebuild : bool) (m : maps)
    : result (option members) * maps :=
  match archive_identity sealed_path m with
  | None => (Ok None, m)
  | Some live =>
      let map_path := sealed_member_map_path sealed_path in
      match cache_probe map_path live m with
      | (Some ms, m) => (Ok (Some ms), m)
      | (None, m) =>
          match read_map sha256 (sm_files m !! map_path) live with
          | Raise ex => (Raise ex, m)
          | Ok None => (Ok None, if request_rebuild then (request_sealed_member_map_rebuild sealed_path m).2 else m)
          | Ok (Some ms) => (Ok (Some ms), cache_put map_path live ms m)
          end
      end
  end.

(** The scan of an archive: [None] when it raises, readable or not with its members. *)
Definition rebuild_sealed_member_map_sync (sha256 : string -> string) (sealed_path : string) (scanned : option (bool * members))
    (now : pyfloat) (saves : bool) (m : maps) : bool * maps :=
  match archive_identity sealed_path m with
  | None => (false, m)
  | Some before =>
      match scanned with
      | Some (true, ms) => write_sealed_member_map sha256 sealed_path ms "rebuild" (Some before) now saves m
      | _ => (false, m)
      end
  end.

(** One turn of [_rebuild_worker]: the first request, then it is no longer pending. *)
Definition rebuild_worker_turn (sha256 : string -> string) (scan : string -> option (bool * members)) (now : pyfloat)
    (saves : bool) (m : maps) : maps :=
  match sm_queue m with
  | [] => m
  | norm :: q =>
      let m := (rebuild_sealed_member_map_sync sha256 norm (scan norm) now saves (with_queue q (sm_pending m) m)).2 in
      with_queue (sm_queue m) (sm_pending m ∖ {[norm]}) m
  end.

(** ** The integrity sweep *)

Record sweep_result := SweepResult {
  sw_zst_identity : archive_id;
  sw_checked_at : pyfloat;
  sw_ok : bool;
  sw_readable_members : nat;
  sw_expected_members : option nat;
  sw_tar_present : bool;
  sw_action : option string;
}.

(** The census file, as the sweeps write it. *)
Abbreviation census := (dict string sweep_result).

(** What the disk and the tools answer during a sweep. *)
Record sweep_answers := SweepAnswers {
  sa_names : list string;                        (* os.listdir *)
  sa_frame_ok : string -> bool;                  (* zstd_test *)
  sa_scan : string -> bool * members;            (* _scan_compressed_archive_members_and_readable *)
  sa_tar_isfile : string -> bool;
  sa_now : pyfloat;
  sa_saves : bool;
}.

(** [m1 == m2] on dictionaries. *)
Definition members_equal (m1 m2 : members) : bool :=
  (dict_len m1 =? dict_len m2)%nat && forallb (fun nz => bool_decide (m2 !! nz.1 = Some nz.2)) (dict_items m1).

Definition sweep_day (name : string) : string := default "" (head (py_split "."%char name)).

(** The verdict on one archive; the new state. *)
Definition sweep_archive (sha256 : string -> string) (a : sweep_answers) (sealed : string) (live : archive_id) (m : maps)
    : result sweep_result * maps :=
  match sealed_members_lookup sha256 sealed false m with
  | (Raise ex, m) => (Raise ex, m)
  | (Ok expected, m) =>
      let frame_ok := sa_frame_ok a sealed in
      let '(readable, ms) := sa_scan a sealed in
      let ok := frame_ok && readable && match expected with None => true | Some e => members_equal ms e end in
      let tar_present := sa_tar_isfile a (default sealed (strip_suffix ".zst" sealed)) in
      let r := SweepResult live (sa_now a) ok (dict_len ms) (dict_len <$> expected) tar_present
                 (if ok then None else Some (if tar_present then "reseal_from_tar" else "operator_restore_needed")) in
      (Ok r, if ok then (write_sealed_member_map sha256 sealed ms "sweep" (Some live) (sa_now a) (sa_saves a) m).2 else m)
  end.

(** The first archive whose identity is not the one in the census. *)
Fixpoint sweep_next (daily_dir : string) (names : list string) (c : census) (m : maps) : option (string * archive_id) :=
  match names with
  | [] => None
  | name :: names =>
      match archive_identity (path_join daily_dir name) m with
      | None => sweep_next daily_dir names c m
      | Some live =>
          if decide (sw_zst_identity <$> c !! sweep_day name = Some live) then sweep_next daily_dir names c m
          else Some (name, live)
      end
  end.

Definition sealed_names (a : sweep_answers) : list string :=
  merge_sort String.le (filter (fun n => is_Some (strip_suffix ".tar.zst" n)) (sa_names a)).

Definition sealed_integrity_sweep_once (sha256 : string -> string) (a : sweep_answers) (daily_dir : string) (c : census) (m : maps)
    : result (option sweep_result) * census * maps :=
  match sweep_next daily_dir (sealed_names a) c m with
  | None => (Ok None, c, m)
  | Some (name, live) =>
      match sweep_archive sha256 a (path_join daily_dir name) live m with
      | (Raise ex, m) => (Raise ex, c, m)
      | (Ok r, m) => (Ok (Some r), <[sweep_day name := r]> c, m)
      end
  end.
