(* ===== verification/SealedMapSpec.v ===== *)
(** Correctness of the member maps: a map that was written is found again by any process,
    a lookup answers the members of the very archive it was asked about whatever runs
    beside it, the cache is bounded, a requested rebuild heals the map, and sweeps
    reach every archive. *)
From S2P Require Import Prelude PyDict PyStr PosixPath Json Persistence SealedMap.
Local Open Scope Z_scope.

(** ** The digest *)

Definition sorted_members (ms : members) : members := Dict (merge_sort by_key (dict_items ms)).

Lemma sorted_members_perm ms : dict_items (sorted_members ms) ≡ₚ dict_items ms.
Proof. apply merge_sort_Permutation. Qed.

Lemma sorted_members_wf ms : dict_wf ms -> dict_wf (sorted_members ms).
Proof. unfold dict_wf, dict_keys. by rewrite sorted_members_perm. Qed.

Lemma sorted_members_equiv ms : dict_wf ms -> sorted_members ms ≡ ms.
Proof.
  intros Hw k. apply option_eq. intros v. rewrite <- !dict_items_lookup by (done || by apply sorted_members_wf).
  by rewrite sorted_members_perm.
Qed.

(** The digest depends on the lookups only. *)
Lemma sorted_names_equiv (m1 m2 : members) :
  dict_wf m1 -> dict_wf m2 -> m1 ≡ m2 -> merge_sort String.le (dict_keys m1) = merge_sort String.le (dict_keys m2).
Proof.
  intros H1 H2 He. apply (Sorted_unique String.le); [apply Sorted_merge_sort; apply _..|].
  rewrite !merge_sort_Permutation. apply NoDup_Permutation; [done..|]. intros k. rewrite !dict_keys_lookup. by rewrite (He k).
Qed.

Lemma digest_text_ext names f g : (forall n, n ∈ names -> f n = g n) -> digest_text names f = digest_text names g.
Proof.
  induction names as [|n names IH]; intros H; [done|]. cbn. rewrite (H n) by left. f_equal. apply IH.
  intros n' Hn. apply H. by right.
Qed.

Lemma members_sha256_equiv sha256 m1 m2 :
  dict_wf m1 -> dict_wf m2 -> m1 ≡ m2 -> members_sha256 sha256 m1 = members_sha256 sha256 m2.
Proof.
  intros H1 H2 He. unfold members_sha256. f_equal. rewrite (sorted_names_equiv m1 m2) by done.
  apply digest_text_ext. intros n _. by rewrite (He n).
Qed.

Lemma int_items_ints {A} (name : A -> string) (f : A -> Z) l :
  int_items ((fun a => (name a, JInt (f a))) <$> l) = Ok ((fun a => (name a, f a)) <$> l).
Proof. induction l as [|a l IH]; [done|]. cbn. rewrite IH. done. Qed.

Lemma int_items_ext l1 l2 : l1 = l2 -> int_items l1 = int_items l2.
Proof. by intros ->. Qed.

(** The entries of a saved map give back its digest. *)
Lemma sha256_json_of_members sha256 ms :
  dict_wf ms ->
  members_sha256_json sha256 (Dict ((fun nz => (nz.1, JInt nz.2)) <$> dict_items ms)) = Ok (members_sha256 sha256 ms).
Proof.
  intros Hw. unfold members_sha256_json. set (es := Dict _).
  assert (dict_keys es = dict_keys ms) as Hk by (unfold es, dict_keys; cbn; by rewrite fmap_fst_same).
  assert (dict_wf es) as Hwe by (unfold dict_wf; by rewrite Hk).
  set (names := merge_sort String.le (dict_keys es)).
  assert (forall n, n ∈ names <-> is_Some (ms !! n)) as Hin
    by (intros n; unfold names; by rewrite merge_sort_Permutation, Hk, dict_keys_lookup).
  assert (NoDup names) as Hnd by (unfold names; rewrite merge_sort_Permutation; by rewrite Hk).
  clearbody names.
  assert (forall n, n ∈ names -> json_get n es = JInt (default 0 (ms !! n))) as Hget.
  { intros n [z Hz]%Hin. rewrite Hz.
    unfold json_get. assert (es !! n = Some (JInt z)) as ->; [|done]. apply dict_elem_lookup; [done|].
    apply list_elem_of_fmap. exists (n, z). split; [done|]. by apply dict_lookup_elem. }
  rewrite (int_items_ext _ ((fun n => (n, JInt (default 0 (ms !! n)))) <$> names)).
  2: { apply list_fmap_ext. intros i n Hi. f_equal. by apply Hget, list_elem_of_lookup_2 with i. }
  rewrite (int_items_ints id (fun n => default 0 (ms !! n))). cbn. f_equal.
  set (d := Dict _). assert (dict_wf d) as Hwd.
  { unfold d, dict_wf, dict_keys. cbn. rewrite <- list_fmap_compose. by rewrite list_fmap_id. }
  apply members_sha256_equiv; [done..|]. intros n. apply option_eq. intros z. rewrite <- dict_items_lookup by done. unfold d. cbn.
  rewrite list_elem_of_fmap. split.
  - intros (n' & [= -> ->] & [z' Hz]%Hin). by rewrite Hz.
  - intros Hz. exists n. rewrite Hz. split; [done|]. apply Hin. eauto.
Qed.

(** ** What is written is read back *)

Lemma identity_matches_iff id live : identity_matches (identity_json id) live = true <-> id = live.
Proof.
  destruct id as [[i s] t], live as [[i' s'] t'].
  change (((i =? i') && (s =? s') && (t =? t') = true) <-> (i, s, t) = (i', s', t')).
  rewrite !andb_true_iff, !Z.eqb_eq. naive_solver.
Qed.

(** The envelope with its keys in order. *)
Definition saved_document (sha256 : string -> string) (sealed_path source : string) (now : pyfloat) (live : archive_id)
    (ms : members) : jdict :=
  Dict [("contract_version", JInt 9); ("entries", sort_keys (JDict (Dict ((fun nz => (nz.1, JInt nz.2)) <$> dict_items ms))));
        ("members_sha256", JStr (members_sha256 sha256 ms)); ("schema_version", JInt 1);
        ("sealed_path", JStr (normpath sealed_path)); ("source", JStr source); ("written_at", JFloat now);
        ("zst_identity", sort_keys (identity_json live))].

Lemma map_document_eq sha256 sealed_path source now live ms :
  map_document sha256 sealed_path source now live ms = Ok (FJson (JDict (saved_document sha256 sealed_path source now live ms))).
Proof. unfold saved_document. destruct live as [[ino size] mtime]. reflexivity. Qed.

Lemma load_saved_document sha256 sealed_path source now live ms :
  load_persistence_document (Some (FJson (JDict (saved_document sha256 sealed_path source now live ms)))) SEALED_MEMBER_MAP_KIND JNull =
    Ok (JDict (saved_document sha256 sealed_path source now live ms)).
Proof. reflexivity. Qed.

(** A stored map is valid for its own archive only, and gives its members. *)
Lemma read_saved sha256 sealed_path source now id live ms f :
  dict_wf ms -> map_document sha256 sealed_path source now id ms = Ok f ->
  read_map sha256 (Some f) live = Ok (if decide (id = live) then Some (sorted_members ms) else None).
Proof.
  intros Hw. rewrite map_document_eq. intros [= <-]. unfold read_map. rewrite load_saved_document. cbn [mbind result_bind].
  assert (json_get "zst_identity" (saved_document sha256 sealed_path source now id ms) = sort_keys (identity_json id)) as -> by reflexivity.
  assert (identity_matches (sort_keys (identity_json id)) live = identity_matches (identity_json id) live) as ->.
  { destruct id as [[i s] t], live as [[i' s'] t']. reflexivity. }
  destruct (decide (id = live)) as [->|Hne].
  2: { destruct (identity_matches (identity_json id) live) eqn:E; [|done]. by apply identity_matches_iff in E. }
  rewrite (proj2 (identity_matches_iff live live)) by done.
  assert (json_get "entries" (saved_document sha256 sealed_path source now live ms) =
    JDict (Dict ((fun nz => (nz.1, JInt nz.2)) <$> dict_items (sorted_members ms)))) as ->.
  { transitivity (JDict (sorted_dict (Dict ((fun nz => (nz.1, JInt nz.2)) <$> dict_items ms)))); [reflexivity|].
    f_equal. by apply sorted_items. }
  rewrite sha256_json_of_members by by apply sorted_members_wf. cbn [mbind result_bind].
  rewrite (members_sha256_equiv sha256 (sorted_members ms) ms) by (done || by apply sorted_members_wf || by apply sorted_members_equiv).
  change (json_get "members_sha256" _) with (JStr (members_sha256 sha256 ms)). cbv beta iota. rewrite bool_decide_eq_true_2 by done.
  cbn [dict_items]. rewrite (int_items_ints fst snd). cbn. f_equal. f_equal. unfold sorted_members. f_equal.
  rewrite <- (list_fmap_id (merge_sort by_key (dict_items ms))) at 2. apply list_fmap_ext. by intros i [].
Qed.

(** ** The cache *)

Lemma dict_elem_sublist {K V} `{EqDecision K} (l1 l2 : list (K * V)) k v :
  l1 `sublist_of` l2 -> NoDup l2.*1 -> Dict l1 !! k = Some v -> Dict l2 !! k = Some v.
Proof.
  intros Hs Hn Hk. apply dict_elem_lookup; [done|]. apply dict_lookup_elem in Hk.
  by eapply elem_of_submseteq, sublist_submseteq.
Qed.

Lemma sublist_fst_NoDup {K V} (l1 l2 : list (K * V)) : l1 `sublist_of` l2 -> NoDup l2.*1 -> NoDup l1.*1.
Proof. intros Hs Hn. eapply sublist_NoDup; [exact Hn|]. by apply fmap_sublist. Qed.

Lemma delete_insert_items {K V} `{EqDecision K} (d : dict K V) k v :
  dict_items (<[k := v]> (delete k d)) = dict_items (delete k d) ++ [(k, v)].
Proof. apply dict_items_insert_None, dict_lookup_delete_eq. Qed.

Record cache_ok (c : map_cache) : Prop := {
  ck_wf : dict_wf c;
  ck_bound : (dict_len c <= CACHE_MAX)%nat;
}.

Lemma cache_store_ok p v c : dict_wf c -> cache_ok (cache_store p v c).
Proof.
  intros Hw. unfold cache_store. set (c' := <[p := v]> (delete p c)).
  assert (dict_wf c') as Hw' by by apply dict_wf_insert, dict_wf_delete. split.
  - unfold dict_wf, dict_keys. cbn. apply (sublist_fst_NoDup _ (dict_items c')); [apply sublist_drop|done].
  - unfold dict_len. cbn [dict_items]. rewrite length_drop. unfold dict_len. lia.
Qed.

Lemma cache_store_same p v c : dict_wf c -> cache_store p v c !! p = Some v.
Proof.
  intros Hw. unfold cache_store. set (c' := <[p := v]> (delete p c)).
  assert (dict_wf c') as Hw' by by apply dict_wf_insert, dict_wf_delete.
  apply dict_elem_lookup.
  - unfold dict_wf, dict_keys. cbn. apply (sublist_fst_NoDup _ (dict_items c')); [apply sublist_drop|done].
  - cbn [dict_items]. unfold dict_len, c'. rewrite delete_insert_items.
    rewrite drop_app_le by (rewrite length_app; unfold CACHE_MAX; cbn; lia). set_solver.
Qed.

Lemma cache_store_lookup p v c q w :
  dict_wf c -> cache_store p v c !! q = Some w -> (q = p /\ w = v) \/ c !! q = Some w.
Proof.
  intros Hw Hq. unfold cache_store in Hq. set (c' := <[p := v]> (delete p c)) in Hq.
  assert (dict_wf c') as Hw' by by apply dict_wf_insert, dict_wf_delete.
  assert (c' !! q = Some w) as Hc.
  { destruct c' as [l]. eapply dict_elem_sublist; [apply sublist_drop|done|exact Hq]. }
  unfold c' in Hc. rewrite dict_lookup_insert in Hc. case_decide; [left; split; congruence|right].
  by rewrite dict_lookup_delete_ne in Hc.
Qed.

(** A probe answers only for the identity the map was stored with. *)
Lemma cache_probe_spec p live m :
  cache_ok (sm_cache m) ->
  let '(hit, m') := cache_probe p live m in
  (hit = snd <$> (sm_cache m !! p ≫= fun v => if decide (v.1 = live) then Some v else None)) /\
  cache_ok (sm_cache m') /\ sm_cache m' ≡ sm_cache m /\ m' = with_cache (sm_cache m') m.
Proof.
  intros [Hw Hb]. unfold cache_probe. destruct (sm_cache m !! p) as [[id ms]|] eqn:E; cbn.
  2: split_and!; [done|by split|done|by destruct m].
  destruct (decide (id = live)) as [->|Hne]; cbn; [|split_and!; [done|by split|done|by destruct m]].
  split_and!; [done| | |done].
  - split; [by apply dict_wf_insert, dict_wf_delete|]. unfold dict_len in *. rewrite delete_insert_items.
    rewrite length_app. cbn. rewrite (dict_items_delete_perm _ _ _ Hw E) in Hb. cbn in Hb. lia.
  - intros q. rewrite dict_lookup_insert. case_decide; [by subst|]. by rewrite dict_lookup_delete_ne.
Qed.

(** ** Writing, then looking up *)

(** What a cache may hold for a path, given what its file says. *)
Definition answers_with (sha256 : string -> string) (m : maps) (sealed_path : string) (r : option members) : Prop :=
  exists r', (forall request, (sealed_members_lookup sha256 sealed_path request m).1 = Ok r') /\ option_Forall2 equiv r' r.

Lemma lookup_cached sha256 sealed_path live ms m :
  archive_identity sealed_path m = Some live -> sm_cache m !! sealed_member_map_path sealed_path = Some (live, ms) ->
  answers_with sha256 m sealed_path (Some ms).
Proof.
  intros Hl Hc. exists (Some ms). split; [|by constructor]. intros request. unfold sealed_members_lookup, cache_probe.
  by rewrite Hl, Hc, decide_True.
Qed.

Lemma lookup_file sha256 sealed_path live ms m :
  archive_identity sealed_path m = Some live ->
  (forall ms', sm_cache m !! sealed_member_map_path sealed_path <> Some (live, ms')) ->
  read_map sha256 (sm_files m !! sealed_member_map_path sealed_path) live = Ok (Some ms) ->
  answers_with sha256 m sealed_path (Some ms).
Proof.
  intros Hl Hc Hf. exists (Some ms). split; [|by constructor]. intros request. unfold sealed_members_lookup, cache_probe. rewrite Hl.
  destruct (sm_cache m !! sealed_member_map_path sealed_path) as [[id ms']|].
  - rewrite decide_False by (intros ->; by eapply Hc). by rewrite Hf.
  - by rewrite Hf.
Qed.

Lemma archive_identity_disk p m m' : sm_archives m' = sm_archives m -> archive_identity p m' = archive_identity p m.
Proof. unfold archive_identity. by intros ->. Qed.

(** A write that answers true. *)
Lemma write_true sha256 sealed_path ms source identity now saves m m' :
  write_sealed_member_map sha256 sealed_path ms source identity now saves m = (true, m') ->
  exists live f, archive_identity sealed_path m = Some live /\ map_document sha256 sealed_path source now live ms = Ok f /\
    m' = cache_put (sealed_member_map_path sealed_path) live ms (with_map_file (sealed_member_map_path sealed_path) f m).
Proof.
  unfold write_sealed_member_map, save_map. destruct (archive_identity sealed_path m) as [live|]; [|done].
  destruct (match identity with Some id => _ | None => _ end); [done|]. rewrite map_document_eq.
  destruct saves; [|done]. intros [= <-]. eauto.
Qed.

(** [C24] A map that was written is found again: by the process that wrote it and by any
    later one, whatever it has cached meanwhile for other archives, as long as the
    archive is the one it was written for; and once another archive is in its place no
    process takes the map for its own. *)
Theorem written_map_found sha256 sealed_path ms source identity now saves m m' :
  dict_wf ms -> dict_wf (sm_cache m) ->
  write_sealed_member_map sha256 sealed_path ms source identity now saves m = (true, m') ->
  answers_with sha256 m' sealed_path (Some ms) /\
  answers_with sha256 (new_process m') sealed_path (Some ms) /\
  (forall archives, archives !! normpath sealed_path <> sm_archives m !! normpath sealed_path ->
    answers_with sha256 (new_process (Maps (sm_cache m') (sm_queue m') (sm_pending m') (sm_files m') archives)) sealed_path None).
Proof.
  intros Hw Hc (live & f & Hl & Hf & ->)%write_true. pose proof (read_saved _ _ _ _ live live ms f Hw Hf) as Hr.
  rewrite decide_True in Hr by done. split_and!.
  - eapply lookup_cached; [exact Hl|]. apply (cache_store_same _ (live, ms) (sm_cache m) Hc).
  - destruct (lookup_file sha256 sealed_path live (sorted_members ms)
      (new_process (cache_put (sealed_member_map_path sealed_path) live ms (with_map_file (sealed_member_map_path sealed_path) f m))))
      as (r & H1 & H2); [exact Hl|by intros ms'|by cbn [new_process cache_put with_cache with_map_file sm_files]; rewrite lookup_insert_eq|].
    exists r. split; [exact H1|]. inversion H2 as [x y Hxy|]. constructor. rewrite Hxy. by apply sorted_members_equiv.
  - intros archives Ha. exists None. split; [|constructor]. intros request. unfold sealed_members_lookup, archive_identity, cache_probe.
    cbn [new_process cache_put with_cache with_map_file sm_files sm_archives sm_cache].
    destruct (archives !! normpath sealed_path) as [id|] eqn:E; [|done]. rewrite dict_lookup_empty.
    cbn [new_process sm_files]. rewrite lookup_insert_eq.
    rewrite (read_saved _ _ _ _ live id ms f Hw Hf). rewrite decide_False; [done|]. intros <-. apply Ha. by rewrite <- Hl.
Qed.

(** ** Threads

    Lookups, rebuilds and seals run beside each other and beside whoever replaces an
    archive; between two blocks anything can happen.  What a scan of an archive reads
    depends on the archive, that is on its identity ([contents]); an archive that is
    put in place has an identity that was never used (a new inode or a later
    modification time).  A seal holds the file lock of the archive from its
    [os.replace] to its [stat], so it starts where both are done. *)
Section threads.
Context (sha256 : string -> string) (contents : archive_id -> members).

Inductive thread :=
| Looking (p : string) (request : bool)
| Probing (p : string) (live : archive_id) (request : bool)
| Reading (p : string) (live : archive_id) (request : bool)
| Adopting (p : string) (live : archive_id) (ms : members)
| Answered (p : string) (live : archive_id) (ms : members)
| Rebuilding (p : string)
| Scanning (p : string) (before : archive_id)
| Checking (p : string) (before : archive_id) (ms : members)
| Saving (p : string) (live : archive_id) (ms : members)
| Caching (p : string) (live : archive_id) (ms : members)
| Finished.

(** The next block of a thread, with the state it leaves. *)
Inductive block : thread -> maps -> thread -> maps -> Prop :=
| B_stat p request live m : archive_identity p m = Some live -> block (Looking p request) m (Probing p live request) m
| B_no_archive p request m : archive_identity p m = None -> block (Looking p request) m Finished m
| B_hit p live request ms m m' :
    cache_probe (sealed_member_map_path p) live m = (Some ms, m') -> block (Probing p live request) m (Answered p live ms) m'
| B_miss p live request m m' :
    cache_probe (sealed_member_map_path p) live m = (None, m') -> block (Probing p live request) m (Reading p live request) m'
| B_read p live request ms m :
    read_map sha256 (sm_files m !! sealed_member_map_path p) live = Ok (Some ms) ->
    block (Reading p live request) m (Adopting p live ms) m
| B_no_map p live request m :
    read_map sha256 (sm_files m !! sealed_member_map_path p) live = Ok None ->
    block (Reading p live request) m Finished (if request then (request_sealed_member_map_rebuild p m).2 else m)
| B_read_raises p live request ex m :
    read_map sha256 (sm_files m !! sealed_member_map_path p) live = Raise ex -> block (Reading p live request) m Finished m
| B_adopt p live ms m : block (Adopting p live ms) m (Answered p live ms) (cache_put (sealed_member_map_path p) live ms m)
| B_before p before m : archive_identity p m = Some before -> block (Rebuilding p) m (Scanning p before) m
| B_scan p before id m : archive_identity p m = Some id -> block (Scanning p before) m (Checking p before (contents id)) m
| B_scan_fails p before m : block (Scanning p before) m Finished m
| B_same p before ms m : archive_identity p m = Some before -> block (Checking p before ms) m (Saving p before ms) m
| B_changed p before ms m : archive_identity p m <> Some before -> block (Checking p before ms) m Finished m
| B_save p live ms source now saves ok m m' :
    save_map sha256 p source now saves live ms m = (ok, m') ->
    block (Saving p live ms) m (if ok then Caching p live ms else Finished) m'
| B_cache p live ms m : block (Caching p live ms) m Finished (cache_put (sealed_member_map_path p) live ms m).

(** The process, and the identities that have ever been at a path. *)
Record world := World { w_maps : maps; w_threads : gmap nat thread; w_past : gset (string * archive_id) }.

Definition with_archives f (m : maps) : maps := Maps (sm_cache m) (sm_queue m) (sm_pending m) (sm_files m) (f (sm_archives m)).

Definition unused (id : archive_id) (w : world) : Prop := forall p, (p, id) ∉ w_past w.

Inductive wstep : relation world :=
| W_run i t t' m' w : w_threads w !! i = Some t -> block t (w_maps w) t' m' -> wstep w (World m' (<[i := t']> (w_threads w)) (w_past w))
| W_lookup i p request w : w_threads w !! i = None -> wstep w (World (w_maps w) (<[i := Looking p request]> (w_threads w)) (w_past w))
| W_rebuild i p w : w_threads w !! i = None -> wstep w (World (w_maps w) (<[i := Rebuilding p]> (w_threads w)) (w_past w))
| W_replace p id w : unused id w ->
    wstep w (World (with_archives <[normpath p := id]> (w_maps w)) (w_threads w) ({[(normpath p, id)]} ∪ w_past w))
| W_remove p w : wstep w (World (with_archives (delete (normpath p)) (w_maps w)) (w_threads w) (w_past w))
| W_seal i p id w : w_threads w !! i = None -> unused id w ->
    wstep w (World (with_archives <[normpath p := id]> (w_maps w)) (<[i := Saving p id (contents id)]> (w_threads w))
               ({[(normpath p, id)]} ∪ w_past w))
| W_restart w : wstep w (World (new_process (w_maps w)) ∅ (w_past w)).

(** A first start: archives, no maps yet. *)
Definition initial (w : world) : Prop :=
  w_maps w = Maps ∅ [] ∅ ∅ (sm_archives (w_maps w)) /\ w_threads w = ∅ /\
  (forall p id, sm_archives (w_maps w) !! p = Some id -> (p, id) ∈ w_past w).

(** ** The invariant *)

Definition thread_ok (past : gset (string * archive_id)) (archives : gmap string archive_id) (t : thread) : Prop :=
  match t with
  | Probing p live _ | Reading p live _ => (normpath p, live) ∈ past
  | Adopting p live ms | Answered p live ms => (normpath p, live) ∈ past /\ ms ≡ contents live
  | Saving p live ms | Caching p live ms => (normpath p, live) ∈ past /\ ms ≡ contents live /\ dict_wf ms
  | Scanning p before => (normpath p, before) ∈ past
  | Checking p before ms =>
      (normpath p, before) ∈ past /\ dict_wf ms /\ (archives !! normpath p = Some before -> ms ≡ contents before)
  | Looking _ _ | Rebuilding _ | Finished => True
  end.

Record maps_ok (m : maps) : Prop := {
  mo_cache : cache_ok (sm_cache m);
  mo_cached : forall q id ms, sm_cache m !! q = Some (id, ms) -> ms ≡ contents id;
  mo_stored : forall q f live ms, sm_files m !! q = Some f -> read_map sha256 (Some f) live = Ok (Some ms) -> ms ≡ contents live;
}.

Record world_ok (w : world) : Prop := {
  wo_maps : maps_ok (w_maps w);
  wo_past : forall p id, sm_archives (w_maps w) !! p = Some id -> (p, id) ∈ w_past w;
  wo_threads : forall i t, w_threads w !! i = Some t -> thread_ok (w_past w) (sm_archives (w_maps w)) t;
}.

Context (contents_wf : forall id, dict_wf (contents id)).

Lemma cache_put_ok q live ms m : maps_ok m -> ms ≡ contents live -> maps_ok (cache_put q live ms m).
Proof.
  intros [[Hw Hb] Hc Hf] Hms. split; [by apply cache_store_ok| |done]. intros q' id ms' Hq. cbn in Hq.
  apply cache_store_lookup in Hq as [[_ [= -> ->]]|Hq]; [done|by eapply Hc|done].
Qed.

Lemma save_map_ok p source now saves live ms m ok m' :
  maps_ok m -> ms ≡ contents live -> dict_wf ms -> save_map sha256 p source now saves live ms m = (ok, m') ->
  maps_ok m' /\ sm_archives m' = sm_archives m.
Proof.
  intros [Hk Hc Hf] Hms Hw. unfold save_map. destruct (map_document _ _ _ _ _ _) as [f|] eqn:E; [|by intros [= <- <-]].
  destruct saves; [|by intros [= <- <-]]. intros [= <- <-]. split; [|done]. split; [done..|].
  cbn [with_map_file sm_files]. intros q f' live' ms'. rewrite lookup_insert. destruct (decide _) as [<-|_]; [|by apply Hf].
  intros [= <-]. rewrite (read_saved _ _ _ _ _ _ _ _ Hw E). destruct (decide (live = live')) as [<-|]; [|done].
  intros [= <-]. rewrite <- Hms. by apply sorted_members_equiv.
Qed.

Lemma block_ok past t m t' m' :
  block t m t' m' -> maps_ok m -> (forall p id, sm_archives m !! p = Some id -> (p, id) ∈ past) ->
  thread_ok past (sm_archives m) t ->
  maps_ok m' /\ sm_archives m' = sm_archives m /\ thread_ok past (sm_archives m) t'.
Proof.
  intros Hb Hm Hp Ht. destruct Hb; unfold archive_identity in *; cbn in Ht |- *; try (split_and!; by eauto).
  - pose proof (cache_probe_spec (sealed_member_map_path p) live m (mo_cache _ Hm)) as Hs. rewrite H in Hs.
    destruct Hs as (E & Hk & He & ->). destruct (sm_cache m !! sealed_member_map_path p) as [[id ms0]|] eqn:Ec; [|done]. cbn in E.
    destruct (decide (id = live)) as [->|]; [|done]. injection E as ->.
    split_and!; [|done|done|by eapply (mo_cached _ Hm)]. destruct Hm as [_ Hc Hf]. split; [done| |done].
    intros q id ms' Hq. cbn in Hq. rewrite (He q) in Hq. by eapply Hc.
  - pose proof (cache_probe_spec (sealed_member_map_path p) live m (mo_cache _ Hm)) as Hs. rewrite H in Hs.
    destruct Hs as (_ & Hk & He & ->). split_and!; [|done|done]. destruct Hm as [_ Hc Hf]. split; [done| |done].
    intros q id ms' Hq. cbn in Hq. rewrite (He q) in Hq. by eapply Hc.
  - split_and!; [done..|]. destruct (sm_files m !! sealed_member_map_path p) as [f|] eqn:Ef; [|done]. by eapply (mo_stored _ Hm).
  - destruct request; [|done]. unfold request_sealed_member_map_rebuild. destruct (decide _); [done|].
    split_and!; [|done..]. by destruct Hm as [Hk Hc Hf].
  - destruct Ht. split_and!; [by apply cache_put_ok|done..].
  - split_and!; [done..|]. intros E. rewrite E in H. by injection H as ->.
  - destruct Ht as (? & ? & Ht). split_and!; auto.
  - destruct Ht as (Hpast & Hms & Hw). destruct (save_map_ok _ _ _ _ _ _ _ _ _ Hm Hms Hw H) as [? ?]. destruct ok; by split_and!.
  - destruct Ht as (? & ? & ?). split_and!; [by apply cache_put_ok|done..].
Qed.

Lemma thread_ok_past past past' archives t : past ⊆ past' -> thread_ok past archives t -> thread_ok past' archives t.
Proof. intros Hs. destruct t; cbn; set_solver. Qed.

Lemma new_process_ok m : maps_ok m -> maps_ok (new_process m).
Proof. intros [_ _ Hf]. split; [|done|done]. split; [apply dict_wf_empty|]. unfold dict_len, CACHE_MAX. cbn. lia. Qed.

(** A thread of another archive, or of an archive that has gone, stays right. *)
Lemma thread_ok_archives past archives archives' t :
  (forall p before, (normpath p, before) ∈ past -> archives' !! normpath p = Some before -> archives !! normpath p = Some before) ->
  thread_ok past archives t -> thread_ok past archives' t.
Proof. intros Ha. destruct t; cbn; try done. intros (Hp & Hw & Ht). split_and!; [done..|]. intros H. by apply Ht, Ha. Qed.

Lemma replaced_ok p id w :
  unused id w -> world_ok w ->
  forall t, thread_ok (w_past w) (sm_archives (w_maps w)) t ->
    thread_ok ({[(normpath p, id)]} ∪ w_past w) (<[normpath p := id]> (sm_archives (w_maps w))) t.
Proof.
  intros Hu [Hm Hp Ht] t Hok. apply (thread_ok_past (w_past w)); [set_solver|]. eapply thread_ok_archives; [|exact Hok].
  intros q before Hq. rewrite lookup_insert. destruct (decide _) as [E|_]; [|done]. intros [= ->]. destruct (Hu _ Hq).
Qed.

Lemma replaced_past p id w :
  (forall q i, sm_archives (w_maps w) !! q = Some i -> (q, i) ∈ w_past w) ->
  forall q i, <[normpath p := id]> (sm_archives (w_maps w)) !! q = Some i -> (q, i) ∈ {[(normpath p, id)]} ∪ w_past w.
Proof. intros Hp q i. rewrite lookup_insert. destruct (decide _) as [<-|_]; [intros [= ->]; set_solver|]. intros ?%Hp. set_solver. Qed.

Lemma with_archives_ok f m : maps_ok m -> maps_ok (with_archives f m).
Proof. intros [Hk Hc Hf]. by split. Qed.

Lemma wstep_ok w w' : wstep w w' -> world_ok w -> world_ok w'.
Proof.
  intros Hs Hok. pose proof Hok as [Hm Hp Ht]. destruct Hs; cbn.
  - edestruct block_ok as (Hm' & Ha & Hok'); [eassumption|exact Hm|exact Hp|by eapply Ht|].
    split; cbn; [done|by rewrite Ha|]. intros j tj. rewrite lookup_insert, Ha. destruct (decide _); [by intros [= <-]|apply Ht].
  - split; cbn; [done..|]. intros j tj. rewrite lookup_insert. destruct (decide _); [by intros [= <-]|apply Ht].
  - split; cbn; [done..|]. intros j tj. rewrite lookup_insert. destruct (decide _); [by intros [= <-]|apply Ht].
  - split; cbn; [by apply with_archives_ok|by apply replaced_past|]. intros j tj Hj. apply replaced_ok; [done..|]. by apply (Ht j).
  - split; cbn; [by apply with_archives_ok| |].
    + intros q i. rewrite lookup_delete. destruct (decide _); [done|apply Hp].
    + intros j tj Hj. eapply thread_ok_archives; [|by eapply Ht]. intros q before _. rewrite lookup_delete. by destruct (decide _).
  - split; cbn; [by apply with_archives_ok|by apply replaced_past|]. intros j tj. rewrite lookup_insert. destruct (decide _).
    + intros [= <-]. cbn. split_and!; [set_solver|done|apply contents_wf].
    + intros Hj. apply replaced_ok; [done..|]. by apply (Ht j).
  - split; cbn; [by apply new_process_ok|done|]. by intros j tj.
Qed.

Lemma reachable_ok w0 w : initial w0 -> rtc wstep w0 w -> world_ok w.
Proof.
  intros (Em & Et & Hp). apply rtc_invariant; [apply wstep_ok|]. split; [|done|by rewrite Et].
  rewrite Em. split; [|done|done]. split; [apply dict_wf_empty|]. unfold dict_len, CACHE_MAX. cbn. lia.
Qed.

(** [C23] A lookup answers for the archive it was asked about.  However lookups, rebuilds,
    seals, failed saves, restarts and replacements of archives interleave, the members
    a lookup answers are those of the archive that was at its path when it looked. *)
Theorem lookup_answers_archive w0 w i p live ms :
  initial w0 -> rtc wstep w0 w -> w_threads w !! i = Some (Answered p live ms) ->
  ms ≡ contents live /\ (normpath p, live) ∈ w_past w.
Proof. intros Hi Hr Ht. destruct (reachable_ok w0 w Hi Hr) as [_ _ Hts]. by apply Hts in Ht as [? ?]. Qed.

(** The cache never holds more than eight maps, each the members of its archive. *)
Theorem cache_bounded w0 w :
  initial w0 -> rtc wstep w0 w ->
  (dict_len (sm_cache (w_maps w)) <= 8)%nat /\
  forall q id ms, sm_cache (w_maps w) !! q = Some (id, ms) -> ms ≡ contents id.
Proof. intros Hi Hr. destruct (reachable_ok w0 w Hi Hr) as [[[_ Hb] Hc _] _ _]. done. Qed.

End threads.

(** ** Rebuilds *)

(** What waits in the queue is what is pending. *)
Definition requests_ok (m : maps) : Prop := NoDup (sm_queue m) /\ sm_pending m = list_to_set (sm_queue m).

Lemma request_spec p m :
  requests_ok m ->
  let m' := (request_sealed_member_map_rebuild p m).2 in
  requests_ok m' /\ normpath p ∈ sm_queue m' /\ (length (sm_queue m') <= S (length (sm_queue m)))%nat /\
  sm_cache m' = sm_cache m /\ sm_files m' = sm_files m /\ sm_archives m' = sm_archives m.
Proof.
  intros [Hn Hp]. unfold request_sealed_member_map_rebuild. destruct (decide _) as [Hin|Hin]; cbn.
  - split_and!; [by split| |lia|done..]. rewrite Hp in Hin. by apply elem_of_list_to_set in Hin.
  - assert (normpath p ∉ sm_queue m) as Hq by (rewrite Hp in Hin; by rewrite elem_of_list_to_set in Hin).
    split_and!; [|set_solver|rewrite length_app; cbn; lia|done..]. split; [by apply NoDup_snoc|].
    cbn. rewrite Hp. by rewrite list_to_set_snoc.
Qed.

Section rebuilds.
Context (sha256 : string -> string) (scan : string -> option (bool * members)) (now : pyfloat).

Definition worker_turns (n : nat) (m : maps) : maps := Nat.iter n (rebuild_worker_turn sha256 scan now true) m.

Lemma write_frame p ms source identity saves m :
  let m' := (write_sealed_member_map sha256 p ms source identity now saves m).2 in
  sm_queue m' = sm_queue m /\ sm_pending m' = sm_pending m /\ sm_archives m' = sm_archives m /\
  (dict_wf (sm_cache m) -> dict_wf (sm_cache m')).
Proof.
  unfold write_sealed_member_map, save_map. destruct (archive_identity p m); [|done].
  destruct (match identity with Some id => _ | None => _ end); [done|]. destruct (map_document _ _ _ _ _ _); [|done].
  destruct saves; [|done]. split_and!; [done..|]. intros Hw. by apply cache_store_ok.
Qed.

Lemma rebuild_frame p scanned saves m :
  let m' := (rebuild_sealed_member_map_sync sha256 p scanned now saves m).2 in
  sm_queue m' = sm_queue m /\ sm_pending m' = sm_pending m /\ sm_archives m' = sm_archives m /\
  (dict_wf (sm_cache m) -> dict_wf (sm_cache m')).
Proof.
  unfold rebuild_sealed_member_map_sync. destruct (archive_identity p m); [|done].
  destruct scanned as [[[] ms]|]; [apply write_frame|done|done].
Qed.

Lemma turn_spec norm q m :
  sm_queue m = norm :: q -> requests_ok m -> dict_wf (sm_cache m) ->
  let m' := rebuild_worker_turn sha256 scan now true m in
  sm_queue m' = q /\ requests_ok m' /\ sm_archives m' = sm_archives m /\ dict_wf (sm_cache m').
Proof.
  intros Hq [Hn Hp] Hw. unfold rebuild_worker_turn. rewrite Hq in *. apply NoDup_cons in Hn as [Hni Hn]. cbn zeta.
  destruct (rebuild_frame norm (scan norm) true (with_queue q (sm_pending m) m)) as (E1 & E2 & E3 & E4).
  set (r := (rebuild_sealed_member_map_sync _ _ _ _ _ _).2) in *. unfold requests_ok. cbn [with_queue sm_queue sm_pending sm_archives sm_cache].
  rewrite E1, E2, E3. cbn [with_queue sm_queue sm_pending sm_archives]. split_and!; [done|done| |done|by apply E4].
  rewrite Hp. cbn. set_solver.
Qed.

Lemma map_path_norm p : sealed_member_map_path (normpath p) = sealed_member_map_path p.
Proof. unfold sealed_member_map_path. by rewrite normpath_idem. Qed.

(** The turn of a readable archive: its map is there. *)
Lemma turn_answers p live ms q m :
  sm_queue m = normpath p :: q -> dict_wf (sm_cache m) -> archive_identity p m = Some live ->
  scan (normpath p) = Some (true, ms) -> answers_with sha256 (rebuild_worker_turn sha256 scan now true m) p (Some ms).
Proof.
  intros Hq Hw Ha Hs. unfold rebuild_worker_turn. rewrite Hq, Hs. cbn zeta. unfold rebuild_sealed_member_map_sync, archive_identity in *.
  cbn [with_queue sm_archives]. rewrite normpath_idem, Ha. unfold write_sealed_member_map, archive_identity.
  cbn [with_queue sm_archives]. rewrite normpath_idem, Ha, bool_decide_eq_true_2 by done. cbn [negb].
  unfold save_map. rewrite map_document_eq. cbn [snd]. eapply lookup_cached; [exact Ha|].
  rewrite map_path_norm. apply (cache_store_same _ (live, ms) (sm_cache m) Hw).
Qed.

Lemma turns_reach p live ms q1 q2 m :
  sm_queue m = q1 ++ normpath p :: q2 -> requests_ok m -> dict_wf (sm_cache m) -> archive_identity p m = Some live ->
  scan (normpath p) = Some (true, ms) ->
  answers_with sha256 (worker_turns (S (length q1)) m) p (Some ms).
Proof.
  revert m. induction q1 as [|norm q1 IH]; intros m Hq Hr Hw Ha Hs; [by eapply turn_answers|].
  destruct (turn_spec norm _ m Hq Hr Hw) as (Hq1 & Hr1 & Ha1 & Hw1). unfold worker_turns. cbn [length]. rewrite Nat.iter_succ_r.
  apply IH; [done..| |done]. by rewrite (archive_identity_disk p m).
Qed.

(** A missing map is rebuilt.  When a lookup finds no valid map for an archive that is
    there, the request it leaves is served after at most the requests before it, and
    from then on lookups answer what the scan read; no path is ever queued twice. *)
Theorem missed_map_is_rebuilt p live ms m m1 :
  requests_ok m -> dict_wf (sm_cache m) -> archive_identity p m = Some live -> scan (normpath p) = Some (true, ms) ->
  sealed_members_lookup sha256 p true m = (Ok None, m1) ->
  requests_ok m1 /\
  exists n, (n <= S (length (sm_queue m)))%nat /\ answers_with sha256 (worker_turns n m1) p (Some ms).
Proof.
  intros Hr Hw Ha Hs. unfold sealed_members_lookup. rewrite Ha.
  destruct (cache_probe (sealed_member_map_path p) live m) as [[hit|] m0] eqn:Ec; [done|].
  assert (m0 = m) as ->.
  { unfold cache_probe in Ec. destruct (sm_cache m !! _) as [[id ms']|]; [destruct (decide _)|]; congruence. }
  destruct (read_map _ _ _) as [[ms'|]|]; [done| |done]. intros [= <-].
  destruct (request_spec p m Hr) as (Hr1 & Hin & Hlen & Hc & _ & Hd). split; [done|].
  apply list_elem_of_split in Hin as (q1 & q2 & Eq). exists (S (length q1)). split.
  { rewrite Eq, length_app in Hlen. cbn in Hlen. lia. }
  eapply turns_reach; [exact Eq|done|by rewrite Hc|by rewrite (archive_identity_disk p m)|done].
Qed.

End rebuilds.

(** ** Sweeps *)

Section sweeps.
Context (sha256 : string -> string) (a : sweep_answers) (daily_dir : string).

(** The archive of a name is not the one the census has seen. *)
Definition unseen (c : census) (m : maps) (name : string) : bool :=
  match archive_identity (path_join daily_dir name) m with
  | None => false
  | Some live => negb (bool_decide (sw_zst_identity <$> c !! sweep_day name = Some live))
  end.

Definition unseen_names (c : census) (m : maps) : list string := filter (fun n => unseen c m n = true) (sealed_names a).

Definition readable_maps (m : maps) : Prop := forall q live, exists r, read_map sha256 (sm_files m !! q) live = Ok r.

Lemma sweep_next_unseen names c m :
  match filter (fun n => unseen c m n = true) names with
  | [] => sweep_next daily_dir names c m = None
  | n :: _ => exists live, sweep_next daily_dir names c m = Some (n, live) /\ archive_identity (path_join daily_dir n) m = Some live
  end.
Proof.
  induction names as [|n names IH]; [done|]. cbn [sweep_next]. rewrite filter_cons.
  assert (unseen c m n = match archive_identity (path_join daily_dir n) m with
    None => false | Some live => negb (bool_decide (sw_zst_identity <$> c !! sweep_day n = Some live)) end) as -> by done.
  destruct (archive_identity (path_join daily_dir n) m) as [live|] eqn:Ea; [|exact IH].
  destruct (decide (sw_zst_identity <$> c !! sweep_day n = Some live)) as [E|E].
  - rewrite bool_decide_eq_true_2 by done. exact IH.
  - rewrite bool_decide_eq_false_2 by done. exists live. done.
Qed.

Lemma lookup_frame p request m :
  readable_maps m ->
  exists r, (sealed_members_lookup sha256 p request m).1 = Ok r /\
    sm_files (sealed_members_lookup sha256 p request m).2 = sm_files m /\
    sm_archives (sealed_members_lookup sha256 p request m).2 = sm_archives m.
Proof.
  intros Hr. unfold sealed_members_lookup. destruct (archive_identity p m) as [live|]; [|by eauto].
  assert (forall o, exists c, (cache_probe o live m).2 = with_cache c m) as Hc.
  { intros o. unfold cache_probe. destruct (sm_cache m !! o) as [[id ms]|]; [destruct (decide _)|]; cbn;
      by eauto || (exists (sm_cache m); by destruct m). }
  specialize (Hc (sealed_member_map_path p)) as [c Hc].
  destruct (cache_probe (sealed_member_map_path p) live m) as [[ms|] m']; cbn in Hc; subst m'; [by eauto|].
  destruct (Hr (sealed_member_map_path p) live) as [r Er]. cbn [with_cache sm_files]. rewrite Er.
  destruct r as [ms|]; [by eauto|]. destruct request; [|by eauto]. cbn. unfold request_sealed_member_map_rebuild.
  destruct (decide _); by eauto.
Qed.

Context (scan_wf : forall p, dict_wf (sa_scan a p).2).

Lemma write_readable p ms source identity now saves m :
  dict_wf ms -> readable_maps m -> readable_maps (write_sealed_member_map sha256 p ms source identity now saves m).2.
Proof.
  intros Hw Hr. unfold write_sealed_member_map, save_map. destruct (archive_identity p m) as [live|]; [|done].
  destruct (match identity with Some id => _ | None => _ end); [done|].
  destruct (map_document _ _ _ _ _ _) as [f|] eqn:E; [|done]. destruct saves; [|done].
  intros q live'. cbn [snd cache_put with_cache with_map_file sm_files]. rewrite lookup_insert. destruct (decide _); [|apply Hr].
  rewrite (read_saved _ _ _ _ _ _ _ _ Hw E). eauto.
Qed.

Lemma sweep_archive_frame p live m :
  readable_maps m ->
  exists r, (sweep_archive sha256 a p live m).1 = Ok r /\ sw_zst_identity r = live /\
    readable_maps (sweep_archive sha256 a p live m).2 /\ sm_archives (sweep_archive sha256 a p live m).2 = sm_archives m.
Proof.
  intros Hr. unfold sweep_archive. destruct (lookup_frame p false m Hr) as (e & E1 & E2 & E3).
  destruct (sealed_members_lookup sha256 p false m) as [r m1]. cbn in E1, E2, E3. subst r.
  pose proof (scan_wf p) as Hw. destruct (sa_scan a p) as [readable ms]. cbn in Hw.
  assert (readable_maps m1) as Hr1 by (intros q id; rewrite E2; apply Hr).
  cbn [fst snd]. eexists. split_and!; [done..| |].
  - destruct (_ && _ && _); [by apply write_readable|done].
  - destruct (_ && _ && _); [|done]. rewrite <- E3. apply write_frame.
Qed.

(** What one sweep does: the first unseen archive is seen. *)
Lemma sweep_once_spec c m :
  readable_maps m -> NoDup (sweep_day <$> sealed_names a) ->
  let '(r, c', m') := sealed_integrity_sweep_once sha256 a daily_dir c m in
  readable_maps m' /\ sm_archives m' = sm_archives m /\
  match unseen_names c m with
  | [] => r = Ok None /\ c' = c
  | n :: rest => (exists v, r = Ok (Some v)) /\ unseen_names c' m' = rest
  end.
Proof.
  intros Hr Hd. unfold sealed_integrity_sweep_once. pose proof (sweep_next_unseen (sealed_names a) c m) as Hn. fold (unseen_names c m) in Hn.
  destruct (unseen_names c m) as [|n rest] eqn:Eu; [by rewrite Hn|]. destruct Hn as (live & -> & Ha).
  destruct (sweep_archive_frame (path_join daily_dir n) live m Hr) as (v & E1 & E2 & E3 & E4).
  destruct (sweep_archive sha256 a (path_join daily_dir n) live m) as [r m1]. cbn in E1, E3, E4. subst r. split_and!; [done..|by eauto|].
  unfold unseen_names in *. assert (forall n', n' ∈ sealed_names a ->
    unseen (<[sweep_day n := v]> c) m1 n' = true <-> unseen c m n' = true /\ n' <> n) as Hu.
  { intros n' Hn'. unfold unseen, archive_identity. rewrite E4. destruct (decide (sweep_day n' = sweep_day n)) as [Ed|Ed].
    - assert (n' = n) as ->.
      { assert (n ∈ sealed_names a) as Hin by (eapply (list_elem_of_filter (fun n => unseen c m n = true)); rewrite Eu; left).
        apply list_elem_of_lookup in Hn' as [i Hi], Hin as [j Hj].
        assert (i = j) as <- by (eapply NoDup_lookup; [exact Hd|rewrite list_lookup_fmap, Hi; done|rewrite list_lookup_fmap, Hj; cbn; by rewrite Ed]).
        congruence. }
      unfold archive_identity in Ha. rewrite Ha, dict_lookup_insert_eq. cbn. rewrite E2, bool_decide_eq_true_2 by done. naive_solver.
    - rewrite dict_lookup_insert_ne by done. split; [intros H; split; [done|congruence]|by intros [H _]]. }
  assert (NoDup (sealed_names a)) as Hnd by by apply NoDup_fmap_1 in Hd.
  transitivity (filter (fun n' => n' <> n) (filter (fun n' => unseen c m n' = true) (sealed_names a))).
  { rewrite list_filter_filter. apply filter_ext_elem. intros n' Hn'. rewrite Hu by done. naive_solver. }
  rewrite Eu. rewrite filter_cons_False by naive_solver. apply filter_all. intros n' Hin ->.
  assert (NoDup (n :: rest)) as [Hni _]%NoDup_cons by (rewrite <- Eu; by apply NoDup_filter). done.
Qed.

Fixpoint sweeps (k : nat) (c : census) (m : maps) : census * maps :=
  match k with
  | O => (c, m)
  | S k => let '(_, c, m) := sealed_integrity_sweep_once sha256 a daily_dir c m in sweeps k c m
  end.

(** Every archive is swept.  A sweep checks one archive; while nothing is replaced,
    as many sweeps as there are archives the census does not know check each of them,
    after which a sweep has nothing to do: one file that cannot be read does not hold
    up the others. *)
Theorem sweeps_reach_all c m :
  readable_maps m -> NoDup (sweep_day <$> sealed_names a) ->
  let '(c', m') := sweeps (length (unseen_names c m)) c m in
  (sealed_integrity_sweep_once sha256 a daily_dir c' m').1.1 = Ok None /\
  forall name live, name ∈ sealed_names a -> archive_identity (path_join daily_dir name) m = Some live ->
    sw_zst_identity <$> c' !! sweep_day name = Some live.
Proof.
  intros Hr Hd. remember (length (unseen_names c m)) as k eqn:Ek. revert c m Hr Ek. induction k as [|k IH]; intros c m Hr Ek; cbn [sweeps].
  - pose proof (sweep_once_spec c m Hr Hd) as Hs. destruct (sealed_integrity_sweep_once _ _ _ _ _) as [[r c'] m'].
    destruct Hs as (_ & _ & Hs). destruct (unseen_names c m) eqn:Eu; [|done]. destruct Hs as [-> _]. split; [done|].
    intros name live Hn Ha. destruct (decide (sw_zst_identity <$> c !! sweep_day name = Some live)) as [|Hne]; [done|].
    assert (name ∈ unseen_names c m) as Hin; [|rewrite Eu in Hin; by apply elem_of_nil in Hin].
    apply list_elem_of_filter. split; [|done]. unfold unseen. rewrite Ha. by rewrite bool_decide_eq_false_2.
  - pose proof (sweep_once_spec c m Hr Hd) as Hs. destruct (sealed_integrity_sweep_once _ _ _ _ _) as [[r c'] m'].
    destruct Hs as (Hr' & Ha' & Hs). destruct (unseen_names c m) as [|n rest] eqn:Eu; [done|]. destruct Hs as [_ Hu].
    specialize (IH c' m' Hr'). rewrite Hu in IH. cbn in Ek. specialize (IH ltac:(congruence)).
    destruct (sweeps k c' m') as [c2 m2]. destruct IH as [IH1 IH2]. split; [done|]. intros name live Hn Ha. apply IH2; [done|].
    by rewrite (archive_identity_disk _ m).
Qed.
End sweeps.

(** ** What modelling showed *)

Module Sealed.

Definition path : string := "/t/2024-01-02.tar.zst".
Definition id : archive_id := (11, 2048, 1700000000).
Definition ms : members := Dict [("a/n1/1704200000", 10); ("a/n2/1704200000", 20)].
Definition digest (s : string) : string := s.
Definition now : pyfloat := FFin 0 1.
Definition start : maps := Maps ∅ [] ∅ ∅ {[path := id]}.

(** A stored map one of whose sizes is no number. *)
Definition torn : file_content := FJson (JDict (Dict [("zst_identity", identity_json id); ("entries", JDict (Dict [("a", JStr "x")]))])).

End Sealed.

(** A map whose entries hold something else than numbers makes the lookup raise: it is
    neither taken as invalid nor requested to be rebuilt. *)
Theorem torn_map_raises :
  sealed_members_lookup Sealed.digest Sealed.path true (with_map_file (sealed_member_map_path Sealed.path) Sealed.torn Sealed.start) =
    (Raise ValueError, with_map_file (sealed_member_map_path Sealed.path) Sealed.torn Sealed.start).
Proof. vm_compute. reflexivity. Qed.

(** ** Witnesses *)

Lemma sealed_ms_wf : dict_wf Sealed.ms.
Proof. unfold dict_wf. apply (bool_decide_unpack _). vm_compute. done. Qed.

Lemma written_map_found_witness :
  exists m', write_sealed_member_map Sealed.digest Sealed.path Sealed.ms "seal" None Sealed.now true Sealed.start = (true, m') /\
    answers_with Sealed.digest m' Sealed.path (Some Sealed.ms) /\
    answers_with Sealed.digest (new_process m') Sealed.path (Some Sealed.ms) /\
    (forall archives, archives !! normpath Sealed.path <> sm_archives Sealed.start !! normpath Sealed.path ->
      answers_with Sealed.digest (new_process (Maps (sm_cache m') (sm_queue m') (sm_pending m') (sm_files m') archives)) Sealed.path None).
Proof.
  eexists. split; [vm_compute; reflexivity|].
  refine (written_map_found Sealed.digest Sealed.path Sealed.ms "seal" None Sealed.now true Sealed.start _ _ _ _);
    [exact sealed_ms_wf|exact dict_wf_empty|vm_compute; reflexivity].
Defined.

Module SealedRun.

Definition contents (_ : archive_id) : members := Sealed.ms.
Definition w0 : world := World (Maps ∅ [] ∅ ∅ ∅) ∅ ∅.
(** A seal, then a lookup. *)
Definition w1 : world := World (with_archives <[normpath Sealed.path := Sealed.id]> (w_maps w0))
  (<[1%nat := Saving Sealed.path Sealed.id (contents Sealed.id)]> (w_threads w0)) ({[(normpath Sealed.path, Sealed.id)]} ∪ w_past w0).
Definition m2 : maps := (save_map Sealed.digest Sealed.path "seal" Sealed.now true Sealed.id Sealed.ms (w_maps w1)).2.
Definition w2 : world := World m2 (<[1%nat := Caching Sealed.path Sealed.id Sealed.ms]> (w_threads w1)) (w_past w1).
Definition w3 : world := World (w_maps w2) (<[2%nat := Looking Sealed.path true]> (w_threads w2)) (w_past w2).
Definition w4 : world := World (w_maps w3) (<[2%nat := Probing Sealed.path Sealed.id true]> (w_threads w3)) (w_past w3).
Definition m5 : maps := (cache_probe (sealed_member_map_path Sealed.path) Sealed.id (w_maps w4)).2.
Definition w5 : world := World m5 (<[2%nat := Reading Sealed.path Sealed.id true]> (w_threads w4)) (w_past w4).
Definition w6 : world := World m5 (<[2%nat := Adopting Sealed.path Sealed.id Sealed.ms]> (w_threads w5)) (w_past w5).
Definition w7 : world := World (cache_put (sealed_member_map_path Sealed.path) Sealed.id Sealed.ms m5)
  (<[2%nat := Answered Sealed.path Sealed.id Sealed.ms]> (w_threads w6)) (w_past w6).

End SealedRun.

Lemma sealed_run_initial : initial SealedRun.w0.
Proof. split_and!; [reflexivity|reflexivity|]. intros p id. discriminate. Qed.

Lemma sealed_run : rtc (wstep Sealed.digest SealedRun.contents) SealedRun.w0 SealedRun.w7.
Proof.
  apply (rtc_l _ _ SealedRun.w1).
  { apply W_seal; [reflexivity|]. intros p. apply not_elem_of_empty. }
  apply (rtc_l _ _ SealedRun.w2).
  { apply (W_run _ _ 1 (Saving Sealed.path Sealed.id Sealed.ms)); [reflexivity|].
    apply (B_save _ _ Sealed.path Sealed.id Sealed.ms "seal" Sealed.now true true). vm_compute. reflexivity. }
  apply (rtc_l _ _ SealedRun.w3); [apply W_lookup; reflexivity|].
  apply (rtc_l _ _ SealedRun.w4).
  { apply (W_run _ _ 2 (Looking Sealed.path true)); [reflexivity|]. apply B_stat. vm_compute. reflexivity. }
  apply (rtc_l _ _ SealedRun.w5).
  { apply (W_run _ _ 2 (Probing Sealed.path Sealed.id true)); [reflexivity|]. apply B_miss. vm_compute. reflexivity. }
  apply (rtc_l _ _ SealedRun.w6).
  { apply (W_run _ _ 2 (Reading Sealed.path Sealed.id true)); [reflexivity|]. apply B_read. vm_compute. reflexivity. }
  apply (rtc_l _ _ SealedRun.w7); [|constructor].
  apply (W_run _ _ 2 (Adopting Sealed.path Sealed.id Sealed.ms)); [reflexivity|]. apply B_adopt.
Qed.

Lemma lookup_answers_archive_witness :
  w_threads SealedRun.w7 !! 2%nat = Some (Answered Sealed.path Sealed.id Sealed.ms) /\
  Sealed.ms ≡ SealedRun.contents Sealed.id /\ (normpath Sealed.path, Sealed.id) ∈ w_past SealedRun.w7.
Proof.
  split; [reflexivity|].
  refine (lookup_answers_archive Sealed.digest SealedRun.contents _ SealedRun.w0 SealedRun.w7 2 Sealed.path Sealed.id Sealed.ms _ _ _);
    [intros id; exact sealed_ms_wf|exact sealed_run_initial|exact sealed_run|reflexivity].
Defined.

Lemma cache_bounded_witness :
  (dict_len (sm_cache (w_maps SealedRun.w7)) <= 8)%nat /\
  forall q id ms, sm_cache (w_maps SealedRun.w7) !! q = Some (id, ms) -> ms ≡ SealedRun.contents id.
Proof.
  refine (cache_bounded Sealed.digest SealedRun.contents _ SealedRun.w0 SealedRun.w7 _ _);
    [intros id; exact sealed_ms_wf|exact sealed_run_initial|exact sealed_run].
Defined.

Lemma missed_map_is_rebuilt_witness :
  exists m1, sealed_members_lookup Sealed.digest Sealed.path true Sealed.start = (Ok None, m1) /\ requests_ok m1 /\
    exists n, (n <= 1)%nat /\
      answers_with Sealed.digest (worker_turns Sealed.digest (fun _ => Some (true, Sealed.ms)) Sealed.now n m1) Sealed.path (Some Sealed.ms).
Proof.
  eexists. split; [vm_compute; reflexivity|].
  refine (missed_map_is_rebuilt Sealed.digest (fun _ => Some (true, Sealed.ms)) Sealed.now Sealed.path Sealed.id Sealed.ms Sealed.start _ _ _ _ _ _);
    [split; [constructor|reflexivity]|exact dict_wf_empty|vm_compute; reflexivity|reflexivity|vm_compute; reflexivity].
Defined.

Definition sweep_demo : sweep_answers :=
  SweepAnswers ["2024-01-02.tar.zst"; "2024-01-03.tar.zst"; "notes.txt"] (fun _ => true) (fun _ => (true, Sealed.ms)) (fun _ => false) Sealed.now true.

Lemma sweeps_reach_all_witness :
  let '(c', m') := sweeps Sealed.digest sweep_demo "/t" (length (unseen_names sweep_demo "/t" ∅ Sealed.start)) ∅ Sealed.start in
  (sealed_integrity_sweep_once Sealed.digest sweep_demo "/t" c' m').1.1 = Ok None /\
  forall name live, name ∈ sealed_names sweep_demo -> archive_identity (path_join "/t" name) Sealed.start = Some live ->
    sw_zst_identity <$> c' !! sweep_day name = Some live.
Proof.
  refine (sweeps_reach_all Sealed.digest sweep_demo "/t" _ ∅ Sealed.start _ _);
    [intros p; exact sealed_ms_wf|intros q live; exists None; reflexivity|apply (bool_decide_unpack _); vm_compute; exact I].
Defined.
