(* ===== verification/RawRemoval.v ===== *)
(** Removal of a day's raw files: [_DayRawRemovalState] of
    [dbload/lib/sync_timedb_day_raw_removal.py].

    Once a day is archived its raw files are classified against the tar
    ([pre_seal_verify_body]), the tar is sealed, and the verified files are deleted
    ([apply_batch_delete]).  A manifest of entries per path drives the phases and is
    saved beside the archive; [day] holds it with its saved copy and the raw files on
    disk.  What the rest of the program and the configuration answer is the record
    [answers]; raw files do not change under one call, and saves succeed.  The memo of
    the raw scan is left out: it is only alive during [apply_batch_delete], where the
    manifest is asked instead. *)
From S2P Require Import Prelude PyDict PyStr PosixPath SealedMap.
From Stdlib Require Import Ascii.
Local Open Scope Z_scope.

Definition PHASE_VERIFYING : string := "verifying".
Definition PHASE_VERIFICATION_COMPLETE : string := "verification_complete".
Definition PHASE_DELETING : string := "deleting".
Definition PHASE_DONE : string := "done".

Definition VERIFY_STAGE_NONE : string := "none".
Definition VERIFY_STAGE_PRE_SEAL : string := "pre_seal_complete".
Definition VERIFY_STAGE_POST_SEAL : string := "post_seal_complete".

Definition RETRYABLE_SKIP_REASONS : list string :=
  ["not_head_tail_ingested"; "not_sample_ingested"; "not_head_ingested"; "not_in_sealed_archive"; "size_mismatch"].
Definition RETRYABLE_SKIP_STATUSES : list string :=
  ["skipped_not_head_tail_ingested"; "skipped_not_sample_ingested"; "skipped_not_head_ingested";
   "skipped_not_in_archive"; "skipped_size_mismatch"].
Definition QUARANTINE_SKIP_REASONS : list string := ["quarantine"].
Definition QUARANTINE_SKIP_STATUSES : list string := ["skipped_quarantine"].
Definition REPAIR_REQUIRED_STATUSES : list string :=
  ["skipped_seal_invalid"; "skipped_fingerprint_changed"; "skipped_active_segment"].

(** Modification time (ns) and size of a file; raw paths by sealed path. *)
Abbreviation fingerprint := (Z * Z)%type.
Abbreviation raw_by_gz := (list (string * list string)).

Record entry := Entry {
  en_path : string;
  en_daily_gz : string;
  en_status : string;
  en_reason : string;
  en_deleted : bool;
  en_fp : option fingerprint;
  en_deferred : option string;
  en_failed : option string;
  en_delete_reason : option string;
}.

#[export] Instance entry_eq_dec : EqDecision entry.
Proof. solve_decision. Defined.

Definition with_status st re en := Entry (en_path en) (en_daily_gz en) st re (en_deleted en) (en_fp en) (en_deferred en) (en_failed en) (en_delete_reason en).
Definition with_deleted b re en := Entry (en_path en) (en_daily_gz en) (en_status en) (en_reason en) b (en_fp en) (en_deferred en) (en_failed en) re.
Definition with_deferred r en := Entry (en_path en) (en_daily_gz en) (en_status en) (en_reason en) (en_deleted en) (en_fp en) (Some r) (en_failed en) (en_delete_reason en).
Definition with_failed r en := Entry (en_path en) (en_daily_gz en) (en_status en) (en_reason en) (en_deleted en) (en_fp en) (en_deferred en) r (en_delete_reason en).

(** An entry that is no dictionary is [None]; an empty list of paths is a missing one;
    a time of 0 a missing one. *)
Record manifest := Manifest {
  mf_phase : string;
  mf_stage : string;
  mf_started : Z;
  mf_completed : option Z;
  mf_verified : Z;
  mf_skipped : Z;
  mf_deleted : Z;
  mf_cycles : Z;
  mf_tar_id : option archive_id;
  mf_index : Z;
  mf_paths : list string;
  mf_progress : string * Z * Z * option Z;
  mf_entries : dict string (option entry);
}.

Definition with_phase p mf := Manifest p (mf_stage mf) (mf_started mf) (mf_completed mf) (mf_verified mf) (mf_skipped mf) (mf_deleted mf) (mf_cycles mf) (mf_tar_id mf) (mf_index mf) (mf_paths mf) (mf_progress mf) (mf_entries mf).
Definition with_stage s mf := Manifest (mf_phase mf) s (mf_started mf) (mf_completed mf) (mf_verified mf) (mf_skipped mf) (mf_deleted mf) (mf_cycles mf) (mf_tar_id mf) (mf_index mf) (mf_paths mf) (mf_progress mf) (mf_entries mf).
Definition with_started t mf := Manifest (mf_phase mf) (mf_stage mf) t (mf_completed mf) (mf_verified mf) (mf_skipped mf) (mf_deleted mf) (mf_cycles mf) (mf_tar_id mf) (mf_index mf) (mf_paths mf) (mf_progress mf) (mf_entries mf).
Definition with_completed t mf := Manifest (mf_phase mf) (mf_stage mf) (mf_started mf) t (mf_verified mf) (mf_skipped mf) (mf_deleted mf) (mf_cycles mf) (mf_tar_id mf) (mf_index mf) (mf_paths mf) (mf_progress mf) (mf_entries mf).
Definition with_numbers v s n mf := Manifest (mf_phase mf) (mf_stage mf) (mf_started mf) (mf_completed mf) v s n (mf_cycles mf) (mf_tar_id mf) (mf_index mf) (mf_paths mf) (mf_progress mf) (mf_entries mf).
Definition with_cycles c mf := Manifest (mf_phase mf) (mf_stage mf) (mf_started mf) (mf_completed mf) (mf_verified mf) (mf_skipped mf) (mf_deleted mf) c (mf_tar_id mf) (mf_index mf) (mf_paths mf) (mf_progress mf) (mf_entries mf).
Definition with_tar_id i mf := Manifest (mf_phase mf) (mf_stage mf) (mf_started mf) (mf_completed mf) (mf_verified mf) (mf_skipped mf) (mf_deleted mf) (mf_cycles mf) i (mf_index mf) (mf_paths mf) (mf_progress mf) (mf_entries mf).
Definition with_cursor i ps mf := Manifest (mf_phase mf) (mf_stage mf) (mf_started mf) (mf_completed mf) (mf_verified mf) (mf_skipped mf) (mf_deleted mf) (mf_cycles mf) (mf_tar_id mf) i ps (mf_progress mf) (mf_entries mf).
Definition with_progress p mf := Manifest (mf_phase mf) (mf_stage mf) (mf_started mf) (mf_completed mf) (mf_verified mf) (mf_skipped mf) (mf_deleted mf) (mf_cycles mf) (mf_tar_id mf) (mf_index mf) (mf_paths mf) p (mf_entries mf).
Definition with_entries es mf := Manifest (mf_phase mf) (mf_stage mf) (mf_started mf) (mf_completed mf) (mf_verified mf) (mf_skipped mf) (mf_deleted mf) (mf_cycles mf) (mf_tar_id mf) (mf_index mf) (mf_paths mf) (mf_progress mf) es.

Definition new_manifest (now : Z) : manifest :=
  Manifest PHASE_VERIFYING VERIFY_STAGE_NONE now None 0 0 0 0 None 0 [] ("", 0, 0, None) ∅.

(** The manifest, what of it is saved, the raw files on disk, and the size of the open
    tar, if it is a file. *)
Record day := Day {
  dy_manifest : manifest;
  dy_saved : manifest;
  dy_files : gmap string fingerprint;
  dy_tar : option Z;
}.

Definition on_manifest (f : manifest -> manifest) (d : day) : day := Day (f (dy_manifest d)) (dy_saved d) (dy_files d) (dy_tar d).
Definition with_files fs (d : day) : day := Day (dy_manifest d) (dy_saved d) fs (dy_tar d).
Definition with_tar t (d : day) : day := Day (dy_manifest d) (dy_saved d) (dy_files d) t.

(** [_save_manifest] of a deep copy. *)
Definition save_manifest (d : day) : day := Day (dy_manifest d) (dy_manifest d) (dy_files d) (dy_tar d).

(** What the rest of the program answers during one call. *)
Record answers := Answers {
  re_now : Z;
  re_tar_path : string;
  re_active : string -> bool;                     (* stats_file_is_active_segment *)
  re_aligned : string -> bool;                    (* stats_path_aligned_to_daily_tar, this tar *)
  re_scan : raw_by_gz;                            (* _build_remaining_raw_for_daily_tar *)
  re_seed : raw_by_gz;                            (* build_day_scoped_closed_raw_by_gz *)
  re_allow_scoped : bool;
  re_quarantine : gset string;                    (* get_quarantine_skip_paths *)
  re_ingest_active : option (gset string);        (* get_ingest_active_skip_paths, when given *)
  re_gate : option (string -> bool);              (* ingest_ready_fn, when ingest is required *)
  re_gate_ids : option (string -> bool);          (* the ready set, when there are gate identities *)
  re_completed : list string -> list string;      (* the order in which a pool's tasks end *)
  re_restored : bool;                             (* ensure_daily_tar_restored_for_append *)
  re_open_members : option members;               (* validate_open_tar_for_raw_removal *)
  re_sealed_valid : option members;               (* validate_sealed_daily_archive_for_raw_removal *)
  re_sealed_isfile : string -> bool;
  re_sealed_lookup : string -> option members;    (* sealed_members_lookup *)
  re_parity : bool;                               (* validate_post_seal_tar_zst_parity *)
  re_tar_identity : option archive_id;            (* archive_identity(tar_path) *)
  re_lock_free : string -> bool;                  (* try_file_write_lock *)
  re_remove_error : string -> option string;      (* the OSError of os.remove *)
  re_drop : raw_by_gz -> bool;                    (* remove_verified_uncompressed_daily_tars removes the tar *)
  re_shutdown : nat -> bool;                      (* shutdown_requested after so many batches *)
  re_paths_per_batch : Z;
  re_max_deletes : Z;
  re_escalate_after : Z;
}.

(** ** Paths *)

Definition isfile (d : day) (path : string) : bool := bool_decide (is_Some (dy_files d !! path)).
Definition getsize (d : day) (path : string) : option Z := snd <$> dy_files d !! path.
Definition path_fingerprint (d : day) (path : string) : option fingerprint := dy_files d !! path.

(** [compressed_sibling_paths]: the [.tar.zst] and [.tar.gz] beside a tar. *)
Definition compressed_sibling_paths (tar_path : string) : string * string :=
  let base := default tar_path (strip_suffix ".tar" tar_path) in
  (base +:+ ".tar.zst", base +:+ ".tar.gz").

Definition normalize_daily_compressed_path (path : string) : string :=
  match strip_suffix ".tar.zst" path with
  | Some _ => path
  | None =>
      match strip_suffix ".tar.gz" path with
      | Some base => base +:+ ".tar.zst"
      | None => match strip_suffix ".tar" path with
                | Some base => base +:+ ".tar.zst"
                | None => path
                end
      end
  end.

Definition zst_path (e : answers) : string := (compressed_sibling_paths (re_tar_path e)).1.

Definition lookup_gz (key : string) (remaining : raw_by_gz) : list string :=
  default [] (snd <$> head (filter (fun kv => kv.1 = key) remaining)).

(** [remaining_raw_by_gz_has_paths_on_disk] with a sealed path. *)
Definition remaining_raw_has_paths_on_disk (d : day) (remaining : raw_by_gz) (gz_path : string) : bool :=
  existsb (isfile d) (lookup_gz (normalize_daily_compressed_path gz_path) remaining).

(** ** Classification against a member map *)

Definition get_tar_member_name (file_path : string) : string := lstrip_slash file_path.

(** [raw_path_in_sealed_members], and the test of [get_verified_files_to_remove]. *)
Definition raw_path_in_sealed_members (d : day) (raw_path : string) (ms : members) : bool :=
  match ms !! lstrip_slash raw_path with
  | None => false
  | Some z => bool_decide (getsize d raw_path = Some z)
  end.

Definition get_verified_files_to_remove (d : day) (stats_files : list string) (ms : members) : list string :=
  filter (fun path => match ms !! get_tar_member_name path with
                      | None => false
                      | Some z => bool_decide (getsize d path = Some z)
                      end = true) stats_files.

(** The verdict on one path: path, status, reason. *)
Definition classify_one (d : day) (ready : option (string -> bool)) (ms : members) (path : string)
    : string * string * string :=
  if match ready with Some r => negb (r path) | None => false end
  then (path, "skipped_not_head_tail_ingested", "not_head_tail_ingested")
  else if decide (path ∈ get_verified_files_to_remove d [path] ms) then (path, "verified", "")
  else match ms !! get_tar_member_name path with
       | None => (path, "skipped_not_in_archive", "not_in_sealed_archive")
       | Some _ => (path, "skipped_size_mismatch", "size_mismatch")
       end.

Definition classify_removable_raw_paths_for_members (d : day) (ready : option (string -> bool)) (ms : members)
    (paths : list string) : list (string * string * string) := classify_one d ready ms <$> paths.

Definition classify_removable_after_ok (d : day) (ready : option (string -> bool)) (ms : option members)
    (paths : list string) : list (string * string * string) :=
  match ms with
  | None => (fun path => (path, "skipped_seal_invalid", "seal_validation_failed")) <$> paths
  | Some ms => classify_removable_raw_paths_for_members d ready ms paths
  end.

(** ** The state *)

Definition phase (d : day) : string :=
  if decide (mf_phase (dy_manifest d) = "") then PHASE_VERIFYING else mf_phase (dy_manifest d).
Definition verify_stage (d : day) : string :=
  if decide (mf_stage (dy_manifest d) = "") then VERIFY_STAGE_NONE else mf_stage (dy_manifest d).

Definition verification_complete (d : day) : bool :=
  bool_decide (phase d ∈ [PHASE_VERIFICATION_COMPLETE; PHASE_DELETING; PHASE_DONE]).
Definition pre_seal_verification_complete (d : day) : bool :=
  bool_decide (verify_stage d ∈ [VERIFY_STAGE_PRE_SEAL; VERIFY_STAGE_POST_SEAL]) || verification_complete d.
Definition post_seal_verification_complete (d : day) : bool := bool_decide (verify_stage d = VERIFY_STAGE_POST_SEAL).
Definition needs_delete_phase (d : day) : bool :=
  bool_decide (phase d ∈ [PHASE_VERIFICATION_COMPLETE; PHASE_DELETING]).
Definition delete_phase_done (d : day) : bool := bool_decide (phase d = PHASE_DONE).

Definition entries (d : day) : dict string (option entry) := mf_entries (dy_manifest d).

Definition entry_is_retryable_skip (en : entry) : bool :=
  bool_decide (en_reason en ∈ RETRYABLE_SKIP_REASONS) || bool_decide (en_status en ∈ RETRYABLE_SKIP_STATUSES).
Definition entry_is_quarantine_terminal_skip (en : entry) : bool :=
  bool_decide (en_reason en ∈ QUARANTINE_SKIP_REASONS) || bool_decide (en_status en ∈ QUARANTINE_SKIP_STATUSES).
Definition entry_is_verified_ghost_on_disk (en : entry) : bool :=
  en_deleted en && bool_decide (en_status en = "verified").
Definition verified_pending (en : entry) : bool := bool_decide (en_status en = "verified") && negb (en_deleted en).

Definition entry_blocks_done (e : answers) (path : string) (en : entry) : bool :=
  if entry_is_quarantine_terminal_skip en then false
  else if decide (en_status en = "skipped_active_segment") then negb (re_active e path)
  else true.

(** The tests on an entry that may be no dictionary. *)
Definition on_entry (f : entry -> bool) (v : option entry) : bool :=
  match v with Some en => f en | None => false end.

Definition manifest_entries_on_disk (d : day) : list (string * entry) :=
  omap (fun pv => if isfile d pv.1 then (fun en => (pv.1, en)) <$> pv.2 else None) (dict_items (entries d)).

Definition on_disk (d : day) (f : string -> entry -> bool) : list string :=
  (filter (fun pe => f pe.1 pe.2 = true) (manifest_entries_on_disk d)).*1.

Definition manifest_retryable_paths_on_disk (d : day) : list string := on_disk d (fun _ => entry_is_retryable_skip).
Definition blocking_manifest_paths_on_disk (e : answers) (d : day) : list string :=
  on_disk d (fun path en => negb (entry_is_verified_ghost_on_disk en) &&
                            negb (entry_is_quarantine_terminal_skip en) && re_aligned e path).
Definition verified_pending_paths_on_disk (d : day) : list string := on_disk d (fun _ => verified_pending).
Definition manifest_verified_pending_count (d : day) : nat :=
  length (filter (fun v => on_entry verified_pending v = true) (dict_values (entries d))).
Definition manifest_has_ghost_markers (d : day) : bool :=
  existsb (on_entry entry_is_verified_ghost_on_disk) (dict_values (entries d)).
Definition ghost_deleted_paths_on_disk (d : day) : list string :=
  if manifest_has_ghost_markers d then on_disk d (fun _ => entry_is_verified_ghost_on_disk) else [].
Definition needs_ghost_delete_retry (d : day) : bool :=
  bool_decide (phase d ∈ [PHASE_DONE; PHASE_DELETING]) && manifest_has_ghost_markers d &&
  negb (bool_decide (ghost_deleted_paths_on_disk d = [])).
Definition needs_reopen_for_verified_pending (d : day) : bool :=
  delete_phase_done d && (0 <? manifest_verified_pending_count d)%nat.

(** [paths_pending_delete] and [consumed_paths]: the paths the entries name. *)
Definition paths_pending_delete (d : day) : gset string :=
  list_to_set (omap (fun v => en ← v; if verified_pending en && negb (bool_decide (en_path en = "")) then Some (en_path en) else None)
    (dict_values (entries d))).
Definition consumed_paths (d : day) : gset string :=
  list_to_set (omap (fun v => en ← v; if en_deleted en && negb (bool_decide (en_path en = "")) then Some (en_path en) else None)
    (dict_values (entries d))).

Definition only_quarantine_terminal_on_disk (d : day) : bool :=
  match manifest_entries_on_disk d with
  | [] => false
  | l => forallb (fun pe => entry_is_quarantine_terminal_skip pe.2) l
  end.

Definition set_done (e : answers) (d : day) : day :=
  on_manifest (fun mf => with_completed (Some (re_now e)) (with_phase PHASE_DONE mf)) d.

Definition finalize_quarantine_terminal_done (e : answers) (d : day) : day :=
  if delete_phase_done d then d else save_manifest (set_done e d).

(** First occurrences, in order (the [seen] sets). *)
Definition nub (l : list string) : list string := rev (foldl (fun acc x => if decide (x ∈ acc) then acc else x :: acc) [] l).

Definition closed_raw_paths_on_disk (e : answers) (d : day) : list string :=
  if delete_phase_done d then blocking_manifest_paths_on_disk e d
  else if verification_complete d then nub (blocking_manifest_paths_on_disk e d ++ manifest_retryable_paths_on_disk d)
  else mjoin (snd <$> re_scan e).

Definition unmanifested_closed_raw_paths (e : answers) (d : day) : list string :=
  if delete_phase_done d || verification_complete d then []
  else filter (fun path => isfile d path = true /\ entries d !! path = None) (closed_raw_paths_on_disk e d).

Definition has_closed_raw_existing_on_disk (e : answers) (d : day) : bool * day :=
  if only_quarantine_terminal_on_disk d then (false, finalize_quarantine_terminal_done e d)
  else
    let blocking := negb (bool_decide (blocking_manifest_paths_on_disk e d = [])) in
    (if delete_phase_done d
     then blocking || negb (bool_decide (unmanifested_closed_raw_paths e d = []))
     else if verification_complete d
     then blocking || negb (bool_decide (ghost_deleted_paths_on_disk d = [])) ||
          negb (bool_decide (manifest_retryable_paths_on_disk d = []))
     else remaining_raw_has_paths_on_disk d (re_scan e) (zst_path e), d).

Definition filter_accrual_paths_blocking_tar_drop (e : answers) (d : day) (remaining : raw_by_gz) : raw_by_gz :=
  let keep path := isfile d path && negb (bool_decide (path ∈ re_quarantine e)) &&
                   negb (on_entry entry_is_quarantine_terminal_skip (mjoin (entries d !! path))) &&
                   negb (bool_decide (path = "")) && re_aligned e path in
  filter (fun kv => kv.2 <> []) ((fun kv => (kv.1, filter (fun path => keep path = true) kv.2)) <$> remaining).

Definition remaining_raw_paths_blocking_tar_drop (e : answers) (d : day) : raw_by_gz * day :=
  if only_quarantine_terminal_on_disk d then ([], finalize_quarantine_terminal_done e d)
  else if verification_complete d then
    (match blocking_manifest_paths_on_disk e d with
     | [] => []
     | blocking => [(zst_path e, blocking)]
     end, d)
  else (filter_accrual_paths_blocking_tar_drop e d (re_scan e), d).

(** The tar is removed only when its day has no raw left. *)
Definition try_finish_tar_drop_if_ready (e : answers) (d : day) : bool * day :=
  match dy_tar d with
  | None => (true, d)
  | Some _ =>
      let '(zst, gz) := compressed_sibling_paths (re_tar_path e) in
      if negb (re_sealed_isfile e zst || re_sealed_isfile e gz)
      then (false, (remaining_raw_paths_blocking_tar_drop e d).2) (* asked for by the log line *)
      else
        let '(remaining, d) := remaining_raw_paths_blocking_tar_drop e d in
        if remaining_raw_has_paths_on_disk d remaining zst then (false, d)
        else if negb (re_drop e remaining) then (false, d)
        else
          let d := with_tar None d in
          (true, save_manifest (if decide (mf_phase (dy_manifest d) = PHASE_DONE) then d else set_done e d))
  end.

(** ** Reopening *)

Definition stale_done_all_skipped_still_on_disk (d : day) : bool :=
  if negb (delete_phase_done d) || (0 <? mf_verified (dy_manifest d)) then false
  else negb (bool_decide (verified_pending_paths_on_disk d = [])) ||
       ((mf_verified (dy_manifest d) =? 0) && existsb (isfile d) (dict_keys (entries d))).

Definition reopen_stale_done_all_skipped (d : day) : bool * day :=
  if negb (stale_done_all_skipped_still_on_disk d) then (false, d)
  else (true, save_manifest (on_manifest (fun mf => with_stage VERIFY_STAGE_NONE (with_phase PHASE_VERIFYING mf)) d)).

Definition reset_for_reverify (e : answers) (d : day) : day :=
  save_manifest (on_manifest (fun _ => new_manifest (re_now e)) d).

Definition reopen_done_with_blocking_raw_on_disk (e : answers) (d : day) : bool * day :=
  if negb (delete_phase_done d) then (false, d)
  else match on_disk d (entry_blocks_done e) with
       | [] => (false, d)
       | _ =>
           (true, save_manifest (on_manifest (fun mf =>
             let mf := with_phase PHASE_VERIFICATION_COMPLETE mf in
             let mf := if decide (mf_stage mf = VERIFY_STAGE_POST_SEAL) then with_stage VERIFY_STAGE_PRE_SEAL mf else mf in
             with_cycles (mf_cycles mf + 1) (with_completed None mf)) d))
       end.

Definition reopen_verify_if_tar_grew_since_verify (e : answers) (d : day) : bool * day :=
  match mf_tar_id (dy_manifest d) with
  | None => (false, d)
  | Some recorded =>
      if decide (mf_phase (dy_manifest d) ∉ [PHASE_VERIFICATION_COMPLETE; PHASE_DELETING; PHASE_DONE]) then (false, d)
      else match re_tar_identity e with
           | None => (false, d)
           | Some live =>
               if decide (live = recorded) then (false, d)
               else (true, save_manifest (on_manifest (fun mf =>
                      with_cursor 0 [] (with_tar_id None (with_stage VERIFY_STAGE_NONE (with_phase PHASE_VERIFYING mf)))) d))
           end
  end.

Definition reverify_exhausted (e : answers) (d : day) : bool := re_escalate_after e <? mf_cycles (dy_manifest d).

Definition note_sealed_archive_changed (d : day) : day :=
  if decide (mf_stage (dy_manifest d) <> VERIFY_STAGE_POST_SEAL) then d
  else save_manifest (on_manifest (with_stage VERIFY_STAGE_PRE_SEAL) d).

(** [entries.get(path)] of each ghost is popped of its delete marks. *)
Definition prepare_ghost_delete_retry (d : day) : bool * day :=
  match ghost_deleted_paths_on_disk d with
  | [] => (false, d)
  | ghosts =>
      let clear es path := match es !! path with
                           | Some (Some en) => <[path := Some (with_failed None (with_deleted false None en))]> es
                           | _ => es
                           end in
      (true, save_manifest (on_manifest (fun mf => with_phase PHASE_DELETING (with_entries (foldl clear (mf_entries mf) ghosts) mf)) d))
  end.

Definition reopen_delete_phase_if_verified_on_disk (d : day) : bool * day :=
  if negb (delete_phase_done d) || (manifest_verified_pending_count d =? 0)%nat then (false, d)
  else (true, save_manifest (on_manifest (with_phase PHASE_DELETING) d)).

Definition begin_deleting (e : answers) (d : day) : day :=
  let pending := negb (bool_decide (paths_pending_delete d = ∅)) || negb (bool_decide (blocking_manifest_paths_on_disk e d = [])) in
  if bool_decide (mf_phase (dy_manifest d) = PHASE_VERIFICATION_COMPLETE) ||
     (bool_decide (mf_phase (dy_manifest d) = PHASE_DONE) && pending)
  then save_manifest (on_manifest (with_phase PHASE_DELETING) d)
  else d.

(** ** Waiting on ingest *)

Definition manifest_only_waiting_on_ingest (d : day) : bool :=
  let l := snd <$> manifest_entries_on_disk d in
  existsb entry_is_retryable_skip l &&
  forallb (fun en => entry_is_retryable_skip en || entry_is_quarantine_terminal_skip en) l.

Definition only_waiting_on_ingest_blocks_completion (e : answers) (d : day) : bool :=
  if verification_complete d then manifest_only_waiting_on_ingest d
  else if decide (unmanifested_closed_raw_paths e d <> []) then false
  else
    let l := (fun path => mjoin (entries d !! path)) <$> filter (fun path => isfile d path = true) (closed_raw_paths_on_disk e d) in
    existsb (on_entry entry_is_retryable_skip) l &&
    forallb (fun v => on_entry entry_is_retryable_skip v || on_entry entry_is_quarantine_terminal_skip v) l.

Definition handoff_paths_for_ingest (e : answers) (d : day) : list string :=
  if delete_phase_done d || negb (re_allow_scoped e) || verification_complete d then manifest_retryable_paths_on_disk d
  else filter (fun path => isfile d path && match entries d !! path with
                                            | None => true
                                            | Some v => on_entry entry_is_retryable_skip v
                                            end = true) (closed_raw_paths_on_disk e d).

Definition should_handoff_day_close_to_ingest (e : answers) (d : day) : bool :=
  verification_complete d && only_waiting_on_ingest_blocks_completion e d &&
  negb (bool_decide (handoff_paths_for_ingest e d = [])).

(** Done is refused while a path on disk blocks. *)
Definition mark_done_waiting_on_ingest (e : answers) (d : day) : day :=
  if decide (handoff_paths_for_ingest e d = []) then d
  else if existsb (fun path => isfile d path && on_entry (entry_blocks_done e path) (mjoin (entries d !! path)))
            (closed_raw_paths_on_disk e d)
  then d
  else save_manifest (set_done e d).

Definition complete_handoff_to_ingest (e : answers) (d : day) : list string * day :=
  match handoff_paths_for_ingest e d with
  | [] => ([], d)
  | paths => (paths, if delete_phase_done d then d else mark_done_waiting_on_ingest e d)
  end.

Definition all_closed_raw_terminal_or_gone (e : answers) (d : day) : bool :=
  if verification_complete d && negb (delete_phase_done d)
  then bool_decide (on_disk d (entry_blocks_done e) = [])
  else forallb (fun path => negb (isfile d path) ||
                 match entries d !! path with
                 | Some (Some en) => negb (entry_blocks_done e path en)
                 | Some None => false (* not reached: [.get] would raise *)
                 | None => false
                 end) (closed_raw_paths_on_disk e d).

(** ** Verification *)

Definition record_entry (path daily_gz status reason : string) (d : day) : day :=
  let new := Entry path daily_gz status reason false (path_fingerprint d path) None None None in
  let put mf := with_entries (<[path := Some new]> (mf_entries mf)) mf in
  match entries d !! path with
  | Some (Some prior) =>
      if decide (en_status prior = "verified" \/ en_status prior = status) then d
      else on_manifest (fun mf =>
        put (if decide (status = "verified")
             then with_numbers (mf_verified mf + 1) (Z.max 0 (mf_skipped mf - 1)) (mf_deleted mf) mf
             else mf)) d
  | _ =>
      on_manifest (fun mf =>
        put (if decide (status = "verified")
             then with_numbers (mf_verified mf + 1) (mf_skipped mf) (mf_deleted mf) mf
             else with_numbers (mf_verified mf) (mf_skipped mf + 1) (mf_deleted mf) mf)) d
  end.

Definition record_verdicts (daily_gz : string) (l : list (string * string * string)) (d : day) : day :=
  foldl (fun d '(path, status, reason) => record_entry path daily_gz status reason d) d l.

(** Active segments and quarantined paths are recorded as such, the others remain. *)
Definition triage (e : answers) (raw_paths : list string) (d : day) : list string * day :=
  foldl (fun '(filtered, d) path =>
    if re_active e path then (filtered, record_entry path (zst_path e) "skipped_active_segment" "active_segment" d)
    else if decide (path ∈ re_quarantine e)
    then (filtered, record_entry path (zst_path e) "skipped_quarantine" "quarantine" d)
    else (filtered ++ [path], d)) ([], d) raw_paths.

Definition start_verifying (e : answers) (d : day) : day :=
  on_manifest (fun mf => let mf := with_phase PHASE_VERIFYING mf in
                         if mf_started mf =? 0 then with_started (re_now e) mf else mf) d.

Definition verify_body (e : answers) (d : day) : day :=
  if decide (mf_phase (dy_manifest d) ∈ [PHASE_DONE; PHASE_VERIFICATION_COMPLETE; PHASE_DELETING]) then d
  else
    let d := start_verifying e d in
    let '(filtered, d) := triage e (mjoin (snd <$> re_scan e)) d in
    let d := match filtered with
             | [] => d
             | _ => record_verdicts (zst_path e) (classify_removable_after_ok d (re_gate e) (re_sealed_valid e) filtered) d
             end in
    save_manifest (on_manifest (with_phase PHASE_VERIFICATION_COMPLETE) d).

Definition update_reconcile_progress (worker_stage : string) (members_done members_total last_progress_ts : option Z)
    (d : day) : day :=
  save_manifest (on_manifest (fun mf =>
    let '(ws, done, total, ts) := mf_progress mf in
    with_progress (if decide (worker_stage = "") then ws else worker_stage, default done members_done,
                   default total members_total, match last_progress_ts with Some t => Some t | None => ts end) mf) d).

Definition stats_path_candidates_for_tar_member (d : day) (member_name : string) : list string :=
  let name := py_strip member_name in
  if decide (name = "") then []
  else filter (fun path => isfile d path = true)
         (nub match name with
              | String c _ => if Ascii.eqb c slash then [name] else [path_join "/" name; name]
              | EmptyString => []
              end).

Definition pre_seal_raw_paths_for_classify (e : answers) (ms : members) (d : day) : list string :=
  let manifested := on_disk d (fun _ en => negb (entry_is_verified_ghost_on_disk en) && negb (entry_is_quarantine_terminal_skip en)) in
  let of_members := filter (fun path => re_aligned e path = true)
                      (mjoin (stats_path_candidates_for_tar_member d <$> dict_keys ms)) in
  let some path := negb (bool_decide (path = "")) in
  match nub (filter (fun path => some path = true) (manifested ++ blocking_manifest_paths_on_disk e d ++ of_members)) with
  | [] => if re_allow_scoped e then nub (filter (fun path => some path = true) (mjoin (snd <$> re_seed e))) else []
  | out => out
  end.

(** The result of [_gate_one]: a tuple, whose truth is not that of its second part. *)
Definition gate_one (gate : string -> bool) (path : string) : string * bool * string :=
  if gate path then (path, true, "") else (path, false, "not_head_tail_ingested").

(** [if ready:] on that result: a non-empty tuple is true. *)
Definition tuple_truthy {A B C} (t : A * B * C) : bool := true.

(** The ready and the skipped paths of a batch. *)
Definition gate_batch (e : answers) (gate : string -> bool) (batch : list string) : list string * list string :=
  match re_gate_ids e with
  | Some ready => (filter (fun p => ready p = true) batch, filter (fun p => ready p = false) batch)
  | None => let l := re_completed e batch in
            (filter (fun p => tuple_truthy (gate_one gate p) = true) l,
             filter (fun p => tuple_truthy (gate_one gate p) = false) l)
  end.

Definition classify_batch (e : answers) (ms : members) (batch : list string) (d : day) : day :=
  let '(paths, d) :=
    match re_gate e, batch with
    | Some gate, _ :: _ =>
        let '(ready, skipped) := gate_batch e gate batch in
        (ready, record_verdicts (zst_path e)
                  ((fun p => (p, "skipped_not_head_tail_ingested", "not_head_tail_ingested")) <$> skipped) d)
    | _, _ => (batch, d)
    end in
  record_verdicts (zst_path e) (classify_removable_after_ok d None (Some ms) paths) d.

(** The [while] loop: batches from the cursor on, until a limit or a shutdown; the
    number of batches run, the cursor, the state. *)
Fixpoint classify_loop (fuel : nat) (e : answers) (ms : members) (max_batches : option Z) (filtered : list string)
    (run cursor : nat) (d : day) : option (nat * nat * day) :=
  if (length filtered <=? cursor)%nat || re_shutdown e run ||
     match max_batches with Some n => n <=? Z.of_nat run | None => false end
  then Some (run, cursor, d)
  else
    match fuel with
    | O => None
    | S fuel =>
        let batch_end := Nat.min (cursor + Z.to_nat (Z.max 1 (re_paths_per_batch e))) (length filtered) in
        let d := classify_batch e ms (take (batch_end - cursor) (drop cursor filtered)) d in
        let d := save_manifest (on_manifest (fun mf => with_cursor (Z.of_nat batch_end) (mf_paths mf) mf) d) in
        classify_loop fuel e ms max_batches filtered (S run) batch_end d
    end.

(** The paths to classify: those of an earlier call, or a new list. *)
Definition classify_paths (e : answers) (ms : members) (d : day) : list string * day :=
  match mf_paths (dy_manifest d) with
  | (_ :: _) as cached => (cached, d)
  | [] =>
      let '(filtered, d) := triage e (pre_seal_raw_paths_for_classify e ms d) d in
      (filtered, save_manifest (on_manifest (fun mf => with_cursor (mf_index mf) filtered mf) d))
  end.

Definition finish_pre_seal (e : answers) (d : day) : day :=
  save_manifest (on_manifest (fun mf =>
    with_cursor 0 [] (with_tar_id (re_tar_identity e) (with_phase PHASE_VERIFICATION_COMPLETE (with_stage VERIFY_STAGE_PRE_SEAL mf)))) d).

(** [None] when the fuel of the loop runs out. *)
Definition pre_seal_verify_body (e : answers) (max_classify_batches : option Z) (d : day) : option (bool * day) :=
  if pre_seal_verification_complete d then Some (true, d)
  else
    let d := start_verifying e d in
    if negb (re_restored e) then Some (false, d)
    else match re_open_members e with
         | None => Some (false, d)
         | Some ms =>
             let '(filtered, d) := classify_paths e ms d in
             let cursor := if Z.of_nat (length filtered) <? mf_index (dy_manifest d) then 0 else mf_index (dy_manifest d) in
             '(run, cursor, d) ← classify_loop (S (length filtered)) e ms max_classify_batches filtered 0 (Z.to_nat cursor) d;
             if re_shutdown e run || (cursor <? length filtered)%nat then Some (false, d)
             else Some (true, finish_pre_seal e d)
         end.

Definition post_seal_verify_body (e : answers) (d : day) : bool * day :=
  if post_seal_verification_complete d then (true, d)
  else if re_parity e
  then (true, save_manifest (on_manifest (fun mf => with_cycles 0 (with_stage VERIFY_STAGE_POST_SEAL mf)) d))
  else (false, d).

(** ** Reclassification *)

Definition reclassify_verdict (e : answers) (acc : Z * day) (v : string * string * string) : Z * day :=
  let '(upgraded, d) := acc in
  let '(path, status, reason) := v in
  let prior := default "" (en_status <$> mjoin (entries d !! path)) in
  if decide (status = "verified") then
    if decide (prior = "verified") then (upgraded, d)
    else (upgraded + 1, record_entry path (zst_path e) status reason d)
  else if bool_decide (prior ∈ REPAIR_REQUIRED_STATUSES) && negb (bool_decide (status = prior))
  then (upgraded + 1, record_entry path (zst_path e) status reason d)
  else (upgraded, d).

Definition reclassify_retryable_skips_on_disk (e : answers) (d : day) : Z * day :=
  if decide (phase d ∉ [PHASE_DONE; PHASE_DELETING; PHASE_VERIFICATION_COMPLETE]) then (0, d)
  else
    let status_of path := default "" (en_status <$> mjoin (entries d !! path)) in
    let retryable := filter (fun path => status_of path <> "verified") (blocking_manifest_paths_on_disk e d) in
    let sealed_only := re_sealed_isfile e (zst_path e) && negb (match dy_tar d with Some z => 0 <? z | None => false end) in
    if decide (retryable = []) then (0, d)
    else if negb sealed_only && negb (re_restored e) then (0, d)
    else
      let verdicts :=
        match (if sealed_only then None else re_open_members e) with
        | Some ms => Some (classify_removable_after_ok d (re_gate e) (Some ms) retryable)
        | None =>
            let seal_invalid := filter (fun path => sealed_only = true \/ status_of path = "skipped_seal_invalid") retryable in
            if decide (seal_invalid = []) then None
            else if negb (re_sealed_isfile e (zst_path e)) then None
            else Some (classify_removable_after_ok d (re_gate e) (re_sealed_valid e) seal_invalid)
        end in
      match verdicts with
      | None => (0, d)
      | Some l =>
          let '(upgraded, d) := foldl (reclassify_verdict e) (0, d) l in
          (upgraded, if 0 <? upgraded then save_manifest d else d)
      end.

(** ** Deletion *)

Definition on_path (path : string) (f : entry -> entry) (d : day) : day :=
  on_manifest (fun mf =>
    match mf_entries mf !! path with
    | Some (Some en) => with_entries (<[path := Some (f en)]> (mf_entries mf)) mf
    | _ => mf
    end) d.

(** The members of the sealed archive on disk, by its stored map. *)
Definition sealed_members (e : answers) : option members :=
  let '(zst, gz) := compressed_sibling_paths (re_tar_path e) in
  if re_sealed_isfile e zst then re_sealed_lookup e zst
  else if re_sealed_isfile e gz then re_sealed_lookup e gz
  else None.

Definition delete_skip_paths (e : answers) (d : day) : gset string :=
  match re_ingest_active e with
  | Some active => active
  | None => re_quarantine e ∖ paths_pending_delete d
  end.

(** One turn of the loop: the deletions it counts, and the new state. *)
Definition delete_one (e : answers) (sealed : option members) (path : string) (d : day) : Z * day :=
  match entries d !! path with
  | Some (Some en) =>
      if negb (verified_pending en) then (0, d)
      else if negb (isfile d path) then (1, on_path path (with_deleted true (Some "already_absent")) d)
      else if decide (en_fp en <> path_fingerprint d path)
      then (0, on_path path (with_status "skipped_fingerprint_changed" "fingerprint_changed_before_delete") d)
      else if decide (path ∈ delete_skip_paths e d) then (0, on_path path (with_deferred "active_ingest") d)
      else match sealed with
           | None => (0, on_path path (with_deferred "sealed_copy_unproven") d)
           | Some ms =>
               if negb (raw_path_in_sealed_members d path ms)
               then (0, on_path path (with_status "skipped_not_in_archive" "not_in_sealed_archive_at_delete") d)
               else if negb (re_lock_free e path) then (0, on_path path (with_deferred "write_lock_contended") d)
               else match re_remove_error e path with
                    | Some err => (0, on_path path (with_failed (Some err)) d)
                    | None =>
                        let d := with_files (delete path (dy_files d)) d in
                        let d := on_path path (fun en => with_deleted true (en_delete_reason en) en) d in
                        (1, on_manifest (fun mf => with_numbers (mf_verified mf) (mf_skipped mf) (mf_deleted mf + 1) mf) d)
                    end
           end
  | _ => (0, d)
  end.

Fixpoint delete_loop (e : answers) (sealed : option members) (paths : list string) (deleted : Z) (d : day) : Z * day :=
  match paths with
  | [] => (deleted, d)
  | path :: paths =>
      if negb (re_max_deletes e =? 0) && (re_max_deletes e <=? deleted) then (deleted, d)
      else let '(n, d) := delete_one e sealed path d in delete_loop e sealed paths (deleted + n) d
  end.

Definition raw_delete_complete (d : day) : bool := (manifest_verified_pending_count d =? 0)%nat.

(** What follows the loop. *)
Definition finish_batch_delete (e : answers) (d : day) : day :=
  if negb (raw_delete_complete d) then save_manifest d
  else if negb (all_closed_raw_terminal_or_gone e d) then
    let only_waiting := only_waiting_on_ingest_blocks_completion e d in
    let unmanifested := unmanifested_closed_raw_paths e d in
    let '(has_closed, d) := if only_waiting then has_closed_raw_existing_on_disk e d else (false, d) in
    if only_waiting && has_closed then mark_done_waiting_on_ingest e d
    else match unmanifested with
         | _ :: _ => save_manifest (on_manifest (fun mf => with_stage VERIFY_STAGE_NONE (with_phase PHASE_VERIFYING mf)) d)
         | [] => save_manifest (on_manifest (with_phase PHASE_VERIFICATION_COMPLETE) d)
         end
  else
    let '(_, d) := remaining_raw_paths_blocking_tar_drop e d in
    let '(remaining, d) := remaining_raw_paths_blocking_tar_drop e d in
    let d := match dy_tar d with Some _ => if re_drop e remaining then with_tar None d else d | None => d end in
    save_manifest (set_done e d).

Definition apply_batch_delete (e : answers) (d : day) : Z * day :=
  let d := if needs_ghost_delete_retry d then (prepare_ghost_delete_retry d).2 else d in
  if decide (mf_phase (dy_manifest d) ∉ [PHASE_VERIFICATION_COMPLETE; PHASE_DELETING]) then (0, d)
  else
    let d := on_manifest (with_phase PHASE_DELETING) d in
    let '(deleted, d) := delete_loop e (sealed_members e) (merge_sort String.le (dict_keys (entries d))) 0 d in
    (deleted, finish_batch_delete e d).

(** ** Opening *)

(** [_load_manifest]: a new manifest when none is stored. *)
Definition open_day (now : Z) (stored : option manifest) (files : gmap string fingerprint) (tar : option Z) : day :=
  let mf := default (new_manifest now) stored in Day mf mf files tar.

(** [_get_or_create_day]: the checks at every lookup, and at the first one. *)
Definition get_cached_day (e : answers) (d : day) : day := (reopen_verify_if_tar_grew_since_verify e d).2.
Definition get_new_day (e : answers) (d : day) : day :=
  let '(reopened, d) := reopen_verify_if_tar_grew_since_verify e d in
  if reopened then d else (reopen_done_with_blocking_raw_on_disk e d).2.
