(* ===== verification/RawRemovalSpec.v ===== *)
(** Correctness of the removal of raw files: a file is deleted only against the sealed
    archive on disk, a pass that is interrupted is resumed, a day is done only when
    nothing blocks, verification in batches is verification at once. *)
From S2P Require Import Prelude PyDict PyStr PosixPath SealedMap RawRemoval.
Local Open Scope Z_scope.

(** ** What one turn does *)

(** The file may go: verified, unchanged since, not being ingested, a same-size member
    of the sealed archive, and removable. *)
Definition deletable (e : answers) (sealed : option members) (d : day) (path : string) : Prop :=
  exists en fp ms, entries d !! path = Some (Some en) /\ verified_pending en = true /\
    dy_files d !! path = Some fp /\ en_fp en = Some fp /\ (path ∉ delete_skip_paths e d) /\
    sealed = Some ms /\ ms !! lstrip_slash path = Some (fp.2) /\ re_lock_free e path = true /\
    re_remove_error e path = None.

Lemma on_path_files path f d : dy_files (on_path path f d) = dy_files d.
Proof. done. Qed.

Lemma entries_on_path path f d p :
  entries (on_path path f d) !! p =
    if decide (p = path) then fmap f <$> entries d !! path else entries d !! p.
Proof.
  unfold entries, on_path, on_manifest. cbn [dy_manifest].
  destruct (mf_entries (dy_manifest d) !! path) as [[en|]|] eqn:E; cbn.
  - rewrite dict_lookup_insert. repeat case_decide; by subst.
  - case_decide; [subst; by rewrite E|done].
  - case_decide; [subst; by rewrite E|done].
Qed.

Lemma delete_one_files e sealed path d :
  (deletable e sealed d path /\ dy_files (delete_one e sealed path d).2 = delete path (dy_files d) /\
   (delete_one e sealed path d).1 = 1) \/
  (~ deletable e sealed d path /\ dy_files (delete_one e sealed path d).2 = dy_files d).
Proof.
  unfold delete_one. destruct (entries d !! path) as [[en|]|] eqn:Een.
  2,3: right; split; [intros (? & ? & ? & E & _); congruence|done].
  destruct (verified_pending en) eqn:Ev; cbn [negb].
  2: right; split; [intros (? & ? & ? & E & ? & _); congruence|done].
  unfold isfile, path_fingerprint. destruct (dy_files d !! path) as [fp|] eqn:Ef; cbn.
  2: right; split; [intros (? & ? & ? & _ & _ & E & _); congruence|done].
  destruct (decide (en_fp en <> Some fp)) as [Hfp|Hfp].
  { right; split; [intros (en' & fp' & ? & E1 & _ & E2 & E3 & _); congruence|done]. }
  apply dec_stable in Hfp. destruct (decide (path ∈ delete_skip_paths e d)) as [Hs|Hs].
  { right; split; [intros (? & ? & ? & _ & _ & _ & _ & ? & _); congruence|done]. }
  destruct sealed as [ms|].
  2: right; split; [intros (? & ? & ? & _ & _ & _ & _ & _ & ? & _); congruence|done].
  unfold raw_path_in_sealed_members, getsize. rewrite Ef. cbn.
  destruct (ms !! lstrip_slash path) as [z|] eqn:Em; cbn.
  2: right; split; [intros (? & ? & ? & _ & _ & _ & _ & _ & E & ? & _); congruence|done].
  destruct (bool_decide_reflect (Some (fp.2) = Some z)) as [Hz|Hz]; cbn.
  2: { right; split; [|done]. intros (? & ? & ? & _ & _ & E1 & _ & _ & E & E2 & _). simplify_eq. }
  destruct (re_lock_free e path) eqn:El; cbn.
  2: right; split; [intros (? & ? & ? & _ & _ & _ & _ & _ & _ & _ & ? & _); congruence|done].
  destruct (re_remove_error e path) eqn:Ee.
  { right; split; [intros (? & ? & ? & _ & _ & _ & _ & _ & _ & _ & _ & ?); congruence|done]. }
  left. split; [|done]. exists en, fp, ms. rewrite <- Hz in Em. split_and!; done.
Qed.

(** A turn on another path leaves a path's entry and file alone. *)
Lemma delete_one_entry e sealed path d p :
  p <> path -> entries (delete_one e sealed path d).2 !! p = entries d !! p.
Proof.
  intros Hne. unfold delete_one. destruct (entries d !! path) as [[en|]|]; [|done..].
  destruct (negb _); [done|]. destruct (negb _); [by cbn; rewrite entries_on_path, decide_False|].
  destruct (decide _); [by cbn; rewrite entries_on_path, decide_False|].
  destruct (decide _); [by cbn; rewrite entries_on_path, decide_False|].
  destruct sealed as [ms|]; [|by cbn; rewrite entries_on_path, decide_False].
  destruct (negb _); [by cbn; rewrite entries_on_path, decide_False|].
  destruct (negb _); [by cbn; rewrite entries_on_path, decide_False|].
  destruct (re_remove_error e path); [by cbn; rewrite entries_on_path, decide_False|].
  cbn. transitivity (entries (on_path path (fun en => with_deleted true (en_delete_reason en) en)
    (with_files (delete path (dy_files d)) d)) !! p); [done|]. by rewrite entries_on_path, decide_False.
Qed.

Lemma delete_one_file e sealed path d p :
  p <> path -> dy_files (delete_one e sealed path d).2 !! p = dy_files d !! p.
Proof.
  intros Hne. destruct (delete_one_files e sealed path d) as [(_ & -> & _)|[_ ->]]; [|done].
  by rewrite lookup_delete_ne.
Qed.

(** [p] was deleted at a state in which it was as it is in [d], and could be. *)
Definition deleted_from (e : answers) (sealed : option members) (d : day) (p : string) : Prop :=
  exists dx, entries dx !! p = entries d !! p /\ dy_files dx !! p = dy_files d !! p /\ deletable e sealed dx p.

Lemma delete_loop_out e sealed paths n d p :
  p ∉ paths ->
  entries (delete_loop e sealed paths n d).2 !! p = entries d !! p /\
  dy_files (delete_loop e sealed paths n d).2 !! p = dy_files d !! p.
Proof.
  revert n d. induction paths as [|q paths IH]; intros n d Hp; [done|].
  apply not_elem_of_cons in Hp as [Hne Hp]. cbn [delete_loop]. destruct (negb _ && _); [done|].
  pose proof (delete_one_entry e sealed q d p Hne) as He. pose proof (delete_one_file e sealed q d p Hne) as Hf.
  destruct (delete_one e sealed q d) as [k d1]. cbn [fst snd] in *. rewrite <- He, <- Hf. by apply IH.
Qed.

Lemma delete_loop_file e sealed paths n d p :
  NoDup paths ->
  let d' := (delete_loop e sealed paths n d).2 in
  dy_files d' !! p = dy_files d !! p \/ (dy_files d' !! p = None /\ deleted_from e sealed d p).
Proof.
  intros Hnd. revert n d. induction Hnd as [|q paths Hq Hnd IH]; intros n d; [by left|]. cbn [delete_loop].
  destruct (negb _ && _); [by left|]. pose proof (delete_one_entry e sealed q d p) as He.
  pose proof (delete_one_file e sealed q d p) as Hf.
  destruct (delete_one_files e sealed q d) as [(Hd & Eq & _)|[Hd Eq]];
    destruct (delete_one e sealed q d) as [k d1]; cbn [fst snd] in *.
  - destruct (decide (p = q)) as [->|Hne].
    + right. split; [|by exists d].
      destruct (IH (n + k) d1) as [->|[-> _]]; [|done]. by rewrite Eq, lookup_delete_eq.
    + destruct (IH (n + k) d1) as [->|[-> (dx & E1 & E2 & E3)]]; [left; by apply Hf|right].
      split; [done|]. exists dx. by rewrite E1, E2, He, Hf.
  - rewrite <- Eq. destruct (decide (p = q)) as [->|Hne].
    + destruct (IH (n + k) d1) as [->|[E (dx & E1 & E2 & E3)]]; [by left|].
      left. rewrite E. destruct (dy_files d1 !! q) eqn:Efq; [|done]. exfalso.
      destruct (delete_loop_out e sealed paths (n + k) d1 q Hq) as [_ Hk].
      congruence.
    + destruct (IH (n + k) d1) as [->|[-> (dx & E1 & E2 & E3)]]; [by left|right].
      split; [done|]. exists dx. by rewrite E1, E2, He, Eq.
Qed.

(** Each file removed is counted, and the count stops at the limit. *)
Lemma delete_loop_count e sealed paths n d :
  let '(n', d') := delete_loop e sealed paths n d in
  Z.of_nat (size (dy_files d)) - Z.of_nat (size (dy_files d')) <= n' - n /\
  (0 < re_max_deletes e -> n <= re_max_deletes e -> n' <= re_max_deletes e).
Proof.
  revert n d. induction paths as [|q paths IH]; intros n d; cbn [delete_loop]; [lia|].
  destruct (negb _ && _) eqn:Em; [lia|].
  assert (0 <= (delete_one e sealed q d).1 <= 1) as Hk.
  { unfold delete_one. repeat first [case_match | progress cbn]; lia. }
  assert (Z.of_nat (size (dy_files d)) - Z.of_nat (size (dy_files (delete_one e sealed q d).2)) <= (delete_one e sealed q d).1) as Hs.
  { destruct (delete_one_files e sealed q d) as [(_ & -> & ->)|[_ ->]]; [|lia].
    rewrite map_size_delete. destruct (dy_files d !! q); simpl; lia. }
  destruct (delete_one e sealed q d) as [k d1]. cbn [fst snd] in *. specialize (IH (n + k) d1).
  destruct (delete_loop e sealed paths (n + k) d1) as [n' d2]. destruct IH as [IH1 IH2].
  split; [lia|]. intros Hm Hn. apply IH2; [done|].
  apply andb_false_iff in Em as [Em|Em]; [apply negb_false_iff in Em; lia|lia].
Qed.

(** ** What surrounds the loop *)

(** Neither touches a raw file. *)
Lemma finalize_files e d : dy_files (finalize_quarantine_terminal_done e d) = dy_files d.
Proof. unfold finalize_quarantine_terminal_done. by destruct (delete_phase_done d). Qed.

Lemma remaining_files e d : dy_files (remaining_raw_paths_blocking_tar_drop e d).2 = dy_files d.
Proof.
  unfold remaining_raw_paths_blocking_tar_drop. destruct (only_quarantine_terminal_on_disk d); [apply finalize_files|].
  by destruct (verification_complete d).
Qed.

Lemma has_closed_files e d : dy_files (has_closed_raw_existing_on_disk e d).2 = dy_files d.
Proof.
  unfold has_closed_raw_existing_on_disk. destruct (only_quarantine_terminal_on_disk d); [apply finalize_files|done].
Qed.

Lemma mark_done_files e d : dy_files (mark_done_waiting_on_ingest e d) = dy_files d.
Proof. unfold mark_done_waiting_on_ingest. destruct (decide _); [done|]. by destruct (existsb _ _). Qed.

Lemma finish_files e d : dy_files (finish_batch_delete e d) = dy_files d.
Proof.
  unfold finish_batch_delete. destruct (negb (raw_delete_complete d)); [done|].
  destruct (negb (all_closed_raw_terminal_or_gone e d)).
  - pose proof (has_closed_files e d) as Hc. destruct (has_closed_raw_existing_on_disk e d) as [hc d1]. cbn in Hc.
    destruct (only_waiting_on_ingest_blocks_completion e d); cbn [andb].
    + destruct hc; [by rewrite mark_done_files|]. by destruct (unmanifested_closed_raw_paths e d).
    + by destruct (unmanifested_closed_raw_paths e d).
  - pose proof (remaining_files e d) as Hr1. destruct (remaining_raw_paths_blocking_tar_drop e d) as [r1 d1]. cbn in Hr1.
    pose proof (remaining_files e d1) as Hr2. destruct (remaining_raw_paths_blocking_tar_drop e d1) as [r2 d2]. cbn in Hr2.
    rewrite <- Hr1, <- Hr2. destruct (dy_tar d2); [|done]. by destruct (re_drop e r2).
Qed.

(** An entry keeps what makes it deletable when a ghost is retried. *)
Definition evidence (v : option (option entry)) : option (option (string * string * option fingerprint)) :=
  (fun w : option entry => (fun en => (en_path en, en_status en, en_fp en)) <$> w) <$> v.

Definition clear_ghost (es : dict string (option entry)) (path : string) : dict string (option entry) :=
  match es !! path with
  | Some (Some en) => <[path := Some (with_failed None (with_deleted false None en))]> es
  | _ => es
  end.

Lemma clear_ghosts_evidence l es p : evidence (foldl clear_ghost es l !! p) = evidence (es !! p).
Proof.
  revert es. induction l as [|q l IH]; intros es; [done|]. cbn [foldl]. rewrite IH. unfold clear_ghost.
  destruct (es !! q) as [[en|]|] eqn:E; [|done..]. rewrite dict_lookup_insert. case_decide; [subst; by rewrite E|done].
Qed.

Lemma clear_ghosts_wf l es : dict_wf es -> dict_wf (foldl clear_ghost es l).
Proof.
  revert es. induction l as [|q l IH]; intros es Hw; [done|]. cbn [foldl]. apply IH. unfold clear_ghost.
  destruct (es !! q) as [[en|]|]; [by apply dict_wf_insert|done..].
Qed.

Definition after_ghosts (d : day) : day :=
  if needs_ghost_delete_retry d then (prepare_ghost_delete_retry d).2 else d.

Lemma after_ghosts_spec d :
  dy_files (after_ghosts d) = dy_files d /\ dy_tar (after_ghosts d) = dy_tar d /\
  (forall p, evidence (entries (after_ghosts d) !! p) = evidence (entries d !! p)) /\
  (dict_wf (entries d) -> dict_wf (entries (after_ghosts d))).
Proof.
  unfold after_ghosts, prepare_ghost_delete_retry. destruct (needs_ghost_delete_retry d); [|done].
  destruct (ghost_deleted_paths_on_disk d) as [|g gs]; [done|]. split_and!; [done..| |].
  - intros p. unfold entries. cbn [snd save_manifest on_manifest dy_manifest with_phase with_entries mf_entries].
    apply clear_ghosts_evidence.
  - apply clear_ghosts_wf.
Qed.

Lemma sorted_keys_NoDup (es : dict string (option entry)) :
  dict_wf es -> NoDup (merge_sort String.le (dict_keys es)).
Proof. intros Hw. by rewrite merge_sort_Permutation. Qed.

Lemma apply_batch_delete_eq e d :
  apply_batch_delete e d =
    let d1 := after_ghosts d in
    if decide (mf_phase (dy_manifest d1) ∉ [PHASE_VERIFICATION_COMPLETE; PHASE_DELETING]) then (0, d1)
    else
      let '(n, d2) := delete_loop e (sealed_members e) (merge_sort String.le (dict_keys (entries d1))) 0
                        (on_manifest (with_phase PHASE_DELETING) d1) in
      (n, finish_batch_delete e d2).
Proof. done. Qed.

(** What a deletion is founded on. *)
Lemma deleted_evidence e d path fp :
  dict_wf (entries d) ->
  dy_files d !! path = Some fp -> dy_files (apply_batch_delete e d).2 !! path <> Some fp ->
  dy_files (apply_batch_delete e d).2 !! path = None /\
  exists en ms, entries d !! path = Some (Some en) /\ en_status en = "verified" /\ en_fp en = Some fp /\
    sealed_members e = Some ms /\ ms !! lstrip_slash path = Some (fp.2) /\ re_lock_free e path = true /\
    match re_ingest_active e with Some active => path ∉ active | None => True end.
Proof.
  intros Hw. rewrite apply_batch_delete_eq. cbv zeta.
  destruct (after_ghosts_spec d) as (Hf & _ & Hev & Hwf). destruct (decide _) as [_|_]; [cbn [snd]; rewrite Hf; congruence|].
  set (d1 := on_manifest (with_phase PHASE_DELETING) (after_ghosts d)).
  set (keys := merge_sort String.le (dict_keys (entries (after_ghosts d)))).
  pose proof (delete_loop_file e (sealed_members e) keys 0 d1 path (sorted_keys_NoDup _ (Hwf Hw))) as Hl.
  destruct (delete_loop e (sealed_members e) keys 0 d1) as [n d2]. cbn [snd] in *. rewrite finish_files.
  assert (dy_files d1 = dy_files d) as Ef by (rewrite <- Hf; done). rewrite Ef in Hl. cbn [snd] in Hl.
  intros Hp Hne. destruct Hl as [Hl|[Hl (dx & E1 & E2 & en & fp' & ms & D1 & D2 & D3 & D4 & D5 & D6 & D7 & D8 & _)]]; [congruence|].
  split; [done|]. assert (fp' = fp) as -> by congruence.
  pose proof (Hev path) as He. change (entries (after_ghosts d) !! path) with (entries d1 !! path) in He.
  rewrite <- E1, D1 in He. destruct (entries d !! path) as [[en0|]|]; [|done..]. cbn in He. simplify_eq.
  apply andb_true_iff in D2 as [D2%bool_decide_eq_true _].
  exists en0, ms. split_and!; [done|congruence|congruence|done|done|done|].
  unfold delete_skip_paths in D5. by destruct (re_ingest_active e).
Qed.

(** A file that is not there does not appear, and the limit holds. *)
Lemma pass_only_removes e d :
  dict_wf (entries d) ->
  (forall path, dy_files d !! path = None -> dy_files (apply_batch_delete e d).2 !! path = None) /\
  (0 < re_max_deletes e -> Z.of_nat (size (dy_files d)) - Z.of_nat (size (dy_files (apply_batch_delete e d).2)) <= re_max_deletes e).
Proof.
  intros Hw. rewrite apply_batch_delete_eq. cbv zeta.
  destruct (after_ghosts_spec d) as (Hf & _ & _ & Hwf). destruct (decide _) as [_|_]; [cbn [snd]; rewrite Hf; split; [done|lia]|].
  set (d1 := on_manifest (with_phase PHASE_DELETING) (after_ghosts d)).
  set (keys := merge_sort String.le (dict_keys (entries (after_ghosts d)))).
  pose proof (fun path => delete_loop_file e (sealed_members e) keys 0 d1 path (sorted_keys_NoDup _ (Hwf Hw))) as Hl.
  pose proof (delete_loop_count e (sealed_members e) keys 0 d1) as Hc.
  destruct (delete_loop e (sealed_members e) keys 0 d1) as [n d2]. cbn [snd] in *. rewrite finish_files.
  assert (dy_files d1 = dy_files d) as Ef by (rewrite <- Hf; done). rewrite Ef in Hl, Hc. split.
  - intros path Hp. destruct (Hl path) as [->|[-> _]]; done.
  - intros Hm. destruct Hc as [Hc1 Hc2]. specialize (Hc2 Hm ltac:(lia)). lia.
Qed.


(** ** The loop, path by path *)

(** An entry is stored under the path it names, which is not empty ([record_entry]). *)
Definition paths_ok (d : day) : Prop :=
  forall p en, entries d !! p = Some (Some en) -> en_path en = p /\ p <> "".

Lemma pending_elem d p en :
  paths_ok d -> entries d !! p = Some (Some en) -> verified_pending en = true -> p ∈ paths_pending_delete d.
Proof.
  intros Hok Hp Hv. destruct (Hok p en Hp) as [E Hne]. unfold paths_pending_delete.
  apply elem_of_list_to_set, list_elem_of_omap. exists (Some en). split.
  - apply list_elem_of_fmap. exists (p, Some en). split; [done|]. by apply dict_lookup_elem.
  - cbn. rewrite Hv, E. by rewrite bool_decide_eq_false_2.
Qed.

(** A pending path is skipped only when it is being ingested. *)
Lemma pending_skip e d p en :
  paths_ok d -> entries d !! p = Some (Some en) -> verified_pending en = true ->
  p ∈ delete_skip_paths e d <-> match re_ingest_active e with Some active => p ∈ active | None => False end.
Proof.
  intros Hok Hp Hv. unfold delete_skip_paths. destruct (re_ingest_active e); [done|].
  pose proof (pending_elem d p en Hok Hp Hv). set_solver.
Qed.

(** A turn depends on the path's entry and file only. *)
Lemma delete_one_local e sealed p d1 d2 :
  paths_ok d1 -> paths_ok d2 -> entries d1 !! p = entries d2 !! p -> dy_files d1 !! p = dy_files d2 !! p ->
  entries (delete_one e sealed p d1).2 !! p = entries (delete_one e sealed p d2).2 !! p /\
  dy_files (delete_one e sealed p d1).2 !! p = dy_files (delete_one e sealed p d2).2 !! p.
Proof.
  intros Hok1 Hok2 He Hf. unfold delete_one, isfile, path_fingerprint, raw_path_in_sealed_members, getsize.
  rewrite <- He, <- Hf. destruct (entries d1 !! p) as [[en|]|] eqn:E1; cbn; [|by rewrite <- He, <- Hf, E1..].
  destruct (verified_pending en) eqn:Ev; cbn; [|by rewrite <- He, <- Hf, E1].
  assert (p ∈ delete_skip_paths e d1 <-> p ∈ delete_skip_paths e d2) as Hs
    by (rewrite (pending_skip e d1 p en), (pending_skip e d2 p en) by done; done).
  assert (forall f, entries (on_path p f d1) !! p = entries (on_path p f d2) !! p /\
                    dy_files (on_path p f d1) !! p = dy_files (on_path p f d2) !! p) as Hon.
  { intros f. split; [|exact Hf]. rewrite !entries_on_path, !decide_True by done. by rewrite <- He, E1. }
  destruct (dy_files d1 !! p) as [fp|]; cbn; [|apply Hon].
  destruct (decide (en_fp en <> Some fp)); [apply Hon|].
  destruct (decide (p ∈ delete_skip_paths e d1)), (decide (p ∈ delete_skip_paths e d2)); [apply Hon|tauto..|].
  destruct sealed as [ms|]; [|apply Hon].
  destruct (match ms !! lstrip_slash p with None => false | Some z => _ end); cbn; [|apply Hon].
  destruct (re_lock_free e p); cbn; [|apply Hon].
  destruct (re_remove_error e p); cbn; [apply Hon|].
  rewrite !lookup_delete_eq. split; [|done]. apply Hon.
Qed.

Lemma paths_ok_on_path p f d : (forall en, en_path (f en) = en_path en) -> paths_ok d -> paths_ok (on_path p f d).
Proof.
  intros Hf Hok q en. rewrite entries_on_path. destruct (decide (q = p)) as [->|]; [|apply Hok].
  destruct (entries d !! p) as [[en0|]|] eqn:E; cbn; intros; simplify_eq. rewrite Hf. by apply Hok.
Qed.

Lemma delete_one_paths_ok e sealed p d : paths_ok d -> paths_ok (delete_one e sealed p d).2.
Proof.
  intros Hok. unfold delete_one. destruct (entries d !! p) as [[en|]|]; [|done..].
  destruct (negb _); [done|]. destruct (negb _); [by apply paths_ok_on_path|].
  destruct (decide _); [by apply paths_ok_on_path|]. destruct (decide _); [by apply paths_ok_on_path|].
  destruct sealed as [ms|]; [|by apply paths_ok_on_path]. destruct (negb _); [by apply paths_ok_on_path|].
  destruct (negb _); [by apply paths_ok_on_path|]. destruct (re_remove_error e p); [by apply paths_ok_on_path|].
  cbn. intros q en'. change (entries _) with (entries (on_path p (fun en => with_deleted true (en_delete_reason en) en)
    (with_files (delete p (dy_files d)) d))) at 1. revert q en'. by apply paths_ok_on_path.
Qed.

(** Without a limit every path has its turn, as if alone. *)
Lemma delete_loop_each e sealed paths n d p :
  re_max_deletes e = 0 -> NoDup paths -> paths_ok d -> p ∈ paths ->
  entries (delete_loop e sealed paths n d).2 !! p = entries (delete_one e sealed p d).2 !! p /\
  dy_files (delete_loop e sealed paths n d).2 !! p = dy_files (delete_one e sealed p d).2 !! p.
Proof.
  intros Hm Hnd. revert n d. induction Hnd as [|q paths Hq Hnd IH]; intros n d Hok Hp; [by apply elem_of_nil in Hp|].
  cbn [delete_loop]. rewrite Hm. cbn [Z.eqb negb andb].
  pose proof (delete_one_paths_ok e sealed q d Hok) as Hok1.
  destruct (decide (p = q)) as [->|Hne].
  - destruct (delete_one e sealed q d) as [k d1]. cbn [snd]. by apply delete_loop_out.
  - apply elem_of_cons in Hp as [|Hp]; [done|].
    pose proof (delete_one_local e sealed p (delete_one e sealed q d).2 d Hok1 Hok
      (delete_one_entry e sealed q d p Hne) (delete_one_file e sealed q d p Hne)) as [El Fl].
    destruct (delete_one e sealed q d) as [k d1]. cbn [snd] in *. rewrite <- El, <- Fl. by apply IH.
Qed.

(** ** Done *)

Lemma elem_entries_on_disk d p en :
  dict_wf (entries d) -> (p, en) ∈ manifest_entries_on_disk d <-> entries d !! p = Some (Some en) /\ isfile d p = true.
Proof.
  intros Hw. unfold manifest_entries_on_disk. rewrite list_elem_of_omap. split.
  - intros ([q v] & Hq & E). apply dict_items_lookup in Hq; [|done]. cbn in E.
    destruct (isfile d q) eqn:Ei; [|done]. destruct v as [en'|]; cbn in E; [|done]. by simplify_eq.
  - intros [Hp Hi]. exists (p, Some en). split; [by apply dict_lookup_elem|]. cbn. by rewrite Hi.
Qed.

Lemma on_disk_nil d f :
  dict_wf (entries d) ->
  on_disk d f = [] <-> forall p en, entries d !! p = Some (Some en) -> isfile d p = true -> f p en = false.
Proof.
  intros Hw. unfold on_disk. split.
  - intros E p en Hp Hi. apply fmap_nil_inv in E. apply not_true_is_false. intros Ht.
    assert ((p, en) ∈ filter (fun pe => f pe.1 pe.2 = true) (manifest_entries_on_disk d)) as Hin
      by (apply list_elem_of_filter; split; [done|by apply elem_entries_on_disk]).
    rewrite E in Hin. by apply elem_of_nil in Hin.
  - intros Ha. destruct (filter _ _) as [|[p en] l] eqn:E; [done|]. exfalso.
    assert ((p, en) ∈ filter (fun pe => f pe.1 pe.2 = true) (manifest_entries_on_disk d)) as Hin by (rewrite E; left).
    apply list_elem_of_filter in Hin as [Ht Hin]. apply elem_entries_on_disk in Hin as [Hp Hi]; [|done]. cbn in Ht.
    rewrite (Ha p en Hp Hi) in Ht. done.
Qed.

Lemma raw_delete_complete_iff d :
  dict_wf (entries d) ->
  raw_delete_complete d = true <-> forall p en, entries d !! p = Some (Some en) -> verified_pending en = false.
Proof.
  intros Hw. unfold raw_delete_complete, manifest_verified_pending_count. rewrite Nat.eqb_eq, length_zero_iff_nil. split.
  - intros E p en Hp. apply not_true_is_false. intros Ht.
    assert (Some en ∈ filter (fun v => on_entry verified_pending v = true) (dict_values (entries d))) as Hin.
    { apply list_elem_of_filter. split; [done|]. apply list_elem_of_fmap. exists (p, Some en).
      split; [done|]. by apply dict_lookup_elem. }
    rewrite E in Hin. by apply elem_of_nil in Hin.
  - intros Ha. destruct (filter _ _) as [|v l] eqn:E; [done|]. exfalso.
    assert (v ∈ filter (fun v => on_entry verified_pending v = true) (dict_values (entries d))) as Hin by (rewrite E; left).
    apply list_elem_of_filter in Hin as [Ht Hin]. apply list_elem_of_fmap in Hin as ([p v'] & -> & Hp).
    apply dict_items_lookup in Hp; [|done]. destruct v' as [en|]; [|done]. cbn in Ht. by rewrite (Ha p en Hp) in Ht.
Qed.

(** A pass that has run to its end: what keeps the day from being done. *)
Definition clear_day (e : answers) (d : day) : Prop :=
  raw_delete_complete d = true /\ on_disk d (entry_blocks_done e) = [].

Definition deleting (d : day) : Prop := mf_phase (dy_manifest d) = PHASE_DELETING.

Lemma deleting_flags d :
  deleting d -> verification_complete d = true /\ delete_phase_done d = false.
Proof. unfold deleting, verification_complete, delete_phase_done, phase. intros ->. done. Qed.

Lemma quarantine_only_clear e d :
  only_quarantine_terminal_on_disk d = true -> on_disk d (entry_blocks_done e) = [].
Proof.
  unfold only_quarantine_terminal_on_disk, on_disk.
  assert (forall l, forallb (fun pe : string * entry => entry_is_quarantine_terminal_skip pe.2) l = true ->
    filter (fun pe => entry_blocks_done e pe.1 pe.2 = true) l = []) as Hl.
  { induction l as [|pe l IH]; [done|]. cbn [forallb]. intros [Hq Hl]%andb_true_iff. rewrite filter_cons_False; [by apply IH|].
    unfold entry_blocks_done. by rewrite Hq. }
  destruct (manifest_entries_on_disk d) as [|pe l] eqn:E; [done|]. intros Hq. by rewrite Hl.
Qed.

Lemma elem_on_disk d f p :
  dict_wf (entries d) ->
  p ∈ on_disk d f <-> exists en, entries d !! p = Some (Some en) /\ isfile d p = true /\ f p en = true.
Proof.
  intros Hw. unfold on_disk. rewrite list_elem_of_fmap. split.
  - intros ([q en] & -> & [Ht Hq%elem_entries_on_disk]%list_elem_of_filter); [|done]. exists en. naive_solver.
  - intros (en & Hp & Hi & Ht). exists (p, en). split; [done|]. apply list_elem_of_filter.
    split; [done|]. by apply elem_entries_on_disk.
Qed.

Lemma elem_nub (x : string) l : x ∈ nub l <-> x ∈ l.
Proof.
  unfold nub. rewrite list_elem_of_In, <- in_rev, <- list_elem_of_In.
  assert (forall acc, x ∈ foldl (fun acc x => if decide (x ∈ acc) then acc else x :: acc) acc l <-> x ∈ acc \/ x ∈ l) as H.
  { induction l as [|y l IH]; intros acc; cbn [foldl]; [set_solver|]. rewrite IH. case_decide; set_solver. }
  rewrite H. set_solver.
Qed.

(** A day that waits on ingest and has a blocking entry has it among its closed raw. *)
Lemma waiting_has_blocker e d :
  dict_wf (entries d) -> manifest_only_waiting_on_ingest d = true -> deleting d ->
  on_disk d (entry_blocks_done e) <> [] ->
  existsb (fun path => isfile d path && on_entry (entry_blocks_done e path) (mjoin (entries d !! path)))
    (closed_raw_paths_on_disk e d) = true.
Proof.
  intros Hwf Hw Hd Hb. apply existsb_exists.
  destruct (on_disk d (entry_blocks_done e)) as [|p l] eqn:E; [done|].
  assert (p ∈ on_disk d (entry_blocks_done e)) as Hp by (rewrite E; left).
  apply elem_on_disk in Hp as (en & Hl & Hi & Ht); [|done].
  exists p. rewrite Hi, Hl. split; [|exact Ht]. apply list_elem_of_In. unfold closed_raw_paths_on_disk.
  destruct (deleting_flags d Hd) as [-> ->]. apply elem_nub, elem_of_app. right. apply elem_on_disk; [done|].
  exists en. split_and!; [done..|]. apply andb_true_iff in Hw as [_ Hw]. rewrite forallb_forall in Hw.
  specialize (Hw en). apply orb_true_iff in Hw as [|Hq]; [done| |].
  - unfold entry_blocks_done in Ht. by rewrite Hq in Ht.
  - apply list_elem_of_In, list_elem_of_fmap. exists (p, en). split; [done|]. by apply elem_entries_on_disk.
Qed.

Lemma all_terminal_iff e d :
  deleting d -> all_closed_raw_terminal_or_gone e d = true <-> on_disk d (entry_blocks_done e) = [].
Proof.
  intros Hd. unfold all_closed_raw_terminal_or_gone. destruct (deleting_flags d Hd) as [-> ->]. apply bool_decide_eq_true.
Qed.

Lemma remaining_manifest e d :
  entries (remaining_raw_paths_blocking_tar_drop e d).2 = entries d.
Proof.
  unfold remaining_raw_paths_blocking_tar_drop, finalize_quarantine_terminal_done.
  destruct (only_quarantine_terminal_on_disk d); [by destruct (delete_phase_done d)|by destruct (verification_complete d)].
Qed.

(** The end of a pass: done exactly when the day is clear, and then it is saved. *)
Lemma finish_batch_delete_spec e d :
  dict_wf (entries d) -> deleting d ->
  let d' := finish_batch_delete e d in
  entries d' = entries d /\
  (mf_phase (dy_manifest d') = PHASE_DONE <-> clear_day e d) /\
  (mf_phase (dy_manifest d') = PHASE_DONE -> dy_saved d' = dy_manifest d').
Proof.
  intros Hwf Hd. cbv zeta. unfold finish_batch_delete, clear_day. pose proof (all_terminal_iff e d Hd) as Hall.
  destruct (raw_delete_complete d); cbn [negb].
  2: { split; [done|]. unfold save_manifest; cbn. rewrite Hd. split; [|done]. split; [done|by intros []]. }
  destruct (all_closed_raw_terminal_or_gone e d) eqn:Ea; cbn [negb].
  - pose proof (remaining_manifest e d) as E1. destruct (remaining_raw_paths_blocking_tar_drop e d) as [r1 d1]. cbn in E1.
    pose proof (remaining_manifest e d1) as E2. destruct (remaining_raw_paths_blocking_tar_drop e d1) as [r2 d2]. cbn in E2.
    rewrite <- E1, <- E2. assert (on_disk d (entry_blocks_done e) = []) as Hb by by apply Hall.
    destruct (dy_tar d2); [destruct (re_drop e r2)|]; by split_and!.
  - assert (on_disk d (entry_blocks_done e) <> []) as Hb by (intros E; by apply Hall in E).
    assert (~ (true = true /\ on_disk d (entry_blocks_done e) = [])) as Hn by naive_solver.
    destruct (only_waiting_on_ingest_blocks_completion e d) eqn:Ew.
    + assert (only_quarantine_terminal_on_disk d = false) as Eq.
      { apply not_true_is_false. intros Hq. by apply Hb, quarantine_only_clear. }
      unfold has_closed_raw_existing_on_disk. rewrite Eq. unfold only_waiting_on_ingest_blocks_completion in Ew.
      destruct (deleting_flags d Hd) as [Hv Hnd]. rewrite Hv in Ew.
      pose proof (waiting_has_blocker e d Hwf Ew Hd Hb) as Hbl.
      rewrite Hnd, Hv. destruct (_ || _ || _); cbn [andb].
      * assert (mark_done_waiting_on_ingest e d = d) as ->
          by (unfold mark_done_waiting_on_ingest; rewrite Hbl; by destruct (decide _)).
        unfold deleting in Hd. rewrite Hd. by split_and!.
      * by destruct (unmanifested_closed_raw_paths e d); split_and!.
    + cbn [andb]. by destruct (unmanifested_closed_raw_paths e d); split_and!.
Qed.

Lemma on_path_frame p f d :
  dict_wf (entries d) -> dict_wf (entries (on_path p f d)) /\ mf_phase (dy_manifest (on_path p f d)) = mf_phase (dy_manifest d).
Proof.
  intros Hw. unfold entries, on_path, on_manifest. cbn.
  destruct (mf_entries (dy_manifest d) !! p) as [[en|]|]; [split; [by apply dict_wf_insert|done]|done..].
Qed.

Lemma delete_one_frame e sealed p d :
  dict_wf (entries d) ->
  dict_wf (entries (delete_one e sealed p d).2) /\
  mf_phase (dy_manifest (delete_one e sealed p d).2) = mf_phase (dy_manifest d).
Proof.
  intros Hw. unfold delete_one. destruct (entries d !! p) as [[en|]|]; [|done..].
  destruct (negb _); [done|]. destruct (negb _); [by apply on_path_frame|].
  destruct (decide _); [by apply on_path_frame|]. destruct (decide _); [by apply on_path_frame|].
  destruct sealed as [ms|]; [|by apply on_path_frame]. destruct (negb _); [by apply on_path_frame|].
  destruct (negb _); [by apply on_path_frame|]. destruct (re_remove_error e p); [by apply on_path_frame|].
  exact (on_path_frame p (fun en => with_deleted true (en_delete_reason en) en) (with_files (delete p (dy_files d)) d) Hw).
Qed.

Lemma delete_loop_frame e sealed paths n d :
  dict_wf (entries d) ->
  dict_wf (entries (delete_loop e sealed paths n d).2) /\
  mf_phase (dy_manifest (delete_loop e sealed paths n d).2) = mf_phase (dy_manifest d).
Proof.
  revert n d. induction paths as [|p paths IH]; intros n d Hw; [done|]. cbn [delete_loop]. destruct (negb _ && _); [done|].
  destruct (delete_one_frame e sealed p d Hw) as [Hw1 Ep]. destruct (delete_one e sealed p d) as [k d1]. cbn [snd] in *.
  destruct (IH (n + k) d1 Hw1) as [Hw2 Ep2]. by rewrite Ep2.
Qed.

Definition removing (d : day) : Prop := mf_phase (dy_manifest d) ∈ [PHASE_VERIFICATION_COMPLETE; PHASE_DELETING].

Lemma after_ghosts_removing d : removing d -> removing (after_ghosts d).
Proof.
  unfold removing, after_ghosts, prepare_ghost_delete_retry. intros Hr. destruct (needs_ghost_delete_retry d); [|done].
  destruct (ghost_deleted_paths_on_disk d); [done|]. cbn. set_solver.
Qed.

(** The state the loop of a pass starts from, and the one it ends in. *)
Definition pass_start (d : day) : day := on_manifest (with_phase PHASE_DELETING) (after_ghosts d).
Definition pass_keys (d : day) : list string := merge_sort String.le (dict_keys (entries (after_ghosts d))).
Definition pass_end (e : answers) (d : day) : day :=
  (delete_loop e (sealed_members e) (pass_keys d) 0 (pass_start d)).2.

Lemma apply_batch_delete_pass e d :
  removing d -> (apply_batch_delete e d).2 = finish_batch_delete e (pass_end e d).
Proof.
  intros Hr%after_ghosts_removing. rewrite apply_batch_delete_eq. cbv zeta. rewrite decide_False by (intros H; by apply H).
  unfold pass_end, pass_start, pass_keys. by destruct (delete_loop _ _ _ _ _).
Qed.

Lemma pass_end_frame e d : dict_wf (entries d) -> dict_wf (entries (pass_end e d)) /\ deleting (pass_end e d).
Proof.
  intros Hw. destruct (after_ghosts_spec d) as (_ & _ & _ & Hwf).
  unfold pass_end, deleting. by apply delete_loop_frame, Hwf.
Qed.

(** Nothing waits for its deletion, and nothing on disk blocks. *)
Definition clear_of_blockers (e : answers) (d : day) : Prop :=
  (forall p en, entries d !! p = Some (Some en) -> verified_pending en = false) /\
  (forall p en, entries d !! p = Some (Some en) -> isfile d p = true -> entry_blocks_done e p en = false).

Lemma apply_batch_delete_end e d :
  dict_wf (entries d) -> removing d ->
  let d' := (apply_batch_delete e d).2 in
  entries d' = entries (pass_end e d) /\ dy_files d' = dy_files (pass_end e d) /\
  (mf_phase (dy_manifest d') = PHASE_DONE <-> clear_of_blockers e d') /\
  (mf_phase (dy_manifest d') = PHASE_DONE -> dy_saved d' = dy_manifest d').
Proof.
  intros Hw Hr. cbv zeta. rewrite apply_batch_delete_pass by done. destruct (pass_end_frame e d Hw) as [Hw2 Hd2].
  destruct (finish_batch_delete_spec e (pass_end e d) Hw2 Hd2) as (He & Hdone & Hsave).
  split_and!; [done|apply finish_files| |done]. rewrite Hdone. unfold clear_day, clear_of_blockers, isfile.
  rewrite raw_delete_complete_iff, on_disk_nil, He, finish_files by done. done.
Qed.

(** A day is done exactly when it is clear.  A pass ends in the done phase if and only
    if no verified entry waits for its deletion and no entry whose file is on disk
    blocks: those are quarantined, or segments that have been rotated since; and a
    done day is saved. *)
Theorem day_done_iff_clear e d :
  dict_wf (entries d) -> removing d ->
  let d' := (apply_batch_delete e d).2 in
  (mf_phase (dy_manifest d') = PHASE_DONE <->
    (forall p en, entries d' !! p = Some (Some en) -> verified_pending en = false) /\
    (forall p en, entries d' !! p = Some (Some en) -> isfile d' p = true -> entry_blocks_done e p en = false)) /\
  (mf_phase (dy_manifest d') = PHASE_DONE -> dy_saved d' = dy_manifest d').
Proof.
  intros Hw Hr. by destruct (apply_batch_delete_end e d Hw Hr) as (_ & _ & ? & ?).
Qed.

(** ** A pass that is interrupted *)

Lemma delete_loop_saved e sealed paths n d :
  dy_saved (delete_loop e sealed paths n d).2 = dy_saved d /\ dy_tar (delete_loop e sealed paths n d).2 = dy_tar d.
Proof.
  revert n d. induction paths as [|p paths IH]; intros n d; [done|]. cbn [delete_loop]. destruct (negb _ && _); [done|].
  assert (dy_saved (delete_one e sealed p d).2 = dy_saved d /\ dy_tar (delete_one e sealed p d).2 = dy_tar d) as [E1 E2]
    by (unfold delete_one; repeat first [case_match | progress cbn]; done).
  destruct (delete_one e sealed p d) as [k d1]. cbn [snd] in *. rewrite <- E1, <- E2. apply IH.
Qed.

(** What is decided about a path. *)
Definition outcome (v : option (option entry)) : option (option (string * string * string * bool * option fingerprint)) :=
  (fun w : option entry => (fun en => (en_path en, en_status en, en_reason en, en_deleted en, en_fp en)) <$> w) <$> v.

(** A path whose file went in an interrupted pass is found absent, and counted so. *)
Lemma delete_one_again e sealed p d d' :
  paths_ok d -> paths_ok d' -> entries d' !! p = entries d !! p ->
  (dy_files d' !! p = dy_files d !! p \/ dy_files d' !! p = dy_files (delete_one e sealed p d).2 !! p) ->
  outcome (entries (delete_one e sealed p d').2 !! p) = outcome (entries (delete_one e sealed p d).2 !! p) /\
  dy_files (delete_one e sealed p d').2 !! p = dy_files (delete_one e sealed p d).2 !! p.
Proof.
  intros Hok Hok' He Hf.
  assert (dy_files d' !! p = dy_files d !! p ->
    outcome (entries (delete_one e sealed p d').2 !! p) = outcome (entries (delete_one e sealed p d).2 !! p) /\
    dy_files (delete_one e sealed p d').2 !! p = dy_files (delete_one e sealed p d).2 !! p) as Hsame.
  { intros Hs. destruct (delete_one_local e sealed p d' d Hok' Hok He Hs) as [-> ->]. done. }
  destruct Hf as [Hf|Hf]; [by apply Hsame|].
  destruct (delete_one_files e sealed p d) as [((en & fp & ms & D1 & D2 & D3 & D4 & D5 & -> & D7 & D8 & D9) & Ed & _)|[_ Ed]];
    [|by apply Hsame; rewrite Hf, Ed].
  rewrite Ed, lookup_delete_eq in Hf. rewrite Ed, lookup_delete_eq.
  assert (entries (delete_one e (Some ms) p d).2 !! p = Some (Some (with_deleted true (en_delete_reason en) en))) as ->.
  { unfold delete_one, isfile, path_fingerprint, raw_path_in_sealed_members, getsize. rewrite D1, D2, D3, D7. cbn.
    rewrite decide_False by (intros Hn; by apply Hn). rewrite decide_False by done.
    rewrite bool_decide_eq_true_2 by done. rewrite D8, D9. cbn.
    transitivity (entries (on_path p (fun en => with_deleted true (en_delete_reason en) en)
      (with_files (delete p (dy_files d)) d)) !! p); [done|].
    rewrite entries_on_path, decide_True by done. change (entries (with_files _ d)) with (entries d). by rewrite D1. }
  rewrite D1 in He. unfold delete_one, isfile. rewrite He, D2, Hf. cbn. split; [|exact Hf].
  by rewrite entries_on_path, decide_True, He.
Qed.

Lemma needs_ghost_fewer_files d mf' files :
  mf' = dy_manifest d -> dict_wf (entries d) -> (forall p, is_Some (files !! p) -> is_Some (dy_files d !! p)) ->
  needs_ghost_delete_retry d = false -> needs_ghost_delete_retry (Day mf' mf' files (dy_tar d)) = false.
Proof.
  intros -> Hw Hsub. unfold needs_ghost_delete_retry, phase, manifest_has_ghost_markers, entries. cbn [dy_manifest].
  destruct (bool_decide _ && existsb _ _) eqn:E; [|done]. cbn [andb]. rewrite !negb_false_iff, !bool_decide_eq_true.
  unfold ghost_deleted_paths_on_disk, manifest_has_ghost_markers, entries. cbn [dy_manifest].
  apply andb_true_iff in E as [_ ->]. intros Hn. apply on_disk_nil; [done|]. intros p en Hp Hi.
  rewrite on_disk_nil in Hn by done. apply (Hn p en Hp). unfold isfile in *. cbn in Hi.
  rewrite bool_decide_eq_true in *. by apply Hsub.
Qed.

(** The process dies after [k] turns of a pass; the next one opens the day from what
    was saved before the pass and what the turns left on disk. *)
Definition reopened_after (e : answers) (k : nat) (now : Z) (d : day) : day :=
  let crashed := (delete_loop e (sealed_members e) (take k (pass_keys d)) 0 (pass_start d)).2 in
  open_day now (Some (dy_saved crashed)) (dy_files crashed) (dy_tar crashed).

Lemma pass_keys_elem d p :
  needs_ghost_delete_retry d = false -> p ∈ pass_keys d <-> is_Some (entries d !! p).
Proof. intros Hg. unfold pass_keys, after_ghosts. rewrite Hg, merge_sort_Permutation. apply dict_keys_lookup. Qed.

Lemma pass_each e d p :
  re_max_deletes e = 0 -> dict_wf (entries d) -> paths_ok d -> needs_ghost_delete_retry d = false ->
  entries (pass_end e d) !! p = entries (delete_one e (sealed_members e) p d).2 !! p /\
  dy_files (pass_end e d) !! p = dy_files (delete_one e (sealed_members e) p d).2 !! p.
Proof.
  intros Hm Hw Hok Hg. pose proof (pass_keys_elem d p Hg) as Hk. unfold pass_end, pass_start, pass_keys, after_ghosts in *.
  rewrite Hg in *. set (d1 := on_manifest (with_phase PHASE_DELETING) d). assert (paths_ok d1) as Hok1 by exact Hok.
  destruct (delete_one_local e (sealed_members e) p d1 d Hok1 Hok eq_refl eq_refl) as [<- <-].
  destruct (decide (p ∈ merge_sort String.le (dict_keys (entries d)))) as [Hp|Hp].
  - apply delete_loop_each; [done|by apply sorted_keys_NoDup|done|done].
  - destruct (delete_loop_out e (sealed_members e) _ 0 d1 p Hp) as [-> ->].
    unfold delete_one. change (entries d1) with (entries d).
    destruct (entries d !! p) eqn:E; [destruct Hp; apply Hk; eauto|done].
Qed.

Lemma reopened_manifest e k now d :
  dy_saved d = dy_manifest d -> needs_ghost_delete_retry d = false ->
  exists fs, reopened_after e k now d = Day (dy_manifest d) (dy_manifest d) fs (dy_tar d).
Proof.
  intros Hs Hg. unfold reopened_after, open_day. cbv zeta. cbn [from_option id].
  destruct (delete_loop_saved e (sealed_members e) (take k (pass_keys d)) 0 (pass_start d)) as [-> ->].
  unfold pass_start, after_ghosts. rewrite Hg. cbn [on_manifest dy_saved dy_tar]. rewrite Hs. by eexists.
Qed.

Lemma reopened_files e k now d p :
  re_max_deletes e = 0 -> dict_wf (entries d) -> paths_ok d -> needs_ghost_delete_retry d = false ->
  dy_files (reopened_after e k now d) !! p = dy_files d !! p \/
  dy_files (reopened_after e k now d) !! p = dy_files (delete_one e (sealed_members e) p d).2 !! p.
Proof.
  intros Hm Hw Hok Hg. unfold reopened_after, pass_start, pass_keys, after_ghosts. rewrite Hg. cbn [open_day dy_files].
  set (d1 := on_manifest (with_phase PHASE_DELETING) d). assert (paths_ok d1) as Hok1 by exact Hok.
  set (keys := take k _). destruct (decide (p ∈ keys)) as [Hp|Hp].
  - right. destruct (delete_one_local e (sealed_members e) p d1 d Hok1 Hok eq_refl eq_refl) as [_ <-].
    apply delete_loop_each; [done|by apply NoDup_take, sorted_keys_NoDup|done|done].
  - left. by destruct (delete_loop_out e (sealed_members e) keys 0 d1 p Hp) as [_ ->].
Qed.

Lemma deletions_shrink e sealed p d q : is_Some (dy_files (delete_one e sealed p d).2 !! q) -> is_Some (dy_files d !! q).
Proof.
  destruct (delete_one_files e sealed p d) as [(_ & -> & _)|[_ ->]]; [|done].
  rewrite lookup_delete_is_Some. by intros [_ ?].
Qed.

Lemma clear_of_blockers_outcome e d d' :
  (forall p, outcome (entries d' !! p) = outcome (entries d !! p)) -> dy_files d' = dy_files d ->
  clear_of_blockers e d -> clear_of_blockers e d'.
Proof.
  intros Ho Hf [H1 H2]. unfold clear_of_blockers, isfile. rewrite Hf.
  assert (forall p en, entries d' !! p = Some (Some en) -> exists en0, entries d !! p = Some (Some en0) /\
    en_status en0 = en_status en /\ en_reason en0 = en_reason en /\ en_deleted en0 = en_deleted en) as Hx.
  { intros p en Hp. specialize (Ho p). rewrite Hp in Ho. destruct (entries d !! p) as [[en0|]|]; [|done..].
    cbn in Ho. simplify_eq. by exists en0. }
  split; intros p en Hp; destruct (Hx p en Hp) as (en0 & E0 & Es & Er & Ed).
  - specialize (H1 p en0 E0). unfold verified_pending in *. by rewrite <- Es, <- Ed.
  - intros Hi. specialize (H2 p en0 E0 Hi). unfold entry_blocks_done, entry_is_quarantine_terminal_skip in *.
    by rewrite <- Es, <- Er.
Qed.


(** ** A pass without obstacles *)

Definition is_pending (d : day) (p : string) : Prop :=
  exists en, entries d !! p = Some (Some en) /\ verified_pending en = true.

Lemma delete_one_done e sealed p d :
  is_pending d p -> dy_files d !! p = None \/ deletable e sealed d p ->
  dy_files (delete_one e sealed p d).2 !! p = None /\
  exists en, entries (delete_one e sealed p d).2 !! p = Some (Some en) /\ en_deleted en = true.
Proof.
  intros (en & Hp & Hv) H. unfold delete_one, isfile, path_fingerprint, raw_path_in_sealed_members, getsize. rewrite Hp, Hv. cbn [negb].
  destruct H as [Hf|(en' & fp & ms & D1 & D2 & D3 & D4 & D5 & -> & D7 & D8 & D9)].
  - rewrite Hf. cbn. rewrite entries_on_path, decide_True, Hp by done. split; [done|]. by eexists.
  - rewrite Hp in D1. simplify_eq. rewrite D3, D7. cbn.
    rewrite decide_False by (intros Hn; by apply Hn). rewrite decide_False by done.
    rewrite bool_decide_eq_true_2 by done. rewrite D8, D9. cbn. rewrite lookup_delete_eq. split; [done|].
    exists (with_deleted true (en_delete_reason en') en'). split; [|done].
    transitivity (entries (on_path p (fun en => with_deleted true (en_delete_reason en) en)
      (with_files (delete p (dy_files d)) d)) !! p); [done|].
    rewrite entries_on_path, decide_True by done. change (entries (with_files _ d)) with (entries d). by rewrite Hp.
Qed.

Lemma delete_one_idle e sealed p d : ~ is_pending d p -> (delete_one e sealed p d).2 = d.
Proof.
  intros Hn. unfold delete_one. destruct (entries d !! p) as [[en|]|] eqn:E; [|done..].
  destruct (verified_pending en) eqn:Ev; [|done]. destruct Hn. by exists en.
Qed.

(** Nothing in the way, the day is finished in one pass: when every verified file is
    gone or can go, and no other entry on disk blocks, the pass removes exactly the
    verified files and ends done and saved. *)
Theorem unobstructed_pass_finishes e d :
  dict_wf (entries d) -> paths_ok d -> removing d -> needs_ghost_delete_retry d = false -> re_max_deletes e = 0 ->
  (forall p, is_pending d p -> dy_files d !! p = None \/ deletable e (sealed_members e) d p) ->
  (forall p en, entries d !! p = Some (Some en) -> verified_pending en = false -> isfile d p = true ->
    entry_blocks_done e p en = false) ->
  let d' := (apply_batch_delete e d).2 in
  mf_phase (dy_manifest d') = PHASE_DONE /\ dy_saved d' = dy_manifest d' /\
  forall p, (is_pending d p -> dy_files d' !! p = None) /\ (~ is_pending d p -> dy_files d' !! p = dy_files d !! p).
Proof.
  intros Hw Hok Hr Hg Hm Hgo Hrest. cbv zeta.
  destruct (apply_batch_delete_end e d Hw Hr) as (E & F & D & S).
  assert (forall p, (is_pending d p -> dy_files (apply_batch_delete e d).2 !! p = None /\
      exists en, entries (apply_batch_delete e d).2 !! p = Some (Some en) /\ en_deleted en = true) /\
    (~ is_pending d p -> dy_files (apply_batch_delete e d).2 !! p = dy_files d !! p /\
      entries (apply_batch_delete e d).2 !! p = entries d !! p)) as Hp.
  { intros p. rewrite E, F. destruct (pass_each e d p Hm Hw Hok Hg) as [-> ->]. split.
    - intros Hpend. by apply delete_one_done, Hgo.
    - intros Hn. by rewrite delete_one_idle. }
  assert (mf_phase (dy_manifest (apply_batch_delete e d).2) = PHASE_DONE) as Hdone.
  { apply D. split; intros p en He; destruct (Hp p) as [H1 H2];
      (destruct (entries d !! p) as [[en0|]|] eqn:E0;
        [destruct (verified_pending en0) eqn:Ev| |];
        [destruct (H1 ltac:(by exists en0)) as (Hf & en1 & He1 & Hd1)
        |destruct H2 as [Hf He2]; [intros (? & ? & ?); congruence|]..]).
    - simplify_eq. unfold verified_pending. by rewrite Hd1, andb_false_r.
    - congruence.
    - congruence.
    - congruence.
    - intros Hi. unfold isfile in Hi. by rewrite Hf in Hi.
    - unfold isfile. rewrite Hf. assert (en = en0) as -> by congruence. intros Hi. by apply (Hrest p en0).
    - congruence.
    - congruence. }
  split_and!; [done|by apply S|]. intros p. destruct (Hp p) as [H1 H2]. split; [intros H; by apply H1|intros H; by apply H2].
Qed.

(** ** Verification in batches *)

(** What classifying does not change, but for the cursor. *)
Definition frame (d : day) : string * string * Z * list string :=
  (mf_phase (dy_manifest d), mf_stage (dy_manifest d), mf_started (dy_manifest d), mf_paths (dy_manifest d)).

Lemma record_entry_frame p gz st re d : frame (record_entry p gz st re d) = frame d.
Proof.
  unfold record_entry. destruct (entries d !! p) as [[en|]|]; [destruct (decide _); [done|]|..];
    unfold frame, on_manifest; cbn; by destruct (decide _).
Qed.

Lemma record_verdicts_frame gz l d : frame (record_verdicts gz l d) = frame d.
Proof.
  unfold record_verdicts. revert d. induction l as [|[[p st] re] l IH]; intros d; [done|]. cbn [foldl].
  rewrite IH. apply record_entry_frame.
Qed.

Lemma classify_batch_frame e ms batch d : frame (classify_batch e ms batch d) = frame d.
Proof.
  unfold classify_batch. destruct (re_gate e) as [gate|]; [|apply record_verdicts_frame].
  destruct batch as [|p batch]; [apply record_verdicts_frame|]. destruct (gate_batch e gate (p :: batch)).
  by rewrite !record_verdicts_frame.
Qed.

Definition classify_step (e : answers) (ms : members) (filtered : list string) (cursor : nat) (d : day) : nat * day :=
  let batch_end := Nat.min (cursor + Z.to_nat (Z.max 1 (re_paths_per_batch e))) (length filtered) in
  (batch_end, save_manifest (on_manifest (fun mf => with_cursor (Z.of_nat batch_end) (mf_paths mf) mf)
     (classify_batch e ms (take (batch_end - cursor) (drop cursor filtered)) d))).

Lemma classify_step_spec e ms filtered cursor d :
  (cursor < length filtered)%nat ->
  let '(c', d') := classify_step e ms filtered cursor d in
  (cursor < c' <= length filtered)%nat /\ frame d' = frame d /\ mf_index (dy_manifest d') = Z.of_nat c' /\
  dy_saved d' = dy_manifest d'.
Proof.
  intros Hc. cbn. split; [lia|]. split; [|done].
  exact (classify_batch_frame e ms _ d).
Qed.

Lemma classify_loop_step fuel e ms mx filtered run cursor d :
  classify_loop (S fuel) e ms mx filtered run cursor d =
    if (length filtered <=? cursor)%nat || re_shutdown e run || match mx with Some n => n <=? Z.of_nat run | None => false end
    then Some (run, cursor, d)
    else let '(c', d') := classify_step e ms filtered cursor d in classify_loop fuel e ms mx filtered (S run) c' d'.
Proof. done. Qed.

(** The fuel is enough. *)
Lemma classify_loop_total fuel e ms mx filtered run cursor d :
  (length filtered - cursor < fuel)%nat -> exists r c d', classify_loop fuel e ms mx filtered run cursor d = Some (r, c, d').
Proof.
  revert run cursor d. induction fuel as [|fuel IH]; intros run cursor d Hf; [lia|]. rewrite classify_loop_step.
  destruct (_ || _ || _) eqn:E; [by eauto|].
  pose proof (classify_step_spec e ms filtered cursor d) as Hs.
  apply orb_false_iff in E as [[E _]%orb_false_iff _]. apply Nat.leb_gt in E. specialize (Hs E).
  destruct (classify_step e ms filtered cursor d) as [c' d']. apply IH. lia.
Qed.

(** Where a run of the loop leaves the day. *)
Lemma classify_loop_state fuel e ms mx filtered run cursor d r c d' :
  classify_loop fuel e ms mx filtered run cursor d = Some (r, c, d') ->
  (cursor <= length filtered)%nat ->
  (cursor <= c <= length filtered)%nat /\ frame d' = frame d /\
  (c <> cursor -> mf_index (dy_manifest d') = Z.of_nat c /\ dy_saved d' = dy_manifest d') /\
  (c = cursor -> d' = d).
Proof.
  revert run cursor d. induction fuel as [|fuel IH]; intros run cursor d.
  { cbn. destruct (_ || _ || _); [|done]. intros; simplify_eq. split_and!; [lia..|done|lia|done]. }
  rewrite classify_loop_step. destruct (_ || _ || _) eqn:E; [intros; simplify_eq; split_and!; [lia..|done|lia|done]|].
  pose proof (classify_step_spec e ms filtered cursor d) as Hs.
  apply orb_false_iff in E as [[E _]%orb_false_iff _]. apply Nat.leb_gt in E. specialize (Hs E).
  destruct (classify_step e ms filtered cursor d) as [c1 d1]. destruct Hs as (Hc1 & Hf1 & Hi1 & Hs1).
  intros Hl _. destruct (IH _ _ _ Hl) as (Hc & Hf & Hi & Hsame); [lia|].
  split_and!; [lia..|congruence| |lia]. intros _. destruct (decide (c = c1)) as [->|Hne]; [|by apply Hi].
  by rewrite Hsame.
Qed.

(** Without a shutdown an unlimited run takes every path, whatever its fuel. *)
Lemma classify_loop_whole f1 f2 e ms filtered run1 run2 cursor d :
  (forall k, re_shutdown e k = false) ->
  (length filtered - cursor < f1)%nat -> (length filtered - cursor < f2)%nat ->
  exists r1 r2 c d', classify_loop f1 e ms None filtered run1 cursor d = Some (r1, c, d') /\
    classify_loop f2 e ms None filtered run2 cursor d = Some (r2, c, d') /\ (length filtered <= c)%nat.
Proof.
  intros Hno. revert f2 run1 run2 cursor d. induction f1 as [|f1 IH]; intros f2 run1 run2 cursor d H1 H2; [lia|].
  destruct f2 as [|f2]; [lia|]. rewrite !classify_loop_step, !Hno. cbn [orb]. rewrite !orb_false_r.
  destruct (length filtered <=? cursor)%nat eqn:E; [apply Nat.leb_le in E; eauto 7|]. apply Nat.leb_gt in E.
  pose proof (classify_step_spec e ms filtered cursor d E) as Hs.
  destruct (classify_step e ms filtered cursor d) as [c1 d1]. apply IH; lia.
Qed.

(** A limited run followed by an unlimited one is the unlimited run. *)
Lemma classify_loop_continue f1 f2 f3 e ms n filtered run run2 run3 cursor d r c d' :
  (forall k, re_shutdown e k = false) ->
  classify_loop f1 e ms (Some n) filtered run cursor d = Some (r, c, d') ->
  (length filtered - cursor < f2)%nat -> (length filtered - c < f3)%nat ->
  exists r2 r3 c2 d2, classify_loop f2 e ms None filtered run2 cursor d = Some (r2, c2, d2) /\
    classify_loop f3 e ms None filtered run3 c d' = Some (r3, c2, d2) /\ (length filtered <= c2)%nat.
Proof.
  intros Hno. revert f2 run run2 cursor d. induction f1 as [|f1 IH]; intros f2 run run2 cursor d.
  { cbn. destruct (_ || _ || _); [|done]. intros ? H2 H3. simplify_eq. by apply classify_loop_whole. }
  rewrite classify_loop_step. destruct (_ || _ || _) eqn:E.
  { intros ? H2 H3. simplify_eq. by apply classify_loop_whole. }
  intros Hl H2 H3. destruct f2 as [|f2]; [lia|]. rewrite (classify_loop_step f2).
  apply orb_false_iff in E as [[E _]%orb_false_iff _]. rewrite E, Hno. cbn [orb].
  pose proof (classify_step_spec e ms filtered cursor d) as Hs. apply Nat.leb_gt in E. specialize (Hs E).
  destruct (classify_step e ms filtered cursor d) as [c1 d1]. apply (IH f2 (S run)); [done|lia|done].
Qed.

(** A run limited to at least one batch makes progress. *)
Lemma classify_loop_progress fuel e ms n filtered cursor d r c d' :
  (forall k, re_shutdown e k = false) -> 1 <= n -> (cursor < length filtered)%nat ->
  classify_loop (S fuel) e ms (Some n) filtered 0 cursor d = Some (r, c, d') -> (cursor < c)%nat.
Proof.
  intros Hno Hn Hc. rewrite classify_loop_step, Hno. rewrite (proj2 (Nat.leb_gt _ _)) by done. cbn [orb].
  change (Z.of_nat 0) with 0. rewrite (proj2 (Z.leb_gt n 0)) by lia. pose proof (classify_step_spec e ms filtered cursor d Hc) as Hs.
  destruct (classify_step e ms filtered cursor d) as [c1 d1]. intros Hl. apply classify_loop_state in Hl; lia.
Qed.

(** ** The calls of the janitor *)

(** One call per limit, until one answers true. *)
Fixpoint verify_calls (e : answers) (ns : list Z) (d : day) : option (bool * day) :=
  match ns with
  | [] => Some (false, d)
  | n :: ns => '(ok, d) ← pre_seal_verify_body e (Some n) d; if ok : bool then Some (true, d) else verify_calls e ns d
  end.

(** The paths, the cursor and the state a call starts its loop with. *)
Definition begin_call (e : answers) (ms : members) (d : day) : list string * nat * day :=
  let '(filtered, d) := classify_paths e ms (start_verifying e d) in
  (filtered, Z.to_nat (if Z.of_nat (length filtered) <? mf_index (dy_manifest d) then 0 else mf_index (dy_manifest d)), d).

Definition finish_call (e : answers) (filtered : list string) (r : option (nat * nat * day)) : option (bool * day) :=
  '(run, c, d) ← r;
  if re_shutdown e run || (c <? length filtered)%nat then Some (false, d) else Some (true, finish_pre_seal e d).

Lemma pre_seal_call e ms d mx :
  pre_seal_verification_complete d = false -> re_restored e = true -> re_open_members e = Some ms ->
  pre_seal_verify_body e mx d =
    let '(filtered, cursor, d) := begin_call e ms d in
    finish_call e filtered (classify_loop (S (length filtered)) e ms mx filtered 0 cursor d).
Proof.
  intros Hs Hr Hm. unfold pre_seal_verify_body, begin_call. rewrite Hs, Hr, Hm. cbn [negb].
  by destruct (classify_paths e ms (start_verifying e d)) as [filtered d1].
Qed.

(** A day whose classification is under way. *)
Record classifying (filtered : list string) (d : day) : Prop := {
  cl_phase : mf_phase (dy_manifest d) = PHASE_VERIFYING;
  cl_stage : pre_seal_verification_complete d = false;
  cl_started : mf_started (dy_manifest d) <> 0;
  cl_paths : mf_paths (dy_manifest d) = filtered;
}.

Lemma classifying_frame filtered d d' : frame d' = frame d -> classifying filtered d -> classifying filtered d'.
Proof.
  unfold frame. intros Hf [Hp Hs Ht Hl]. injection Hf as E1 E2 E3 E4.
  assert (phase d' = phase d /\ verify_stage d' = verify_stage d) as [Ep Es] by (unfold phase, verify_stage; by rewrite E1, E2).
  constructor; try congruence. unfold pre_seal_verification_complete, verification_complete in *. by rewrite Ep, Es.
Qed.

(** A later call takes up where an earlier one has stopped. *)
Lemma begin_again e ms filtered c d :
  classifying filtered d -> mf_index (dy_manifest d) = Z.of_nat c -> (c < length filtered)%nat ->
  begin_call e ms d = (filtered, c, d).
Proof.
  intros [Hp Hs Ht Hf] Hi Hc. unfold begin_call.
  assert (start_verifying e d = d) as ->.
  { destruct d as [mf sv fs tr]. cbn in *. unfold start_verifying, on_manifest. cbn. f_equal.
    destruct mf. cbn in *. subst. unfold with_phase. cbn. by rewrite (proj2 (Z.eqb_neq _ 0)). }
  unfold classify_paths. rewrite Hf. destruct filtered as [|p l]; [cbn in Hc; lia|]. rewrite Hi.
  rewrite (proj2 (Z.ltb_ge (Z.of_nat (length (p :: l))) (Z.of_nat c))) by lia. by rewrite Nat2Z.id.
Qed.

Lemma triage_frame e paths d : frame (triage e paths d).2 = frame d.
Proof.
  unfold triage. match goal with |- context [foldl ?f] => set (step := f) end. generalize (@nil string). revert d.
  induction paths as [|p paths IH]; intros d acc; [done|]. cbn [foldl]. unfold step at 2. destruct (re_active e p); [rewrite IH; apply record_entry_frame|].
  destruct (decide _); [rewrite IH; apply record_entry_frame|apply IH].
Qed.

Lemma begin_call_spec e ms d :
  pre_seal_verification_complete d = false -> re_now e <> 0 ->
  let '(filtered, cursor, d1) := begin_call e ms d in classifying filtered d1 /\ (cursor <= length filtered)%nat.
Proof.
  intros Hs Hn. unfold begin_call.
  assert (classifying (mf_paths (dy_manifest d)) (start_verifying e d)) as Hc.
  { unfold start_verifying. destruct d as [mf sv fs tr]. unfold on_manifest. cbn.
    unfold pre_seal_verification_complete in *. apply orb_false_iff in Hs as [Hs _].
    destruct (Z.eqb_spec (mf_started mf) 0); constructor; try done; unfold pre_seal_verification_complete;
      apply orb_false_iff; by split. }
  destruct (classify_paths e ms (start_verifying e d)) as [filtered d1] eqn:E.
  assert (classifying filtered d1) as Hc1.
  { unfold classify_paths in E. destruct (mf_paths (dy_manifest (start_verifying e d))) as [|p l] eqn:El.
    - pose proof (triage_frame e (pre_seal_raw_paths_for_classify e ms (start_verifying e d)) (start_verifying e d)) as Hf.
      destruct (triage _ _ _) as [fl d2]. cbn [snd] in Hf. injection E as <- <-.
      destruct (classifying_frame _ _ _ Hf Hc) as [H1 H2 H3 H4]. by constructor.
    - simplify_eq. destruct Hc as [H1 H2 H3 H4]. constructor; congruence. }
  split; [done|]. destruct (Z.ltb_spec (Z.of_nat (length filtered)) (mf_index (dy_manifest d1))); lia.
Qed.

(** The calls that follow an unfinished one, against one unlimited call. *)
Lemma verify_calls_finish e ms ns filtered c d dw :
  (forall k, re_shutdown e k = false) -> re_restored e = true -> re_open_members e = Some ms ->
  Forall (fun n => 1 <= n) ns ->
  classifying filtered d -> mf_index (dy_manifest d) = Z.of_nat c -> (c < length filtered)%nat -> dy_saved d = dy_manifest d ->
  finish_call e filtered (classify_loop (S (length filtered)) e ms None filtered 0 c d) = Some (true, dw) ->
  exists ok d', verify_calls e ns d = Some (ok, d') /\ (ok = true -> d' = dw) /\
    ((length filtered - c <= length ns)%nat -> ok = true) /\ dy_saved d' = dy_manifest d'.
Proof.
  intros Hno Hr Hm Hns. revert c d. induction Hns as [|n ns Hn Hns IH]; intros c d Hcl Hi Hc Hsv Hw.
  { eexists _, _. split_and!; [done|done|cbn; lia|done]. }
  cbn [verify_calls]. rewrite (pre_seal_call e ms) by (by try apply Hcl). rewrite (begin_again e ms filtered c) by done.
  destruct (classify_loop_total (S (length filtered)) e ms (Some n) filtered 0 c d) as (r & c1 & d1 & El); [lia|].
  rewrite El. cbn [finish_call mbind option_bind]. rewrite Hno. cbn [orb].
  pose proof (classify_loop_progress _ _ _ _ _ _ _ _ _ _ Hno Hn Hc El) as Hpr.
  destruct (classify_loop_state _ _ _ _ _ _ _ _ _ _ _ El) as (Hc1 & Hf1 & Hi1 & _); [lia|].
  destruct Hi1 as [Hi1 Hs1]; [lia|].
  destruct (classify_loop_continue _ (S (length filtered)) (S (length filtered)) e ms n filtered 0 0 0 c d r c1 d1 Hno El)
    as (r2 & r3 & c2 & d2 & E2 & E3 & Hc2); [lia..|].
  rewrite E2 in Hw. cbn [finish_call mbind option_bind] in Hw. rewrite Hno, (proj2 (Nat.ltb_ge _ _)) in Hw by done.
  cbn [orb] in Hw. injection Hw as <-.
  destruct (Nat.ltb_spec c1 (length filtered)) as [Hlt|Hge].
  - cbn [mbind option_bind]. destruct (IH c1 d1) as (ok & d' & V1 & V2 & V3 & V4); [by apply (classifying_frame _ d)|done..| |].
    { rewrite E3. cbn [finish_call mbind option_bind]. by rewrite Hno, (proj2 (Nat.ltb_ge _ _)). }
    exists ok, d'. split_and!; [done..| |done]. cbn. intros Hl. apply V3. lia.
  - rewrite classify_loop_step in E3. rewrite (proj2 (Nat.leb_le _ _)) in E3 by done. cbn [orb] in E3.
    injection E3 as <- <- <-. eexists _, _. by split_and!.
Qed.

(** Verification in batches is verification at once.  The janitor classifies a day in
    calls of a limited number of batches; the cursor in the manifest carries over.  A
    call always returns; one without a limit ends with the day verified and saved; and
    limited calls, whatever their limits, end in that very state, which they reach after
    at most one call per path.  Every call leaves its state saved. *)
Theorem verify_in_batches e ms ns d :
  (forall k, re_shutdown e k = false) -> re_now e <> 0 -> re_restored e = true -> re_open_members e = Some ms ->
  Forall (fun n => 1 <= n) ns -> pre_seal_verification_complete d = false ->
  exists dw ok d', pre_seal_verify_body e None d = Some (true, dw) /\
    pre_seal_verification_complete dw = true /\ dy_saved dw = dy_manifest dw /\
    verify_calls e ns d = Some (ok, d') /\ (ok = true -> d' = dw) /\
    ((length (begin_call e ms d).1.1 < length ns)%nat -> ok = true) /\
    (ns <> [] -> dy_saved d' = dy_manifest d').
Proof.
  intros Hno Hn Hr Hm Hns Hs. pose proof (begin_call_spec e ms d Hs Hn) as Hb.
  pose proof (fun mx => pre_seal_call e ms d mx Hs Hr Hm) as Hcall.
  destruct (begin_call e ms d) as [[filtered c] d0]. destruct Hb as [Hcl Hc]. cbn [fst].
  destruct (classify_loop_whole (S (length filtered)) (S (length filtered)) e ms filtered 0 0 c d0 Hno)
    as (r & _ & cw & dl & El & _ & Hcw); [lia..|].
  assert (finish_call e filtered (classify_loop (S (length filtered)) e ms None filtered 0 c d0) = Some (true, finish_pre_seal e dl)) as Hw.
  { rewrite El. cbn [finish_call mbind option_bind]. by rewrite Hno, (proj2 (Nat.ltb_ge _ _)). }
  exists (finish_pre_seal e dl). rewrite Hcall, Hw.
  destruct Hns as [|n ns Hn1 Hns].
  { eexists _, _. split_and!; [done..|cbn; lia|done]. }
  cbn [verify_calls]. rewrite Hcall.
  destruct (classify_loop_total (S (length filtered)) e ms (Some n) filtered 0 c d0) as (r1 & c1 & d1 & E1); [lia|].
  destruct (classify_loop_state _ _ _ _ _ _ _ _ _ _ _ E1 Hc) as (Hc1 & Hf1 & Hi1 & Hsame).
  destruct (classify_loop_continue _ (S (length filtered)) (S (length filtered)) e ms n filtered 0 0 0 c d0 r1 c1 d1 Hno E1)
    as (r2 & r3 & c2 & d2 & E2 & E3 & Hc2); [lia..|]. rewrite El in E2. injection E2 as <- <- <-.
  rewrite E1. cbn [finish_call mbind option_bind]. rewrite Hno. cbn [orb].
  destruct (Nat.ltb_spec c1 (length filtered)) as [Hlt|Hge].
  - assert (c < length filtered)%nat as Hcn by lia.
    pose proof (classify_loop_progress _ _ _ _ _ _ _ _ _ _ Hno Hn1 Hcn E1) as Hpr. destruct Hi1 as [Hi1 Hs1]; [lia|].
    destruct (verify_calls_finish e ms ns filtered c1 d1 (finish_pre_seal e dl) Hno Hr Hm Hns) as (ok & d' & H1 & H2 & H3 & H4);
      [by apply (classifying_frame _ d0)|done..| |].
    { rewrite E3. cbn [finish_call mbind option_bind]. by rewrite Hno, (proj2 (Nat.ltb_ge _ _)). }
    exists ok, d'. split_and!; [done..| |done]. cbn. intros Hl. apply H3. lia.
  - rewrite classify_loop_step in E3. rewrite (proj2 (Nat.leb_le _ _)) in E3 by done. cbn [orb] in E3.
    injection E3 as <- <- <-. eexists _, _. by split_and!.
Qed.

(** ** What modelling showed *)

(** The ingest gate fails open.  Without gate identities the pool's result is a tuple,
    which is true whatever the gate said: the verdicts are those without a gate. *)
Theorem gate_fails_open e gate ms p batch d :
  re_gate e = Some gate -> re_gate_ids e = None ->
  classify_batch e ms (p :: batch) d =
    record_verdicts (zst_path e) (classify_removable_after_ok d None (Some ms) (re_completed e (p :: batch))) d.
Proof.
  intros Hg Hi. unfold classify_batch, gate_batch. rewrite Hg, Hi.
  assert (forall l : list string, filter (fun p => tuple_truthy (gate_one gate p) = true) l = l /\
    filter (fun p => tuple_truthy (gate_one gate p) = false) l = []) as Hl.
  { induction l as [|q l [IH1 IH2]]; [done|]. by rewrite !filter_cons, IH1, IH2. }
  by destruct (Hl (re_completed e (p :: batch))) as [-> ->].
Qed.

(** ** A day to try *)

Module Demo.

Definition tar : string := "/t/2024-01-02.tar".
Definition path : string := "/a/n1/1704200000".
Definition other : string := "/a/n2/1704200000".
Definition sealed : members := Dict [("a/n1/1704200000", 10); ("a/n2/1704200000", 20)].

(** Answers where nothing is in the way; the gate, when given, knows no file. *)
Definition calm (gate : option (string -> bool)) : answers := {|
  re_now := 100; re_tar_path := tar; re_active := fun _ => false; re_aligned := fun _ => true;
  re_scan := [("/t/2024-01-02.tar.zst", [path; other])]; re_seed := []; re_allow_scoped := true;
  re_quarantine := ∅; re_ingest_active := None; re_gate := gate; re_gate_ids := None; re_completed := fun l => l;
  re_restored := true; re_open_members := Some sealed; re_sealed_valid := Some sealed;
  re_sealed_isfile := fun p => bool_decide (p = "/t/2024-01-02.tar.zst");
  re_sealed_lookup := fun p => if bool_decide (p = "/t/2024-01-02.tar.zst") then Some sealed else None; re_parity := true; re_tar_identity := Some (1, 2, 3);
  re_lock_free := fun _ => true; re_remove_error := fun _ => None; re_drop := fun _ => true;
  re_shutdown := fun _ => false; re_paths_per_batch := 1; re_max_deletes := 0; re_escalate_after := 3 |}.

Definition e : answers := calm None.
Definition files : gmap string fingerprint := <[path := (5, 10)]> (<[other := (6, 20)]> ∅).
Definition fresh : day := open_day 100 None files (Some 10240).

(** The day once it is verified. *)
Definition verified : day := default fresh (snd <$> pre_seal_verify_body e None fresh).

End Demo.

(** A file the gate refuses is verified and deleted. *)
Theorem uningested_file_deleted :
  exists d, pre_seal_verify_body (Demo.calm (Some (fun _ => false))) None Demo.fresh = Some (true, d) /\
    dy_files Demo.fresh !! Demo.path = Some (5, 10) /\
    dy_files (apply_batch_delete (Demo.calm (Some (fun _ => false))) d).2 !! Demo.path = None.
Proof. eexists. split_and!; [vm_compute; reflexivity|reflexivity|vm_compute; reflexivity]. Qed.

Module Found.

(** A day with one file verified and another waiting for its ingest. *)
Definition waiting : day :=
  let mf := with_entries (<[Demo.path := Some (Entry Demo.path "" "verified" "" false (Some (5, 10)) None None None)]>
              (<[Demo.other := Some (Entry Demo.other "" "skipped_not_head_tail_ingested" "not_head_tail_ingested" false (Some (6, 20)) None None None)]> ∅))
              (with_phase PHASE_VERIFICATION_COMPLETE (with_stage VERIFY_STAGE_POST_SEAL (new_manifest 100))) in
  Day mf mf Demo.files (Some 10240).

(** The file of the demo day, touched since it was verified. *)
Definition touched : day := with_files (<[Demo.path := (7, 10)]> Demo.files) Demo.verified.

End Found.

(** A pass on a day that waits for ingest deletes files and saves none of it. *)
Theorem waiting_pass_not_saved :
  let d' := (apply_batch_delete Demo.e Found.waiting).2 in
  dy_files Found.waiting !! Demo.path = Some (5, 10) /\ dy_files d' !! Demo.path = None /\
  mf_deleted (dy_manifest d') = 1 /\ dy_saved d' = dy_saved Found.waiting.
Proof. vm_compute. split_and!; reflexivity. Qed.

(** The count of verified files drifts: the entry whose file has changed loses its
    status and keeps its count, and is counted again when it is verified again. *)
Theorem verified_count_drifts :
  let d := record_entry Demo.path "" "verified" "" (delete_one Demo.e (Some Demo.sealed) Demo.path Found.touched).2 in
  mf_verified (dy_manifest d) = 3 /\
  length (filter (fun v => on_entry (fun en => bool_decide (en_status en = "verified")) v = true) (dict_values (entries d))) = 2%nat.
Proof. vm_compute. split; reflexivity. Qed.

(** ** Witnesses *)

Definition demo_entry (p : string) (fp : fingerprint) : entry := Entry p "/t/2024-01-02.tar.zst" "verified" "" false (Some fp) None None None.

Lemma demo_lookup p :
  entries Demo.verified !! p =
    if decide (p = Demo.other) then Some (Some (demo_entry Demo.other (6, 20)))
    else if decide (p = Demo.path) then Some (Some (demo_entry Demo.path (5, 10))) else None.
Proof.
  assert (entries Demo.verified = Dict [(Demo.path, Some (demo_entry Demo.path (5, 10))); (Demo.other, Some (demo_entry Demo.other (6, 20)))])
    as -> by (vm_compute; reflexivity).
  unfold lookup, dict_lookup. cbn. repeat case_decide; by subst.
Qed.

Lemma demo_day_wf : dict_wf (entries Demo.verified).
Proof. unfold dict_wf. apply (bool_decide_unpack _). vm_compute. done. Qed.

Lemma demo_paths_ok : paths_ok Demo.verified.
Proof.
  intros p en. rewrite demo_lookup.
  destruct (decide (p = Demo.other)) as [->|_]; [|destruct (decide (p = Demo.path)) as [->|_]; [|discriminate]];
    intros [= <-]; split; [reflexivity|discriminate|reflexivity|discriminate].
Qed.

Lemma demo_removing : removing Demo.verified.
Proof. left. Qed.

Lemma demo_deletable p fp :
  entries Demo.verified !! p = Some (Some (demo_entry p fp)) -> Demo.files !! p = Some fp ->
  Demo.sealed !! lstrip_slash p = Some (fp.2) -> deletable Demo.e (sealed_members Demo.e) Demo.verified p.
Proof.
  intros He Hf Hm. assert (dy_files Demo.verified = Demo.files) as Ef by (vm_compute; reflexivity).
  assert (sealed_members Demo.e = Some Demo.sealed) as Es by (vm_compute; reflexivity).
  exists (demo_entry p fp), fp, Demo.sealed. rewrite Ef, Es. split_and!; [exact He|reflexivity|exact Hf|reflexivity| |reflexivity|exact Hm|reflexivity|reflexivity].
  unfold delete_skip_paths. change (re_ingest_active Demo.e) with (@None (gset string)). change (re_quarantine Demo.e) with (∅ : gset string).
  apply (not_elem_of_difference (C := gset string)). left. apply not_elem_of_empty.
Qed.

Lemma demo_unobstructed p :
  is_pending Demo.verified p ->
  dy_files Demo.verified !! p = None \/ deletable Demo.e (sealed_members Demo.e) Demo.verified p.
Proof.
  intros (en & He & _). right. pose proof (demo_lookup p) as El.
  destruct (decide (p = Demo.other)) as [->|_]; [|destruct (decide (p = Demo.path)) as [->|_]; [|congruence]];
    (eapply demo_deletable; [exact El|vm_compute; reflexivity|vm_compute; reflexivity]).
Qed.

Lemma demo_no_rest p en :
  entries Demo.verified !! p = Some (Some en) -> verified_pending en = false -> isfile Demo.verified p = true ->
  entry_blocks_done Demo.e p en = false.
Proof.
  rewrite demo_lookup. destruct (decide _); [|destruct (decide _); [|discriminate]]; intros [= <-]; discriminate.
Qed.


Lemma day_done_iff_clear_witness :
  let d' := (apply_batch_delete Demo.e Demo.verified).2 in
  (mf_phase (dy_manifest d') = PHASE_DONE <->
    (forall p en, entries d' !! p = Some (Some en) -> verified_pending en = false) /\
    (forall p en, entries d' !! p = Some (Some en) -> isfile d' p = true -> entry_blocks_done Demo.e p en = false)) /\
  (mf_phase (dy_manifest d') = PHASE_DONE -> dy_saved d' = dy_manifest d').
Proof. refine (day_done_iff_clear Demo.e Demo.verified _ _); [exact demo_day_wf|exact demo_removing]. Defined.


Lemma unobstructed_pass_finishes_witness :
  let d' := (apply_batch_delete Demo.e Demo.verified).2 in
  mf_phase (dy_manifest d') = PHASE_DONE /\ dy_saved d' = dy_manifest d' /\
  forall p, (is_pending Demo.verified p -> dy_files d' !! p = None) /\
            (~ is_pending Demo.verified p -> dy_files d' !! p = dy_files Demo.verified !! p).
Proof.
  refine (unobstructed_pass_finishes Demo.e Demo.verified _ _ _ _ _ _ _);
    [exact demo_day_wf|exact demo_paths_ok|exact demo_removing|vm_compute; reflexivity|reflexivity
    |exact demo_unobstructed|exact demo_no_rest].
Defined.

Lemma verify_in_batches_witness :
  exists dw ok d', pre_seal_verify_body Demo.e None Demo.fresh = Some (true, dw) /\
    pre_seal_verification_complete dw = true /\ dy_saved dw = dy_manifest dw /\
    verify_calls Demo.e [1; 1; 1] Demo.fresh = Some (ok, d') /\ (ok = true -> d' = dw) /\
    ((length (begin_call Demo.e Demo.sealed Demo.fresh).1.1 < 3)%nat -> ok = true) /\
    ([1; 1; 1] <> [] -> dy_saved d' = dy_manifest d').
Proof.
  refine (verify_in_batches Demo.e Demo.sealed [1; 1; 1] Demo.fresh _ _ _ _ _ _);
    [reflexivity|discriminate|reflexivity|reflexivity|repeat constructor; lia|reflexivity].
Defined.
