(* ===== verification/RawArchived.v ===== *)
(** Removal of raw files over the member maps: [RawRemoval] asks, [SealedMap] answers. *)
From S2P Require Import Prelude PyDict PosixPath Persistence SealedMap SealedMapSpec RawRemoval RawRemovalSpec.
Local Open Scope Z_scope.

Section archived.
Context (sha256 : string -> string) (contents : archive_id -> members) (contents_wf : forall id, dict_wf (contents id)).

(** What the pass is told about a sealed archive is what a lookup has answered. *)
Definition told_by_lookups (e : answers) (w : world) : Prop :=
  forall p ms, re_sealed_lookup e p = Some ms -> exists i live, w_threads w !! i = Some (Answered p live ms).


End archived.

