(* ===== verification/DeadLetter.v ===== *)
(** Queue dead letters: [upsert_queue_dead_letter] and the functions around it of
    [dbload/lib/sync_timedb_job_store.py].

    A job that exhausted its retries is recorded in a sidecar with a cooldown; each
    further give-up advances its [cycle] along a backoff schedule, and past the last
    cooldown the entry is terminal.  An entry is the JSON object of the sidecar,
    with its absent fields [None].  The process keeps the index of the sidecar
    cached under the modification time it read it at.  Times are [Z]; the two backoff
    schedules come from the configuration. *)
From S2P Require Import Prelude PyDict PyStr LeaseOwner.
Local Open Scope Z_scope.

Record dl_entry := DLEntry {
  e_kind : option string;
  e_identity : option string;
  e_attempt : option Z;
  e_reason : option string;
  e_recorded_at : option Z;
  e_first_recorded_at : option Z;
  e_cycle : option Z;
  e_env : option bool;
  e_terminal : option bool;
  e_readmit_at : option Z;
  e_readmitted_at : option Z;
}.

#[export] Instance dl_entry_eq_dec : EqDecision dl_entry.
Proof. solve_decision. Defined.

(** [e.get(name)] in a boolean context. *)
Definition truthy (b : option bool) : bool := default false b.

Record dl_config := DLConfig {
  sync_dead_letter_readmit_backoff_s : list Z;
  sync_dead_letter_env_backoff_s : list Z;
}.

Definition NON_FATAL_DEAD_LETTER_REASONS : list string :=
  ["skip_cgroup_headroom"; "skip_budget_bytes"; "skip_file_cache_pressure"; "skip_fp"; "fp_refresh"].

(** [l\[i\]]: from the end for a negative index. *)
Definition py_nth {A} (l : list A) (i : Z) : result A :=
  let n := Z.of_nat (length l) in
  let j := if i <? 0 then n + i else i in
  if j <? 0 then Raise IndexError
  else match l !! Z.to_nat j with
       | Some a => Ok a
       | None => Raise IndexError
       end.

(** [l\[i:\]]. *)
Definition py_from {A} (l : list A) (i : Z) : list A :=
  let n := Z.of_nat (length l) in
  drop (Z.to_nat (if i <? 0 then Z.max 0 (n + i) else i)) l.

Definition starts_with (p s : string) : bool := String.prefix p s.

Definition dead_letter_schedule (cfg : dl_config) (e : dl_entry) : list Z :=
  if truthy (e_env e) then sync_dead_letter_env_backoff_s cfg else sync_dead_letter_readmit_backoff_s cfg.

Definition normalize_dead_letter_entry (cfg : dl_config) (e : dl_entry) : result dl_entry :=
  match e_cycle e with
  | Some _ => Ok e
  | None =>
      let recorded := num_or (e_recorded_at e) 0 in
      let reason := str_or_empty (e_reason e) in
      let e' := DLEntry (e_kind e) (e_identity e) (e_attempt e) (e_reason e) (e_recorded_at e)
                  (e_first_recorded_at e) (Some 1) (Some (starts_with "env:" reason)) (Some false)
                  (e_readmit_at e) (e_readmitted_at e) in
      at_ ← (if decide (reason ∈ NON_FATAL_DEAD_LETTER_REASONS) then Ok recorded
             else first ← py_nth (dead_letter_schedule cfg e') 0; Ok (recorded + first));
      Ok (DLEntry (e_kind e') (e_identity e') (e_attempt e') (e_reason e') (e_recorded_at e')
            (e_first_recorded_at e') (e_cycle e') (e_env e') (e_terminal e') (Some at_) (e_readmitted_at e'))
  end.

Fixpoint normalize_all (cfg : dl_config) (l : list dl_entry) : result (list dl_entry) :=
  match l with
  | [] => Ok []
  | e :: l' => e' ← normalize_dead_letter_entry cfg e; l'' ← normalize_all cfg l'; Ok (e' :: l'')
  end.

(** [(str(e.get("kind") or ""), str(e.get("identity") or ""))]. *)
Definition index_key (e : dl_entry) : string * string := (str_or_empty (e_kind e), str_or_empty (e_identity e)).

(** [(e.get("kind"), e.get("identity")) == key]. *)
Definition has_key (key : string * string) (e : dl_entry) : bool :=
  bool_decide (e_kind e = Some key.1 /\ e_identity e = Some key.2).

(** The sidecar ([None] when absent), its modification time, and the cached index. *)
Record dl_state := DLState {
  dl_file : option (list dl_entry);
  dl_mtime : Z;
  dl_cache : option (Z * dict (string * string) dl_entry);
}.

Definition load_dead_letter_entries (cfg : dl_config) (st : dl_state) : result (list dl_entry) :=
  normalize_all cfg (default [] (dl_file st)).

Definition index_of (entries : list dl_entry) : dict (string * string) dl_entry :=
  dict_of_items ((fun e => (index_key e, e)) <$> entries).

Definition dead_letter_index (cfg : dl_config) (st : dl_state)
    : result (dict (string * string) dl_entry * dl_state) :=
  match dl_file st with
  | None => Ok (∅, st)
  | Some _ =>
      match dl_cache st with
      | Some (m, idx) =>
          if m =? dl_mtime st then Ok (idx, st)
          else entries ← load_dead_letter_entries cfg st;
               Ok (index_of entries, DLState (dl_file st) (dl_mtime st) (Some (dl_mtime st, index_of entries)))
      | None =>
          entries ← load_dead_letter_entries cfg st;
          Ok (index_of entries, DLState (dl_file st) (dl_mtime st) (Some (dl_mtime st, index_of entries)))
      end
  end.

(** What the file system does with a save: it fails, or the file gets a new
    modification time. *)
Definition save_outcome : Type := option Z.

Definition save_dead_letter_entries (w : save_outcome) (entries : list dl_entry) (st : dl_state)
    : bool * dl_state :=
  match w with
  | None => (false, st)
  | Some mtime => (true, DLState (Some entries) mtime None)
  end.

(** The first [n] terminal entries are dropped. *)
Fixpoint drop_terminal (n : nat) (l : list dl_entry) : list dl_entry :=
  match l, n with
  | [], _ => []
  | _, O => l
  | e :: l', S n' => if truthy (e_terminal e) then drop_terminal n' l' else e :: drop_terminal n l'
  end.

(** The cap on retained entries. *)
Definition trim_dead_letters (max_entries : Z) (entries : list dl_entry) : list dl_entry :=
  if max_entries <? Z.of_nat (length entries) then
    let overflow := Z.of_nat (length entries) - max_entries in
    let entries := drop_terminal (Z.to_nat overflow) entries in
    if max_entries <? Z.of_nat (length entries) then py_from entries (- max_entries) else entries
  else entries.

(** The first entry with the key, and the rest. *)
Fixpoint take_prior (key : string * string) (l : list dl_entry) : option dl_entry * list dl_entry :=
  match l with
  | [] => (None, [])
  | e :: l' => if has_key key e then (Some e, l')
               else let '(p, r) := take_prior key l' in (p, e :: r)
  end.

(** The entry a give-up records. *)
Definition next_entry (cfg : dl_config) (key : string * string) (attempt : Z) (reason : string) (env : bool)
    (ts : Z) (prior : option dl_entry) : result dl_entry :=
  let first := num_or (prior ≫= e_first_recorded_at) (num_or (prior ≫= e_recorded_at) ts) in
  let cycle := num_or (prior ≫= e_cycle) 0 + 1 in
  let e := DLEntry (Some key.1) (Some key.2) (Some attempt) (Some (str_prefix 500 reason)) (Some ts) (Some first)
             (Some cycle) (Some (env || starts_with "env:" reason)) None None None in
  let schedule := dead_letter_schedule cfg e in
  let terminal := Z.of_nat (length schedule) <? cycle in
  at_ ← (if terminal then Ok None else d ← py_nth schedule (cycle - 1); Ok (Some (ts + d)));
  Ok (DLEntry (e_kind e) (e_identity e) (e_attempt e) (e_reason e) (e_recorded_at e) (e_first_recorded_at e)
        (e_cycle e) (e_env e) (Some terminal) at_ None).

Definition upsert_queue_dead_letter (cfg : dl_config) (kind identity : string) (attempt : Z) (reason : string)
    (env : bool) (ts max_entries : Z) (w : save_outcome) (st : dl_state) : result (option dl_entry * dl_state) :=
  entries ← load_dead_letter_entries cfg st;
  let '(prior, others) := take_prior (kind, identity) entries in
  entry ← next_entry cfg (kind, identity) attempt reason env ts prior;
  let '(ok, st) := save_dead_letter_entries w (trim_dead_letters max_entries (others ++ [entry])) st in
  Ok (if ok : bool then Some entry else None, st).

Definition append_queue_dead_letter (cfg : dl_config) (kind identity : string) (attempt : Z) (reason : string)
    (ts max_entries : Z) (w : save_outcome) (st : dl_state) : result (bool * dl_state) :=
  '(e, st) ← upsert_queue_dead_letter cfg kind identity attempt reason false ts max_entries w st;
  Ok (bool_decide (is_Some e), st).

(** A recorded entry at [ts]. *)
Definition entry_blocked (ts : Z) (e : dl_entry) : bool :=
  if truthy (e_terminal e) then true else ts <? num_or (e_readmit_at e) 0.

Definition dead_letter_blocked (cfg : dl_config) (archive_data_dir kind identity : string) (ts : Z) (st : dl_state)
    : result (bool * dl_state) :=
  if decide (archive_data_dir = "" \/ identity = "") then Ok (false, st)
  else
    '(idx, st) ← dead_letter_index cfg st;
    Ok (match idx !! (kind, identity) with
        | None => false
        | Some e => entry_blocked ts e
        end, st).

Definition remove_queue_dead_letter (cfg : dl_config) (archive_data_dir kind identity : string) (w : save_outcome)
    (st : dl_state) : result (bool * dl_state) :=
  if decide (archive_data_dir = "" \/ identity = "") then Ok (false, st)
  else
    '(idx, st) ← dead_letter_index cfg st;
    if decide (idx !! (kind, identity) = None) then Ok (false, st)
    else
      entries ← load_dead_letter_entries cfg st;
      Ok (save_dead_letter_entries w (filter (fun e => has_key (kind, identity) e = false) entries) st).

(** Cooldown over, and not readmitted in this cycle. *)
Definition entry_due (ts : Z) (e : dl_entry) : bool :=
  negb (truthy (e_terminal e)) && (num_or (e_readmit_at e) 0 <=? ts) &&
  (num_or (e_readmitted_at e) (-1) <? num_or (e_readmit_at e) 0).

(** The stable sort by [readmit_at]. *)
Fixpoint insert_due (e : dl_entry) (l : list dl_entry) : list dl_entry :=
  match l with
  | [] => [e]
  | f :: l' => if num_or (e_readmit_at e) 0 <=? num_or (e_readmit_at f) 0 then e :: f :: l'
               else f :: insert_due e l'
  end.

Definition sort_due (l : list dl_entry) : list dl_entry := foldr insert_due [] l.

Definition due_dead_letter_readmissions (cfg : dl_config) (archive_data_dir : string) (ts limit : Z) (st : dl_state)
    : result (list dl_entry * dl_state) :=
  if decide (archive_data_dir = "") then Ok ([], st)
  else
    '(idx, st) ← dead_letter_index cfg st;
    Ok (take (Z.to_nat (Z.max 0 limit)) (sort_due (filter (fun e => entry_due ts e = true) (dict_values idx))), st).

Definition with_readmitted (ts : Z) (e : dl_entry) : dl_entry :=
  DLEntry (e_kind e) (e_identity e) (e_attempt e) (e_reason e) (e_recorded_at e) (e_first_recorded_at e)
    (e_cycle e) (e_env e) (e_terminal e) (e_readmit_at e) (Some ts).

Definition mark_dead_letters_readmitted (cfg : dl_config) (keys : list (string * string)) (ts : Z) (w : save_outcome)
    (st : dl_state) : result (bool * dl_state) :=
  if decide (keys = []) then Ok (true, st)
  else
    entries ← load_dead_letter_entries cfg st;
    Ok (save_dead_letter_entries w
          ((fun e => if existsb (fun k => has_key k e) keys then with_readmitted ts e else e) <$> entries) st).
