(* ===== verification/Discover.v ===== *)
(** The discovery walk, from [dbload/lib/sync_timedb_job_reconstruct.py],
    [sync_timedb_job_discover.py] and [sync_timedb_queue_orchestrator.py].

    The walk reads the records of the raw archive as they are found, decides for each
    file whether it still has to be ingested or appended to its daily tar, and queues the
    work in the job store.  When the ingest queue is full, older days push younger ones
    out, and the walk reports the oldest day it could not queue: the frontier, from which
    on no day may be closed.

    The walk runs in a thread of its own.  Each of its calls into the job store or into
    the day counts is one atomic step; before it, the other threads do what [others]
    says, so a theorem holds for every interleaving.  What the files, marks and clocks
    answer may change from call to call too: those are functions of the number of calls
    made so far. *)
From S2P Require Import Prelude PyDict PriorityQueue PyStr PosixPath RawRemoval IngestScore PyDate StatsFind LeaseOwner WriteBehind JobStore AppendDays DeadLetter.
From Stdlib Require Import SpecFloat.
Local Open Scope Z_scope.

Definition DEFAULT_INGEST_HOT_DAYS : Z := 8.
Definition DAY_CLOSE_MIN_AGE_HOURS_DEFAULT : Z := 32.

(** ** Days *)

Definition select_ingest_band (day today hot_days : Z) : string :=
  let age := today - day in
  if age <? 0 then "hot" else if age <? Z.max 1 hot_days then "hot" else "catchup".

(** A wall clock [datetime] counts microseconds from the start of the day with ordinal 0. *)
Definition datetime_date (t : Z) : Z := t / DAY_US.
Definition MAX_DATETIME : Z := (MAX_ORDINAL + 1) * DAY_US - 1.

(** [min_age] is the [timedelta] of the configured hours, in microseconds. *)
Definition day_close_min_age_elapsed (day now min_age : Z) : result bool :=
  let day_end := (day + 1) * DAY_US in
  if MAX_DATETIME <? day_end then Raise OverflowError
  else if MAX_DATETIME <? day_end + min_age then Raise OverflowError
  else Ok (day_end + min_age <=? now).

Section dates.
Context (local_date : Z -> option Z).

(** [_basename_date]: the [datetime.fromtimestamp] of an epoch is [local_date]. *)
Definition basename_date (path : string) : option Z :=
  let name := path_basename path in
  if ends_with ".json" name then None
  else match (if (10 <=? String.length name)%nat then strptime_ymd (str_prefix 10 name) else None) with
  | Some d => Some d
  | None =>
      if negb (str_isdigit name) then None
      else match py_int name with
      | None => None
      | Some epoch => if epoch <? 1000000000 then None else local_date epoch
      end
  end.

Definition calendar_day_from_find_record (rec : FindStatsRecord) : option Z := basename_date (rec_path rec).

(** A bound of the date filter, as a caller passes it. *)
Inductive filter_date := FNone | FDate (o : Z) | FDatetime (t : Z) | FOther.

#[export] Instance filter_date_eq_dec : EqDecision filter_date.
Proof. solve_decision. Defined.

Definition coerce_filter_date (v : filter_date) : option Z :=
  match v with
  | FDatetime t => Some (datetime_date t)
  | FDate o => Some o
  | FNone | FOther => None
  end.

Definition filter_find_records_for_date_range (records : list FindStatsRecord) (startdate enddate : filter_date)
    : list FindStatsRecord :=
  match coerce_filter_date startdate, coerce_filter_date enddate with
  | None, None => records
  | s, e => filter (fun rec => match basename_date (rec_path rec) with
                               | None => false
                               | Some d => from_option (fun s => s <=? d) true s && from_option (fun e => d <=? e) true e
                               end = true) records
  end.
End dates.

(** [find_record_mtime_ns]. *)
Definition find_record_mtime_ns (mtime : float64) : result Z :=
  round_float (SFmul 53 1024 mtime (float_of_Z 1000000000)).

(** ** The process around the walk *)

Section walk.
Context {H : Type} `{PQ : !PriorityQueue H}.

(** What the threads share: the job store and the counts of what each day owes. *)
Record shared := Shared { sh_store : store H; sh_left : remainders }.

(** Everything the walk does not do itself; an argument [n] is the number of calls
    before. *)
Record process := Process {
  others : nat -> shared -> shared;
  now_at : nat -> Z;
  wall_clock : nat -> Z;
  dead_letters : nat -> string -> dl_state;
  has_file_complete_mark : nat -> string -> bool;
  has_zero_host_mark : nat -> string -> bool;
  head_ingested_in_db : nat -> string -> bool;
  is_file : nat -> string -> bool;
  same_file : nat -> string -> string -> option bool;
  needs_tar_append : nat -> string -> string -> bool;
  day_close_on_disk : nat -> string -> bool;
  file_size : nat -> string -> option Z;
  tar_seal_in_progress : nat -> string -> bool;
  mutable_tar_members : nat -> string -> gmap string Z;
  populate_source_exists : nat -> string -> bool;
  cached_daily_members : nat -> string -> option (gmap string Z);
  member_match_when_warm : nat -> string -> string -> Z -> option bool;
}.

(** The settings of a walk. *)
Record walk_config := WalkConfig {
  wc_config : config;
  wc_dead_letters : dl_config;
  wc_min_age : Z;
  wc_listend_default : bool;
  wc_today : Z;
  wc_hot_days : Z;
  wc_tgz_archive_dir : string;
  wc_archive_data_dir : string;
}.

Context (sha1 : string -> list Z) (local_date : Z -> option Z) (week_form : string -> option Z)
  (getmtime : string -> option Z) (P : process) (C : walk_config).

(** The world a walk runs in: the calls made and what is shared. *)
Record world := World { w_calls : nat; w_shared : shared }.

(** A computation of the walk: [None] when it does not return. *)
Definition walk (A : Type) : Type := world -> option (result A * world).

#[global] Instance walk_ret : MRet walk := fun A a w => Some (Ok a, w).
#[global] Instance walk_bind : MBind walk := fun A B f m w =>
  match m w with
  | Some (Ok a, w) => f a w
  | Some (Raise e, w) => Some (Raise e, w)
  | None => None
  end.

#[global] Instance walk_fmap : FMap walk := fun A B f m => a ← m; mret (f a).

Definition raise {A} (e : py_exn) : walk A := fun w => Some (Raise e, w).
(** The outcome as a value: [try]. *)
Definition attempt {A} (m : walk A) : walk (result A) := fun w => '(r, w) ← m w; Some (Ok r, w).
(** The fuel is gone: no result. *)
Definition stuck {A} : walk A := fun _ => None.
Definition lift {A} (r : result A) : walk A := match r with Ok a => mret a | Raise e => raise e end.

(** One atomic call, after whatever the others did. *)
Definition call {A} (f : shared -> option (result A * shared)) : walk A := fun w =>
  match f (others P (w_calls w) (w_shared w)) with
  | Some (r, sh) => Some (r, World (S (w_calls w)) sh)
  | None => None
  end.

(** A question to the files, marks and clocks. *)
Definition ask {A} (f : nat -> A) : walk A := fun w => Some (Ok (f (w_calls w)), World (S (w_calls w)) (w_shared w)).

Definition read_store {A} (f : store H -> A) : walk A :=
  call (fun sh => Some (Ok (f (sh_store sh)), sh)).
Definition on_store {A} (f : store H -> A * store H) : walk A :=
  call (fun sh => let '(a, s) := f (sh_store sh) in Some (Ok a, Shared s (sh_left sh))).
Definition enqueue_list_call (kind identity : string) : walk Z :=
  call (fun sh => match enqueue_list_job (wc_config C) (sh_store sh) kind identity true with
                  | Ok (n, s) => Some (Ok n, Shared s (sh_left sh))
                  | Raise e => Some (Raise e, sh)
                  end).
Definition note_left (kind : string) (day : option string) (delta : Z) : walk unit :=
  match day with
  | Some d => if decide (d = "") then mret tt
              else call (fun sh => Some (Ok tt, Shared (sh_store sh) (note_day_remainder kind d delta (sh_left sh))))
  | None => mret tt
  end.

(** [remainder_day_for_identity], on the local calendar. *)
Definition left_day (identity : string) : option string :=
  remainder_day_for_identity (fun t => isoformat <$> local_date t) getmtime identity.

Definition dead_letter_blocked_now (root kind identity : string) : walk bool :=
  r ← ask (fun n => dead_letter_blocked (wc_dead_letters C) root kind identity (now_at P n) (dead_letters P n root));
  lift (fst <$> r).

(** ** Classification *)

Definition ingest_is_complete (path : string) (listend_enabled : option bool) : walk bool :=
  let text := py_strip path in
  if decide (text = "") then mret false
  else
    file_ok ← ask (fun n => has_file_complete_mark P n text);
    zero_ok ← ask (fun n => has_zero_host_mark P n text);
    if (file_ok : bool) || zero_ok then mret true
    else if default (wc_listend_default C) listend_enabled then mret false
    else ask (fun n => head_ingested_in_db P n text).

Definition append_is_complete (path : string) : walk bool :=
  let text := py_strip path in
  let archive := py_strip (wc_tgz_archive_dir C) in
  if decide (text = "" \/ archive = "") then mret false
  else negb <$> ask (fun n => needs_tar_append P n text archive).

(** [discover_ingest_is_complete]: the marks alone. *)
Definition discover_ingest_is_complete (path : string) : walk bool := ingest_is_complete path (Some true).

Definition stats_file_is_active_segment (stats_path : string) : walk bool :=
  let current_path := path_join (path_dirname stats_path) "current" in
  there ← ask (fun n => is_file P n current_path);
  if negb (there : bool) then mret false
  else default false <$> ask (fun n => same_file P n stats_path current_path).

(** [daily_compressed_path_for_date] and [daily_tar_path_from_compressed] of
    [archive_compress.py]; [day] is written [YYYY-MM-DD]. *)
Definition daily_compressed_path_for_date (tgz_archive_dir day : string) : string :=
  path_join tgz_archive_dir (day +:+ ".tar.zst").

Definition daily_tar_path_from_compressed (path : string) : string :=
  match strip_suffix ".tar.zst" path with
  | Some base => base +:+ ".tar"
  | None => match strip_suffix ".tar.gz" path with Some base => base +:+ ".tar" | None => path end
  end.

(** [discover_raw_needs_tar_append]: the answer, and the member map the code asks the
    populate queue for, as archive path and day. *)
Definition discover_raw_needs_tar_append (stats_path tgz_archive_dir : string) (enqueue_populate_on_cold : bool)
    : walk (bool * option (string * string)) :=
  let text := py_strip stats_path in
  let archive := py_strip tgz_archive_dir in
  if decide (text = "" \/ archive = "") then mret (false, None)
  else
    there ← ask (fun n => is_file P n text);
    if negb (there : bool) then mret (false, None)
    else
      active ← stats_file_is_active_segment text;
      if (active : bool) then mret (false, None)
      else match derive_stats_path_date (fun t => isoformat <$> local_date t) getmtime text with
      | None => mret (false, None)
      | Some file_date =>
          size ← ask (fun n => file_size P n text);
          match size with
          | None => mret (true, None)
          | Some expected_size =>
              let member_name := get_tar_member_name text in
              let canonical := normalize_daily_compressed_path (daily_compressed_path_for_date archive file_date) in
              let tar_path := daily_tar_path_from_compressed canonical in
              let differs (ms : gmap string Z) := bool_decide (ms !! member_name <> Some expected_size) in
              tar ← ask (fun n => is_file P n tar_path);
              if (tar : bool) then
                sealing ← ask (fun n => tar_seal_in_progress P n (normpath tar_path));
                if (sealing : bool) then mret (false, None)
                else needs ← (differs <$> ask (fun n => mutable_tar_members P n tar_path)); mret (needs, None)
              else
                source ← ask (fun n => populate_source_exists P n canonical);
                if negb (source : bool) then mret (true, None)
                else
                  cached ← ask (fun n => cached_daily_members P n canonical);
                  match cached with
                  | Some ms => mret (differs ms, None)
                  | None =>
                      warm ← ask (fun n => member_match_when_warm P n canonical member_name expected_size);
                      match warm with
                      | Some matches => mret (negb matches, None)
                      | None => mret (true, if enqueue_populate_on_cold then Some (canonical, file_date) else None)
                      end
                  end
          end
      end.

Definition discover_append_is_complete (path : string) : walk bool :=
  r ← discover_raw_needs_tar_append path (py_strip (wc_tgz_archive_dir C)) true; mret (negb r.1).

Record plan := Plan {
  pl_path : string;
  pl_identity : string;
  pl_needs_ingest : bool;
  pl_needs_append : bool;
  pl_calendar_day : option Z;
  pl_tar_path : option string;
  pl_fingerprint : string;
}.

Definition kinds_to_enqueue (p : plan) : list string :=
  if pl_needs_ingest p then [JOB_KIND_INGEST] else if pl_needs_append p then [JOB_KIND_APPEND] else [].

(** The completeness tests a walk is given ([None]: the defaults). *)
Record tests := Tests {
  ingest_is_complete_fn : option (string -> walk bool);
  append_is_complete_fn : option (string -> walk bool);
}.

Definition classify_closed_raw_path (T : tests) (path : string) (size mtime_ns : Z) (calendar_day : option Z)
    (listend_enabled : option bool) : walk plan :=
  let norm := normpath path in
  active ← (if is_internal_archive_stats_path norm then mret true else stats_file_is_active_segment norm);
  identity ← lift (ingest_identity norm);
  let fingerprint := ingest_fingerprint size mtime_ns in
  if (active : bool) then mret (Plan norm identity false false calendar_day None fingerprint)
  else
    let archive := py_strip (wc_tgz_archive_dir C) in
    complete_ingest ← default (fun p => ingest_is_complete p listend_enabled) (ingest_is_complete_fn T) norm;
    complete_append ← (if (complete_ingest : bool)
                       then default append_is_complete (append_is_complete_fn T) norm else mret false);
    mret (Plan norm identity (negb complete_ingest) (negb complete_append) calendar_day
      (match calendar_day with
       | Some d => if decide (archive = "") then None else Some (normpath (path_join archive (isoformat d +:+ ".tar")))
       | None => None
       end) fingerprint).

(** ** Enqueueing *)

(** [_ingest_queued]: two calls. *)
Definition ingest_queued (identity : string) : walk bool :=
  score ← read_store (ingest_score identity);
  match score with
  | Some _ => mret true
  | None => read_store (inflight_contains JOB_KIND_INGEST identity)
  end.

(** [_evict_younger]. *)
Definition evict_younger (day : Z) : walk (option string) :=
  gone ← call (fun sh => match evict_youngest_catchup_ingest day (sh_store sh) with
                         | Some (g, s) => Some (Ok g, Shared s (sh_left sh))
                         | None => None
                         end);
  _ ← note_left JOB_KIND_INGEST (gone ≫= left_day) (-1);
  mret gone.

(** The ingest half of [enqueue_reconstruct_jobs_for_closed_path]. *)
Definition enqueue_plan_ingest (p : plan) (over_cap : bool) : walk bool :=
  let root := py_strip (wc_archive_data_dir C) in
  blocked ← (if decide (root = "") then mret false else dead_letter_blocked_now root JOB_KIND_INGEST (pl_identity p));
  if (blocked : bool) then mret false
  else match pl_calendar_day p with
  | None => mret false
  | Some day =>
      score ← lift (encode_ingest_score sha1 (select_ingest_band day (wc_today C) (wc_hot_days C)) day (wc_today C) (pl_identity p));
      added ← on_store (fun s => zadd_ingest_job (wc_config C) s (pl_identity p) score
                                   (if decide (pl_fingerprint p = "") then None else Some (pl_fingerprint p)) over_cap);
      _ ← (if decide (added = 0) then mret tt else note_left JOB_KIND_INGEST (left_day (pl_identity p)) 1);
      if decide (added = 0) then ingest_queued (pl_identity p) else mret true
  end.

(** The append half. *)
Definition enqueue_plan_append (p : plan) : walk bool :=
  let root := py_strip (wc_archive_data_dir C) in
  blocked ← (if decide (root = "") then mret false else dead_letter_blocked_now root JOB_KIND_APPEND (pl_path p));
  if (blocked : bool) then mret false
  else
    added ← enqueue_list_call JOB_KIND_APPEND (pl_path p);
    _ ← (if decide (added = 0) then mret tt else note_left JOB_KIND_APPEND (left_day (pl_path p)) 1);
    mret true.

(** The answer is [enqueued["ingest"], enqueued["append"]]. *)
Definition enqueue_reconstruct_jobs_for_closed_path (p : plan) (over_cap : bool) : walk (bool * bool) :=
  ingest ← (if pl_needs_ingest p then enqueue_plan_ingest p over_cap else mret false);
  append ← (if pl_needs_append p && negb (pl_needs_ingest p) then enqueue_plan_append p else mret false);
  mret (ingest, append).

(** [day_close_is_complete]; [min_age_elapsed] is [None] when not given. *)
Definition day_close_is_complete (tar_path : string) (calendar_day : option Z) (filesystem_complete min_age_elapsed : option bool)
    (min_age : Z) : walk bool :=
  let tar_norm := normpath tar_path in
  on_disk ← (match filesystem_complete with
             | Some b => mret b
             | None => ask (fun n => day_close_on_disk P n tar_norm)
             end);
  if negb (on_disk : bool) then mret false
  else match min_age_elapsed with
  | Some b => mret b
  | None =>
      let base := path_basename tar_norm in
      match (match calendar_day with
             | Some d => Some d
             | None => fromisoformat week_form (default base (strip_suffix ".tar" base))
             end) with
      | None => mret false
      | Some day => r ← ask (fun n => day_close_min_age_elapsed day (wall_clock P n) min_age); lift r
      end
  end.

Definition enqueue_day_close_if_needed (tar_path : string) (calendar_day : option Z)
    (filesystem_complete min_age_elapsed : option bool) : walk bool :=
  complete ← day_close_is_complete tar_path calendar_day filesystem_complete min_age_elapsed
               (DAY_CLOSE_MIN_AGE_HOURS_DEFAULT * 3600000000);
  if (complete : bool) then mret false
  else
    _ ← enqueue_list_call JOB_KIND_DAY_CLOSE (normpath tar_path);
    mret true.

Definition enqueue_cheap_day_close_if_needed (tar_path : string) (calendar_day : option Z) (min_age_elapsed : option bool)
    : walk bool :=
  let base := path_basename (normpath tar_path) in
  let stem := default base (strip_suffix ".tar" base) in
  let cal := match calendar_day with
             | Some d => Some d
             | None => if (10 <=? String.length stem)%nat then fromisoformat week_form (str_prefix 10 stem) else None
             end in
  elapsed ← (match min_age_elapsed, cal with
             | None, Some d => r ← ask (fun n => day_close_min_age_elapsed d (wall_clock P n) (wc_min_age C)); Some <$> lift r
             | e, _ => mret e
             end);
  if decide (elapsed = Some false) then mret false
  else enqueue_day_close_if_needed tar_path cal (Some false) elapsed.

(** ** The walk *)

(** [StreamingDiscoverStats], with the sets the loop carries. *)
Record stats := Stats {
  seen : Z;
  enqueued_ingest : Z;
  enqueued_append : Z;
  skipped_complete : Z;
  enqueued_day_close : Z;
  stopped_at_capacity : bool;
  dropped_at_capacity : Z;
  frontier : option Z;
  day_close_seen : gset string;
  evicted : list string;
}.

Definition no_stats : stats := Stats 0 0 0 0 0 false 0 None ∅ [].

(** [cal if frontier is None else min(frontier, cal)]. *)
Definition lower (day : Z) (f : option Z) : option Z :=
  Some (match f with None => day | Some x => Z.min x day end).

Definition drop_at (day : Z) (st : stats) : stats :=
  Stats (seen st) (enqueued_ingest st) (enqueued_append st) (skipped_complete st) (enqueued_day_close st)
    (stopped_at_capacity st) (dropped_at_capacity st + 1) (lower day (frontier st)) (day_close_seen st) (evicted st).

Definition push_out (gone : string) (st : stats) : stats :=
  Stats (seen st) (enqueued_ingest st) (enqueued_append st) (skipped_complete st) (enqueued_day_close st)
    (stopped_at_capacity st) (dropped_at_capacity st) (frontier st) (day_close_seen st) (evicted st ++ [gone]).

Definition see (has_cap : bool) (st : stats) : stats :=
  Stats (seen st + 1) (enqueued_ingest st) (enqueued_append st) (skipped_complete st) (enqueued_day_close st)
    (stopped_at_capacity st || negb has_cap) (dropped_at_capacity st) (frontier st) (day_close_seen st) (evicted st).

Definition skip_past_frontier (st : stats) : stats :=
  Stats (seen st) (enqueued_ingest st) (enqueued_append st) (skipped_complete st) (enqueued_day_close st)
    (stopped_at_capacity st) (dropped_at_capacity st + 1) (frontier st) (day_close_seen st) (evicted st).

Definition count_enqueued (e : bool * bool) (st : stats) : stats :=
  Stats (seen st) (enqueued_ingest st + Z.b2z e.1) (enqueued_append st + Z.b2z e.2)
    (skipped_complete st + Z.b2z (negb (e.1 || e.2))) (enqueued_day_close st)
    (stopped_at_capacity st) (dropped_at_capacity st) (frontier st) (day_close_seen st) (evicted st).

Definition count_day_close (tar : string) (st : stats) : stats :=
  Stats (seen st) (enqueued_ingest st) (enqueued_append st) (skipped_complete st) (enqueued_day_close st + 1)
    (stopped_at_capacity st) (dropped_at_capacity st) (frontier st) ({[tar]} ∪ day_close_seen st) (evicted st).

Definition no_work (p : plan) : plan :=
  Plan (pl_path p) (pl_identity p) false false (pl_calendar_day p) (pl_tar_path p) (pl_fingerprint p).

Definition ingest_cap : Z :=
  discover_ingest_capacity_limit (sync_job_queue_max_members (wc_config C)) (sync_ingest_queue_max_size (wc_config C)).

Definition ingest_has_capacity : walk bool :=
  read_store (queue_has_capacity (wc_config C) JOB_KIND_INGEST (Some ingest_cap)).

Definition is_backfill (cal : option Z) : bool :=
  match cal with
  | Some d => bool_decide (select_ingest_band d (wc_today C) (wc_hot_days C) <> "hot")
  | None => false
  end.

(** The [while] loop that makes room for a backfill file of [day]. *)
Fixpoint make_room (fuel : nat) (day : Z) (has_cap : bool) (p : plan) (st : stats) : walk (plan * stats) :=
  if has_cap || negb (pl_needs_ingest p) then mret (p, st)
  else
    queued ← ingest_queued (pl_identity p);
    if (queued : bool) then mret (p, st)
    else match fuel with
    | O => stuck
    | S fuel =>
        gone ← evict_younger day;
        match gone with
        | None => mret (no_work p, drop_at day st)
        | Some g => has_cap ← ingest_has_capacity; make_room fuel day has_cap p (push_out g st)
        end
    end.

(** Not queued and not dead-lettered: the day stays open. *)
Definition left_open (backfill : bool) (p : plan) (e : bool * bool) : walk bool :=
  if negb (backfill && pl_needs_ingest p && negb e.1) then mret false
  else if decide (wc_archive_data_dir C = "") then mret true
  else negb <$> dead_letter_blocked_now (wc_archive_data_dir C) JOB_KIND_INGEST (pl_identity p).

Definition walk_day_close (p : plan) (st : stats) : walk stats :=
  let tar := py_strip (default "" (pl_tar_path p)) in
  if decide (tar = "" \/ tar ∈ day_close_seen st) then mret st
  else
    ok ← enqueue_cheap_day_close_if_needed tar (pl_calendar_day p) None;
    mret (if (ok : bool) then count_day_close tar st else st).

(** Variants of a walk: its own day function and tests. *)
Record walk_args := WalkArgs {
  wa_tests : tests;
  wa_listend_enabled : option bool;
  wa_calendar_day_fn : option (FindStatsRecord -> option Z);
  wa_startdate : filter_date;
  wa_enddate : filter_date;
}.

Section one_walk.
Context (fuel : nat) (A : walk_args).

Definition day_of_record (rec : FindStatsRecord) : option Z :=
  default (calendar_day_from_find_record local_date) (wa_calendar_day_fn A) rec.

(** The end of the body: queue the work, leave the day open if it was refused, and queue
    the day's close. *)
Definition finish_record (cal : option Z) (p : plan) (st : stats) : walk stats :=
  e ← enqueue_reconstruct_jobs_for_closed_path p false;
  open ← left_open (is_backfill cal) p e;
  let '(e, st) := match cal with
                  | Some d => if (open : bool) then ((false, false), drop_at d st) else (e, st)
                  | None => (e, st)
                  end in
  walk_day_close p (count_enqueued e st).

(** The body of the loop. *)
Definition walk_record (rec : FindStatsRecord) (st : stats) : walk stats :=
  if is_internal_archive_stats_path (rec_path rec) then mret st
  else if is_lock_name (path_basename (rec_path rec)) then mret st
  else
    has_cap ← ingest_has_capacity;
    let st := see has_cap st in
    let cal := day_of_record rec in
    if is_backfill cal && from_option (fun f => from_option (fun d => f <=? d) false cal) false (frontier st)
    then mret (skip_past_frontier st)
    else
      mtime_ns ← lift (find_record_mtime_ns (rec_mtime rec));
      p ← classify_closed_raw_path (wa_tests A) (rec_path rec) (rec_size rec) mtime_ns cal (wa_listend_enabled A);
      '(p, st) ← (match cal with
                  | Some d => if is_backfill cal then make_room fuel d has_cap p st else mret (p, st)
                  | None => mret (p, st)
                  end);
      finish_record cal p st.

Fixpoint walk_records (records : list FindStatsRecord) (st : stats) : walk stats :=
  match records with
  | [] => mret st
  | rec :: records => st ← walk_record rec st; walk_records records st
  end.

(** The fix-up: a file the walk pushed out and did not queue again. *)
Fixpoint reopen_evicted (gone : list string) (f : option Z) : walk (option Z) :=
  match gone with
  | [] => mret f
  | g :: gone =>
      match basename_date local_date (path_of_identity g) with
      | None => reopen_evicted gone f
      | Some d => queued ← ingest_queued g; reopen_evicted gone (if (queued : bool) then f else lower d f)
      end
  end.

Definition with_frontier (f : option Z) (st : stats) : stats :=
  Stats (seen st) (enqueued_ingest st) (enqueued_append st) (skipped_complete st) (enqueued_day_close st)
    (stopped_at_capacity st) (dropped_at_capacity st) f (day_close_seen st) (evicted st).

(** The records in the dates of the walk. *)
Definition records_in_dates (records : list FindStatsRecord) : list FindStatsRecord :=
  if decide (wa_startdate A = FNone /\ wa_enddate A = FNone) then records
  else filter_find_records_for_date_range local_date records (wa_startdate A) (wa_enddate A).

(** The records of a walk, and the exception the reader ends with. *)
Definition stream_enqueue_ingest_from_find_records (records : list FindStatsRecord * option py_exn) : walk stats :=
  st ← walk_records (records_in_dates records.1) no_stats;
  match records.2 with
  | Some e => raise e
  | None => f ← reopen_evicted (evicted st) (frontier st); mret (with_frontier f st)
  end.

Definition stream_enqueue_ingest_from_find_stdout_chunks (py_float : string -> option float64) (chunks : list string) : walk stats :=
  stream_enqueue_ingest_from_find_records (iter_find_printf_records_streaming py_float chunks).
End one_walk.

(** ** Background discovery *)

(** The module state of the orchestrator the walk and the day-close gate share. *)
Record discover_state := DiscoverState {
  discover_frontier_day : option Z;
  boot_full_discover_pending : bool;
  full_rediscover_pending : bool;
}.

(** [_record_discover_frontier]. *)
Definition record_discover_frontier (st : stats) (whole_archive : bool) (ds : discover_state) : discover_state :=
  let walked := frontier st in
  let before := discover_frontier_day ds in
  let after := match before with
               | Some b => if whole_archive then walked
                           else Some (match walked with None => b | Some x => Z.min b x end)
               | None => walked
               end in
  DiscoverState after (boot_full_discover_pending ds) (full_rediscover_pending ds).

(** [progress.day_token_from_day_close_identity]. *)
Definition day_token_from_day_close_identity (identity : string) : option string :=
  let text := py_strip identity in
  if decide (text = "") then None
  else
    let base := path_basename text in
    let base := default base (strip_suffix ".tar" base) in
    if (String.length base <? 10)%nat then None
    else isoformat <$> fromisoformat week_form (str_prefix 10 base).

(** [_day_close_held_for_discover]. *)
Definition day_close_held_for_discover (identity : string) (today hot_days : Z) (ds : discover_state) : bool :=
  match fromisoformat week_form (default "" (day_token_from_day_close_identity identity)) with
  | None => false
  | Some day =>
      if decide (select_ingest_band day today hot_days = "hot") then false
      else boot_full_discover_pending ds || from_option (fun f => f <=? day) false (discover_frontier_day ds)
  end.

Definition discover_job_identity (archive_dir : string) (mtime_days : option Z) : string :=
  "rescan|" +:+ normpath archive_dir +:+ "|mtime=" +:+ match mtime_days with None => "all" | Some d => str_of_Z d end.

(** [_discover_mtime_days_from_identity]. *)
Definition discover_mtime_days_from_identity (identity archive_dir : string) (fallback : option Z) : result (option Z) :=
  if negb (String.prefix "rescan|" identity) || negb (str_contains "|mtime=" identity) then Ok fallback
  else match rsplit_on "|mtime=" (String.substring 7 (String.length identity) identity) with
  | None => Raise ValueError
  | Some (path, window) =>
      if decide (normpath path <> normpath archive_dir) then Ok fallback
      else if decide (window = "all") then Ok None
      else Ok (match py_int window with Some n => Some n | None => fallback end)
  end.

(** What the directory listings and the removal manifests answer. *)
Record daily_dir := DailyDir {
  dir_names : nat -> string -> option (list string);
  manifest_phase : nat -> string -> option string;
}.

Context (D : daily_dir).

(** The loop body for a [.tar] of the daily directory. *)
Definition enqueue_daily_tar (root name : string) : walk bool :=
  if negb (ends_with ".tar" name) || ends_with ".tar.zst" name then mret false
  else if (String.length name <? 14)%nat then mret false
  else match fromisoformat week_form (str_prefix 10 name) with
  | None => mret false
  | Some cal => enqueue_cheap_day_close_if_needed (normpath (path_join root name)) (Some cal) None
  end.

(** [_sealed_only_day_manifest_open]: the manifest is there and not done. *)
Definition sealed_only_day_manifest_open (manifest_path : string) : walk bool :=
  phase ← ask (fun n => manifest_phase D n manifest_path);
  let text := default "" phase in
  mret (bool_decide (text <> "" /\ text <> "done")).

(** The loop body for a removal manifest: a sealed day whose tar is gone. *)
Definition enqueue_sealed_day (root manifest_dir name : string) : walk bool :=
  let day_token := str_prefix 10 name in
  if negb (ends_with ".json" name) || negb (String.length name =? 15)%nat then mret false
  else match fromisoformat week_form day_token with
  | None => mret false
  | Some cal =>
      let tar_path := normpath (path_join root (day_token +:+ ".tar")) in
      tar ← ask (fun n => is_file P n tar_path);
      sealed ← (if (tar : bool) then mret false else ask (fun n => is_file P n (tar_path +:+ ".zst")));
      if tar || negb sealed then mret false
      else
        open ← sealed_only_day_manifest_open (path_join manifest_dir name);
        if negb (open : bool) then mret false
        else enqueue_cheap_day_close_if_needed tar_path (Some cal) None
  end.

Fixpoint count_true (f : string -> walk bool) (names : list string) (n : Z) : walk Z :=
  match names with
  | [] => mret n
  | x :: names => b ← f x; count_true f names (n + Z.b2z b)
  end.

(** [_enqueue_day_closes_for_daily_dir]; a directory that cannot be listed is [None]. *)
Definition enqueue_day_closes_for_daily_dir : walk Z :=
  let root := py_strip (wc_tgz_archive_dir C) in
  names ← (if decide (root = "") then mret None else ask (fun n => dir_names D n root));
  match names with
  | None => mret 0
  | Some names =>
      n ← count_true (enqueue_daily_tar root) names 0;
      let manifest_dir := if decide (wc_archive_data_dir C = "") then ""
                          else path_join (wc_archive_data_dir C) ".sync_timedb_day_raw_removal" in
      manifests ← (if decide (manifest_dir = "") then mret [] else
                     default [] <$> ask (fun n => dir_names D n manifest_dir));
      count_true (enqueue_sealed_day root manifest_dir) (merge_sort String.le manifests) n
  end.

(** [_boot_stream_discover]; [find] is what the command prints for a window. *)
Definition boot_stream_discover (fuel : nat) (py_float : string -> option float64) (find : option Z -> list string)
    (startdate enddate : filter_date) (mtime_days : option Z) : walk stats :=
  let A := WalkArgs (Tests (Some discover_ingest_is_complete) (Some discover_append_is_complete)) None None startdate enddate in
  st ← stream_enqueue_ingest_from_find_stdout_chunks fuel A py_float (find mtime_days);
  _ ← enqueue_day_closes_for_daily_dir;
  mret st.

Definition set_rediscover (ds : discover_state) : discover_state :=
  DiscoverState (discover_frontier_day ds) (boot_full_discover_pending ds) true.
Definition clear_boot (ds : discover_state) : discover_state :=
  DiscoverState (discover_frontier_day ds) false (full_rediscover_pending ds).

Definition claim_discover (owner_token : string) : walk (option ClaimedJob) :=
  now ← ask (now_at P);
  call (fun sh => match claim_list_job (wc_config C) (sh_store sh) JOB_KIND_DISCOVER owner_token None now with
                  | Ok (c, s) => Some (Ok c, Shared s (sh_left sh))
                  | Raise e => Some (Raise e, sh)
                  end).

(** [_run_background_discover]. *)
Definition run_background_discover (fuel : nat) (py_float : string -> option float64) (find : option Z -> list string)
    (startdate enddate : filter_date) (owner_token : string) (mtime_days : option Z) (ds : discover_state) : walk discover_state :=
  claim ← attempt (claim_discover owner_token);
  match claim with
  | Raise _ | Ok None => mret ds
  | Ok (Some c) =>
      let parsed := discover_mtime_days_from_identity (cj_identity c) (wc_archive_data_dir C) mtime_days in
      let claimed := match parsed with Ok d => d | Raise _ => mtime_days end in
      walked ← attempt (d ← lift parsed; boot_stream_discover fuel py_float find startdate enddate d);
      let ds := match walked with
                | Ok st => record_discover_frontier st (bool_decide (claimed = None))
                             (if decide (dropped_at_capacity st = 0) then ds else set_rediscover ds)
                | Raise _ => set_rediscover ds
                end in
      let ds := if decide (claimed = None) then clear_boot ds else ds in
      _ ← attempt (on_store (fun s => ack_job s JOB_KIND_DISCOVER (cj_identity c) (cj_owner_token c)));
      mret ds
  end.
End walk.
