(* ===== verification/DiscoverLogic.v ===== *)
(** A program logic for the discovery walk.

    [post m w Q]: if [m] returns from the world [w], answer and world satisfy [Q]; an
    exception satisfies anything, and running out of fuel satisfies [partial], which is
    [True] for partial and [False] for total correctness.  [keeps m]: [m] keeps the store
    well formed and relates it by [R], a preorder the other threads respect.  Everything
    the walk does but queueing and evicting ingest jobs keeps any reasonable [R]. *)
From S2P Require Import Prelude PyDict PriorityQueue PyStr PosixPath IngestScore PyDate StatsFind LeaseOwner WriteBehind JobStore JobStoreInv JobStoreOps JobStoreSteps JobStoreSafety AppendDays DeadLetter Discover.
Local Open Scope Z_scope.

Create HintDb walk discriminated.

Section world.
Context {H : Type} `{PQ : !PriorityQueue H}.

Definition w_store (w : world (H := H)) : store H := sh_store (w_shared w).
Definition live (i : string) (w : world (H := H)) : Prop := present (w_store w) JOB_KIND_INGEST i.
End world.

Section logic.
Context {H : Type} `{PQ : !PriorityQueue H}.
Context (sha1 : string -> list Z) (local_date : Z -> option Z) (week_form : string -> option Z)
  (getmtime : string -> option Z) (P : process (H := H)) (C : walk_config).
Context (partial : Prop) (R : store H -> store H -> Prop) `{!PreOrder R}.
Implicit Types w : world (H := H).

(** ** Triples *)

Definition post {A} (m : walk (H := H) A) w (Q : A -> world (H := H) -> Prop) : Prop :=
  match m w with
  | Some (Ok a, w') => Q a w'
  | Some (Raise _, _) => True
  | None => partial
  end.

Lemma post_ret {A} (a : A) w Q : Q a w -> post (mret a) w Q.
Proof. done. Qed.

Lemma post_bind {A B} (m : walk A) (f : A -> walk B) w Q :
  post m w (fun a w' => post (f a) w' Q) -> post (m ≫= f) w Q.
Proof. unfold post, mbind, walk_bind. by destruct (m w) as [[[a|e] w']|]. Qed.

Lemma post_mono {A} (m : walk A) w (Q S : A -> world -> Prop) :
  post m w Q -> (forall a w', Q a w' -> S a w') -> post m w S.
Proof. unfold post. destruct (m w) as [[[a|e] w']|]; auto. Qed.

Lemma post_and {A} (m : walk A) w (Q S : A -> world -> Prop) :
  post m w Q -> post m w S -> post m w (fun a w' => Q a w' /\ S a w').
Proof. unfold post. destruct (m w) as [[[a|e] w']|]; auto. Qed.

Lemma post_fmap {A B} (g : A -> B) (m : walk A) w Q : post m w (fun a => Q (g a)) -> post (g <$> m) w Q.
Proof. intros Hm. apply post_bind. by eapply post_mono. Qed.

Lemma post_lift {A} (r : result A) w Q : (forall a, r = Ok a -> Q a w) -> post (lift r) w Q.
Proof. destruct r; unfold post; simpl; auto. Qed.

Lemma post_ask {A} (f : nat -> A) w Q :
  Q (f (w_calls w)) (World (S (w_calls w)) (w_shared w)) -> post (ask f) w Q.
Proof. done. Qed.

(** A call of a store operation that always answers. *)
Lemma post_call {A} (f : shared -> option (result A * shared)) w Q :
  (f (others P (w_calls w) (w_shared w)) = None -> partial) ->
  (forall a sh, f (others P (w_calls w) (w_shared w)) = Some (Ok a, sh) -> Q a (World (S (w_calls w)) sh)) ->
  post (call P f) w Q.
Proof. intros Hn Hf. unfold post, call. destruct (f _) as [[[a|e] sh]|]; auto. Qed.

(** ** What is kept *)

(** The other threads keep the store well formed, and respect [R]. *)
Definition others_respect : Prop := forall n sh,
  store_wf (sh_store sh) ->
  store_wf (sh_store (others P n sh)) /\ R (sh_store sh) (sh_store (others P n sh)).

(** So does appending to a LIST queue. *)
Definition lists_respect : Prop := forall k i s r,
  store_wf s -> enqueue_list_job (wc_config C) s k i true = Ok r -> R s r.2.

(** So does admitting an ingest job; only some relations allow it. *)
Definition zadd_respects : Prop := forall i sc fp over s,
  store_wf s -> R s (zadd_ingest_job (wc_config C) s i sc fp over).2.

Definition keeps {A} (m : walk (H := H) A) : Prop := forall w,
  store_wf (w_store w) -> post m w (fun _ w' => store_wf (w_store w') /\ R (w_store w) (w_store w')).

Lemma keeps_ret {A} (a : A) : keeps (mret a).
Proof. intros w Hw. by apply post_ret. Qed.

Lemma keeps_bind {A B} (m : walk A) (f : A -> walk B) : keeps m -> (forall a, keeps (f a)) -> keeps (m ≫= f).
Proof.
  intros Hm Hf w Hw. apply post_bind. eapply post_mono; [by apply Hm|]. intros a w' [Hw' Hr].
  eapply post_mono; [by apply Hf|]. intros b w'' [Hw'' Hr']. split; [done|]. by etrans.
Qed.

Lemma keeps_fmap {A B} (g : A -> B) (m : walk A) : keeps m -> keeps (g <$> m).
Proof. intros Hm. apply keeps_bind; [done|]. intros a. apply keeps_ret. Qed.

Lemma keeps_ask {A} (f : nat -> A) : keeps (ask f).
Proof. intros w Hw. by apply post_ask. Qed.

Lemma keeps_lift {A} (r : result A) : keeps (lift r).
Proof. intros w Hw. by apply post_lift. Qed.

(** A step that keeps, then the rest of the program. *)
Lemma post_step {A B} (m : walk A) (f : A -> walk B) w (Q : B -> world -> Prop) :
  keeps m -> store_wf (w_store w) ->
  (forall a w', store_wf (w_store w') -> R (w_store w) (w_store w') -> post (f a) w' Q) ->
  post (m ≫= f) w Q.
Proof.
  intros Hm Hw Hf. apply post_bind. eapply post_mono; [by apply Hm|]. intros a w' [Hw' Hl]. by apply Hf.
Qed.

Context (Hothers : others_respect) (Hlists : lists_respect).

Lemma keeps_call {A} (f : shared -> option (result A * shared)) :
  (forall sh, store_wf (sh_store sh) ->
     match f sh with
     | Some (Ok _, sh') => store_wf (sh_store sh') /\ R (sh_store sh) (sh_store sh')
     | Some (Raise _, _) => True
     | None => partial
     end) ->
  keeps (call P f).
Proof.
  intros Hf w Hw. destruct (Hothers (w_calls w) _ Hw) as [Ho Hr]. specialize (Hf _ Ho).
  apply post_call; [intros E; by rewrite E in Hf|]. intros a sh E. rewrite E in Hf. destruct Hf. split; [done|]. by etrans.
Qed.

Lemma keeps_read {A} (f : store H -> A) : keeps (read_store P f).
Proof. apply keeps_call. intros sh Hw. by split. Qed.

Lemma keeps_note kind day delta : keeps (note_left P kind day delta).
Proof.
  unfold note_left. destruct day as [d|]; [|apply keeps_ret]. case_decide; [apply keeps_ret|].
  apply keeps_call. intros sh Hw. by split.
Qed.

Lemma keeps_enqueue_call k j : keeps (enqueue_list_call P C k j).
Proof.
  apply keeps_call. intros sh Hw. destruct (enqueue_list_job _ _ _ _ _) as [[n s]|] eqn:En; [|done].
  split; [by apply (store_wf_enqueue _ _ _ _ _ Hw En)|by apply (Hlists _ _ _ _ Hw En)].
Qed.

Lemma keeps_zadd_call j sc fp over :
  zadd_respects -> keeps (on_store P (fun s => zadd_ingest_job (wc_config C) s j sc fp over)).
Proof.
  intros Hz. apply keeps_call. intros sh Hw. pose proof (store_wf_zadd (wc_config C) j sc fp over _ Hw) as Hw'.
  specialize (Hz j sc fp over _ Hw). unfold zadd_ingest_job in *. by destruct (zadd_ingest _ _ _ _ _ _).
Qed.

(** Closes [keeps] goals along the structure of the program. *)
Ltac keeps_tac :=
  repeat match goal with
    | |- keeps (mbind _ _) => apply keeps_bind; [|intros ?]
    | |- keeps (fmap _ _) => apply keeps_fmap
    | |- keeps (mret _) => apply keeps_ret
    | |- keeps (ask _) => apply keeps_ask
    | |- keeps (lift _) => apply keeps_lift
    | |- keeps (read_store _ _) => apply keeps_read
    | |- keeps (note_left _ _ _ _) => apply keeps_note
    | |- keeps (on_store _ _) => apply keeps_zadd_call
    | |- keeps (enqueue_list_call _ _ _ _) => apply keeps_enqueue_call
    | _ => solve [auto with walk]
    | _ => case_decide
    | _ => case_match
    end.

Lemma keeps_blocked root k j : keeps (dead_letter_blocked_now P C root k j).
Proof. unfold dead_letter_blocked_now. keeps_tac. Qed.
#[local] Hint Resolve keeps_blocked : walk.

Lemma keeps_ingest_complete path l : keeps (ingest_is_complete P C path l).
Proof. unfold ingest_is_complete. keeps_tac. Qed.

Lemma keeps_append_complete path : keeps (append_is_complete P C path).
Proof. unfold append_is_complete. keeps_tac. Qed.

Lemma keeps_active path : keeps (stats_file_is_active_segment P path).
Proof. unfold stats_file_is_active_segment. keeps_tac. Qed.
#[local] Hint Resolve keeps_ingest_complete keeps_append_complete keeps_active : walk.

(** The tests a walk is given may only look. *)
Definition tests_respect (T : tests (H := H)) : Prop :=
  (forall f p, ingest_is_complete_fn T = Some f -> keeps (f p)) /\
  (forall f p, append_is_complete_fn T = Some f -> keeps (f p)).

Lemma keeps_classify T path size mtime_ns day l :
  tests_respect T -> keeps (classify_closed_raw_path P C T path size mtime_ns day l).
Proof.
  intros [Hi Ha]. unfold classify_closed_raw_path.
  assert (forall p, keeps (default (fun p => ingest_is_complete P C p l) (ingest_is_complete_fn T) p)) as Hi'
    by (intros p; destruct (ingest_is_complete_fn T) as [f|]; simpl; auto with walk).
  assert (forall p, keeps (default (append_is_complete P C) (append_is_complete_fn T) p)) as Ha'
    by (intros p; destruct (append_is_complete_fn T) as [f|]; simpl; auto with walk).
  keeps_tac.
Qed.

Lemma keeps_ingest_queued j : keeps (ingest_queued P j).
Proof. unfold ingest_queued. keeps_tac. Qed.
#[local] Hint Resolve keeps_ingest_queued : walk.

Lemma keeps_capacity : keeps (ingest_has_capacity P C).
Proof. unfold ingest_has_capacity. keeps_tac. Qed.

Lemma keeps_plan_ingest p over : zadd_respects -> keeps (enqueue_plan_ingest sha1 local_date getmtime P C p over).
Proof. intros Hz. unfold enqueue_plan_ingest. keeps_tac. Qed.

Lemma keeps_plan_append p : keeps (enqueue_plan_append local_date getmtime P C p).
Proof. unfold enqueue_plan_append. keeps_tac. Qed.
#[local] Hint Resolve keeps_capacity keeps_plan_ingest keeps_plan_append : walk.

Lemma keeps_reconstruct p over :
  zadd_respects -> keeps (enqueue_reconstruct_jobs_for_closed_path sha1 local_date getmtime P C p over).
Proof. intros Hz. unfold enqueue_reconstruct_jobs_for_closed_path. keeps_tac. Qed.

Lemma keeps_close tar day fs e : keeps (enqueue_day_close_if_needed week_form P C tar day fs e).
Proof. unfold enqueue_day_close_if_needed, day_close_is_complete. keeps_tac. Qed.
#[local] Hint Resolve keeps_close : walk.

Lemma keeps_walk_close p st : keeps (walk_day_close week_form P C p st).
Proof. unfold walk_day_close, enqueue_cheap_day_close_if_needed. keeps_tac. Qed.

Lemma keeps_left_open b p e : keeps (left_open P C b p e).
Proof. unfold left_open. keeps_tac. Qed.


Lemma walk_day_close_stats p st w :
  store_wf (w_store w) ->
  post (walk_day_close week_form P C p st) w (fun st' _ => frontier st' = frontier st /\ evicted st' = evicted st).
Proof.
  intros Hw. unfold walk_day_close. case_decide; [by apply post_ret|]. apply post_step; [|done|].
  - unfold enqueue_cheap_day_close_if_needed. keeps_tac.
  - intros [] w' Hw' _; by apply post_ret.
Qed.

Lemma keeps_finish cal p st :
  zadd_respects -> keeps (finish_record sha1 local_date week_form getmtime P C cal p st).
Proof.
  intros Hz. unfold finish_record. apply keeps_bind; [by apply keeps_reconstruct|]. intros e.
  apply keeps_bind; [apply keeps_left_open|]. intros b. case_match. apply keeps_walk_close.
Qed.
End logic.
