(* ===== verification/DiscoverSpec.v ===== *)
(** Correctness of the discovery walk: no file is forgotten.

    A file that needs ingest is queued, claimed, or its day is at or after the frontier
    the walk reports, for every interleaving with threads that do not drop that file's
    job; so a day the close gate lets through has every file the walk met. *)
From S2P Require Import Prelude PyDict PriorityQueue PyStr PosixPath IngestScore PyDate StatsFind LeaseOwner WriteBehind JobStore JobStoreInv JobStoreOps JobStoreSteps JobStoreSafety AppendDays DeadLetter Discover DiscoverLogic.
Local Open Scope Z_scope.

(** The frontier is at or below day [d]. *)
Definition low (f : option Z) (d : Z) : Prop := match f with Some x => x <= d | None => False end.

Lemma low_lower e f d : low f d \/ e <= d -> low (lower e f) d.
Proof. destruct f as [x|]; simpl; [|tauto]. lia. Qed.

Section job.
Context {H : Type} `{PQ : !PriorityQueue H}.
Context (sha1 : string -> list Z) (local_date : Z -> option Z) (week_form : string -> option Z)
  (getmtime : string -> option Z) (P : process (H := H)) (C : walk_config).
Implicit Types w : world (H := H).

(** ** A job that is followed through the walk *)

Context (i : string).

Definition job_kept (s s' : store H) : Prop := present s JOB_KIND_INGEST i -> present s' JOB_KIND_INGEST i.

#[local] Instance job_kept_preorder : PreOrder job_kept.
Proof. split; [intros s; exact id|]. intros s1 s2 s3 H1 H2 Hp. exact (H2 (H1 Hp)). Qed.

(** The other threads keep the store well formed and do not drop the job [i]: they may
    claim it, requeue it or work on it, but it is not done before the walk ends. *)
Definition others_keep : Prop := others_respect P job_kept.

Lemma keeps_job_kept s s' : keeps_but nothing s s' -> job_kept s s'.
Proof. intros Hk Hp. by destruct (Hk _ _ Hp) as [|[]]. Qed.

Lemma lists_keep : lists_respect C job_kept.
Proof. intros k j s r Hw E. eapply keeps_job_kept, keeps_enqueue, E. Qed.

Lemma zadd_keep : zadd_respects C job_kept.
Proof. intros j sc fp over s Hw. apply keeps_job_kept, keeps_zadd. Qed.

Context (Hothers : others_respect P job_kept).
#[local] Hint Resolve lists_keep zadd_keep : core.

Abbreviation post := (DiscoverLogic.post True).
Abbreviation keeps_job := (keeps True job_kept).

(** Applies a lemma of the logic to this relation. *)
Ltac by_keeps lem := apply lem; first [apply _ | done | auto].

Lemma post_keeps {A} (m : walk A) w :
  keeps_job m -> store_wf (w_store w) -> post m w (fun _ w' => store_wf (w_store w') /\ (live i w -> live i w')).
Proof. intros Hm. apply Hm. Qed.

Lemma walk_bind_keeps {A B} (m : walk A) (f : A -> walk B) w (Q : B -> world -> Prop) :
  keeps_job m -> store_wf (w_store w) ->
  (forall a w', store_wf (w_store w') -> (live i w -> live i w') -> post (f a) w' Q) ->
  post (m ≫= f) w Q.
Proof. exact (post_step True job_kept m f w Q). Qed.

(** The tests a walk is given may only look. *)
Definition tests_keep (T : tests (H := H)) : Prop := tests_respect True job_kept T.

(** ** What is known of the job after each step *)

(** The job is known to the store, was pushed out by the walk, or its day stays open. *)
Definition accounted (d : Z) (st : stats) w : Prop := live i w \/ i ∈ evicted st \/ low (frontier st) d.

(** [m] does not lose the job of day [d]. *)
Abbreviation safe d st w := (fun st' w' => store_wf (w_store w') /\ (accounted d st w -> accounted d st' w')).

Lemma ingest_queued_post w :
  store_wf (w_store w) ->
  post (ingest_queued P i) w (fun b w' => store_wf (w_store w') /\ (live i w -> live i w') /\ (b = true -> live i w')).
Proof.
  intros Hw. apply post_bind, post_call; [done|]. intros a sh [= <- <-].
  destruct (Hothers (w_calls w) _ Hw) as [Ho Hp]. set (s := sh_store (others P _ _)) in *.
  destruct (ingest_score i s) as [z|] eqn:Ez.
  - apply post_ret. assert (live i {| w_calls := S (w_calls w); w_shared := others P (w_calls w) (w_shared w) |}) as Hl
      by (left; left; split; [done|]; by exists z). auto.
  - apply post_call; [done|]. intros b sh [= <- <-]. cbn [w_calls w_shared].
    destruct (Hothers (S (w_calls w)) (others P (w_calls w) (w_shared w)) Ho) as [Ho' Hp'].
    split_and!; [exact Ho'|intros Hl; by apply Hp', Hp|]. intros Hb. right.
    unfold inflight_contains in Hb. by apply bool_decide_eq_true in Hb.
Qed.

Lemma evict_younger_post day w :
  store_wf (w_store w) ->
  post (evict_younger local_date getmtime P day) w
    (fun g w' => store_wf (w_store w') /\ (live i w -> live i w' \/ g = Some i)).
Proof.
  intros Hw. apply post_bind, post_call; [done|]. intros g sh E. destruct (Hothers (w_calls w) _ Hw) as [Ho Hp].
  unfold evict_youngest_catchup_ingest in E.
  destruct (evict_loop _ _ _) as [[g' s]|] eqn:Ee; [|done]. simplify_eq.
  pose proof (store_wf_evict_loop _ _ _ _ Ho Ee) as Hw'. pose proof (keeps_evict_loop _ _ _ _ Ee) as Hk. cbn [fst snd] in *.
  apply post_bind. eapply post_mono; [apply post_keeps; [by_keeps keeps_note|done]|]. intros _ w' [Hw'' Hl]. apply post_ret.
  split; [exact Hw''|]. intros Hlive. destruct (Hk _ _ (Hp Hlive)) as [Hq|[_ ->]]; auto.
Qed.

(** Making room never drops the job unnoticed; a plan that is given up has lowered the
    frontier to its day. *)
Lemma make_room_post d fuel day has_cap p st w :
  store_wf (w_store w) ->
  post (make_room local_date getmtime P C fuel day has_cap p st) w (fun r w' =>
    safe d st w r.2 w' /\ pl_identity r.1 = pl_identity p /\ pl_calendar_day r.1 = pl_calendar_day p /\
    (pl_needs_ingest r.1 = pl_needs_ingest p \/ low (frontier r.2) day)).
Proof.
  revert has_cap st w. induction fuel as [|fuel IH]; intros has_cap st w Hw; cbn [make_room].
  - case_match; [by apply post_ret; auto|]. apply post_bind.
    eapply post_mono; [apply post_keeps; [by_keeps keeps_ingest_queued|done]|]. intros [] w' [Hw' Hl]; [|done].
    apply post_ret. unfold accounted. naive_solver.
  - case_match; [by apply post_ret; auto|]. apply post_bind.
    eapply post_mono; [apply post_keeps; [by_keeps keeps_ingest_queued|done]|]. intros [] w' [Hw' Hl].
    { apply post_ret. unfold accounted. naive_solver. }
    apply post_bind. eapply post_mono; [by apply evict_younger_post|]. intros [g|] w'' [Hw'' Hg].
    + apply post_bind. eapply post_mono; [apply post_keeps; [by_keeps keeps_capacity|done]|]. intros cap w3 [Hw3 Hl3].
      eapply post_mono; [by apply IH|]. intros r w4 ((Hw4 & Hs) & E1 & E2 & Hn). split_and!; try done.
      intros [Ha|[Ha|Ha]]; apply Hs; [|right; left; simpl; set_solver|by right; right].
      destruct (Hg (Hl Ha)) as [Hc|[= ->]]; [left; auto|right; left; simpl; set_solver].
    + apply post_ret. split_and!; try done; [|by right; apply low_lower; right].
      intros [Ha|[Ha|Ha]]; [left|by right; left|right; right; apply low_lower; by left].
      by destruct (Hg (Hl Ha)).
Qed.

(** ** A record whose file needs ingest *)

(** The job is not dead-lettered while the walk runs. *)
Definition never_blocked : Prop := forall n root r,
  dead_letter_blocked (wc_dead_letters C) root JOB_KIND_INGEST i (now_at P n) (dead_letters P n root) = Ok r -> r.1 = false.

Lemma blocked_post root w :
  never_blocked -> post (dead_letter_blocked_now P C root JOB_KIND_INGEST i) w (fun b w' => b = false /\ w_shared w' = w_shared w).
Proof.
  intros Hn. apply post_bind, post_ask, post_lift. intros b E. split; [|done].
  destruct (dead_letter_blocked _ _ _ _ _ _) as [r|] eqn:Er; [|done]. cbn in E. simplify_eq. by eapply Hn.
Qed.

(** A plan for the job: it needs ingest and has the day [d]. *)
Definition plan_for (d : Z) (p : plan) : Prop :=
  pl_identity p = i /\ pl_needs_ingest p = true /\ pl_calendar_day p = Some d.

Lemma zadd_call_post cfg sc fp w :
  store_wf (w_store w) ->
  post (on_store P (fun s => zadd_ingest_job cfg s i sc fp false)) w
    (fun n w' => store_wf (w_store w') /\ (n <> 0 -> live i w') /\ (decode_ingest_band sc = "hot" -> live i w')).
Proof.
  intros Hw. apply post_call; [done|]. intros n sh E. destruct (Hothers (w_calls w) _ Hw) as [Ho _].
  set (s := sh_store (others P _ _)) in *. pose proof (store_wf_zadd cfg i sc fp false s Ho) as Hw'.
  unfold zadd_ingest_job, zadd_ingest in *. destruct (decide (is_Some _)) as [Hc|Hc]; simplify_eq.
  { split_and!; [exact Ho|done|]. intros _. by right. }
  destruct (_ && _) eqn:Er; simplify_eq.
  { split_and!; [exact Ho|done|]. intros Hb. rewrite !andb_true_iff, bool_decide_eq_true in Er. tauto. }
  assert (forall s', iq s' = iq (ingest_set i sc s) -> present (mark_dirty_locked s') JOB_KIND_INGEST i) as Hl.
  { intros s' Es. left. left. split; [done|]. unfold mark_dirty_locked; simpl. rewrite Es. unfold ingest_set; simpl.
    rewrite ingest_queue_set, dict_lookup_insert_eq. by eexists. }
  split_and!; [exact Hw'|intros _|intros _]; apply Hl; destruct fp as [fp|]; [case_decide| |case_decide|]; done.
Qed.

Lemma encode_band_hot d id s :
  valid_day d = true -> valid_day (wc_today C) = true ->
  encode_ingest_score sha1 "hot" d (wc_today C) id = Ok s -> decode_ingest_band s = "hot".
Proof.
  intros Hd%valid_day_bounds Ht%valid_day_bounds. rewrite encode_hot_ok. intros [= <-].
  pose proof (tie_break_range sha1 id). set (x := tie_break_from_identity sha1 id) in *. clearbody x.
  match goal with |- decode_ingest_band ?v = _ => destruct (band_cases v) as [[_ E]|[Hge _]] end; [done|].
  exfalso. score_lia.
Qed.

Lemma band_choice d t h : select_ingest_band d t h = "hot" \/ select_ingest_band d t h = "catchup".
Proof. unfold select_ingest_band. repeat case_match; auto. Qed.

Lemma plan_ingest_post d p w :
  never_blocked -> valid_day d = true -> valid_day (wc_today C) = true -> plan_for d p -> store_wf (w_store w) ->
  post (enqueue_plan_ingest sha1 local_date getmtime P C p false) w (fun b w' =>
    store_wf (w_store w') /\ (b = true -> live i w') /\ (is_backfill C (Some d) = false -> live i w')).
Proof.
  intros Hn Hd Ht (Ei & _ & Ed) Hw. unfold enqueue_plan_ingest. rewrite Ei, Ed. apply post_bind.
  eapply (post_mono _ _ _ (fun b w' => b = false /\ w_shared w' = w_shared w)).
  { case_decide; [by apply post_ret|by apply blocked_post]. }
  intros b w1 [-> E1]. assert (store_wf (w_store w1)) as Hw1 by (unfold w_store; by rewrite E1).
  apply post_bind, post_lift. intros sc Esc. apply post_bind.
  eapply post_mono; [by apply zadd_call_post|]. intros n w2 (Hw2 & Hl & Hh).
  assert (is_backfill C (Some d) = false -> live i w2) as Hhot.
  { intros Hb. apply Hh. unfold is_backfill in Hb. apply bool_decide_eq_false, dec_stable in Hb. rewrite Hb in Esc.
    exact (encode_band_hot d i sc Hd Ht Esc). }
  apply walk_bind_keeps; [case_decide; [by_keeps keeps_ret|by_keeps keeps_note]|done|]. intros _ w3 Hw3 Hl3. case_decide.
  - eapply post_mono; [by apply ingest_queued_post|]. intros b w4 (Hw4 & Hl4 & Hb). split_and!; auto.
  - apply post_ret. split_and!; auto.
Qed.

Lemma left_open_post d p w :
  never_blocked -> plan_for d p -> is_backfill C (Some d) = true -> store_wf (w_store w) ->
  post (left_open P C (is_backfill C (Some d)) p (false, false)) w (fun b w' => b = true /\ w_shared w' = w_shared w).
Proof.
  intros Hn (Ei & En & _) Hb Hw. unfold left_open. rewrite Hb, En, Ei. cbn. case_decide; [by apply post_ret|].
  apply post_fmap. eapply post_mono; [by apply blocked_post|]. by intros b w' [-> ?].
Qed.

(** Queueing the work of a record: the job followed is not lost, and if this is its
    record it is queued, or its day stays open. *)
Lemma finish_record_post d cal p st w :
  store_wf (w_store w) ->
  accounted d st w \/
    (never_blocked /\ valid_day d = true /\ valid_day (wc_today C) = true /\ plan_for d p /\ cal = Some d) ->
  post (finish_record sha1 local_date week_form getmtime P C cal p st) w
    (fun st' w' => store_wf (w_store w') /\ accounted d st' w').
Proof.
  intros Hw Hor. unfold finish_record. apply post_bind.
  eapply (post_mono _ _ _ (fun e w' => store_wf (w_store w') /\
    (accounted d st w' \/ (never_blocked /\ plan_for d p /\ cal = Some d /\ is_backfill C (Some d) = true /\ e = (false, false))))).
  - destruct Hor as [Ha|(Hn & Hd & Ht & Hp & ->)].
    { eapply post_mono; [apply post_keeps; [by_keeps keeps_reconstruct|done]|]. intros e w' [Hw' Hl]. split; [done|]. left.
      unfold accounted in *. naive_solver. }
    unfold enqueue_reconstruct_jobs_for_closed_path. pose proof Hp as (_ & -> & _). rewrite andb_false_r.
    apply post_bind. eapply post_mono; [by apply (plan_ingest_post d)|]. intros b w1 (Hw1 & Hl & Hh).
    apply post_bind, post_ret, post_ret. split; [done|]. destruct b; [left; left; auto|].
    destruct (is_backfill C (Some d)) eqn:Hb; [|left; left; auto]. right. auto.
  - intros e w1 [Hw1 Hcase]. apply post_bind.
    eapply (post_mono _ _ _ (fun b w' => store_wf (w_store w') /\
      (accounted d st w' \/ (b = true /\ cal = Some d)))).
    + destruct Hcase as [Ha|(Hn & Hp & -> & Hb & ->)].
      * eapply post_mono; [apply post_keeps; [by_keeps keeps_left_open|done]|]. intros b w' [Hw' Hl]. split; [done|]. left.
        unfold accounted in *. naive_solver.
      * eapply post_mono; [by apply (left_open_post d)|]. intros b w' [-> E]. unfold w_store. rewrite E. auto.
    + intros b w2 [Hw2 Hcase2]. case_match eqn:Em.
      assert (accounted d s w2) as Ha2.
      { destruct cal as [c|]; [destruct b|]; simplify_eq; destruct Hcase2 as [Ha|[Hb Hc]]; simplify_eq; try done.
        - destruct Ha as [?|[?|?]]; [by left|by right; left|right; right; apply low_lower; by left].
        - right; right. apply low_lower. by right. }
      eapply post_mono; [apply post_and; [apply post_keeps; [by_keeps keeps_walk_close|done]|eapply (walk_day_close_stats _ _ _ _ job_kept); done]|].
      intros st' w3 [[Hw3 Hl3] [Ef Ev]]. split; [done|]. unfold accounted in *. rewrite Ef, Ev.
      destruct Ha2 as [?|?]; auto.
Qed.

(** ** The loop *)

Context (fuel : nat) (A : walk_args (H := H)).

(** A raw file that still has to be ingested, as the walk finds it: outside the internal
    directories, dated [d], incomplete whenever it is looked at, not dead-lettered. *)
Record open_record (d : Z) (rec : FindStatsRecord) : Prop := {
  or_external : is_internal_archive_stats_path (rec_path rec) = false;
  or_not_lock : is_lock_name (path_basename (rec_path rec)) = false;
  or_day : day_of_record local_date A rec = Some d;
  or_valid : valid_day d = true;
  or_today : valid_day (wc_today C) = true;
  or_needs : forall mtime_ns w,
    post (classify_closed_raw_path P C (wa_tests A) (rec_path rec) (rec_size rec) mtime_ns (Some d) (wa_listend_enabled A)) w
      (fun p _ => plan_for d p);
  or_unblocked : never_blocked;
}.

Context (Htests : tests_keep (wa_tests A)).

Abbreviation body := (walk_record sha1 local_date week_form getmtime P C fuel A).

Lemma walk_record_post d rec st w :
  store_wf (w_store w) -> accounted d st w \/ open_record d rec ->
  post (body rec st) w (fun st' w' => store_wf (w_store w') /\ accounted d st' w').
Proof.
  intros Hw Hor. unfold walk_record. case_match eqn:Ei.
  { apply post_ret. split; [done|]. destruct Hor as [?|[Hx _ _ _ _ _ _]]; [done|congruence]. }
  case_match eqn:El.
  { apply post_ret. split; [done|]. destruct Hor as [?|[_ Hx _ _ _ _ _]]; [done|congruence]. }
  apply walk_bind_keeps; [by_keeps keeps_capacity|done|]. intros cap w1 Hw1 Hl1.
  assert (accounted d (see cap st) w1 \/ open_record d rec) as Hor1 by (destruct Hor as [[?|?]|?]; unfold accounted; auto).
  clear Hor. set (st1 := see cap st) in *. set (cal := day_of_record local_date A rec).
  case_match eqn:Es.
  { apply post_ret. split; [done|]. destruct Hor1 as [[?|[?|?]]|Hr]; [by left|by right; left|by right; right|].
    right; right. apply andb_true_iff in Es as [_ Es]. unfold cal in Es. rewrite (or_day d rec Hr) in Es.
    destruct (frontier st1) as [f|] eqn:Ef; [|done]. simpl in Es. unfold skip_past_frontier; cbn [frontier low]. rewrite Ef. simpl. lia. }
  apply walk_bind_keeps; [by_keeps keeps_lift|done|]. intros ns w2 Hw2 Hl2.
  apply post_bind. eapply (post_mono _ _ _ (fun p w' => store_wf (w_store w') /\
    (accounted d st1 w' \/ (open_record d rec /\ plan_for d p)))).
  { destruct Hor1 as [Ha|Hr].
    - eapply post_mono; [apply post_keeps; [by_keeps keeps_classify|done]|]. intros p w3 [Hw3 Hl3]. split; [done|]. left.
      destruct Ha as [?|?]; [left; auto|by right].
    - unfold cal. rewrite (or_day d rec Hr).
      eapply post_mono; [apply post_and; [apply post_keeps; [by_keeps keeps_classify|done]|by apply (or_needs d rec Hr)]|].
      intros p w3 [[Hw3 _] Hp]. auto. }
  intros p w3 [Hw3 Hor3].
  apply post_bind. eapply (post_mono _ _ _ (fun r w' => store_wf (w_store w') /\
    (accounted d r.2 w' \/ (open_record d rec /\ plan_for d r.1)))).
  { destruct cal as [c|] eqn:Ec; [|by apply post_ret]. case_match; [|by apply post_ret].
    eapply post_mono; [by apply (make_room_post d)|]. intros r w4 ((Hw4 & Hs) & E1 & E2 & Hneed).
    split; [done|]. destruct Hor3 as [Ha|[Hr (F1 & F2 & F3)]]; [left; auto|].
    destruct Hneed as [En|Hlow].
    - right. split; [done|]. unfold plan_for. rewrite En, E1, E2. done.
    - left. right. right. unfold cal in Ec. rewrite (or_day d rec Hr) in Ec. by simplify_eq. }
  intros [p' st'] w4 [Hw4 Hor4]. apply finish_record_post; [done|]. simpl in *.
  destruct Hor4 as [Ha|[Hr Hp]]; [by left|right]. unfold cal. rewrite (or_day d rec Hr). by destruct Hr.
Qed.

(** Without the job, the store still stays well formed. *)
Lemma walk_record_wf rec st w :
  store_wf (w_store w) -> post (body rec st) w (fun _ w' => store_wf (w_store w')).
Proof.
  intros Hw. unfold walk_record. case_match; [by apply post_ret|]. case_match; [by apply post_ret|].
  apply walk_bind_keeps; [by_keeps keeps_capacity|done|]. intros cap w1 Hw1 _. case_match; [by apply post_ret|].
  apply walk_bind_keeps; [by_keeps keeps_lift|done|]. intros ns w2 Hw2 _.
  apply walk_bind_keeps; [by_keeps keeps_classify|done|]. intros p w3 Hw3 _.
  apply post_bind. eapply (post_mono _ _ _ (fun _ w' => store_wf (w_store w'))).
  { case_match; [case_match|]; [|by apply post_ret..].
    eapply post_mono; [by apply (make_room_post 0)|]. by intros r w4 ((Hw4 & _) & _). }
  intros [p' st'] w4 Hw4. eapply post_mono; [apply post_keeps; [by_keeps keeps_finish|done]|]. by intros ? w5 [].
Qed.

Abbreviation loop := (walk_records sha1 local_date week_form getmtime P C fuel A).

Lemma walk_records_post d recs st w :
  store_wf (w_store w) -> accounted d st w \/ (exists rec, rec ∈ recs /\ open_record d rec) ->
  post (loop recs st) w (fun st' w' => store_wf (w_store w') /\ accounted d st' w').
Proof.
  revert st w. induction recs as [|rec recs IH]; intros st w Hw Hor; cbn [walk_records].
  { apply post_ret. split; [done|]. destruct Hor as [?|(rec & Hin & _)]; [done|by apply elem_of_nil in Hin]. }
  apply post_bind.
  assert (accounted d st w \/ open_record d rec \/ (exists rec, rec ∈ recs /\ open_record d rec)) as Hc.
  { destruct Hor as [?|(r & [->|Hin]%elem_of_cons & Hr)]; [by left|by right; left|right; right; eauto]. }
  destruct Hc as [Ha|[Hr|Hr]].
  - eapply post_mono; [apply walk_record_post; [done|by left]|]. intros st' w' [Hw' Ha']. apply IH; auto.
  - eapply post_mono; [apply walk_record_post; [done|by right]|]. intros st' w' [Hw' Ha']. apply IH; auto.
  - eapply post_mono; [apply (walk_record_wf rec st w Hw)|]. intros st' w' Hw'. apply IH; auto.
Qed.

Lemma reopen_post d gone f w :
  basename_date local_date (path_of_identity i) = Some d -> store_wf (w_store w) ->
  live i w \/ i ∈ gone \/ low f d ->
  post (reopen_evicted local_date P gone f) w (fun f' w' => store_wf (w_store w') /\ (live i w' \/ low f' d)).
Proof.
  intros Hd. revert f w. induction gone as [|g gone IH]; intros f w Hw Hor; cbn [reopen_evicted].
  { apply post_ret. split; [done|]. destruct Hor as [?|[Hin|?]]; [by left|by apply elem_of_nil in Hin|by right]. }
  destruct (decide (g = i)) as [->|Hne].
  - rewrite Hd. apply post_bind. eapply post_mono; [by apply ingest_queued_post|].
    intros b w' (Hw' & Hl & Hb). apply IH; [done|]. destruct b; [left; auto|]. right; right. apply low_lower. by right.
  - assert (live i w \/ i ∈ gone \/ low f d) as Hor'
      by (destruct Hor as [?|[[?|?]%elem_of_cons|?]]; [by left|congruence|by right; left|by right; right]).
    destruct (basename_date local_date (path_of_identity g)) as [e|]; [|by apply IH].
    apply walk_bind_keeps; [by_keeps keeps_ingest_queued|done|]. intros b w' Hw' Hl. apply IH; [done|].
    destruct Hor' as [?|[?|?]]; [left; auto|by right; left|right; right].
    destruct b; [done|]. apply low_lower. by left.
Qed.

(** The claim of the walk about the job: it had it at the start, or one of its records
    is open; its file name gives its day. *)
Record in_walk (d : Z) (recs : list FindStatsRecord) w : Prop := {
  iw_name : basename_date local_date (path_of_identity i) = Some d;
  iw_seen : live i w \/ exists rec, rec ∈ records_in_dates local_date A recs /\ open_record d rec;
}.

Abbreviation run := (stream_enqueue_ingest_from_find_records sha1 local_date week_form getmtime P C fuel A).

Lemma walk_accounts d recs err w :
  store_wf (w_store w) -> in_walk d recs w ->
  post (run (recs, err)) w (fun st w' => store_wf (w_store w') /\ (live i w' \/ low (frontier st) d)).
Proof.
  intros Hw [Hd Hseen]. unfold stream_enqueue_ingest_from_find_records. apply post_bind.
  eapply post_mono.
  { apply (walk_records_post d); [done|]. destruct Hseen as [Hl|Hr]; [left; by left|by right]. }
  intros st w1 [Hw1 Ha]. cbn [snd]. destruct err as [e|]; [done|]. apply post_bind.
  eapply post_mono; [by apply (reopen_post d)|]. intros f w2 [Hw2 Hf]. by apply post_ret.
Qed.
End job.

Section gate.
Context {H : Type} `{PQ : !PriorityQueue H}.
Context (sha1 : string -> list Z) (local_date : Z -> option Z) (week_form : string -> option Z)
  (getmtime : string -> option Z) (P : process (H := H)) (C : walk_config).


Lemma walk_keeps_wf i fuel A d recs err w st w' :
  others_keep P i -> tests_keep i (wa_tests A) -> store_wf (w_store w) ->
  in_walk local_date P C i A d recs w ->
  stream_enqueue_ingest_from_find_records sha1 local_date week_form getmtime P C fuel A (recs, err) w = Some (Ok st, w') ->
  store_wf (w_store w').
Proof.
  intros Ho Ht Hw Hin E. pose proof (walk_accounts sha1 local_date week_form getmtime P C i Ho fuel A Ht d recs err w Hw Hin) as Hp.
  unfold post in Hp. rewrite E in Hp. apply Hp.
Qed.

(** The day the close gate reads in an identity. *)
Definition gate_day (identity : string) : option Z :=
  fromisoformat week_form (default "" (day_token_from_day_close_identity week_form identity)).

(** A backfill day that the gate lets through is below the frontier it was given. *)
Lemma gate_below identity d today hot_days st whole ds :
  gate_day identity = Some d -> select_ingest_band d today hot_days = "catchup" ->
  day_close_held_for_discover week_form identity today hot_days (record_discover_frontier st whole ds) = false ->
  ~ low (frontier st) d.
Proof.
  unfold day_close_held_for_discover, gate_day, record_discover_frontier. intros -> ->. rewrite decide_False by done.
  destruct (frontier st) as [f|]; [|by intros _ []]. rewrite orb_false_iff. intros [_ Hf] Hlow. simpl in *.
  destruct (discover_frontier_day ds) as [b|]; [destruct whole|]; simpl in Hf; lia.
Qed.

End gate.

(** ** Discover job identities *)

Lemma window_no_bar (m : option Z) :
  no_char bar (match m with None => "all" | Some d => str_of_Z d end) = true.
Proof. destruct m as [d|]; [apply str_of_Z_no_bar|done]. Qed.

(** The window of a discover job survives its identity: whatever walk was asked for, the
    worker that claims the job walks that window, for every archive directory, bars and
    markers in its name included. *)
Theorem discover_identity_roundtrip archive_dir mtime_days fallback :
  discover_mtime_days_from_identity (discover_job_identity archive_dir mtime_days) archive_dir fallback = Ok mtime_days.
Proof.
  unfold discover_mtime_days_from_identity, discover_job_identity.
  set (w := match mtime_days with None => _ | Some d => _ end). set (dir := normpath archive_dir).
  assert (String.prefix "rescan|" ("rescan|" +:+ dir +:+ "|mtime=" +:+ w) = true) as -> by apply (prefix_app "rescan|").
  assert (str_contains "|mtime=" ("rescan|" +:+ dir +:+ "|mtime=" +:+ w) = true) as ->
    by exact (str_contains_app ("rescan|" +:+ dir) "|mtime=" w).
  cbn [negb orb].
  assert (String.substring 7 (String.length ("rescan|" +:+ dir +:+ "|mtime=" +:+ w)) ("rescan|" +:+ dir +:+ "|mtime=" +:+ w)
          = dir +:+ "|mtime=" +:+ w) as ->.
  { apply (substring_app "rescan|"). rewrite (string_length_app "rescan|"). lia. }
  assert (rsplit_on "|mtime=" (dir +:+ "|mtime=" +:+ w) = Some (dir, w)) as ->
    by (apply (rsplit_on_last bar "mtime=" dir w); [done|apply window_no_bar]).
  unfold dir. rewrite normpath_idem, decide_False by auto.
  unfold w. destruct mtime_days as [d|]; [|done]. rewrite py_int_str_of_Z.
  rewrite decide_False; [done|]. intros E. apply (f_equal py_int) in E. rewrite py_int_str_of_Z in E. by vm_compute in E.
Qed.
