(* ===== verification/DiscoverBounds.v ===== *)
(** The discovery walk returns, whatever the other threads do, as long as they bring no
    new ingest jobs: each eviction removes a job, each record adds at most one. *)
From S2P Require Import Prelude PyDict PriorityQueue PyStr PosixPath IngestScore PyDate StatsFind LeaseOwner WriteBehind JobStore JobStoreInv JobStoreOps JobStoreSteps JobStoreClaim JobStoreSafety JobStoreSpec AppendDays DeadLetter Discover DiscoverLogic DiscoverSpec.
Local Open Scope Z_scope.

Section bounds.
Context {H : Type} `{PQ : !PriorityQueue H}.
Context (sha1 : string -> list Z) (local_date : Z -> option Z) (week_form : string -> option Z)
  (getmtime : string -> option Z) (P : process (H := H)) (C : walk_config).
Implicit Types (w : world (H := H)) (s : store H).

(** The ingest jobs of a store, queued and claimed. *)
Definition live_n s : nat := (dict_len (ingest (iq s)) + dict_len (inflight s !!! JOB_KIND_INGEST))%nat.

Definition no_more s s' : Prop := (live_n s' <= live_n s)%nat.

#[local] Instance no_more_preorder : PreOrder no_more.
Proof. unfold no_more. split; [intros s; lia|intros s1 s2 s3; lia]. Qed.

Lemma lists_no_more : lists_respect C no_more.
Proof.
  intros k i s r Hw. unfold enqueue_list_job, enqueue_list. case_decide; [|done].
  case_match; [by intros [= <-]|]. case_match; intros [= <-]; unfold no_more, live_n; simpl; lia.
Qed.

Lemma dict_len_insert_le {V} (d : dict string V) k v : (dict_len (<[k := v]> d) <= S (dict_len d))%nat.
Proof. rewrite dict_len_insert. case_decide; lia. Qed.

Lemma zadd_one_more cfg i sc fp over s : (live_n (zadd_ingest_job cfg s i sc fp over).2 <= S (live_n s))%nat.
Proof.
  unfold zadd_ingest_job, zadd_ingest. case_decide; [simpl; lia|]. case_match; [simpl; lia|].
  pose proof (dict_len_insert_le (ingest (iq s)) i sc) as Hl.
  assert (forall s', iq s' = iq (ingest_set i sc s) -> inflight s' = inflight s ->
    (live_n (mark_dirty_locked s') <= S (live_n s))%nat) as Hs.
  { intros s' E1 E2. unfold live_n, mark_dirty_locked; simpl. rewrite E1, E2. unfold ingest_set; simpl.
    rewrite ingest_queue_set. lia. }
  destruct fp as [fp|]; [destruct (decide (fp = ""))|]; apply Hs; done.
Qed.

Lemma dict_len_delete {V} (d : dict string V) k v : dict_wf d -> d !! k = Some v -> dict_len d = S (dict_len (delete k d)).
Proof. intros Hd Hk. unfold dict_len. by rewrite (dict_items_delete_perm d k v Hd Hk). Qed.

Lemma store_equiv_ingest s s' : s' ≡ s -> ingest (iq s') = ingest (iq s).
Proof. intros E. exact (f_equal (fun s : store H => ingest (iq s)) E). Qed.

Lemma store_equiv_inflight s s' : s' ≡ s -> inflight s' = inflight s.
Proof. intros E. exact (f_equal inflight E). Qed.

Lemma evict_one_less day s :
  store_wf s ->
  exists r s', evict_youngest_catchup_ingest day s = Some (r, s') /\ store_wf s' /\ no_more s s' /\
    (is_Some r -> (live_n s' < live_n s)%nat).
Proof.
  intros Hw. destruct (evict_loop_spec _ day s Hw (Nat.lt_succ_diag_r _)) as (r & s' & E & Hspec).
  exists r, s'. split; [exact E|]. split; [exact (store_wf_evict_loop _ _ _ _ Hw E)|].
  destruct r as [i|].
  - destruct Hspec as (sc & d & Hi & _ & _ & _ & Ei & _ & El & _). unfold no_more, live_n. rewrite Ei, El.
    pose proof (dict_len_delete (ingest (iq s)) i sc (iqw_dict _ (sw_iq s (sw_core s Hw))) Hi). split; [lia|intros _; lia].
  - destruct Hspec as [Es _]. split; [|by intros []]. unfold no_more, live_n.
    by rewrite (store_equiv_ingest _ _ Es), (store_equiv_inflight _ _ Es).
Qed.

(** ** Total correctness *)

Context (Hothers : others_respect P no_more).
#[local] Hint Resolve lists_no_more : core.

Abbreviation total := (DiscoverLogic.post False).

Ltac by_keeps lem := apply lem; first [apply _ | done | auto].

(** [m] returns or raises, having added at most [k] jobs. *)
Definition grows {A} (k : nat) (m : walk (H := H) A) : Prop := forall w,
  store_wf (w_store w) ->
  total m w (fun _ w' => store_wf (w_store w') /\ (live_n (w_store w') <= live_n (w_store w) + k)%nat).

Lemma grows_keeps {A} (m : walk A) : keeps False no_more m -> grows 0 m.
Proof.
  intros Hm w Hw. eapply post_mono; [by apply Hm|]. intros a w' [Hw' Hn]. split; [done|]. unfold no_more in Hn. lia.
Qed.

Lemma grows_bind {A B} k n (m : walk A) (f : A -> walk B) :
  grows k m -> (forall a, grows n (f a)) -> grows (k + n) (m ≫= f).
Proof.
  intros Hm Hf w Hw. apply post_bind. eapply post_mono; [by apply Hm|]. intros a w' [Hw' Hn].
  eapply post_mono; [by apply Hf|]. intros b w'' [Hw'' Hn']. split; [done|lia].
Qed.

Lemma grows_weaken {A} k n (m : walk A) : (k <= n)%nat -> grows k m -> grows n m.
Proof. intros Hk Hm w Hw. eapply post_mono; [by apply Hm|]. intros a w' [Hw' Hn]. split; [done|lia]. Qed.

Lemma grows_zadd cfg j sc fp over : grows 1 (on_store P (fun s => zadd_ingest_job cfg s j sc fp over)).
Proof.
  intros w Hw. destruct (Hothers (w_calls w) _ Hw) as [Ho Hn]. unfold no_more in Hn.
  pose proof (store_wf_zadd cfg j sc fp over _ Ho) as Hw'. pose proof (zadd_one_more cfg j sc fp over (sh_store (others P (w_calls w) (w_shared w)))) as Hz.
  apply post_call; intros; unfold zadd_ingest_job in *; destruct (zadd_ingest _ _ _ _ _ _) as [n s]; simplify_eq.
  split; [exact Hw'|]. unfold w_store in *. simpl in *. lia.
Qed.

Lemma grows_plan_ingest p : grows 1 (enqueue_plan_ingest sha1 local_date getmtime P C p false).
Proof.
  unfold enqueue_plan_ingest. apply (grows_bind 0 1).
  { apply grows_keeps. case_decide; [by_keeps keeps_ret|by_keeps keeps_blocked]. }
  intros b. case_match; [apply (grows_weaken 0); [lia|]; apply grows_keeps; by_keeps keeps_ret|].
  case_match; [|apply (grows_weaken 0); [lia|]; apply grows_keeps; by_keeps keeps_ret].
  apply (grows_bind 0 1); [apply grows_keeps; by_keeps keeps_lift|]. intros sc.
  apply (grows_bind 1 0); [apply grows_zadd|]. intros n. apply grows_keeps. apply keeps_bind; [apply _| |].
  - case_decide; [by_keeps keeps_ret|by_keeps keeps_note].
  - intros _. case_decide; [by_keeps keeps_ingest_queued|by_keeps keeps_ret].
Qed.

Lemma grows_finish cal p st : grows 1 (finish_record sha1 local_date week_form getmtime P C cal p st).
Proof.
  unfold finish_record. apply (grows_bind 1 0).
  - unfold enqueue_reconstruct_jobs_for_closed_path. apply (grows_bind 1 0).
    + case_match; [apply grows_plan_ingest|]. apply (grows_weaken 0); [lia|]. apply grows_keeps. by_keeps keeps_ret.
    + intros b. apply grows_keeps. apply keeps_bind; [apply _| |intros ?; by_keeps keeps_ret].
      case_match; [by_keeps keeps_plan_append|by_keeps keeps_ret].
  - intros e. apply (grows_bind 0 0); [apply grows_keeps; by_keeps keeps_left_open|]. intros b. case_match.
    apply grows_keeps. by_keeps keeps_walk_close.
Qed.

(** Each round of the eviction loop takes a job out. *)
Lemma make_room_total fuel day has_cap p st w :
  store_wf (w_store w) -> (live_n (w_store w) < fuel)%nat ->
  total (make_room local_date getmtime P C fuel day has_cap p st) w (fun _ w' =>
    store_wf (w_store w') /\ (live_n (w_store w') <= live_n (w_store w))%nat).
Proof.
  revert has_cap st w. induction fuel as [|fuel IH]; intros has_cap st w Hw Hf; [lia|]. cbn [make_room].
  case_match; [by apply post_ret|]. apply (post_step False no_more); [by_keeps keeps_ingest_queued|done|].
  intros [] w1 Hw1 Hn1; unfold no_more in Hn1; [by apply post_ret|]. apply post_bind.
  eapply (post_mono _ _ _ (fun g w' => store_wf (w_store w') /\ (live_n (w_store w') <= live_n (w_store w1))%nat /\
    (is_Some g -> (live_n (w_store w') < live_n (w_store w1))%nat))).
  { destruct (Hothers (w_calls w1) _ Hw1) as [Ho Hn]. unfold no_more in Hn. unfold evict_younger. apply post_bind.
    destruct (evict_one_less day _ Ho) as (r & s' & E & Hw' & Hle & Hlt). unfold no_more in Hle.
    apply post_call; rewrite E; [done|]. intros g sh [= <- <-].
    apply (post_step False no_more); [by_keeps keeps_note|done|]. intros _ w2 Hw2 Hn2. apply post_ret.
    unfold no_more, w_store in *. simpl in *. split_and!; [done|lia|]. intros Hs. specialize (Hlt Hs). lia. }
  intros [g|] w2 (Hw2 & Hle & Hlt); [|apply post_ret; split; [done|lia]].
  specialize (Hlt ltac:(by eexists)). apply (post_step False no_more); [by_keeps keeps_capacity|done|].
  intros cap w3 Hw3 Hn3. unfold no_more in Hn3. eapply post_mono; [apply IH; [done|lia]|].
  intros r w4 [Hw4 Hn4]. split; [done|lia].
Qed.

Section one_walk.
Context (fuel : nat) (A : walk_args (H := H)).
Context (Htests : tests_respect False no_more (wa_tests A)).

Lemma walk_record_total rec st w :
  store_wf (w_store w) -> (live_n (w_store w) < fuel)%nat ->
  total (walk_record sha1 local_date week_form getmtime P C fuel A rec st) w (fun _ w' =>
    store_wf (w_store w') /\ (live_n (w_store w') <= live_n (w_store w) + 1)%nat).
Proof.
  intros Hw Hf. unfold walk_record. case_match; [by apply post_ret; split; [|lia]|]. case_match; [by apply post_ret; split; [|lia]|].
  apply (post_step False no_more); [by_keeps keeps_capacity|done|]. intros cap w1 Hw1 Hn1. unfold no_more in Hn1.
  case_match; [by apply post_ret; split; [|lia]|].
  apply (post_step False no_more); [by_keeps keeps_lift|done|]. intros ns w2 Hw2 Hn2. unfold no_more in Hn2.
  apply (post_step False no_more); [by_keeps keeps_classify|done|]. intros p w3 Hw3 Hn3. unfold no_more in Hn3.
  apply post_bind. eapply (post_mono _ _ _ (fun _ w' => store_wf (w_store w') /\ (live_n (w_store w') <= live_n (w_store w3))%nat)).
  { case_match; [case_match|]; [|by apply post_ret..]. apply make_room_total; [done|lia]. }
  intros [p' st'] w4 [Hw4 Hn4]. eapply post_mono; [by apply grows_finish|]. intros ? w5 [Hw5 Hn5]. split; [done|lia].
Qed.

Lemma walk_records_total recs st w :
  store_wf (w_store w) -> (live_n (w_store w) + length recs <= fuel)%nat ->
  total (walk_records sha1 local_date week_form getmtime P C fuel A recs st) w (fun _ w' => store_wf (w_store w')).
Proof.
  revert st w. induction recs as [|rec recs IH]; intros st w Hw Hf; cbn [walk_records]; [by apply post_ret|].
  apply post_bind. simpl in Hf. eapply post_mono; [apply walk_record_total; [done|lia]|].
  intros st' w' [Hw' Hn]. apply IH; [done|lia].
Qed.

Lemma reopen_total gone f w :
  store_wf (w_store w) -> total (reopen_evicted local_date P gone f) w (fun _ w' => store_wf (w_store w')).
Proof.
  revert f w. induction gone as [|g gone IH]; intros f w Hw; cbn [reopen_evicted]; [by apply post_ret|].
  case_match; [|by apply IH]. apply (post_step False no_more); [by_keeps keeps_ingest_queued|done|].
  intros b w' Hw' _. by apply IH.
Qed.
End one_walk.

(** [C28] The walk ends: with the number of jobs and records as fuel it returns or raises, as
    long as the other threads bring no new ingest jobs while it runs. *)
Theorem walk_returns fuel A recs err w :
  tests_respect False no_more (wa_tests A) -> store_wf (w_store w) ->
  (live_n (w_store w) + length recs <= fuel)%nat ->
  exists r w', stream_enqueue_ingest_from_find_records sha1 local_date week_form getmtime P C fuel A (recs, err) w = Some (r, w').
Proof.
  intros Ht Hw Hf. 
  assert (total (stream_enqueue_ingest_from_find_records sha1 local_date week_form getmtime P C fuel A (recs, err)) w (fun _ _ => True)) as Hp.
  { unfold stream_enqueue_ingest_from_find_records. apply post_bind. eapply post_mono.
    - apply walk_records_total; [done..|]. assert (length (records_in_dates local_date A recs) <= length recs)%nat; [|simpl; lia].
      unfold records_in_dates, filter_find_records_for_date_range. repeat case_match; try lia; apply length_filter.
    - intros st w1 Hw1. simpl. destruct err; [done|]. apply post_bind.
      eapply post_mono; [by apply reopen_total|]. intros f w2 _. by apply post_ret. }
  unfold DiscoverLogic.post in Hp. destruct (stream_enqueue_ingest_from_find_records _ _ _ _ _ _ _ _ _ _) as [[r w']|]; [eauto|done].
Qed.
End bounds.

(** ** Whom a full queue turns away *)

Section capacity.
Context {H : Type} `{PQ : !PriorityQueue H}.
Context (local_date : Z -> option Z) (getmtime : string -> option Z) (P : process (H := H)) (C : walk_config).

Definition anything (s s' : store H) : Prop := True.
#[local] Instance anything_preorder : PreOrder anything.
Proof. by split. Qed.

Ltac by_keeps lem := apply lem; first [apply _ | done | auto].

Lemma make_room_given_up fuel day has_cap p st w :
  others_respect P anything -> store_wf (w_store w) -> pl_needs_ingest p = true ->
  DiscoverLogic.post True (make_room local_date getmtime P C fuel day has_cap p st) w (fun r w' =>
    pl_needs_ingest r.1 = false -> nothing_younger day (w_store w') /\ low (frontier r.2) day /\
      dropped_at_capacity r.2 = dropped_at_capacity st + 1).
Proof.
  intros Ho Hw Hn. assert (lists_respect C anything) as Hl by done.
  revert has_cap st w Hw. induction fuel as [|fuel IH]; intros has_cap st w Hw; cbn [make_room]; rewrite Hn, orb_false_r.
  - case_match; [apply post_ret; simpl; congruence|]. apply (post_step True anything); [by_keeps keeps_ingest_queued|done|].
    intros [] w1 Hw1 _; [apply post_ret; simpl; congruence|done].
  - case_match; [apply post_ret; simpl; congruence|]. apply (post_step True anything); [by_keeps keeps_ingest_queued|done|].
    intros [] w1 Hw1 _; [apply post_ret; simpl; congruence|]. unfold evict_younger. apply post_bind, post_bind, post_call; [done|].
    destruct (Ho (w_calls w1) _ Hw1) as [Hw2 _]. set (s := sh_store (others P _ _)) in *.
    intros g sh. destruct (evict_loop_spec _ day s Hw2 (Nat.lt_succ_diag_r _)) as (r & s' & E & Hspec).
    unfold evict_youngest_catchup_ingest. rewrite E. intros [= -> <-].
    pose proof (store_wf_evict_loop _ _ _ _ Hw2 E) as Hw3. cbn [snd] in Hw3. destruct g as [g|].
    + apply (post_step True anything); [by_keeps keeps_note|exact Hw3|]. intros _ w2 Hw4 _. apply post_ret.
      apply (post_step True anything); [by_keeps keeps_capacity|exact Hw4|]. intros cap w3 Hw5 _.
      eapply post_mono; [by apply IH|]. intros r w4 Hr Hf. destruct (Hr Hf) as (? & ? & ->). done.
    + apply post_bind, post_ret, post_ret. apply post_ret. intros _. destruct Hspec as [Es Hy]. split_and!; [|exact (low_lower day (frontier st) day (or_intror (Z.le_refl day)))|done].
      unfold nothing_younger in *. unfold w_store; cbn [w_shared sh_store]. by rewrite (store_equiv_ingest _ _ Es).
Qed.

(** Backfill is turned away only for older work: when the walk gives a file of [day] up
    for lack of room, no dated backfill file queued at that moment is of a later day, and
    the frontier is at or below [day], whatever other threads do. *)
Theorem dropped_only_for_older_work fuel day has_cap p st w p' st' w' :
  others_respect P anything -> store_wf (w_store w) ->
  make_room local_date getmtime P C fuel day has_cap p st w = Some (Ok (p', st'), w') ->
  pl_needs_ingest p = true -> pl_needs_ingest p' = false ->
  nothing_younger day (w_store w') /\ low (frontier st') day /\ dropped_at_capacity st' = dropped_at_capacity st + 1.
Proof.
  intros Ho Hw E Hn Hf. pose proof (make_room_given_up fuel day has_cap p st w Ho Hw Hn) as Hp.
  unfold DiscoverLogic.post in Hp. rewrite E in Hp. by apply Hp.
Qed.
End capacity.
