(* ===== verification/DiscoverCounts.v ===== *)
(** The discovery walk, run alone: it keeps the day counts exact, and serves the oldest
    days first. *)
From S2P Require Import Prelude PyDict PriorityQueue PyStr PosixPath IngestScore PyDate StatsFind LeaseOwner WriteBehind JobStore JobStoreInv JobStoreOps JobStoreSteps JobStoreClaim JobStoreSafety JobStoreSpec AppendDays AppendDaysSpec DeadLetter Discover DiscoverLogic DiscoverSpec DiscoverBounds.
Local Open Scope Z_scope.

Section counts.
Context {H : Type} `{PQ : !PriorityQueue H}.
Context (local_date : Z -> option Z) (getmtime : string -> option Z).
Implicit Types (s : store H) (sh : shared (H := H)).

Abbreviation day_of := (left_day local_date getmtime).
Definition counted : list string := ["ingest"; "append"].

(** What a day owes of a kind is the number of its jobs the store knows. *)
Definition owes (kind day : string) sh : Prop := exists owed : gset string,
  (forall i, i ∈ owed <-> present (sh_store sh) kind i /\ day_of i = Some day) /\
  day_remainder kind day (sh_left sh) = Z.of_nat (size owed).

Record counts_exact sh : Prop := {
  ce_ok : remainders_ok (sh_left sh);
  ce_owes : forall kind day, kind ∈ counted -> day <> "" -> owes kind day sh;
}.

(** The note the walk makes. *)
Definition noted (kind : string) (day : option string) (delta : Z) (r : remainders) : remainders :=
  match day with
  | Some d => if decide (d = "") then r else note_day_remainder kind d delta r
  | None => r
  end.

Lemma noted_ok kind day delta r : remainders_ok r -> remainders_ok (noted kind day delta r).
Proof. intros Hr. unfold noted. destruct day as [d|]; [|done]. case_decide; [done|]. by apply remainders_ok_note. Qed.

Lemma noted_remainder kind day delta r kind' day' :
  remainders_ok r -> kind ∈ counted -> kind' ∈ counted -> day' <> "" ->
  day_remainder kind' day' (noted kind day delta r) =
    if decide (kind' = kind /\ day = Some day') then Z.max 0 (day_remainder kind day' r + delta)
    else day_remainder kind' day' r.
Proof.
  intros Hr Hk Hk' Hd'. unfold noted. destruct day as [d|]; [|by rewrite decide_False by (intros []; congruence)].
  case_decide as Hd; [subst; rewrite decide_False by (intros []; congruence); done|].
  rewrite day_remainder_note by done. destruct (decide (kind' = kind /\ day' = d)) as [[-> ->]|Hn].
  - by rewrite decide_True by done.
  - rewrite decide_False; [done|]. intros [-> [= ->]]. by apply Hn.
Qed.

(** A job that is new is counted in its day. *)
Lemma counts_add kind j sh s' :
  kind ∈ counted -> counts_exact sh -> ~ present (sh_store sh) kind j ->
  (forall k i, k ∈ counted -> present s' k i <-> present (sh_store sh) k i \/ (k = kind /\ i = j)) ->
  counts_exact (Shared s' (noted kind (day_of j) 1 (sh_left sh))).
Proof.
  intros Hk [Hok Ho] Hnew Hp. constructor; [by apply noted_ok|]. intros k day Hkc Hd.
  destruct (Ho k day Hkc Hd) as (owed & Hin & E). unfold owes; cbn [sh_store sh_left].
  rewrite noted_remainder by done. destruct (decide (k = kind /\ day_of j = Some day)) as [[-> Ej]|Hn].
  - exists ({[j]} ∪ owed). split.
    + intros i. rewrite elem_of_union, elem_of_singleton, Hin, Hp by done. naive_solver.
    + rewrite E, size_union, size_singleton; [lia|]. rewrite disjoint_singleton_l, Hin. tauto.
  - exists owed. split; [|done]. intros i. rewrite Hin, Hp by done. split; [tauto|].
    intros [[?|[-> ->]] Hday]; [tauto|]. by destruct Hn.
Qed.

(** A job that is gone is discounted. *)
Lemma counts_remove kind j sh s' :
  kind ∈ counted -> counts_exact sh -> present (sh_store sh) kind j ->
  (forall k i, k ∈ counted -> present s' k i <-> present (sh_store sh) k i /\ ~ (k = kind /\ i = j)) ->
  counts_exact (Shared s' (noted kind (day_of j) (-1) (sh_left sh))).
Proof.
  intros Hk [Hok Ho] Hold Hp. constructor; [by apply noted_ok|]. intros k day Hkc Hd.
  destruct (Ho k day Hkc Hd) as (owed & Hin & E). unfold owes; cbn [sh_store sh_left].
  rewrite noted_remainder by done. destruct (decide (k = kind /\ day_of j = Some day)) as [[-> Ej]|Hn].
  - exists (owed ∖ {[j]}). split.
    + intros i. rewrite elem_of_difference, elem_of_singleton, Hin, Hp by done. naive_solver.
    + assert (j ∈ owed) as Hj by by apply Hin. 
      pose proof (subseteq_size {[j]} owed ltac:(set_solver)) as Hle. rewrite size_singleton in Hle.
      rewrite E, size_difference by set_solver. rewrite size_singleton. lia.
  - exists owed. split; [|done]. intros i. rewrite Hin, Hp by done. split; [|tauto].
    intros [? Hday]. split; [|done]. split; [done|]. intros [-> ->]. by destruct Hn.
Qed.

Lemma counts_same sh s' :
  counts_exact sh -> (forall k i, k ∈ counted -> present s' k i <-> present (sh_store sh) k i) ->
  counts_exact (Shared s' (sh_left sh)).
Proof.
  intros [Hok Ho] Hp. constructor; [done|]. intros k day Hk Hd. destruct (Ho k day Hk Hd) as (owed & Hin & E).
  exists owed. split; [|done]. intros i. cbn [sh_store]. by rewrite Hin, Hp.
Qed.
End counts.

(** ** What the store operations add and remove *)

Section store_effects.
Context {H : Type} `{PQ : !PriorityQueue H}.
Implicit Types s : store H.

(** [s'] knows the jobs of [s], and [(kind, i)]. *)
Definition adds_job (kind i : string) s s' : Prop :=
  ~ present s kind i /\ forall k j, present s' k j <-> present s k j \/ (k = kind /\ j = i).

Definition same_jobs s s' : Prop := forall k j, present s' k j <-> present s k j.

Lemma same_jobs_intro s s' :
  (forall i, is_Some (ingest (iq s') !! i) <-> is_Some (ingest (iq s) !! i)) -> lists s' = lists s ->
  inflight s' = inflight s -> same_jobs s s'.
Proof. intros E1 E2 E3 k j. unfold present, queued, claimed. by rewrite E1, E2, E3. Qed.

Lemma zadd_effect cfg i sc fp over s :
  store_wf s ->
  let r := zadd_ingest_job cfg s i sc fp over in
  if decide (r.1 = 0) then same_jobs s r.2 else adds_job JOB_KIND_INGEST i s r.2.
Proof.
  intros Hw. unfold zadd_ingest_job, zadd_ingest. destruct (decide (is_Some (_ !! i))) as [Hc|Hc]; [done|].
  destruct (_ && _) eqn:Er; [done|]. cbn [fst snd].
  set (s2 := match fp with Some _ => _ | None => _ end).
  assert (ingest (iq s2) = <[i := sc]> (ingest (iq s)) /\ lists s2 = lists s /\ inflight s2 = inflight s) as (E1 & E2 & E3).
  { unfold s2. destruct fp as [fp|]; [destruct (decide (fp = ""))|]; by rewrite <- ingest_queue_set. }
  clearbody s2. clear Er. case_bool_decide as Hq.
  - rewrite decide_True by done. apply same_jobs_intro; [|exact E2|exact E3]. intros j.
    unfold mark_dirty_locked; simpl. rewrite E1, dict_lookup_insert. case_decide as Hd; [|done]. rewrite <- Hd in *. by split.
  - rewrite decide_False by done. pose proof (no_ingest_list s (sw_core s Hw)) as Hn. split.
    + intros [Hp|Hp]; [|done]. by rewrite queued_ingest in Hp.
    + intros k j. unfold present, queued, claimed, mark_dirty_locked; simpl. rewrite E1, E2, E3, dict_lookup_insert.
      case_decide as Hd; [subst|naive_solver]. split; [naive_solver|].
      intros [[[?|?]|?]|[-> _]]; [|by left; right|by right|]; left; left; split; naive_solver.
Qed.

Lemma evict_effect day s r s' :
  store_wf s -> evict_youngest_catchup_ingest day s = Some (r, s') ->
  match r with
  | None => same_jobs s s'
  | Some i => present s JOB_KIND_INGEST i /\
      forall k j, present s' k j <-> present s k j /\ ~ (k = JOB_KIND_INGEST /\ j = i)
  end.
Proof.
  intros Hw E. destruct (evict_loop_spec _ day s Hw (Nat.lt_succ_diag_r _)) as (r' & s2 & E' & Hspec).
  unfold evict_youngest_catchup_ingest in E. rewrite E' in E. simplify_eq. destruct r as [i|].
  - destruct Hspec as (sc & d & Hi & _ & _ & _ & Ei & El & Ef & _).
    pose proof (no_ingest_list s (sw_core s Hw)) as Hn.
    assert (queued s JOB_KIND_INGEST i) as Hq by (apply queued_ingest; [done|by exists sc]).
    assert (~ claimed s JOB_KIND_INGEST i) as Hc by (intros Hc; by apply (sw_disjoint s (sw_core s Hw) _ _ Hc)).
    split; [by left|]. intros k j. unfold present, queued, claimed in *. rewrite Ei, El, Ef, dict_lookup_delete.
    destruct (decide (k = JOB_KIND_INGEST)) as [->|]; [|naive_solver]. rewrite Hn.
    case_decide; [subst|]; [|naive_solver]. split; [|naive_solver].
    intros [[[_ Hs]|Hin]|Hcl]; [by destruct Hs|by apply elem_of_nil in Hin|done].
  - destruct Hspec as [Es _]. apply same_jobs_intro; [intros j; by rewrite (store_equiv_ingest _ _ Es)| |by apply store_equiv_inflight].
    exact (f_equal lists Es).
Qed.

Lemma enqueue_effect cfg kind i s n s' :
  store_wf s -> enqueue_list_job cfg s kind i true = Ok (n, s') ->
  if decide (n = 0) then same_jobs s s' else adds_job kind i s s'.
Proof.
  intros Hw. unfold enqueue_list_job, enqueue_list. destruct (decide (kind ∈ JOB_KINDS_LIST)) as [Hk|]; [|done]. cbn [andb].
  case_bool_decide as Hd; [by intros [= <- <-]|]. destruct (negb _); [by intros [= <- <-]|]. intros [= <- <-].
  rewrite total_insert_eq, decide_False by (rewrite length_app; simpl; lia).
  assert (i ∉ lists s !!! kind) as Hn.
  { intros Hi. apply Hd. left. rewrite (sw_pending s (sw_core s Hw)). by apply elem_of_list_to_set. }
  split.
  - intros [[[-> _]|Hq]|Hc]; [by apply ingest_not_list|done|]. apply Hd. by right.
  - intros k j. unfold present, queued, claimed, list_push; simpl. rewrite total_insert.
    case_decide; [subst k|naive_solver]. rewrite elem_of_app, list_elem_of_singleton. naive_solver.
Qed.
End store_effects.

(** ** A walk nobody interferes with *)

Section quiet.
Context {H : Type} `{PQ : !PriorityQueue H}.
Context (sha1 : string -> list Z) (local_date : Z -> option Z) (week_form : string -> option Z)
  (getmtime : string -> option Z) (P : process (H := H)) (C : walk_config).
Implicit Types w : world (H := H).

Context (Hquiet : forall n sh, others P n sh = sh).

Abbreviation post := (DiscoverLogic.post True).

(** [m] only looks. *)
Definition looks {A} (m : walk (H := H) A) : Prop := forall w, post m w (fun _ w' => w_shared w' = w_shared w).

(** The counts hold for what the walk shares. *)
Definition exact_in w : Prop := store_wf (w_store w) /\ counts_exact local_date getmtime (w_shared w).
Definition keeps_counts {A} (m : walk (H := H) A) : Prop := forall w, exact_in w -> post m w (fun _ w' => exact_in w').

Lemma looks_bind {A B} (m : walk A) (f : A -> walk B) : looks m -> (forall a, looks (f a)) -> looks (m ≫= f).
Proof.
  intros Hm Hf w. apply post_bind. eapply post_mono; [apply Hm|]. intros a w' E.
  eapply post_mono; [apply Hf|]. intros b w'' E'. congruence.
Qed.

Lemma looks_ret {A} (a : A) : looks (mret a).
Proof. intros w. by apply post_ret. Qed.
Lemma looks_ask {A} (f : nat -> A) : looks (ask f).
Proof. intros w. by apply post_ask. Qed.
Lemma looks_lift {A} (r : result A) : looks (lift r).
Proof. intros w. by apply post_lift. Qed.
Lemma looks_read {A} (f : store H -> A) : looks (read_store P f).
Proof. intros w. apply post_call; [done|]. intros a sh [= <- <-]. apply Hquiet. Qed.
Lemma looks_fmap {A B} (g : A -> B) (m : walk A) : looks m -> looks (g <$> m).
Proof. intros Hm. apply looks_bind; [done|]. intros a. apply looks_ret. Qed.

Ltac looks_tac :=
  repeat match goal with
    | |- looks (mbind _ _) => apply looks_bind; [|intros ?]
    | |- looks (fmap _ _) => apply looks_fmap
    | |- looks (mret _) => apply looks_ret
    | |- looks (ask _) => apply looks_ask
    | |- looks (lift _) => apply looks_lift
    | |- looks (read_store _ _) => apply looks_read
    | _ => solve [auto with walk]
    | _ => case_decide
    | _ => case_match
    end.

Lemma looks_blocked root k j : looks (dead_letter_blocked_now P C root k j).
Proof. unfold dead_letter_blocked_now. looks_tac. Qed.
Lemma looks_ingest_complete path l : looks (ingest_is_complete P C path l).
Proof. unfold ingest_is_complete. looks_tac. Qed.
Lemma looks_append_complete path : looks (append_is_complete P C path).
Proof. unfold append_is_complete. looks_tac. Qed.
Lemma looks_active path : looks (stats_file_is_active_segment P path).
Proof. unfold stats_file_is_active_segment. looks_tac. Qed.
Lemma looks_queued j : looks (ingest_queued P j).
Proof. unfold ingest_queued. looks_tac. Qed.
Lemma looks_capacity : looks (ingest_has_capacity P C).
Proof. unfold ingest_has_capacity. looks_tac. Qed.
#[local] Hint Resolve looks_blocked looks_ingest_complete looks_append_complete looks_active looks_queued looks_capacity : walk.

Definition tests_look (T : tests (H := H)) : Prop :=
  (forall f p, ingest_is_complete_fn T = Some f -> looks (f p)) /\
  (forall f p, append_is_complete_fn T = Some f -> looks (f p)).

Lemma looks_classify T path size mtime_ns day l :
  tests_look T -> looks (classify_closed_raw_path P C T path size mtime_ns day l).
Proof.
  intros [Hi Ha]. unfold classify_closed_raw_path.
  assert (forall p, looks (default (fun p => ingest_is_complete P C p l) (ingest_is_complete_fn T) p)) as Hi'
    by (intros p; destruct (ingest_is_complete_fn T) as [f|]; simpl; auto with walk).
  assert (forall p, looks (default (append_is_complete P C) (append_is_complete_fn T) p)) as Ha'
    by (intros p; destruct (append_is_complete_fn T) as [f|]; simpl; auto with walk).
  looks_tac.
Qed.

Lemma looks_left_open b p e : looks (left_open P C b p e).
Proof. unfold left_open. looks_tac. Qed.

(** ** The counts *)

Lemma exact_looks {A} (m : walk A) : looks m -> keeps_counts m.
Proof.
  intros Hm w [Hw He]. eapply post_mono; [apply Hm|]. intros a w' E. unfold exact_in, w_store. by rewrite E.
Qed.

Lemma exact_bind {A B} (m : walk A) (f : A -> walk B) : keeps_counts m -> (forall a, keeps_counts (f a)) -> keeps_counts (m ≫= f).
Proof.
  intros Hm Hf w Hw. apply post_bind. eapply post_mono; [by apply Hm|]. intros a w' Hw'. by apply Hf.
Qed.

(** The note after a store operation. *)
Lemma note_post kind day delta w Q :
  Q tt (World (w_calls w) (Shared (w_store w) (noted kind day delta (sh_left (w_shared w))))) ->
  (forall n w', Q tt w' -> Q tt (World n (w_shared w'))) ->
  post (note_left P kind day delta) w Q.
Proof.
  intros HQ Hn. unfold note_left, noted in *. destruct w as [n [s r]]. destruct day as [d|]; [|by apply post_ret].
  case_decide; [by apply post_ret|]. apply post_call; [done|]. intros a sh. rewrite Hquiet. intros [= <- <-].
  by apply (Hn _ _ HQ).
Qed.

Lemma exact_note kind day delta w n :
  exact_in (World n (Shared (w_store w) (noted kind day delta (sh_left (w_shared w))))) ->
  post (note_left P kind day delta) w (fun _ w' => exact_in w').
Proof. intros He. apply note_post; [exact He|]. by intros. Qed.

Lemma exact_evict day : keeps_counts (evict_younger local_date getmtime P day).
Proof.
  intros w [Hw He]. unfold evict_younger. apply post_bind, post_call; [done|]. intros g sh. rewrite Hquiet.
  destruct (evict_youngest_catchup_ingest day (sh_store (w_shared w))) as [[g' s]|] eqn:E; [|done]. intros [= -> <-].
  pose proof (store_wf_evict_loop _ _ _ _ Hw E) as Hw'. pose proof (evict_effect _ _ _ _ Hw E) as Heff.
  apply post_bind. eapply (post_mono _ _ _ (fun _ w' => exact_in w')); [|intros [] w' Hx; by apply post_ret].
  apply (exact_note _ _ _ _ 0). split; [exact Hw'|]. cbn [w_shared w_store sh_store sh_left]. destruct g as [i|]; simpl.
  - destruct Heff as [Hp Hs]. apply (counts_remove _ _ _ _ (w_shared w)); [set_solver|done|exact Hp|]. intros k j _. apply Hs.
  - apply counts_same; [done|]. intros k j _. apply Heff.
Qed.

Lemma exact_zadd cfg j sc fp over (rest : Z -> walk bool) :
  (forall n, looks (rest n)) ->
  keeps_counts (added ← on_store P (fun s => zadd_ingest_job cfg s j sc fp over);
                _ ← (if decide (added = 0) then mret tt else note_left P JOB_KIND_INGEST (left_day local_date getmtime j) 1);
                rest added).
Proof.
  intros Hrest w [Hw He]. apply post_bind, post_call; [done|]. intros n sh. rewrite Hquiet.
  pose proof (zadd_effect cfg j sc fp over _ Hw) as Heff. pose proof (store_wf_zadd cfg j sc fp over _ Hw) as Hw'.
  unfold w_store in *. unfold zadd_ingest_job in *. destruct (zadd_ingest _ _ _ _ _ _) as [n' s]. cbn [fst snd] in *. intros [= -> <-].
  apply post_bind. eapply (post_mono _ _ _ (fun _ w' => exact_in w')); [|intros _ w' Hx; by apply exact_looks].
  destruct (decide (n = 0)).
  - apply post_ret. split; [exact Hw'|]. apply counts_same; [done|]. intros k i _. apply Heff.
  - apply (exact_note _ _ _ _ 0). split; [exact Hw'|]. destruct Heff as [Hn Hs].
    apply (counts_add _ _ _ _ (w_shared w)); [set_solver|done|exact Hn|]. intros k i _. apply Hs.
Qed.

Lemma exact_enqueue_append path :
  keeps_counts (added ← enqueue_list_call P C JOB_KIND_APPEND path;
                _ ← (if decide (added = 0) then mret tt else note_left P JOB_KIND_APPEND (left_day local_date getmtime path) 1);
                mret true).
Proof.
  intros w [Hw He]. apply post_bind, post_call; [done|]. intros n sh. rewrite Hquiet.
  destruct (enqueue_list_job _ _ _ _ _) as [[n' s]|] eqn:E; [|done]. intros [= -> <-].
  pose proof (enqueue_effect _ _ _ _ _ _ Hw E) as Heff. pose proof (store_wf_enqueue _ _ _ _ _ Hw E) as Hw'.
  apply post_bind. eapply (post_mono _ _ _ (fun _ w' => exact_in w')); [|intros _ w' Hx; by apply post_ret].
  destruct (decide (n = 0)).
  - apply post_ret. split; [exact Hw'|]. apply counts_same; [done|]. intros k i _. apply Heff.
  - apply (exact_note _ _ _ _ 0). split; [exact Hw'|]. destruct Heff as [Hn Hs].
    apply (counts_add _ _ _ _ (w_shared w)); [set_solver|done|exact Hn|]. intros k i _. apply Hs.
Qed.

(** Day closes are not counted. *)
Lemma exact_enqueue_close path : keeps_counts (enqueue_list_call P C JOB_KIND_DAY_CLOSE path).
Proof.
  intros w [Hw He]. apply post_call; [done|]. intros n sh. rewrite Hquiet.
  destruct (enqueue_list_job _ _ _ _ _) as [[n' s]|] eqn:E; [|done]. intros [= -> <-].
  pose proof (enqueue_effect _ _ _ _ _ _ Hw E) as Heff. pose proof (store_wf_enqueue _ _ _ _ _ Hw E) as Hw'.
  split; [exact Hw'|]. apply counts_same; [done|]. intros k i Hk. destruct (decide (n = 0)); [apply Heff|].
  destruct Heff as [_ Hs]. rewrite Hs. unfold counted in Hk. set_solver.
Qed.

Lemma exact_reconstruct p over :
  keeps_counts (enqueue_reconstruct_jobs_for_closed_path sha1 local_date getmtime P C p over).
Proof.
  unfold enqueue_reconstruct_jobs_for_closed_path. apply exact_bind.
  - case_match; [|by apply exact_looks, looks_ret]. unfold enqueue_plan_ingest. apply exact_bind.
    { apply exact_looks. looks_tac. }
    intros b. case_match; [by apply exact_looks, looks_ret|]. case_match; [|by apply exact_looks, looks_ret].
    apply exact_bind; [apply exact_looks, looks_lift|]. intros sc.
    apply (exact_zadd _ _ _ _ _ (fun n => if decide (n = 0) then ingest_queued P (pl_identity p) else mret true)).
    intros n. looks_tac.
  - intros b. apply exact_bind; [|intros a; apply exact_looks, looks_ret].
    case_match; [|by apply exact_looks, looks_ret]. unfold enqueue_plan_append. apply exact_bind.
    { apply exact_looks. looks_tac. }
    intros b'. case_match; [by apply exact_looks, looks_ret|]. apply exact_enqueue_append.
Qed.

Lemma exact_walk_day_close p st : keeps_counts (walk_day_close week_form P C p st).
Proof.
  unfold walk_day_close. case_decide; [apply exact_looks, looks_ret|]. apply exact_bind; [|intros ?; apply exact_looks, looks_ret].
  unfold enqueue_cheap_day_close_if_needed. apply exact_bind; [apply exact_looks; looks_tac|]. intros e.
  case_decide; [apply exact_looks, looks_ret|]. unfold enqueue_day_close_if_needed, day_close_is_complete.
  apply exact_bind; [apply exact_looks; looks_tac|]. intros b. case_match; [apply exact_looks, looks_ret|].
  apply exact_bind; [apply exact_enqueue_close|]. intros n. apply exact_looks, looks_ret.
Qed.

Lemma exact_make_room fuel day has_cap p st : keeps_counts (make_room local_date getmtime P C fuel day has_cap p st).
Proof.
  revert has_cap st. induction fuel as [|fuel IH]; intros has_cap st; cbn [make_room];
    (case_match; [apply exact_looks, looks_ret|]); apply exact_bind; try (apply exact_looks, looks_queued); intros [];
    try (apply exact_looks, looks_ret); [done|].
  apply exact_bind; [apply exact_evict|]. intros [g|]; [|apply exact_looks, looks_ret].
  apply exact_bind; [apply exact_looks, looks_capacity|]. intros cap. apply IH.
Qed.

Lemma exact_walk_record fuel A rec st :
  tests_look (wa_tests A) -> keeps_counts (walk_record sha1 local_date week_form getmtime P C fuel A rec st).
Proof.
  intros Ht. unfold walk_record. case_match; [apply exact_looks, looks_ret|]. case_match; [apply exact_looks, looks_ret|].
  apply exact_bind; [apply exact_looks, looks_capacity|]. intros cap. case_match; [apply exact_looks, looks_ret|].
  apply exact_bind; [apply exact_looks, looks_lift|]. intros ns.
  apply exact_bind; [by apply exact_looks, looks_classify|]. intros p. apply exact_bind.
  { case_match; [case_match|]; try apply exact_looks, looks_ret. apply exact_make_room. }
  intros [p' st']. unfold finish_record. apply exact_bind; [apply exact_reconstruct|]. intros e.
  apply exact_bind; [apply exact_looks, looks_left_open|]. intros b. case_match. apply exact_walk_day_close.
Qed.

Lemma exact_walk_records fuel A recs st :
  tests_look (wa_tests A) -> keeps_counts (walk_records sha1 local_date week_form getmtime P C fuel A recs st).
Proof.
  intros Ht. revert st. induction recs as [|rec recs IH]; intros st; cbn [walk_records]; [apply exact_looks, looks_ret|].
  apply exact_bind; [by apply exact_walk_record|]. intros st'. apply IH.
Qed.

Lemma looks_reopen gone f : looks (reopen_evicted local_date P gone f).
Proof.
  revert f. induction gone as [|g gone IH]; intros f; cbn [reopen_evicted]; [apply looks_ret|].
  case_match; [|apply IH]. apply looks_bind; [apply looks_queued|]. intros b. apply IH.
Qed.

End quiet.
