(* ===== verification/DiscoverDemo.v ===== *)
(** Runs of the discovery walk on concrete archives: the instances of its theorems, and
    two things the walk does not do. *)
From S2P Require Import Prelude PyDict PriorityQueue PyStr PosixPath IngestScore PyDate StatsFind LeaseOwner WriteBehind JobStore JobStoreInv JobStoreOps JobStoreSteps JobStoreSafety JobStoreSpec AppendDays AppendDaysSpec DeadLetter Discover DiscoverLogic DiscoverSpec DiscoverBounds DiscoverCounts.
Local Open Scope Z_scope.

Module WalkDemo.
Import MinScan.

Abbreviation jobs := (list qkey).

(** Coordinated universal time; nothing has a modification time. *)
Definition utc (t : Z) : option Z := date_fromordinal (719163 + t / 86400).
Definition no_mtime (p : string) : option Z := None.
Definition no_week (s : string) : option Z := None.

(** Room for two queued files. *)
Definition small : config := Config None (Some 2) None.

Definition process_with (o : nat -> shared (H := jobs) -> shared) : process (H := jobs) := {|
  others := o;
  now_at := fun n => 1700000000 + Z.of_nat n;
  wall_clock := fun n => 737800 * DAY_US;
  dead_letters := fun n root => DLState None 0 None;
  has_file_complete_mark := fun n p => false;
  has_zero_host_mark := fun n p => false;
  head_ingested_in_db := fun n p => false;
  is_file := fun n p => false;
  same_file := fun n p q => None;
  needs_tar_append := fun n p d => false;
  day_close_on_disk := fun n p => false;
  file_size := fun n p => None;
  tar_seal_in_progress := fun n p => false;
  mutable_tar_members := fun n p => ∅;
  populate_source_exists := fun n p => false;
  cached_daily_members := fun n p => None;
  member_match_when_warm := fun n p m z => None;
|}.

(** A worker that claims the best backfill file when the walk has made [n] calls. *)
Definition worker (n : nat) (sh : shared (H := jobs)) : shared :=
  if decide (n = 12%nat) then
    match claim_ingest_jobs small (sh_store sh) "catchup" Demo.owner 1 (Some 100) 1000 with
    | Some (Ok r) => Shared r.2 (sh_left sh)
    | _ => sh
    end
  else sh.

Definition quiet := process_with (fun n sh => sh).
Definition busy := process_with worker.

Definition walk_settings : walk_config :=
  WalkConfig small (DLConfig [3600] [3600]) (32 * 3600000000) true 737800 8 "/daily" "/raw".

Definition args : walk_args (H := jobs) :=
  WalkArgs (Tests (Some (discover_ingest_is_complete quiet walk_settings)) None) None None FNone FNone.

Definition record (path : string) : FindStatsRecord := {| rec_path := path; rec_mtime := float_of_Z 1600000000; rec_size := 10; rec_inode := 1 |}.

(** Three files of three days, the youngest first. *)
Definition r3 := record "/raw/h/1600172800".
Definition r2 := record "/raw/h/1600086400".
Definition r1 := record "/raw/h/1600000000".

Definition w0 : world (H := jobs) := World 0 (Shared Demo.s0 no_remainders).

Abbreviation walk_of P := (stream_enqueue_ingest_from_find_records demo_sha1 utc no_week no_mtime P walk_settings 9 args).

Definition outcome (r : option (result stats * world (H := jobs))) : option (stats * list string * list string) :=
  match r with
  | Some (Ok st, w) => Some (st, dict_keys (ingest (iq (w_store w))), dict_keys (inflight (w_store w) !!! JOB_KIND_INGEST))
  | _ => None
  end.

(** With two places, the oldest file pushes the youngest one out, and its day stays
    open: the frontier is the day of [r3]. *)
Example full_queue_run :
  (fun x => (enqueued_ingest x.1.1, dropped_at_capacity x.1.1, frontier x.1.1, evicted x.1.1, x.1.2)) <$>
    outcome (walk_of quiet ([r3; r2; r1], None) w0) =
  Some (3, 0, Some 737683, ["/raw/h/1600172800"], ["/raw/h/1600086400"; "/raw/h/1600000000"]).
Proof. vm_compute. reflexivity. Qed.

Lemma quiet_keep i : others_keep quiet i.
Proof. intros n sh Hw. split; [exact Hw|exact id]. Qed.

Lemma busy_keep i : others_keep busy i.
Proof.
  intros n sh Hw. cbn. unfold worker. case_decide; [|split; [exact Hw|exact id]].
  destruct (claim_ingest_jobs _ _ _ _ _ _ _) as [[[js s]|]|] eqn:E; [|split; [exact Hw|exact id]..]. split.
  - exact (store_wf_claim_ingest _ _ _ _ _ _ _ _ _ Hw E).
  - apply keeps_job_kept. exact (keeps_claim_ingest _ _ _ _ _ _ _ _ _ E).
Qed.

Lemma args_keep i : tests_keep i (wa_tests args).
Proof.
  split; [|done]. intros f p [= <-]. apply keeps_ingest_complete. split; [intros s; exact id|].
  intros s1 s2 s3 H1 H2 Hp. exact (H2 (H1 Hp)).
Qed.

Lemma w0_wf : store_wf (w_store w0).
Proof. apply reachable_wf, Demo.s0_reachable. Qed.

Lemma no_dead_letters (P : process (H := jobs)) i : dead_letters P = (fun n root => DLState None 0 None) -> never_blocked P walk_settings i.
Proof.
  intros E n root r. rewrite E. unfold dead_letter_blocked. case_decide; intros Er; by simplify_eq/=.
Qed.

Lemma r3_open (P : process (H := jobs)) : P = quiet \/ P = busy -> open_record utc P walk_settings "/raw/h/1600172800" args 737683 r3.
Proof.
  intros HP. constructor; try (vm_compute; reflexivity).
  - intros ns [n sh]. destruct HP as [-> | ->]; vm_compute; done.
  - apply no_dead_letters. by destruct HP as [-> | ->].
Qed.

Lemma r3_in_walk (P : process (H := jobs)) : P = quiet \/ P = busy -> in_walk utc P walk_settings "/raw/h/1600172800" args 737683 [r3; r2; r1] w0.
Proof.
  intros HP. constructor; [vm_compute; reflexivity|]. right. exists r3. split; [apply elem_of_cons; by left|by apply r3_open].
Qed.

Lemma r1_in_walk : in_walk utc quiet walk_settings "/raw/h/1600000000" args 737681 [r3; r2; r1] w0.
Proof.
  constructor; [vm_compute; reflexivity|]. right. exists r1. split; [apply list_elem_of_In; simpl; auto|].
  constructor; try (vm_compute; reflexivity).
  - intros ns [n sh]. vm_compute. done.
  - by apply no_dead_letters.
Qed.

(** How the two walks end. *)
Definition end_of P : stats * world (H := jobs) :=
  match walk_of P ([r3; r2; r1], None) w0 with Some (Ok st, w) => (st, w) | _ => (no_stats, w0) end.

Lemma quiet_end : walk_of quiet ([r3; r2; r1], None) w0 = Some (Ok (end_of quiet).1, (end_of quiet).2).
Proof.
  unfold end_of. destruct (walk_of quiet _ w0) as [[[st|e] w']|] eqn:E; [done|..]; exfalso; vm_compute in E; discriminate E.
Qed.

Lemma busy_end : walk_of busy ([r3; r2; r1], None) w0 = Some (Ok (end_of busy).1, (end_of busy).2).
Proof.
  unfold end_of. destruct (walk_of busy _ w0) as [[[st|e] w']|] eqn:E; [done|..]; exfalso; vm_compute in E; discriminate E.
Qed.



Lemma walk_returns_witness : exists r w', walk_of quiet ([r3; r2; r1], None) w0 = Some (r, w').
Proof.
  refine (walk_returns demo_sha1 utc no_week no_mtime quiet walk_settings _ 9 args [r3; r2; r1] None w0 _ w0_wf _).
  - intros n sh Hw. split; [exact Hw|apply Nat.le_refl].
  - split; [|done]. intros f p [= <-]. apply keeps_ingest_complete. split; [intros s; apply Nat.le_refl|].
    intros s1 s2 s3 H1 H2. exact (Nat.le_trans _ _ _ H2 H1).
  - vm_compute. lia.
Defined.

Lemma s0_counts : counts_exact utc no_mtime (w_shared w0).
Proof.
  constructor; [intros k d v; unfold bucket_of; by case_decide|]. intros kind day Hk Hd. exists ∅.
  assert (kind = "ingest" \/ kind = "append") as Hc by (unfold counted in Hk; set_solver). split.
  - intros i. split; [set_solver|]. intros [Hp _]. exfalso.
    destruct Hc as [-> | ->]; destruct Hp as [[[_ [x Hx]]|Hx]|[x Hx]];
      first [by vm_compute in Hx|vm_compute in Hx; by apply elem_of_nil in Hx].
  - rewrite size_empty, day_remainder_eq by (done || unfold counted in Hk; exact Hk). unfold bucket_of. by case_decide.
Qed.


(** Each day owes the file that is queued, and not the one that was pushed out. *)
Example counts_after_walk :
  (fun d => day_remainder "ingest" d (sh_left (w_shared (end_of quiet).2))) <$> ["2020-09-13"; "2020-09-14"; "2020-09-15"] = [1; 1; 0].
Proof. vm_compute. reflexivity. Qed.

Lemma end_wf : store_wf (w_store (end_of quiet).2).
Proof.
  exact (walk_keeps_wf demo_sha1 utc no_week no_mtime quiet walk_settings _ 9 args 737681 [r3; r2; r1] None w0 _ _
    (quiet_keep _) (args_keep _) w0_wf r1_in_walk quiet_end).
Qed.

(** The queue is full of the two older files: the third is given up. *)
Definition third : plan := Plan "/raw/h/1600172800" "/raw/h/1600172800" true true (Some 737683) None "".
Definition given_up : (plan * stats) * world (H := jobs) :=
  match make_room utc no_mtime quiet walk_settings 1 737683 false third no_stats (end_of quiet).2 with
  | Some (Ok r, w) => (r, w)
  | _ => ((third, no_stats), w0)
  end.

Lemma dropped_only_for_older_witness :
  nothing_younger 737683 (w_store given_up.2) /\ low (frontier given_up.1.2) 737683 /\ dropped_at_capacity given_up.1.2 = 1.
Proof.
  refine (dropped_only_for_older_work utc no_mtime quiet walk_settings 1 737683 false third no_stats (end_of quiet).2 given_up.1.1
            given_up.1.2 given_up.2 _ _ _ _ _); [done| | |done|vm_compute; reflexivity].
  - exact end_wf.
  - unfold given_up. destruct (make_room _ _ _ _ _ _ _ _ _ _) as [[[[p st]|e] w']|] eqn:E; [done|..]; exfalso; vm_compute in E; discriminate E.
Defined.

Example open_day_is_open :
  (fun x => (day_close_held_for_discover no_week "/daily/2020-09-13.tar" 737800 8 (record_discover_frontier x.1.1 true (DiscoverState None false false)),
             day_close_held_for_discover no_week "/daily/2020-09-15.tar" 737800 8 (record_discover_frontier x.1.1 true (DiscoverState None false false))))
    <$> outcome (walk_of quiet ([r3; r2; r1], None) w0) = Some (false, true).
Proof. vm_compute. reflexivity. Qed.

(** ** Background discovery *)

Definition nul : string := String NUL "".
Definition find_middle (window : option Z) : list string :=
  [("/raw/h/1600086400" +:+ nul +:+ "16000")%string; ("00000" +:+ nul +:+ "10" +:+ nul +:+ "1" +:+ nul)%string].
Definition read_float (s : string) : option float64 := float_of_Z <$> py_int s.

Definition no_dirs : daily_dir := DailyDir (fun n d => None) (fun n p => None).

(** The oldest and the youngest file queued, and a walk of the last three days asked for. *)
Definition asked : world (H := jobs) :=
  let s := (zadd_ingest_job small Demo.s0 "/raw/h/1600000000" (Demo.day_score 737681 1) None false).2 in
  let s := (zadd_ingest_job small s "/raw/h/1600172800" (Demo.day_score 737683 1) None false).2 in
  match enqueue_list_job small s JOB_KIND_DISCOVER (discover_job_identity "/raw" (Some 3)) true with
  | Ok (_, s) => World 0 (Shared s no_remainders)
  | Raise _ => w0
  end.

Definition background : option (discover_state * list string * list string) :=
  match run_background_discover demo_sha1 utc no_week no_mtime quiet walk_settings no_dirs 9 read_float find_middle
          FNone FNone Demo.owner (Some 3) (DiscoverState None false false) asked with
  | Some (Ok ds, w) => Some (ds, dict_keys (ingest (iq (w_store w))), lists (w_store w) !!! JOB_KIND_DISCOVER)
  | _ => None
  end.

(** A file pushed out of the full queue is not asked for again.  The comment says that
    "files skipped at the ingest cap are forgotten; ask for another full walk", but only
    dropped records count: here the walk of a window evicts a queued file outside it, and
    the next whole-archive walk stays unscheduled; only the frontier holds its day. *)
Example pushed_out_not_rescheduled :
  background = Some (DiscoverState (Some 737683) false false, ["/raw/h/1600000000"; "/raw/h/1600086400"], []).
Proof. vm_compute. reflexivity. Qed.

(** A file named by its date is counted in the day of its modification time: [left_day]
    reads an epoch or the modification time, the walk reads the date. *)
Example date_name_counts_elsewhere :
  basename_date utc "/raw/h/2020-09-13" = Some 737681 /\
  left_day utc (fun p => Some 1600172800) "/raw/h/2020-09-13" = Some "2020-09-15".
Proof. vm_compute. done. Qed.
End WalkDemo.
