(* ===== verification/DeadLetterSpec.v ===== *)
(** What the dead letters promise: the backoff schedule of repeated give-ups, the
    readmission of due entries once per cycle, the cap and what it keeps, and a
    cached index that is never stale. *)
From S2P Require Import Prelude PyDict PyStr LeaseOwner DeadLetter.
Local Open Scope Z_scope.

(** ** Loading *)

(** Entries written by the current code. *)
Definition current (e : dl_entry) : Prop := is_Some (e_cycle e).

Lemma normalize_current cfg e : current e -> normalize_dead_letter_entry cfg e = Ok e.
Proof. unfold normalize_dead_letter_entry. by intros [c ->]. Qed.

Lemma normalize_all_current cfg l : Forall current l -> normalize_all cfg l = Ok l.
Proof.
  induction 1 as [|e l He _ IH]; simpl; [done|]. by rewrite normalize_current, IH.
Qed.

(** ** Repeated give-ups *)

Lemma take_prior_none key l : (forall e, e ∈ l -> has_key key e = false) -> take_prior key l = (None, l).
Proof.
  induction l as [|e l IH]; intros Hl; simpl; [done|].
  rewrite (Hl e) by (by left). rewrite IH; [done|]. intros e' He. apply Hl. by right.
Qed.

Lemma take_prior_last key l e :
  (forall e, e ∈ l -> has_key key e = false) -> has_key key e = true -> take_prior key (l ++ [e]) = (Some e, l).
Proof.
  induction l as [|x l IH]; intros Hl He; simpl; [by rewrite He|].
  rewrite (Hl x) by (by left). rewrite IH; [done| |done]. intros e' Hin. apply Hl. by right.
Qed.

Lemma trim_small m l : Z.of_nat (length l) <= m -> trim_dead_letters m l = l.
Proof. intros Hl. unfold trim_dead_letters. destruct (Z.ltb_spec m (Z.of_nat (length l))); [lia|done]. Qed.

Lemma py_nth_lookup {A} (l : list A) (n : nat) a : l !! n = Some a -> py_nth l (Z.of_nat n) = Ok a.
Proof.
  intros Hl. unfold py_nth. destruct (Z.ltb_spec (Z.of_nat n) 0); [lia|]. rewrite Nat2Z.id, Hl.
  destruct (Z.ltb_spec (Z.of_nat n) 0); [lia|done].
Qed.

(** Give-ups of one job at the given times, every save succeeding; the last result. *)
Fixpoint give_ups (cfg : dl_config) (kind identity : string) (attempt : Z) (reason : string) (env : bool)
    (max_entries : Z) (times : list (Z * Z)) (st : dl_state) : result (option dl_entry * dl_state) :=
  match times with
  | [] => Ok (None, st)
  | (ts, mtime) :: times' =>
      '(e, st) ← upsert_queue_dead_letter cfg kind identity attempt reason env ts max_entries (Some mtime) st;
      match times' with
      | [] => Ok (e, st)
      | _ => give_ups cfg kind identity attempt reason env max_entries times' st
      end
  end.

Definition schedule_of (cfg : dl_config) (reason : string) (env : bool) : list Z :=
  if env || starts_with "env:" reason then sync_dead_letter_env_backoff_s cfg
  else sync_dead_letter_readmit_backoff_s cfg.

(** The entry after [n] give-ups, the last at [ts]. *)
Record nth_entry (cfg : dl_config) (kind identity reason : string) (env : bool) (n : nat) (ts : Z) (e : dl_entry)
    : Prop := {
  ne_key : has_key (kind, identity) e = true;
  ne_cycle : e_cycle e = Some (Z.of_nat n);
  ne_recorded : e_recorded_at e = Some ts;
  ne_terminal : e_terminal e = Some (length (schedule_of cfg reason env) <? n)%nat;
  ne_readmit : e_readmit_at e = (fun d => ts + d) <$> schedule_of cfg reason env !! pred n;
}.

Lemma next_entry_spec cfg kind identity attempt reason env ts prior (n : nat) :
  num_or (prior ≫= e_cycle) 0 = Z.of_nat n ->
  exists e, next_entry cfg (kind, identity) attempt reason env ts prior = Ok e /\
    nth_entry cfg kind identity reason env (S n) ts e.
Proof.
  intros Hn. unfold next_entry. rewrite Hn. unfold dead_letter_schedule, truthy; simpl e_env; cbn [default from_option id].
  fold (schedule_of cfg reason env). set (sch := schedule_of cfg reason env).
  destruct (Z.ltb_spec (Z.of_nat (length sch)) (Z.of_nat n + 1)) as [Hlt|Hge].
  - eexists. split; [reflexivity|]. constructor; try done; cbn [e_cycle e_terminal e_readmit_at].
    + by apply bool_decide_eq_true.
    + f_equal. lia.
    + f_equal. symmetry. apply Nat.ltb_lt. fold sch. lia.
    + fold sch. cbn [pred]. by rewrite lookup_ge_None_2 by lia.
  - destruct (lookup_lt_is_Some_2 sch n) as [d Hd]; [lia|].
    rewrite Z.add_simpl_r, (py_nth_lookup _ _ _ Hd).
    eexists. split; [reflexivity|]. constructor; try done; cbn [e_cycle e_terminal e_readmit_at].
    + by apply bool_decide_eq_true.
    + f_equal. lia.
    + f_equal. symmetry. apply Nat.ltb_ge. fold sch. lia.
    + fold sch. cbn [pred]. by rewrite Hd.
Qed.

Lemma upsert_step cfg kind identity attempt reason env ts m mtime st l p n :
  dl_file st = Some (l ++ option_list p) -> Forall current l ->
  (forall e, e ∈ l -> has_key (kind, identity) e = false) ->
  (forall e, p = Some e -> has_key (kind, identity) e = true /\ e_cycle e = Some (Z.of_nat n)) ->
  (p = None -> n = 0%nat) ->
  Z.of_nat (length l) < m ->
  exists e, upsert_queue_dead_letter cfg kind identity attempt reason env ts m (Some mtime) st =
      Ok (Some e, DLState (Some (l ++ [e])) mtime None) /\
    nth_entry cfg kind identity reason env (S n) ts e.
Proof.
  intros Hf Hl Hk Hp Hp0 Hm. unfold upsert_queue_dead_letter, load_dead_letter_entries. rewrite Hf. cbn [default].
  assert (Forall current (l ++ option_list p)) as Hc.
  { apply Forall_app. split; [done|]. destruct p as [e|]; simpl; [|done].
    destruct (Hp e eq_refl) as [_ Hc]. repeat constructor. by eexists. }
  cbn [from_option id]. rewrite normalize_all_current by done. cbn [mbind result_bind].
  assert (take_prior (kind, identity) (l ++ option_list p) = (p, l)) as ->.
  { destruct p as [e|]; simpl; [|rewrite app_nil_r; by apply take_prior_none].
    apply take_prior_last; [done|]. by apply (Hp e). }
  destruct (next_entry_spec cfg kind identity attempt reason env ts p n) as (e & -> & He).
  { destruct p as [e|]; simpl; [|by rewrite Hp0]. destruct (Hp e eq_refl) as [_ ->]. simpl.
    by destruct (Z.eqb_spec (Z.of_nat n) 0). }
  exists e. split; [|done]. cbn [mbind result_bind save_dead_letter_entries].
  rewrite trim_small; [done|]. rewrite length_app. simpl. lia.
Qed.

Lemma give_ups_from cfg kind identity attempt reason env m l times st p n ts0 mt0 :
  Forall current l -> (forall e, e ∈ l -> has_key (kind, identity) e = false) -> Z.of_nat (length l) < m ->
  dl_file st = Some (l ++ option_list p) ->
  (forall e, p = Some e -> has_key (kind, identity) e = true /\ e_cycle e = Some (Z.of_nat n)) ->
  (p = None -> n = 0%nat) ->
  exists e mtime, give_ups cfg kind identity attempt reason env m (times ++ [(ts0, mt0)]) st =
      Ok (Some e, DLState (Some (l ++ [e])) mtime None) /\
    nth_entry cfg kind identity reason env (n + S (length times)) ts0 e.
Proof.
  intros Hl Hk Hm. revert st p n. induction times as [|[ts mt] times IH]; intros st p n Hf Hp Hp0; simpl.
  - destruct (upsert_step cfg kind identity attempt reason env ts0 m mt0 st l p n) as (e & -> & He); try done.
    exists e, mt0. split; [done|]. by rewrite Nat.add_1_r.
  - destruct (upsert_step cfg kind identity attempt reason env ts m mt st l p n) as (e & -> & He); try done.
    cbn [mbind result_bind]. destruct (times ++ [(ts0, mt0)]) as [|x ts'] eqn:Et; [by destruct times|].
    destruct (IH (DLState (Some (l ++ [e])) mt None) (Some e) (S n)) as (e' & mtime & Hg & He'); [done| |done|].
    + intros e1 [= <-]. split; [apply He|apply He].
    + exists e', mtime. split; [exact Hg|]. by replace (n + S (S (length times)))%nat with (S n + S (length times))%nat by lia.
Qed.

(** The life of a dead letter.  A job without an entry that gives up [n] times, the
    last time at [ts0], has exactly one entry, at cycle [n]; while the backoff schedule
    lasts the job is blocked until [ts0] plus the [n]-th cooldown and no longer, and
    from the give-up after the last cooldown on it is terminal and blocked for good.
    The entries of other jobs are untouched. *)
Theorem dead_letter_lifecycle cfg kind identity attempt reason env m l times st ts0 mt0 :
  Forall current l -> (forall e, e ∈ l -> has_key (kind, identity) e = false) -> Z.of_nat (length l) < m ->
  dl_file st = Some l ->
  let n := S (length times) in
  let sch := schedule_of cfg reason env in
  exists e mtime, give_ups cfg kind identity attempt reason env m (times ++ [(ts0, mt0)]) st =
      Ok (Some e, DLState (Some (l ++ [e])) mtime None) /\
    e_cycle e = Some (Z.of_nat n) /\
    (forall ts, entry_blocked ts e =
      match sch !! pred n with
      | Some d => ts <? ts0 + d
      | None => true
      end).
Proof.
  intros Hl Hk Hm Hf n sch.
  destruct (give_ups_from cfg kind identity attempt reason env m l times st None 0 ts0 mt0) as (e & mtime & Hg & He);
    try done.
  { simpl. by rewrite app_nil_r. }
  exists e, mtime. split_and!; [done|apply He|]. intros ts. unfold entry_blocked.
  rewrite (ne_terminal _ _ _ _ _ _ _ _ He), (ne_readmit _ _ _ _ _ _ _ _ He). cbn [truthy default from_option id].
  fold sch. change (0 + S (length times))%nat with n. change (pred n) with (length times).
  destruct (sch !! length times) as [d|] eqn:Ed.
  - apply lookup_lt_Some in Ed. rewrite (proj2 (Nat.ltb_ge _ _)) by (unfold n; lia). simpl.
    destruct (Z.eqb_spec (ts0 + d) 0) as [E|]; [by rewrite E|done].
  - apply lookup_ge_None_1 in Ed. rewrite (proj2 (Nat.ltb_lt _ _)) by (unfold n; lia). done.
Qed.

(** ** Readmission *)

Lemma dict_of_items_in {K V} `{EqDecision K} (l : list (K * V)) (d : dict K V) (k : K) (v : V) :
  (k, v) ∈ dict_items (foldl (fun d p => <[p.1 := p.2]> d) d l) -> (k, v) ∈ l \/ (k, v) ∈ dict_items d.
Proof.
  revert d. induction l as [|[k0 v0] l IH]; intros d; cbn [foldl]; [auto|].
  intros [Hin|Hin]%IH; [left; by right|]. cbn [fst snd] in Hin.
  assert (forall m, (k, v) ∈ assoc_set k0 v0 m -> (k, v) = (k0, v0) \/ (k, v) ∈ m) as Hset.
  { clear. induction m as [|[k1 v1] m IH]; simpl; [set_solver|]. case_decide; set_solver. }
  apply Hset in Hin as [E|]; [rewrite E; left; left|by right].
Qed.

Lemma index_values_in entries e : e ∈ dict_values (index_of entries) -> e ∈ entries.
Proof.
  unfold dict_values, index_of. intros ([k e'] & -> & Hin)%list_elem_of_fmap.
  apply dict_of_items_in in Hin as [Hin|Hin]; [|by apply elem_of_nil in Hin].
  apply list_elem_of_fmap in Hin as (e'' & [= _ ->] & Hin). done.
Qed.

Definition due_at (e : dl_entry) : Z := num_or (e_readmit_at e) 0.

Lemma insert_due_perm e l : insert_due e l ≡ₚ e :: l.
Proof.
  induction l as [|f l IH]; simpl; [done|]. destruct (_ <=? _); [done|]. rewrite IH. apply Permutation_swap.
Qed.

Lemma sort_due_perm l : sort_due l ≡ₚ l.
Proof. induction l as [|e l IH]; simpl; [done|]. by rewrite insert_due_perm, IH. Qed.

Lemma insert_due_sorted e l :
  StronglySorted (fun a b => due_at a <= due_at b) l -> StronglySorted (fun a b => due_at a <= due_at b) (insert_due e l).
Proof.
  induction l as [|f l IH]; intros Hs; simpl; [repeat constructor|].
  apply StronglySorted_inv in Hs as [Hs Hf]. fold (due_at e) (due_at f). destruct (Z.leb_spec (due_at e) (due_at f)).
  - constructor; [by constructor|]. constructor; [done|]. eapply Forall_impl; [exact Hf|]. simpl. lia.
  - constructor; [by apply IH|]. rewrite insert_due_perm. constructor; [lia|done].
Qed.

Lemma sort_due_sorted l : StronglySorted (fun a b => due_at a <= due_at b) (sort_due l).
Proof. induction l as [|e l IH]; simpl; [constructor|]. by apply insert_due_sorted. Qed.

(** The index a process reads: the cached one when its time stamp is current. *)
Definition coherent (cfg : dl_config) (st : dl_state) : Prop :=
  forall idx, dl_cache st = Some (dl_mtime st, idx) -> dl_file st <> None ->
    exists entries, load_dead_letter_entries cfg st = Ok entries /\ idx = index_of entries.

Lemma index_coherent cfg st idx st' :
  coherent cfg st -> dl_file st <> None -> dead_letter_index cfg st = Ok (idx, st') ->
  exists entries, load_dead_letter_entries cfg st = Ok entries /\ idx = index_of entries.
Proof.
  intros Hc Hf. unfold dead_letter_index. destruct (dl_file st) as [l|] eqn:E; [|done].
  destruct (dl_cache st) as [[m i]|] eqn:Ec.
  - destruct (Z.eqb_spec m (dl_mtime st)) as [->|].
    + intros [= -> <-]. apply Hc; [done|by rewrite E].
    + destruct (load_dead_letter_entries cfg st) as [entries|]; [|done]. intros [= <- <-]. eauto.
  - destruct (load_dead_letter_entries cfg st) as [entries|]; [|done]. intros [= <- <-]. eauto.
Qed.

Lemma py_nth_total {A} (l : list A) : l <> [] -> exists a, py_nth l 0 = Ok a.
Proof. destruct l as [|a l]; [done|]. intros _. by exists a. Qed.

(** Stamps survive normalization, which only touches legacy entries. *)
Lemma normalize_stamps cfg e e' :
  normalize_dead_letter_entry cfg e = Ok e' ->
  e_readmitted_at e' = e_readmitted_at e /\ e_kind e' = e_kind e /\ e_identity e' = e_identity e.
Proof.
  unfold normalize_dead_letter_entry. destruct (e_cycle e); [by intros [= <-]|].
  case_decide; [by intros [= <-]|]. destruct (py_nth _ 0); [by intros [= <-]|done].
Qed.

Lemma normalize_all_in cfg l l' e' :
  normalize_all cfg l = Ok l' -> e' ∈ l' -> exists e, e ∈ l /\ normalize_dead_letter_entry cfg e = Ok e'.
Proof.
  revert l'. induction l as [|e l IH]; intros l'; simpl; [intros [= <-] []%elem_of_nil|].
  destruct (normalize_dead_letter_entry cfg e) as [e1|] eqn:E1; [|done]. simpl.
  destruct (normalize_all cfg l) as [l1|] eqn:El; [|done]. intros [= <-] [->|Hin]%elem_of_cons.
  - exists e. split; [by left|done].
  - destruct (IH l1 eq_refl Hin) as (e0 & H0 & H1). exists e0. split; [by right|done].
Qed.

Lemma due_batch cfg dir ts limit st l st' :
  dir <> "" -> coherent cfg st -> dl_file st <> None ->
  due_dead_letter_readmissions cfg dir ts limit st = Ok (l, st') ->
  exists entries, load_dead_letter_entries cfg st = Ok entries /\
    l = take (Z.to_nat (Z.max 0 limit))
          (sort_due (filter (fun e => entry_due ts e = true) (dict_values (index_of entries)))).
Proof.
  intros Hdir Hc Hf. unfold due_dead_letter_readmissions. rewrite decide_False by done.
  destruct (dead_letter_index cfg st) as [[idx st1]|] eqn:Ei; [|done]. cbn [mbind result_bind].
  intros [= <- <-]. destruct (index_coherent _ _ _ _ Hc Hf Ei) as (entries & Hl & ->). by exists entries.
Qed.

(** Due readmissions: the batch is the [limit] entries of the index that are due
    longest, oldest first; each is past its cooldown, so not blocked any more, and
    nothing due is left out below the limit. *)
Theorem due_readmissions_spec cfg dir ts limit st l st' :
  dir <> "" -> coherent cfg st -> dl_file st <> None ->
  due_dead_letter_readmissions cfg dir ts limit st = Ok (l, st') ->
  exists entries all, load_dead_letter_entries cfg st = Ok entries /\
    all ≡ₚ filter (fun e => entry_due ts e = true) (dict_values (index_of entries)) /\
    StronglySorted (fun a b => due_at a <= due_at b) all /\
    l = take (Z.to_nat (Z.max 0 limit)) all /\
    (forall e, e ∈ l -> entry_blocked ts e = false).
Proof.
  intros Hdir Hc Hf Hd. destruct (due_batch _ _ _ _ _ _ _ Hdir Hc Hf Hd) as (entries & Hl & ->).
  eexists entries, _. split_and!; [done|apply sort_due_perm|apply sort_due_sorted|done|].
  intros e He. apply subseteq_take in He. rewrite sort_due_perm in He.
  apply list_elem_of_filter in He as [He _]. unfold entry_due in He. rewrite !andb_true_iff, negb_true_iff in He.
  destruct He as [[Ht Hle] _]. unfold entry_blocked. rewrite Ht. apply Z.ltb_ge. by apply Z.leb_le.
Qed.

(** Once per cycle: after [mark_dead_letters_readmitted] stamped a batch at [now], no
    later scan of the sidecar returns an entry of the batch whose cooldown was over
    at [now]; only a new give-up, with a later cooldown, makes it due again. *)
Theorem readmitted_once cfg dir keys now w st st1 later limit l st2 :
  dir <> "" -> 0 < now -> keys <> [] ->
  mark_dead_letters_readmitted cfg keys now (Some w) st = Ok (true, st1) ->
  due_dead_letter_readmissions cfg dir later limit st1 = Ok (l, st2) ->
  forall e k, e ∈ l -> k ∈ keys -> has_key k e = true -> now < due_at e.
Proof.
  intros Hdir Hnow Hkeys Hm Hdue e k He Hk Hhas.
  unfold mark_dead_letters_readmitted in Hm. rewrite decide_False in Hm by done.
  destruct (load_dead_letter_entries cfg st) as [entries|] eqn:El; [|done]. injection Hm as Est.
  assert (coherent cfg st1) as Hc by (intros idx Hx; by rewrite <- Est in Hx).
  destruct (due_batch cfg dir later limit st1 l st2 Hdir Hc) as (es & Hl & ->); [by rewrite <- Est|done|].
  apply subseteq_take in He. rewrite sort_due_perm in He. apply list_elem_of_filter in He as [Hd He].
  apply index_values_in in He. rewrite <- Est in Hl. unfold load_dead_letter_entries in Hl. cbn [dl_file default from_option id] in Hl.
  destruct (normalize_all_in _ _ _ _ Hl He) as (e0 & He0 & Hn).
  destruct (normalize_stamps _ _ _ Hn) as (Er & Ek & Ei).
  apply list_elem_of_fmap in He0 as (e1 & E0 & He1).
  assert (existsb (fun k => has_key k e1) keys = true) as Hex.
  { apply existsb_exists. exists k. split; [by apply list_elem_of_In|].
    unfold has_key in *. rewrite Ek, Ei, E0 in Hhas. by case_match. }
  rewrite Hex in E0. rewrite E0 in Er. simpl in Er.
  unfold entry_due in Hd. rewrite !andb_true_iff in Hd. destruct Hd as [_ Hd]. apply Z.ltb_lt in Hd.
  rewrite Er in Hd. simpl in Hd. destruct (Z.eqb_spec now 0); [lia|done].
Qed.

(** ** The cap *)

Definition live (e : dl_entry) : Prop := truthy (e_terminal e) = false.

#[export] Instance live_dec e : Decision (live e).
Proof. unfold live. apply _. Defined.

Lemma drop_terminal_live n l : filter live (drop_terminal n l) = filter live l.
Proof.
  revert n. induction l as [|e l IH]; intros [|n]; simpl; try done.
  destruct (truthy (e_terminal e)) eqn:E; rewrite !filter_cons.
  - rewrite IH. by rewrite decide_False by (unfold live; by rewrite E).
  - rewrite IH. done.
Qed.

(** Either all that was asked for is dropped, or only live entries are left. *)
Lemma drop_terminal_length n l :
  (length (drop_terminal n l) + n = length l)%nat \/ drop_terminal n l = filter live l.
Proof.
  revert n. induction l as [|e l IH]; intros [|n]; simpl; try (left; lia).
  - by right.
  - rewrite filter_cons. destruct (truthy (e_terminal e)) eqn:E.
    + rewrite decide_False by (unfold live; by rewrite E). destruct (IH n) as [Hn| ->]; [left; lia|by right].
    + rewrite decide_True by done. destruct (IH (S n)) as [Hn| ->]; [left; simpl; lia|by right].
Qed.

Lemma py_from_last {A} (m : Z) (l : list A) :
  0 < m <= Z.of_nat (length l) -> py_from l (- m) = drop (length l - Z.to_nat m) l.
Proof.
  intros Hm. unfold py_from. destruct (Z.ltb_spec (- m) 0); [|lia]. f_equal. lia.
Qed.

(** The cap holds, and terminal entries go first: after a save at most
    [max_entries] entries are left, and as long as the entries still cooling down fit,
    all of them are kept in order. *)
Theorem trim_spec m l :
  0 < m ->
  Z.of_nat (length (trim_dead_letters m l)) <= m /\
  (Z.of_nat (length (filter live l)) <= m -> filter live (trim_dead_letters m l) = filter live l).
Proof.
  intros Hm. unfold trim_dead_letters. destruct (Z.ltb_spec m (Z.of_nat (length l))) as [Hl|Hl]; [|done].
  set (l1 := drop_terminal _ l). pose proof (drop_terminal_length (Z.to_nat (Z.of_nat (length l) - m)) l) as Hd.
  fold l1 in Hd. destruct (Z.ltb_spec m (Z.of_nat (length l1))) as [Hl1|Hl1].
  - split; [rewrite py_from_last, length_drop by lia; lia|].
    intros Hlive. exfalso. destruct Hd as [Hd|Hd]; [lia|]. rewrite Hd in Hl1. lia.
  - split; [done|]. intros _. apply drop_terminal_live.
Qed.

(** ** The cached index *)

(** A reader between its three unlocked parts: it has the time stamp, or it has
    built the index. *)
Inductive reader :=
| Stamped (mtime : Z)
| Built (mtime : Z) (idx : dict (string * string) dl_entry).

Inductive index_step (cfg : dl_config) : dl_state * gmap nat reader -> dl_state * gmap nat reader -> Prop :=
| index_stat st rs i : dl_file st <> None -> index_step cfg (st, rs) (st, <[i := Stamped (dl_mtime st)]> rs)
| index_load st rs i m entries :
    rs !! i = Some (Stamped m) -> load_dead_letter_entries cfg st = Ok entries ->
    index_step cfg (st, rs) (st, <[i := Built m (index_of entries)]> rs)
| index_store st rs i m idx :
    rs !! i = Some (Built m idx) ->
    index_step cfg (st, rs) (DLState (dl_file st) (dl_mtime st) (Some (m, idx)), delete i rs)
| index_save st rs entries mtime :
    (** A save gives the file a later modification time. *)
    dl_mtime st < mtime ->
    index_step cfg (st, rs) ((save_dead_letter_entries (Some mtime) entries st).2, rs)
| index_foreign_save st rs entries mtime :
    (** Another process saves: this one's cache is not dropped. *)
    dl_mtime st < mtime ->
    index_step cfg (st, rs) (DLState (Some entries) mtime (dl_cache st), rs).

Definition stamp_ok (cfg : dl_config) (st : dl_state) (m : Z) (idx : dict (string * string) dl_entry) : Prop :=
  m <= dl_mtime st /\
  (m = dl_mtime st -> exists entries, load_dead_letter_entries cfg st = Ok entries /\ idx = index_of entries).

Definition index_inv (cfg : dl_config) (x : dl_state * gmap nat reader) : Prop :=
  (forall m idx, dl_cache x.1 = Some (m, idx) -> stamp_ok cfg x.1 m idx) /\
  (forall i r, x.2 !! i = Some r ->
    match r with
    | Stamped m => m <= dl_mtime x.1
    | Built m idx => stamp_ok cfg x.1 m idx
    end).

Lemma stamp_later cfg st st' m idx : stamp_ok cfg st m idx -> dl_mtime st < dl_mtime st' -> stamp_ok cfg st' m idx.
Proof. intros [Hle _] Hlt. split; [lia|]. intros ->. lia. Qed.

Lemma index_inv_step cfg x x' : index_step cfg x x' -> index_inv cfg x -> index_inv cfg x'.
Proof.
  intros Hs [Hc Hr]. destruct Hs as [st rs i Hf|st rs i m entries Hi Hl|st rs i m idx Hi|st rs entries mtime Hlt|st rs entries mtime Hlt];
    simpl in *; split; simpl.
  - done.
  - intros j r Hj. rewrite lookup_insert in Hj. case_decide; [simplify_eq; lia|by apply (Hr j)].
  - done.
  - intros j r Hj. rewrite lookup_insert in Hj. case_decide; [|by apply (Hr j)]. simplify_eq.
    split; [exact (Hr _ _ Hi)|]. intros _. eauto.
  - intros m' idx' [= -> ->]. exact (Hr _ _ Hi).
  - intros j r Hj. apply lookup_delete_Some in Hj as [_ Hj]. exact (Hr _ _ Hj).
  - done.
  - intros j r Hj. specialize (Hr _ _ Hj). destruct r; [lia|by eapply stamp_later].
  - intros m' idx' Hx. eapply stamp_later; [by apply Hc|done].
  - intros j r Hj. specialize (Hr _ _ Hj). destruct r; [lia|by eapply stamp_later].
Qed.

(** The cached index is never stale: however readers, saves of this process and
    saves of others interleave, an index served for the current modification time is
    the index of the current sidecar, provided every save advances that time. *)
Theorem cached_index_coherent cfg st rs entries0 mtime0 idx st' :
  rtc (index_step cfg) (DLState (Some entries0) mtime0 None, ∅) (st, rs) ->
  dead_letter_index cfg st = Ok (idx, st') ->
  exists entries, load_dead_letter_entries cfg st = Ok entries /\ idx = index_of entries.
Proof.
  intros Hs Hi.
  assert (index_inv cfg (st, rs)) as [Hc _].
  { eapply (rtc_invariant (index_step cfg)); [apply index_inv_step| |exact Hs]. split; [done|]. intros i r Hr. exact (False_ind _ (lookup_empty_Some i r Hr)). }
  assert (dl_file st <> None) as Hf.
  { assert (dl_file (st, rs).1 <> None); [|done].
    refine (rtc_invariant (index_step cfg) (fun x => dl_file x.1 <> None) _ _ _ _ Hs); [|discriminate].
    intros y y' Hst Hf. by destruct Hst. }
  apply (index_coherent cfg st idx st'); [|done|done].
  intros idx' Hx _. by apply (Hc _ _ Hx).
Qed.

(** ** Two things the cap does *)

Definition demo_cfg : dl_config := DLConfig [3600; 21600] [21600].

Definition cooling (i : string) : dl_entry :=
  DLEntry (Some "ingest") (Some i) (Some 5) (Some "boom") (Some 10) (Some 10) (Some 1) (Some false) (Some false)
    (Some 3610) None.

(** The cap also evicts what is still cooling down, and can drop the entry it
    just recorded: with the cap full of live cooldowns the oldest of them is
    dropped, and a job that turns terminal then is reported as stored but is not in
    the sidecar. *)
Theorem cap_drops_live_and_stored :
  (exists e st', upsert_queue_dead_letter demo_cfg "ingest" "/c" 5 "boom" false 20 2 (Some 2)
      (DLState (Some [cooling "/a"; cooling "/b"]) 1 None) = Ok (Some e, st') /\
    dl_file st' = Some [cooling "/b"; e]) /\
  (exists e st' prior, e_cycle prior = Some 2 /\
    upsert_queue_dead_letter demo_cfg "ingest" "/c" 5 "boom" false 20 2 (Some 2)
      (DLState (Some [cooling "/a"; prior; cooling "/b"]) 1 None) = Ok (Some e, st') /\
    e_terminal e = Some true /\ dl_file st' = Some [cooling "/a"; cooling "/b"]).
Proof.
  split.
  - eexists _, _. split; [vm_compute; reflexivity|reflexivity].
  - eexists _, _, (DLEntry (Some "ingest") (Some "/c") (Some 5) (Some "boom") (Some 10) (Some 10) (Some 2) (Some false)
      (Some false) (Some 3610) None).
    split; [reflexivity|]. split; [vm_compute; reflexivity|]. split; reflexivity.
Qed.

(** ** Concrete instances *)

Lemma dead_letter_lifecycle_witness :
  exists e mtime, give_ups demo_cfg "ingest" "/c" 5 "boom" false 5000 [(10, 1); (4000, 2); (30000, 3)]
      (DLState (Some [cooling "/a"]) 0 None) =
    Ok (Some e, DLState (Some [cooling "/a"; e]) mtime None) /\
    e_cycle e = Some 3 /\ (forall ts, entry_blocked ts e = true).
Proof.
  apply (dead_letter_lifecycle demo_cfg "ingest" "/c" 5 "boom" false 5000 [cooling "/a"] [(10, 1); (4000, 2)]
    (DLState (Some [cooling "/a"]) 0 None) 30000 3).
  - repeat constructor. by eexists.
  - intros e ->%list_elem_of_singleton. reflexivity.
  - vm_compute. reflexivity.
  - reflexivity.
Defined.

Lemma due_readmissions_spec_witness :
  let st := DLState (Some [cooling "/a"]) 1 None in
  exists entries all, load_dead_letter_entries demo_cfg st = Ok entries /\
    all ≡ₚ filter (fun e => entry_due 5000 e = true) (dict_values (index_of entries)) /\
    StronglySorted (fun a b => due_at a <= due_at b) all /\
    [cooling "/a"] = take (Z.to_nat (Z.max 0 500)) all /\
    (forall e, e ∈ [cooling "/a"] -> entry_blocked 5000 e = false).
Proof.
  intros st. apply (due_readmissions_spec demo_cfg "/archive" 5000 500 st [cooling "/a"]
    (DLState (Some [cooling "/a"]) 1 (Some (1, index_of [cooling "/a"])))).
  - discriminate.
  - intros idx Hx. discriminate Hx.
  - discriminate.
  - vm_compute. reflexivity.
Defined.

Lemma readmitted_once_witness :
  let st1 := DLState (Some [with_readmitted 5000 (cooling "/a"); cooling "/b"]) 2 None in
  mark_dead_letters_readmitted demo_cfg [("ingest", "/a")] 5000 (Some 2)
    (DLState (Some [cooling "/a"; cooling "/b"]) 1 None) = Ok (true, st1) /\
  (forall e k, e ∈ [cooling "/b"] -> k ∈ [("ingest", "/a")] -> has_key k e = true -> 5000 < due_at e).
Proof.
  intros st1. split; [vm_compute; reflexivity|].
  apply (readmitted_once demo_cfg "/archive" [("ingest", "/a")] 5000 2 (DLState (Some [cooling "/a"; cooling "/b"]) 1 None)
    st1 9000 500 [cooling "/b"]
    (DLState (dl_file st1) 2 (Some (2, index_of [with_readmitted 5000 (cooling "/a"); cooling "/b"])))).
  - discriminate.
  - lia.
  - discriminate.
  - vm_compute. reflexivity.
  - vm_compute. reflexivity.
Defined.

Lemma trim_spec_witness :
  Z.of_nat (length (trim_dead_letters 1 [cooling "/a"; cooling "/b"])) <= 1 /\
  (Z.of_nat (length (filter live [cooling "/a"; cooling "/b"])) <= 1 ->
   filter live (trim_dead_letters 1 [cooling "/a"; cooling "/b"]) = filter live [cooling "/a"; cooling "/b"]).
Proof. apply (trim_spec 1). lia. Defined.

Lemma cached_index_coherent_witness :
  let st := DLState (Some [cooling "/a"]) 1 (Some (1, index_of [cooling "/a"])) in
  exists entries, load_dead_letter_entries demo_cfg st = Ok entries /\ index_of [cooling "/a"] = index_of entries.
Proof.
  intros st. apply (cached_index_coherent demo_cfg st
    (delete 0%nat (<[0%nat := Built 1 (index_of [cooling "/a"])]> (<[0%nat := Stamped 1]> ∅))) [cooling "/a"] 1 _ st); [|vm_compute; reflexivity].
  eapply rtc_l; [apply (index_stat demo_cfg (DLState (Some [cooling "/a"]) 1 None) ∅ 0); discriminate|].
  eapply rtc_l; [apply (index_load demo_cfg _ _ 0 1 [cooling "/a"]); reflexivity|].
  apply rtc_once. apply (index_store demo_cfg (DLState (Some [cooling "/a"]) 1 None)
    (<[0%nat := Built 1 (index_of [cooling "/a"])]> (<[0%nat := Stamped 1]> ∅)) 0 1 (index_of [cooling "/a"])).
  reflexivity.
Defined.
