(* ===== verification/CloneAppend.v ===== *)
(** Appending to a daily tar: [dbload/lib/sync_timedb_tar_clone_append.py].

    The functions are executable: from the files they find they compute the system
    calls they make, as a list of [action]s, and their result.  [run] applies
    actions to the [disk].  Which member can be cloned, and which copy or clone
    fails, is part of the input ([source]); hashing, the walk over member headers and
    the header encoder of the standard library are parameters.

    Durability is modelled: a write makes everything from its offset on volatile
    until the next [Fsync]; [survives] relates a disk to what a crash can leave of
    it.  A journal replaced or removed through [_write_durable] / [_remove_durable]
    is one action. *)
From S2P Require Import Prelude PyStr PosixPath.
From Stdlib Require Import Strings.Byte.
Local Open Scope nat_scope.

Definition BLOCK : nat := 512.
Definition ALIGN : nat := 4096.
Definition TAR_EOF : list byte := replicate (2 * BLOCK) x00.
Definition JOURNAL_SUFFIX : string := ".append_journal".
Definition TAIL_HASH_BYTES : nat := 4096.
Definition ZERO_TAIL_MAX : Z := Z.shiftl 1 20.
Definition ALIGN_PAD_MAX_TRIES : nat := 16.
#[global] Arguments TAR_EOF : simpl never.
#[global] Arguments BLOCK : simpl never.
#[global] Arguments ALIGN : simpl never.

Definition journal_path (tar_path : string) : string := tar_path +:+ JOURNAL_SUFFIX.

(** [-x % m]. *)
Definition neg_mod (x m : nat) : nat := (m - x mod m) mod m.
#[global] Arguments neg_mod : simpl never.

(** ** Files *)

(** A tar: its (device, inode), its bytes, and how much of it would survive a
    crash: all of it ([None]), or a prefix. *)
Record tar_file := TarFile { t_id : Z * Z; t_bytes : list byte; t_stable : option nat }.

Record journal := Journal { j_old_end : nat; j_old_size : nat; j_id : Z * Z; j_tail : string }.

Inductive journal_file := JournalOk (j : journal) | JournalUnreadable.

Record disk := Disk { d_tar : option tar_file; d_journal : option journal_file }.

Definition pwrite (data : list byte) (off : nat) (f : list byte) : list byte :=
  match data with
  | [] => f
  | _ => take off f ++ replicate (off - length f) x00 ++ data ++ drop (off + length data) f
  end.

Definition ftruncate (n : nat) (f : list byte) : list byte := take n f ++ replicate (n - length f) x00.

#[global] Arguments pwrite : simpl never.
#[global] Arguments ftruncate : simpl never.

(** The durable prefix after a change from [off] on. *)
Definition unstable_from (off : nat) (f : tar_file) : option nat :=
  Some (min off (default (length (t_bytes f)) (t_stable f))).

(** ** System calls *)

Inductive action :=
| Pwrite (data : list byte) (off : nat)
| Ftruncate (n : nat)
| Fsync
| PutJournal (j : journal)
| DropJournal
| SetAsideJournal
| LinkTar (id : Z * Z) (bytes : list byte).

Definition on_tar (g : tar_file -> tar_file) (d : disk) : disk := Disk (g <$> d_tar d) (d_journal d).

Definition run_action (d : disk) (a : action) : disk :=
  match a with
  | Pwrite data off => on_tar (fun f => TarFile (t_id f) (pwrite data off (t_bytes f)) (unstable_from off f)) d
  | Ftruncate n => on_tar (fun f => TarFile (t_id f) (ftruncate n (t_bytes f)) (unstable_from n f)) d
  | Fsync => on_tar (fun f => TarFile (t_id f) (t_bytes f) None) d
  | PutJournal j => Disk (d_tar d) (Some (JournalOk j))
  | DropJournal | SetAsideJournal => Disk (d_tar d) None
  | LinkTar id bytes => Disk (Some (TarFile id bytes None)) (d_journal d)
  end.

Definition run (d : disk) (acts : list action) : disk := foldl run_action d acts.

(** What a crash can leave. *)
Definition survives (d d' : disk) : Prop :=
  d_journal d' = d_journal d /\
  match d_tar d, d_tar d' with
  | Some f, Some f' =>
      t_id f' = t_id f /\ t_stable f' = None /\
      match t_stable f with
      | None => t_bytes f' = t_bytes f
      | Some k => take k (t_bytes f') = take k (t_bytes f) /\ k <= length (t_bytes f')
      end
  | None, None => True
  | _, _ => False
  end.

(** ** Member data *)

Record stat_result := Stat { st_size : nat; st_mode : Z; st_uid : Z; st_gid : Z; st_mtime : Z }.

(** What [FICLONERANGE] and [dd] do for a member. *)
Inductive clone_outcome := CloneOk | CloneUnsupported | CloneError (e : py_exn).
Inductive copy_outcome := CopyOk | CopyError (written : nat) (e : py_exn).

(** An opened regular file. *)
Record source := Source {
  src_path : string;
  src_stat : stat_result;
  src_bytes : list byte;
  src_clone : clone_outcome;
  src_copy : copy_outcome;
}.

(** What opening a path finds. *)
Inductive opened := Vanished | NotRegular | Opened (s : source).

(** [_open_sources]. *)
Definition open_sources (paths : list opened) : list source :=
  omap (fun o => match o with Opened s => Some s | _ => None end) paths.

(** The fields of [tarfile.TarInfo] the header is built from. *)
Record TarInfo := {
  ti_name : string;
  ti_size : nat;
  ti_mode : Z;
  ti_uid : Z;
  ti_gid : Z;
  ti_uname : string;
  ti_gname : string;
  ti_mtime : Z;
  ti_comment : nat;
}.

Record CloneAppendResult := {
  appended : nat;
  cloned : nat;
  copied : nat;
  skipped : nat;
  old_end : nat;
  new_size : nat;
}.

Section append.
(** [hashlib.sha256(...).hexdigest()]. *)
Variable sha256 : list byte -> string.
(** The walk of [tarfile] over the members of a non-empty archive: the offset
    of the first end-of-archive block, or [TarError]. *)
Variable tar_walk : list byte -> result nat.
(** [TarInfo.tobuf] with [PAX_FORMAT]; the comment is that many dots. *)
Variable tobuf : TarInfo -> list byte.
(** [pwd] and [grp] names, [None] for an unknown id. *)
Variable owner_entry : string -> Z -> option string.

Definition tail_sha256 (f : list byte) (e : nat) : string :=
  let start := e - TAIL_HASH_BYTES in
  sha256 (take (e - start) (drop start f)).

Definition logical_end (f : list byte) : result nat :=
  match f with
  | [] => Ok 0
  | _ => tar_walk f
  end.

Definition owner_name (kind : string) (ident : Z) : string := str_or_empty (owner_entry kind ident).

(** The alignment loop of [build_member_header]. *)
Fixpoint align_header (tries : nat) (info : nat -> TarInfo) (offset pad : nat) : result (list byte) :=
  match tries with
  | O => Raise RuntimeError
  | S tries =>
      let hdr := tobuf (info pad) in
      let need := neg_mod (offset + length hdr) ALIGN in
      if need =? 0 then Ok hdr else align_header tries info offset (pad + need)
  end.

Definition build_member_header (name : string) (st : stat_result) (offset : nat) : result (list byte) :=
  align_header ALIGN_PAD_MAX_TRIES
    (fun pad => {| ti_name := name; ti_size := st_size st; ti_mode := Z.land (st_mode st) 4095;
                   ti_uid := st_uid st; ti_gid := st_gid st;
                   ti_uname := owner_name "u" (st_uid st); ti_gname := owner_name "g" (st_gid st);
                   ti_mtime := st_mtime st; ti_comment := pad |}) offset 0.

(** [_copy_range]. *)
Definition copy_range (s : source) (off : nat) : list action * result unit :=
  match src_copy s with
  | CopyOk => ([Pwrite (take (st_size (src_stat s)) (src_bytes s)) off], Ok ())
  | CopyError n e => ([Pwrite (take n (src_bytes s)) off], Raise e)
  end.

(** The data of one member: the actions, and [(can_clone, cloned, copied)]. *)
Definition write_data (can_clone : bool) (s : source) (off : nat) : list action * result (bool * nat * nat) :=
  if st_size (src_stat s) =? 0 then ([], Ok (can_clone, 0, 0))
  else
    let copy := let '(acts, r) := copy_range s off in (acts, _ ← r; Ok (false, 0, 1)) in
    if can_clone then
      match src_clone s with
      | CloneOk => ([Pwrite (src_bytes s) off], Ok (true, 1, 0))
      | CloneError e => ([], Raise e)
      | CloneUnsupported => copy
      end
    else copy.

(** The loop of [_write_members]: [(new_size, cloned, copied)]. *)
Fixpoint write_members (can_clone : bool) (offset n_cloned n_copied : nat) (sources : list source)
    : list action * result (nat * nat * nat) :=
  match sources with
  | [] => ([Pwrite TAR_EOF offset; Ftruncate (offset + length TAR_EOF)],
           Ok (offset + length TAR_EOF, n_cloned, n_copied))
  | s :: rest =>
      match build_member_header (lstrip_slash (src_path s)) (src_stat s) offset with
      | Raise e => ([], Raise e)
      | Ok hdr =>
          let data_off := offset + length hdr in
          let '(data, r) := write_data can_clone s data_off in
          match r with
          | Raise e => (Pwrite hdr offset :: data, Raise e)
          | Ok (can_clone, c, k) =>
              let end_ := data_off + st_size (src_stat s) in
              let offset' := end_ + neg_mod end_ BLOCK in
              let pad := if end_ <? offset' then [Pwrite (replicate (offset' - end_) x00) end_] else [] in
              let '(acts, r) := write_members can_clone offset' (n_cloned + c) (n_copied + k) rest in
              (Pwrite hdr offset :: data ++ pad ++ acts, r)
          end
      end
  end.

(** ** Recovery *)

Definition zero_tail (f : list byte) (start : nat) : bool :=
  (Z.of_nat (length f - start) <=? ZERO_TAIL_MAX)%Z && forallb (fun b => Byte.eqb b x00) (drop start f).

Definition restore_old_end (old_end old_size : nat) : list action :=
  [Ftruncate old_end; (if old_end <? old_size then Ftruncate old_size else Pwrite TAR_EOF old_end); Fsync].

(** The journal describes this tar. *)
Definition journal_matches (j : journal) (f : tar_file) : bool :=
  bool_decide (t_id f = j_id j) && (j_old_end j <=? length (t_bytes f)) &&
  bool_decide (tail_sha256 (t_bytes f) (j_old_end j) = j_tail j).

Definition recover_interrupted_append (d : disk) : string * list action :=
  match d_journal d with
  | None => ("none", [])
  | Some JournalUnreadable => ("corrupt", [SetAsideJournal])
  | Some (JournalOk j) =>
      match d_tar d with
      | None => ("orphan", [DropJournal])
      | Some f =>
          if journal_matches j f
          then ("recovered", restore_old_end (j_old_end j) (j_old_size j) ++ [DropJournal])
          else ("stale", [DropJournal])
      end
  end.

Definition recover (d : disk) : disk := run d (recover_interrupted_append d).2.

(** The loop body of [recover_all_interrupted_appends] for one tar: [busy] tells
    whose write lock is held elsewhere or whose recovery raises. *)
Definition recover_step (busy : string -> bool) (tars : gmap string disk)
    (acc : nat * gmap string disk) (name : string) : nat * gmap string disk :=
  match tars !! name with
  | Some d =>
      if busy name || bool_decide (d_journal d = None) then acc else (S acc.1, <[name := recover d]> acc.2)
  | None => acc
  end.

(** [recover_all_interrupted_appends] over the tars of a directory, by their [.tar]
    path, in the order of the journals' names. *)
Definition recover_all_interrupted_appends (busy : string -> bool) (tars : gmap string disk)
    : nat * gmap string disk :=
  foldl (recover_step busy tars) (0, tars)
    (merge_sort (fun a b => String.le (journal_path a) (journal_path b)) (map_to_list tars).*1).

(** ** Appending *)

(** [_CLONE_CAPABLE] after an append; [None] when a [stat] failed. *)
Definition note_clone_capability (devices : option (Z * Z)) (n_cloned n_copied : nat) (cache : gmap (Z * Z) bool)
    : gmap (Z * Z) bool :=
  if (n_cloned =? 0) && (n_copied =? 0) then cache
  else match devices with
       | Some key => <[key := (n_copied =? 0)]> cache
       | None => cache
       end.

(** [clone_capable]: [probe] is the outcome of [_probe_clone]. *)
Definition clone_capable (devices : option (Z * Z)) (probe : bool) (cache : gmap (Z * Z) bool)
    : bool * gmap (Z * Z) bool :=
  match devices with
  | None => (false, cache)
  | Some (src_dev, dir_dev) =>
      if negb (src_dev =? dir_dev)%Z then (false, cache)
      else match cache !! (src_dev, dir_dev) with
           | Some b => (b, cache)
           | None => (probe, <[(src_dev, dir_dev) := probe]> cache)
           end
  end.

Definition append_journal (f : tar_file) (e : nat) : journal :=
  Journal e (if zero_tail (t_bytes f) e then length (t_bytes f) else 0) (t_id f) (tail_sha256 (t_bytes f) e).

(** The part of [clone_append] after the journal was chosen: journal, write, commit or
    roll back. *)
Definition append_actions (j : journal) (written : list action * result (nat * nat * nat)) : list action :=
  PutJournal j :: Ftruncate (j_old_end j) :: written.1 ++
  match written.2 with
  | Ok _ => [Fsync; DropJournal]
  | Raise _ => restore_old_end (j_old_end j) (j_old_size j) ++ [DropJournal]
  end.

(** [clone_append]: the system calls, the result, and the clone-capability cache.
    [new_id] is the identity a newly created tar gets. *)
Definition clone_append (devices : option (Z * Z)) (new_id : Z * Z) (cache : gmap (Z * Z) bool)
    (paths : list opened) (d : disk) : list action * result CloneAppendResult * gmap (Z * Z) bool :=
  let sources := open_sources paths in
  let skip := length paths - length sources in
  match sources with
  | [] => ([], Ok {| appended := 0; cloned := 0; copied := 0; skipped := skip; old_end := 0; new_size := 0 |}, cache)
  | _ =>
      let rec := (recover_interrupted_append d).2 in
      match d_tar (run d rec) with
      | None =>
          let '(acts, r) := write_members true 0 0 0 sources in
          match r with
          | Raise e => (rec, Raise e, cache)
          | Ok (size, c, k) =>
              let bytes := default [] (t_bytes <$> d_tar (run (Disk (Some (TarFile new_id [] None)) None) acts)) in
              (rec ++ [LinkTar new_id bytes],
               Ok {| appended := length sources; cloned := c; copied := k; skipped := skip;
                     old_end := 0; new_size := size |},
               note_clone_capability devices c k cache)
          end
      | Some f =>
          match logical_end (t_bytes f) with
          | Raise e => (rec, Raise e, cache)
          | Ok e =>
              let written := write_members true e 0 0 sources in
              (rec ++ append_actions (append_journal f e) written,
               match written.2 with
               | Raise ex => Raise ex
               | Ok (size, c, k) =>
                   Ok {| appended := length sources; cloned := c; copied := k; skipped := skip;
                         old_end := e; new_size := size |}
               end,
               match written.2 with
               | Raise _ => cache
               | Ok (_, c, k) => note_clone_capability devices c k cache
               end)
          end
      end
  end.
End append.
