(* ===== verification/CloneAppendSpec.v ===== *)
(** What the clone append promises: a crash at any instruction loses nothing, a
    failed append is undone, a journal of another tar touches nothing, and a
    committed append lays the members out aligned and in order. *)
From S2P Require Import Prelude PyStr PosixPath CloneAppend.
From Stdlib Require Import Strings.Byte.
Local Open Scope nat_scope.

(** ** Bytes *)

Lemma length_pwrite data off f : off + length data <= length (pwrite data off f) \/ data = [].
Proof. destruct data as [|b data]; [by right|left]. unfold pwrite. rewrite !length_app, length_take, length_replicate. lia. Qed.

Lemma take_pwrite e data off f :
  e <= off -> e <= length f -> take e (pwrite data off f) = take e f /\ e <= length (pwrite data off f).
Proof.
  intros He Hf. destruct data as [|b data]; [done|]. unfold pwrite. split.
  - rewrite take_app_le by (rewrite length_take; lia). rewrite take_take. f_equal. lia.
  - rewrite !length_app, length_take, length_replicate. lia.
Qed.

Lemma take_ftruncate e n f :
  e <= n -> e <= length f -> take e (ftruncate n f) = take e f /\ e <= length (ftruncate n f).
Proof.
  intros He Hf. unfold ftruncate. split.
  - rewrite take_app_le by (rewrite length_take; lia). rewrite take_take. f_equal. lia.
  - rewrite length_app, length_take, length_replicate. lia.
Qed.

Lemma pwrite_end data f : pwrite data (length f) f = f ++ data.
Proof.
  destruct data as [|b data]; [by rewrite app_nil_r|]. unfold pwrite.
  rewrite take_ge by lia. rewrite Nat.sub_diag. rewrite (drop_ge f) by lia. by rewrite app_nil_r.
Qed.

Lemma ftruncate_below n f : n <= length f -> ftruncate n f = take n f.
Proof. intros Hn. unfold ftruncate. replace (n - length f) with 0 by lia. apply app_nil_r. Qed.

Lemma ftruncate_above n f : length f <= n -> ftruncate n f = f ++ replicate (n - length f) x00.
Proof. intros Hn. unfold ftruncate. by rewrite take_ge. Qed.

Lemma neg_mod_zero x m : 0 < m -> neg_mod x m = 0 -> x mod m = 0.
Proof.
  intros Hm. unfold neg_mod. pose proof (Nat.mod_upper_bound x m). intros Hz.
  destruct (decide (x mod m = 0)); [done|]. rewrite Nat.mod_small in Hz by lia. lia.
Qed.

Lemma neg_mod_align x m : 0 < m -> (x + neg_mod x m) mod m = 0.
Proof.
  intros Hm. unfold neg_mod. rewrite <- Nat.Div0.add_mod_idemp_l, Nat.Div0.add_mod_idemp_r.
  pose proof (Nat.mod_upper_bound x m). replace (x mod m + (m - x mod m)) with m by lia. apply Nat.Div0.mod_same.
Qed.

(** ** Actions that stay above an offset *)

Definition above (e : nat) (a : action) : Prop :=
  match a with
  | Pwrite _ off => e <= off
  | Ftruncate n => e <= n
  | Fsync => True
  | _ => False
  end.

Lemma above_weaken e e' a : e <= e' -> above e' a -> above e a.
Proof. destruct a; simpl; lia || done. Qed.

(** Actions on the bytes alone. *)
Definition bytes_action (f : list byte) (a : action) : list byte :=
  match a with
  | Pwrite data off => pwrite data off f
  | Ftruncate n => ftruncate n f
  | _ => f
  end.

Definition run_bytes (f : list byte) (acts : list action) : list byte := foldl bytes_action f acts.

Lemma run_above e acts id b st j :
  Forall (above e) acts ->
  exists st', run (Disk (Some (TarFile id b st)) j) acts = Disk (Some (TarFile id (run_bytes b acts) st')) j.
Proof.
  intros Ha. revert b st. induction Ha as [|a acts Ha _ IH]; intros b st; simpl; [by eexists|].
  destruct a; simpl in Ha; try done; apply IH.
Qed.

Lemma run_app d l1 l2 : run d (l1 ++ l2) = run (run d l1) l2.
Proof. apply foldl_app. Qed.

Lemma length_omap_le (paths : list opened) : length (open_sources paths) <= length paths.
Proof. induction paths as [|o paths IH]; [done|]. unfold open_sources in *. cbn. destruct o; simpl; lia. Qed.

(** ** A journalled tar *)

(** The journal is on disk, and the tar still holds the bytes below the old end,
    safe from a crash. *)
Record journaled (b : list byte) (j : journal) (d : disk) : Prop := {
  jd_journal : d_journal d = Some (JournalOk j);
  jd_tar : exists f, d_tar d = Some f /\ t_id f = j_id j /\
    take (j_old_end j) (t_bytes f) = take (j_old_end j) b /\
    j_old_end j <= length (t_bytes f) /\
    j_old_end j <= default (length (t_bytes f)) (t_stable f);
}.

Lemma journaled_action b j a d : above (j_old_end j) a -> journaled b j d -> journaled b j (run_action d a).
Proof.
  intros Ha [Hj (f & Hf & Hid & Ht & Hl & Hs)]. destruct a as [data off|n| | | | |]; simpl in Ha; try done.
  - constructor; [done|]. simpl. rewrite Hf. eexists. split; [reflexivity|]. simpl.
    destruct (take_pwrite (j_old_end j) data off (t_bytes f) Ha Hl) as [E1 E2].
    split_and!; [done|congruence|done|]. unfold unstable_from; simpl. lia.
  - constructor; [done|]. simpl. rewrite Hf. eexists. split; [reflexivity|]. simpl.
    destruct (take_ftruncate (j_old_end j) n (t_bytes f) Ha Hl) as [E1 E2].
    split_and!; [done|congruence|done|]. unfold unstable_from; simpl. lia.
  - constructor; [done|]. simpl. rewrite Hf. eexists. split; [reflexivity|]. simpl. by split_and!.
Qed.

Lemma journaled_run b j acts d : Forall (above (j_old_end j)) acts -> journaled b j d -> journaled b j (run d acts).
Proof.
  intros Ha. revert d. induction Ha as [|a acts Ha _ IH]; intros d Hd; [done|]. by apply IH, journaled_action.
Qed.

Lemma journaled_survives b j d d' : journaled b j d -> survives d d' -> journaled b j d'.
Proof.
  intros [Hj (f & Hf & Hid & Ht & Hl & Hs)] [Ej Et]. rewrite Hf in Et.
  destruct (d_tar d') as [f'|] eqn:Hf'; [|done]. destruct Et as (Eid & Est & Eb).
  constructor; [congruence|]. exists f'. rewrite Est. cbn [default].
  destruct (t_stable f) as [k|] eqn:Ek.
  - destruct Eb as [Eb Elen]. simpl in Hs. split_and!; try done; try congruence; try (cbn; lia).
    rewrite <- Ht. replace (j_old_end j) with (min (j_old_end j) k) by lia.
    by rewrite <- !take_take, Eb.
  - rewrite Eb. by split_and!; try congruence.
Qed.

(** ** Recovery *)

(** What a rollback leaves of the old bytes [b]. *)
Definition restored (j : journal) (b : list byte) : list byte :=
  if j_old_end j <? j_old_size j
  then take (j_old_end j) b ++ replicate (j_old_size j - j_old_end j) x00
  else take (j_old_end j) b ++ TAR_EOF.

Lemma restore_above j : Forall (above (j_old_end j)) (restore_old_end (j_old_end j) (j_old_size j)).
Proof.
  unfold restore_old_end. apply Forall_cons; split; [simpl; lia|]. apply Forall_cons; split; [|by repeat constructor].
  destruct (Nat.ltb_spec (j_old_end j) (j_old_size j)); simpl; lia.
Qed.

Lemma run_restore b j d :
  journaled b j d ->
  run d (restore_old_end (j_old_end j) (j_old_size j)) =
    Disk (Some (TarFile (j_id j) (restored j b) None)) (Some (JournalOk j)).
Proof.
  intros [Hj (f & Hf & Hid & Ht & Hl & Hs)]. destruct d as [tar jr]; simpl in *. subst tar jr.
  destruct f as [id bytes st]; simpl in *. subst id. unfold restore_old_end, restored.
  assert (length (take (j_old_end j) b) = j_old_end j) as El by (rewrite <- Ht, length_take; lia).
  destruct (Nat.ltb_spec (j_old_end j) (j_old_size j)); simpl; unfold on_tar; simpl;
    rewrite (ftruncate_below (j_old_end j) bytes) by done; rewrite Ht.
  - rewrite ftruncate_above by lia. by rewrite El.
  - pose proof (pwrite_end TAR_EOF (take (j_old_end j) b)) as Hp. rewrite El in Hp. by rewrite Hp.
Qed.

Section crash.
Variable sha256 : list byte -> string.
Variable tar_walk : list byte -> result nat.
Variable tobuf : TarInfo -> list byte.
Variable owner_entry : string -> Z -> option string.

Abbreviation recover_plan := (recover_interrupted_append sha256).
Abbreviation recovered := (recover sha256).

Lemma tail_sha256_prefix e f g : take e f = take e g -> tail_sha256 sha256 f e = tail_sha256 sha256 g e.
Proof.
  intros E. unfold tail_sha256. f_equal.
  assert (forall l : list byte, take (e - (e - TAIL_HASH_BYTES)) (drop (e - TAIL_HASH_BYTES) l) =
    drop (e - TAIL_HASH_BYTES) (take e l)) as Hc.
  { intros l. rewrite take_drop_commute. f_equal. f_equal. lia. }
  by rewrite !Hc, E.
Qed.

(** The journal was made from the old bytes. *)
Definition journal_of (b : list byte) (j : journal) : Prop := j_tail j = tail_sha256 sha256 b (j_old_end j).

Lemma recover_plan_journaled b j d :
  journaled b j d -> journal_of b j ->
  recover_plan d = ("recovered", restore_old_end (j_old_end j) (j_old_size j) ++ [DropJournal]).
Proof.
  intros [Hj (f & Hf & Hid & Ht & Hl & Hs)] Hb. unfold recover_interrupted_append. rewrite Hj, Hf.
  assert (journal_matches sha256 j f = true) as ->; [|done].
  unfold journal_matches. rewrite !andb_true_iff, !bool_decide_eq_true, Nat.leb_le.
  split_and!; try done. by rewrite (tail_sha256_prefix _ _ _ Ht).
Qed.

Lemma recover_journaled b j d :
  journaled b j d -> journal_of b j ->
  recovered d = Disk (Some (TarFile (j_id j) (restored j b) None)) None.
Proof.
  intros Hd Hb. unfold recover. rewrite (recover_plan_journaled b j d Hd Hb). cbn [snd].
  rewrite run_app, (run_restore b j d Hd). done.
Qed.

(** A prefix of journal, guarded writes, removal. *)
Lemma run_prefix b j mid d n f :
  d_tar d = Some f -> t_bytes f = b -> t_id f = j_id j -> t_stable f = None -> j_old_end j <= length b ->
  Forall (above (j_old_end j)) mid ->
  let acts := PutJournal j :: mid ++ [DropJournal] in
  (n = 0 /\ run d (take n acts) = d) \/
  (n < length acts /\ journaled b j (run d (take n acts))) \/
  (length acts <= n /\ run d (take n acts) = run d acts).
Proof.
  intros Hf Hb Hid Hst Hl Hm acts. destruct n as [|n]; [by left|right].
  destruct (decide (length acts <= S n)) as [Hn|Hn]; [right; split; [done|by rewrite take_ge]|left].
  split; [lia|]. unfold acts in *. cbn [take]. cbn [length] in Hn. rewrite length_app in Hn. simpl in Hn.
  rewrite take_app_le by lia. change (journaled b j (run (run_action d (PutJournal j)) (take n mid))).
  apply journaled_run; [by apply Forall_take|].
  constructor; [done|]. exists f. simpl. rewrite Hst, Hb. cbn. by split_and!.
Qed.

(** ** The members *)

Lemma align_header_ok tries info off pad hdr :
  align_header tobuf tries info off pad = Ok hdr -> (off + length hdr) mod ALIGN = 0.
Proof.
  revert pad. induction tries as [|tries IH]; intros pad; cbn [align_header]; cbv zeta; [done|].
  destruct (Nat.eqb_spec (neg_mod (off + length (tobuf (info pad))) ALIGN) 0) as [E|]; [|apply IH].
  intros [= <-]. apply neg_mod_zero; [unfold ALIGN; lia|done].
Qed.

Lemma build_header_ok name st off hdr :
  build_member_header tobuf owner_entry name st off = Ok hdr -> (off + length hdr) mod ALIGN = 0.
Proof. apply align_header_ok. Qed.

Lemma write_data_above can s off acts r : write_data can s off = (acts, r) -> Forall (above off) acts.
Proof.
  unfold write_data, copy_range. destruct (_ =? 0); [intros [= <- <-]; constructor|].
  destruct can, (src_clone s), (src_copy s); intros [= <- <-]; repeat constructor; simpl; lia.
Qed.

Lemma write_members_above can off c k sources acts r :
  write_members tobuf owner_entry can off c k sources = (acts, r) -> Forall (above off) acts.
Proof.
  revert can off c k acts r. induction sources as [|s rest IH]; intros can off c k acts r; cbn [write_members].
  { intros [= <- <-]. repeat constructor; simpl; lia. }
  destruct (build_member_header _ _ _ _ off) as [hdr|]; [|intros [= <- <-]; constructor].
  destruct (write_data can s (off + length hdr)) as [data rd] eqn:Ed.
  apply write_data_above in Ed. assert (Forall (above off) data) as Ed'.
  { eapply Forall_impl; [exact Ed|]. intros a. apply above_weaken. lia. }
  destruct rd as [[[can' c'] k']|]; [|intros [= <- <-]; constructor; [simpl; lia|done]].
  set (e1 := off + length hdr + st_size (src_stat s)).
  destruct (write_members _ _ can' (e1 + neg_mod e1 BLOCK) _ _ rest) as [acts' r'] eqn:Ew.
  apply IH in Ew. intros [= <- <-]. constructor; [simpl; lia|]. rewrite !Forall_app. split_and!; [done| |].
  - case_match; repeat constructor. simpl. lia.
  - eapply Forall_impl; [exact Ew|]. intros a. apply above_weaken. lia.
Qed.

(** ** The layout of an archive's tail *)

(** What the bytes from an offset on must be: for each file its header, its
    content at an aligned offset, zeros up to the next block, then the end marker. *)
Inductive archive : nat -> list source -> list byte -> Prop :=
| archive_end off : archive off [] TAR_EOF
| archive_member off s rest hdr bytes :
    build_member_header tobuf owner_entry (lstrip_slash (src_path s)) (src_stat s) off = Ok hdr ->
    (off + length hdr) mod ALIGN = 0 ->
    (off + length hdr + length (src_bytes s) + neg_mod (off + length hdr + length (src_bytes s)) BLOCK) mod BLOCK = 0 ->
    archive (off + length hdr + length (src_bytes s) + neg_mod (off + length hdr + length (src_bytes s)) BLOCK)
      rest bytes ->
    archive off (s :: rest)
      (hdr ++ src_bytes s ++ replicate (neg_mod (off + length hdr + length (src_bytes s)) BLOCK) x00 ++ bytes).

Definition stat_agrees (s : source) : Prop := length (src_bytes s) = st_size (src_stat s).

Definition has_data (s : source) : bool := negb (st_size (src_stat s) =? 0).

Lemma run_bytes_app f l1 l2 : run_bytes f (l1 ++ l2) = run_bytes (run_bytes f l1) l2.
Proof. apply foldl_app. Qed.

Lemma write_data_spec can s f acts can' c k :
  stat_agrees s -> write_data can s (length f) = (acts, Ok (can', c, k)) ->
  run_bytes f acts = f ++ src_bytes s /\ c + k = Nat.b2n (has_data s).
Proof.
  unfold stat_agrees, write_data, has_data. intros Hs.
  destruct (Nat.eqb_spec (st_size (src_stat s)) 0) as [E|E].
  { intros [= <- <- <- <-]. rewrite E in Hs. apply length_zero_iff_nil in Hs. by rewrite Hs, app_nil_r. }
  unfold copy_range. destruct can, (src_clone s), (src_copy s); simpl; intros Hw; try discriminate Hw;
    injection Hw as <- <- <- <-; simpl; rewrite ?(take_ge (src_bytes s)) by lia; by rewrite pwrite_end.
Qed.

Lemma write_members_spec sources : forall can f c k acts size c' k',
  Forall stat_agrees sources ->
  write_members tobuf owner_entry can (length f) c k sources = (acts, Ok (size, c', k')) ->
  exists tail, archive (length f) sources tail /\ run_bytes f acts = f ++ tail /\
    size = length f + length tail /\ c' + k' = c + k + length (filter has_data sources).
Proof.
  induction sources as [|s rest IH]; intros can f c k acts size c' k' Hwf; cbn [write_members].
  { intros [= <- <- <- <-]. exists TAR_EOF. split; [constructor|]. cbn [run_bytes foldl bytes_action].
    assert (length f + 1024 = length (f ++ TAR_EOF)) as -> by by rewrite length_app.
    rewrite pwrite_end, ftruncate_below by lia. rewrite take_ge by lia.
    split_and!; [done|by rewrite length_app|simpl; lia]. }
  apply Forall_cons in Hwf as [Hs Hwf].
  destruct (build_member_header _ _ _ _ _) as [hdr|] eqn:Eh; [|done].
  destruct (write_data can s (length f + length hdr)) as [data rd] eqn:Ed.
  destruct rd as [[[can' dc] dk]|]; [|done]. rewrite <- Hs.
  set (e1 := length f + length hdr + length (src_bytes s)).
  destruct (write_members _ _ can' (e1 + neg_mod e1 BLOCK) _ _ rest) as [acts' r'] eqn:Ew.
  intros [= <- ->]. rewrite <- length_app in Ed. apply write_data_spec in Ed as [Ed Hck]; [|done].
  set (g := f ++ hdr ++ src_bytes s ++ replicate (neg_mod e1 BLOCK) x00).
  assert (length g = e1 + neg_mod e1 BLOCK) as Hg.
  { unfold g. rewrite !length_app, length_replicate. lia. }
  rewrite <- Hg in Ew. apply IH in Ew as (tail & Ha & Hr & Hsz & Hc'); [|done].
  exists (hdr ++ src_bytes s ++ replicate (neg_mod e1 BLOCK) x00 ++ tail). split_and!.
  - apply archive_member; [done|by eapply build_header_ok|apply neg_mod_align; unfold BLOCK; lia|].
    fold e1. by rewrite <- Hg.
  - transitivity (run_bytes g acts'); [|rewrite Hr; unfold g; by rewrite <- !app_assoc].
    unfold run_bytes in *. cbn [foldl bytes_action]. rewrite pwrite_end, !foldl_app, Ed. f_equal.
    destruct (Nat.ltb_spec e1 (e1 + neg_mod e1 BLOCK)).
    + simpl. replace (e1 + neg_mod e1 BLOCK - e1) with (neg_mod e1 BLOCK) by lia.
      replace e1 with (length ((f ++ hdr) ++ src_bytes s)) at 2 by (rewrite !length_app; lia).
      rewrite pwrite_end. unfold g. by rewrite <- !app_assoc.
    + assert (neg_mod e1 BLOCK = 0) as E0 by lia. unfold g. rewrite E0. simpl. by rewrite <- !app_assoc, app_nil_r.
  - rewrite Hsz, Hg, !length_app, length_replicate. lia.
  - rewrite filter_cons. destruct (decide (has_data s)) as [Hd|Hd].
    + apply Is_true_true in Hd. rewrite Hd in Hck. simpl in *. lia.
    + apply Is_true_false in Hd. rewrite Hd in Hck. simpl in *. lia.
Qed.

(** ** The append *)

(** The bytes after a rollback: the old ones when all that follows the members is
    zeros, else the members and a fresh end marker. *)
Definition rolled_back (f : list byte) (e : nat) : list byte :=
  if zero_tail f e && (e <? length f) then f else take e f ++ TAR_EOF.

Lemma forallb_zeros l : forallb (fun b => Byte.eqb b x00) l = true -> l = replicate (length l) x00.
Proof.
  induction l as [|b l IH]; simpl; [done|]. rewrite andb_true_iff. intros [Hb Hl].
  apply Byte.byte_dec_bl in Hb as ->. by rewrite <- IH.
Qed.

Lemma restored_rolled_back f e :
  e <= length (t_bytes f) -> restored (append_journal sha256 f e) (t_bytes f) = rolled_back (t_bytes f) e.
Proof.
  intros He. unfold restored, rolled_back, append_journal. simpl.
  destruct (zero_tail (t_bytes f) e) eqn:Ez; simpl; [|done].
  destruct (e <? length (t_bytes f)); [|done]. unfold zero_tail in Ez.
  apply andb_true_iff in Ez as [_ Ez]. apply forallb_zeros in Ez. rewrite length_drop in Ez.
  by rewrite <- Ez, take_drop.
Qed.

Lemma journal_of_append f e : journal_of (t_bytes f) (append_journal sha256 f e).
Proof. done. Qed.

(** What [append_actions] does between the journal's creation and its removal. *)
Definition guarded (j : journal) (written : list action * result (nat * nat * nat)) : list action :=
  Ftruncate (j_old_end j) :: written.1 ++
  match written.2 with
  | Ok _ => [Fsync]
  | Raise _ => restore_old_end (j_old_end j) (j_old_size j)
  end.

Lemma append_actions_guarded j written : append_actions j written = PutJournal j :: guarded j written ++ [DropJournal].
Proof. unfold append_actions, guarded. simpl. rewrite <- app_assoc. by destruct (written.2). Qed.

Lemma guarded_above j can sources :
  Forall (above (j_old_end j)) (guarded j (write_members tobuf owner_entry can (j_old_end j) 0 0 sources)).
Proof.
  unfold guarded. destruct (write_members _ _ _ _ _ _ _) as [acts r] eqn:Ew. apply write_members_above in Ew.
  constructor; [simpl; lia|]. apply Forall_app. split; [done|]. simpl. destruct r; [by repeat constructor|].
  apply restore_above.
Qed.

Lemma run_append_failed d f e written ex :
  d_tar d = Some f -> t_stable f = None -> e <= length (t_bytes f) ->
  Forall (above e) written.1 -> written.2 = Raise ex ->
  run d (append_actions (append_journal sha256 f e) written) =
    Disk (Some (TarFile (t_id f) (rolled_back (t_bytes f) e) None)) None.
Proof.
  intros Hf Hst He Ha Hr. set (j := append_journal sha256 f e).
  assert (journaled (t_bytes f) j (run_action d (PutJournal j))) as Hj.
  { constructor; [done|]. exists f. simpl. rewrite Hst. by split_and!. }
  unfold append_actions. rewrite Hr. change (run ?d (?a :: ?l)) with (run (run_action d a) l).
  change (run ?d (?a :: ?l)) with (run (run_action d a) l). rewrite !run_app.
  rewrite (run_restore (t_bytes f) j); [|apply journaled_run; [done|apply journaled_action; [simpl; lia|done]]].
  unfold j. by rewrite (restored_rolled_back f e He).
Qed.

Lemma run_append_done d f e sources acts size c k :
  d_tar d = Some f -> e <= length (t_bytes f) -> Forall stat_agrees sources ->
  write_members tobuf owner_entry true e 0 0 sources = (acts, Ok (size, c, k)) ->
  exists tail, archive e sources tail /\ size = e + length tail /\ c + k = length (filter has_data sources) /\
    run d (append_actions (append_journal sha256 f e) (acts, Ok (size, c, k))) =
      Disk (Some (TarFile (t_id f) (take e (t_bytes f) ++ tail) None)) None.
Proof.
  intros Hf He Hwf Hw. pose proof (write_members_above _ _ _ _ _ _ _ Hw) as Ha.
  assert (length (take e (t_bytes f)) = e) as El by (rewrite length_take; lia). rewrite <- El in Hw.
  apply write_members_spec in Hw as (tail & Har & Hrun & Hsz & Hck); [|done]. rewrite El in *.
  exists tail. split_and!; [done|done|done|]. unfold append_actions. cbn [fst snd].
  change (run ?d (?a :: ?l)) with (run (run_action d a) l).
  change (run ?d (?a :: ?l)) with (run (run_action d a) l). set (j := append_journal sha256 f e).
  assert (run_action (run_action d (PutJournal j)) (Ftruncate (j_old_end j)) =
    Disk (Some (TarFile (t_id f) (take e (t_bytes f)) (unstable_from e f))) (Some (JournalOk j))) as ->.
  { simpl. rewrite Hf. unfold on_tar. simpl. by rewrite ftruncate_below. }
  rewrite run_app.
  destruct (run_above e acts (t_id f) (take e (t_bytes f)) (unstable_from e f) (Some (JournalOk j)) Ha) as [st' ->].
  by rewrite Hrun.
Qed.

Lemma recover_clean d f d' :
  d_tar d = Some f -> d_journal d = None -> t_stable f = None -> survives d d' -> recovered d' = d.
Proof.
  intros Hf Hj Hst [Ej Et]. rewrite Hf, Hst in Et. destruct d as [tar jr], d' as [[f'|] jr']; simpl in *; [|done].
  subst tar jr jr'. destruct Et as (Eid & Est & Eb). unfold recover, recover_interrupted_append. simpl.
  destruct f, f'; simpl in *. by subst.
Qed.

Lemma recover_settled id b d' :
  survives (Disk (Some (TarFile id b None)) None) d' -> recovered d' = Disk (Some (TarFile id b None)) None.
Proof. by apply recover_clean with (f := TarFile id b None). Qed.

(** The system calls of an append to an existing, recovered tar. *)
Lemma clone_append_existing devices new_id cache paths d f acts r cache' :
  d_journal d = None -> d_tar d = Some f ->
  clone_append sha256 tar_walk tobuf owner_entry devices new_id cache paths d = (acts, r, cache') ->
  acts = [] /\ (open_sources paths = [] \/ exists ex, logical_end tar_walk (t_bytes f) = Raise ex /\ r = Raise ex) \/
  exists e, logical_end tar_walk (t_bytes f) = Ok e /\ open_sources paths <> [] /\
    let written := write_members tobuf owner_entry true e 0 0 (open_sources paths) in
    acts = append_actions (append_journal sha256 f e) written /\
    match written.2 with
    | Raise ex => r = Raise ex
    | Ok (size, c, k) =>
        r = Ok {| appended := length (open_sources paths); cloned := c; copied := k;
                  skipped := length paths - length (open_sources paths); old_end := e; new_size := size |}
    end.
Proof.
  intros Hj Hf. unfold clone_append, recover_interrupted_append. rewrite Hj. cbn [snd run foldl]. rewrite Hf.
  destruct (open_sources paths) as [|s l]; [intros [= <- _ _]; left; split; [done|by left]|].
  destruct (logical_end tar_walk (t_bytes f)) as [e|ex].
  - destruct (write_members _ _ _ _ _ _ _) as [wacts [[[size c] k]|ex]] eqn:Ew; intros [= <- <- _];
      right; exists e; rewrite ?Ew; by split_and!.
  - intros [= <- <- _]. left. split; [done|right; by eexists].
Qed.

(** [C2] Crash safety of [clone_append].  Take an append to a tar of which all is
    durable, stop it after any number [n] of its system calls, and let the crash
    keep any disk [d'] that durability allows (writes not yet synced may have any
    effect above the durable prefix).  Then recovery leaves the disk exactly as it
    was before the append; or with the members of before, each byte, followed by
    an end marker; or, when all the calls were made, as the append left it. *)
Theorem crash_never_loses devices new_id cache paths d f e acts r cache' n d' :
  d_journal d = None -> d_tar d = Some f -> t_stable f = None ->
  logical_end tar_walk (t_bytes f) = Ok e -> e <= length (t_bytes f) ->
  Forall stat_agrees (open_sources paths) ->
  clone_append sha256 tar_walk tobuf owner_entry devices new_id cache paths d = (acts, r, cache') ->
  survives (run d (take n acts)) d' ->
  recovered d' = d \/
  recovered d' = Disk (Some (TarFile (t_id f) (rolled_back (t_bytes f) e) None)) None \/
  (length acts <= n /\ recovered d' = run d acts /\ exists res, r = Ok res).
Proof.
  intros Hj Hf Hst He Hle Hwf Hc Hs.
  destruct (clone_append_existing _ _ _ _ _ _ _ _ _ Hj Hf Hc) as [[-> _]|(e' & He' & Hne & -> & Hr)].
  { left. rewrite take_nil in Hs. by apply (recover_clean d f). }
  rewrite He in He'. injection He' as <-. set (j := append_journal sha256 f e) in *. pose proof (guarded_above j true (open_sources paths)) as Hg.
  change (Forall (above e) (guarded j (write_members tobuf owner_entry true e 0 0 (open_sources paths)))) in Hg. remember (write_members _ _ _ _ _ _ _) as w eqn:Ew in *. symmetry in Ew.
  rewrite append_actions_guarded in *.
  destruct (run_prefix (t_bytes f) j (guarded j w) d n f Hf eq_refl eq_refl Hst Hle Hg)
    as [[_ E]|[[_ Hjd]|[Hn E]]].
  - rewrite E in Hs. left. by apply (recover_clean d f).
  - right; left. rewrite (recover_journaled (t_bytes f) j d' (journaled_survives _ _ _ _ Hjd Hs) (journal_of_append _ _)).
    unfold j. by rewrite (restored_rolled_back f e Hle).
  - rewrite E, <- append_actions_guarded in Hs. destruct w as [wacts [[[size c] k]|ex]].
    + right; right. split; [done|]. split; [|by rewrite Hr; eexists].
      rewrite <- append_actions_guarded.
      destruct (run_append_done d f e _ _ _ _ _ Hf Hle Hwf Ew) as (tail & _ & _ & _ & Hrun).
      fold j in Hrun. rewrite Hrun in Hs |- *. by apply recover_settled.
    + right; left. pose proof (write_members_above _ _ _ _ _ _ _ Ew) as Ha.
      pose proof (run_append_failed d f e (wacts, Raise ex) ex Hf Hst Hle Ha eq_refl) as Hrun.
      fold j in Hrun. rewrite Hrun in Hs. by apply recover_settled.
Qed.


(** [C18] A committed append: the bytes up to the old end are kept, then come the
    members in order, each a header, the file's content at an offset that is a
    multiple of [ALIGN], and zeros up to a block, whether the data was cloned or
    copied; then the end marker, with which the file ends.  The result counts them. *)
Theorem append_layout devices new_id cache paths d f e acts res cache' :
  d_journal d = None -> d_tar d = Some f ->
  logical_end tar_walk (t_bytes f) = Ok e -> e <= length (t_bytes f) ->
  Forall stat_agrees (open_sources paths) -> open_sources paths <> [] ->
  clone_append sha256 tar_walk tobuf owner_entry devices new_id cache paths d = (acts, Ok res, cache') ->
  exists tail,
    archive e (open_sources paths) tail /\
    run d acts = Disk (Some (TarFile (t_id f) (take e (t_bytes f) ++ tail) None)) None /\
    old_end res = e /\ new_size res = e + length tail /\
    appended res = length (open_sources paths) /\ appended res + skipped res = length paths /\
    cloned res + copied res = length (filter has_data (open_sources paths)).
Proof.
  intros Hj Hf He Hle Hwf Hne Hc.
  destruct (clone_append_existing _ _ _ _ _ _ _ _ _ Hj Hf Hc) as [[_ [Hn|(ex' & _ & Hr)]]|(e' & He' & _ & -> & Hr)]; try done.
  rewrite He in He'. injection He' as <-. destruct (write_members _ _ _ _ _ _ _) as [wacts [[[size c] k]|ex']] eqn:Ew; [|done].
  cbn [snd] in Hr. injection Hr as ->. simpl.
  destruct (run_append_done d f e _ _ _ _ _ Hf Hle Hwf Ew) as (tail & Ha & Hsz & Hck & Hrun).
  exists tail. split_and!; try done. pose proof (length_omap_le paths). lia.
Qed.

(** [C37] Recovery can be interrupted too: stopped after any number of its system
    calls, with a crash at that point, a second recovery ends where the first
    would have, on a disk with a durable tar and no journal. *)
Theorem recovery_restartable b j d n d' :
  journaled b j d -> journal_of b j ->
  survives (run d (take n (recover_plan d).2)) d' ->
  recovered d' = Disk (Some (TarFile (j_id j) (restored j b) None)) None.
Proof.
  intros Hd Hb Hs. pose proof (recover_journaled b j d Hd Hb) as Hr. unfold recover in Hr.
  rewrite (recover_plan_journaled b j d Hd Hb) in Hs, Hr. cbn [snd] in Hs, Hr.
  destruct (decide (n <= length (restore_old_end (j_old_end j) (j_old_size j)))) as [Hn|Hn].
  - rewrite take_app_le in Hs by done. apply (recover_journaled b j); [|done].
    eapply journaled_survives; [|exact Hs]. by apply journaled_run; [apply Forall_take, restore_above|].
  - rewrite take_ge in Hs by (rewrite length_app; simpl in *; lia). rewrite Hr in Hs. by apply recover_settled.
Qed.

(** Recovery always settles the journal, and writes to a tar only when the
    journal is its own: same device and inode, at least as long as the old end,
    and the same hash of the bytes before that end.  An unreadable journal, one of
    another tar, and one without a tar change no tar. *)
Theorem recover_scope d :
  d_journal (recovered d) = None /\
  (d_tar (recovered d) = d_tar d \/
   exists j f, d_journal d = Some (JournalOk j) /\ d_tar d = Some f /\
     t_id f = j_id j /\ j_old_end j <= length (t_bytes f) /\
     tail_sha256 sha256 (t_bytes f) (j_old_end j) = j_tail j /\
     exists f', d_tar (recovered d) = Some f' /\ t_id f' = t_id f /\ t_stable f' = None /\
       take (j_old_end j) (t_bytes f') = take (j_old_end j) (t_bytes f)).
Proof.
  unfold recover, recover_interrupted_append. destruct d as [tar [[j|]|]]; simpl; [|by split; [|left]|by split; [|left]].
  destruct tar as [f|]; [|by split; [|left]].
  destruct (journal_matches sha256 j f) eqn:Em; [|by split; [|left]].
  unfold journal_matches in Em. rewrite !andb_true_iff, !bool_decide_eq_true, Nat.leb_le in Em.
  destruct Em as [[Hid Hle] Hh]. unfold restore_old_end.
  assert (length (take (j_old_end j) (t_bytes f)) = j_old_end j) as El by (rewrite length_take; lia).
  destruct (Nat.ltb_spec (j_old_end j) (j_old_size j)); simpl; (split; [done|right]); exists j, f;
    (split_and!; try done); (eexists; split_and!; [reflexivity|done|done|]);
    cbn [t_bytes]; rewrite (ftruncate_below (j_old_end j) (t_bytes f)) by done.
  - destruct (take_ftruncate (j_old_end j) (j_old_size j) (take (j_old_end j) (t_bytes f))) as [-> _]; [lia|lia|].
    rewrite take_take. f_equal. lia.
  - destruct (take_pwrite (j_old_end j) TAR_EOF (j_old_end j) (take (j_old_end j) (t_bytes f))) as [-> _]; [lia|lia|].
    rewrite take_take. f_equal. lia.
Qed.

(** The tars a sweep recovers. *)
Definition to_recover (busy : string -> bool) (tars : gmap string disk) (name : string) : bool :=
  negb (busy name) && match tars !! name with Some d => negb (bool_decide (d_journal d = None)) | None => false end.

Lemma sweep_fold busy tars l acc :
  let out := foldl (recover_step sha256 busy tars) acc l in
  out.1 = acc.1 + length (filter (to_recover busy tars) l) /\
  forall name, out.2 !! name =
    if bool_decide (name ∈ l) && to_recover busy tars name then recovered <$> tars !! name else acc.2 !! name.
Proof.
  revert acc. induction l as [|x l IH]; intros acc; simpl; [split; [lia|done]|].
  assert (Hx : to_recover busy tars x = negb (busy x) &&
    match tars !! x with Some d => negb (bool_decide (d_journal d = None)) | None => false end) by done.
  destruct (IH (recover_step sha256 busy tars acc x)) as [E1 E2]. clear IH. split.
  - rewrite E1, filter_cons. unfold recover_step. destruct (tars !! x) as [d|], (busy x), (decide _) as [Hd|Hd]; simpl in *;
      try (destruct (bool_decide (d_journal d = None))); simpl in *; rewrite Hx in Hd; simpl in *; done || lia.
  - intros name. rewrite E2. unfold recover_step. clear E1 E2. destruct (decide (name = x)) as [->|Hn].
    + rewrite (bool_decide_true (x ∈ x :: l)) by set_solver. simpl. rewrite Hx.
      destruct (tars !! x) as [d|], (busy x), (bool_decide (x ∈ l)); simpl; try done;
        destruct (bool_decide (d_journal d = None)); simpl; try done; by rewrite lookup_insert_eq.
    + assert (bool_decide (name ∈ x :: l) = bool_decide (name ∈ l)) as -> by (apply bool_decide_ext; set_solver).
      destruct (bool_decide (name ∈ l) && _); [done|]. destruct (tars !! x) as [d|]; [|done].
      destruct (busy x || _); [done|]. simpl. by rewrite lookup_insert_ne.
Qed.

(** The startup sweep recovers every tar that has a journal and is not busy,
    changes no other, and returns how many it recovered. *)
Theorem recover_all_spec busy tars :
  let out := recover_all_interrupted_appends sha256 busy tars in
  out.1 = length (filter (to_recover busy tars) (map_to_list tars).*1) /\
  forall name, out.2 !! name = if busy name then tars !! name else recovered <$> tars !! name.
Proof.
  unfold recover_all_interrupted_appends. set (names := merge_sort _ _).
  assert (Permutation names (map_to_list tars).*1) as Hp by apply merge_sort_Permutation.
  destruct (sweep_fold busy tars names (0, tars)) as [E1 E2]. split.
  - rewrite E1. simpl. by rewrite Hp.
  - intros name. rewrite E2. unfold to_recover. simpl. destruct (tars !! name) as [d|] eqn:Ed.
    + assert (name ∈ names) as Hin.
      { rewrite Hp. apply list_elem_of_fmap. exists (name, d). by rewrite elem_of_map_to_list. }
      rewrite (bool_decide_true _ Hin). destruct (busy name); simpl; [done|].
      destruct (bool_decide (d_journal d = None)) eqn:Ej; simpl; [|done]. apply bool_decide_eq_true in Ej.
      unfold recover, recover_interrupted_append. by rewrite Ej.
    + rewrite andb_false_r, andb_false_r. by destruct (busy name).
Qed.
End crash.

(** ** Instances *)

Module AppendDemo.
Definition sha (l : list byte) : string := if decide (l = []) then "e3b0" else "ab12".
Definition walk (l : list byte) : result nat := Ok (length l - 1024).
Definition header (info : TarInfo) : list byte := replicate (512 + ti_comment info) x61.
Definition owner (kind : string) (ident : Z) : option string := None.
Definition old_tar : tar_file := TarFile (8, 77)%Z (replicate 512 x62 ++ TAR_EOF) None.
Definition idle : disk := Disk (Some old_tar) None.
Definition raw : source :=
  Source "/raw/1" (Stat 3 420 0 0 1700000000) [x63; x64; x65] CloneOk CopyOk.
Definition unlucky : source :=
  Source "/raw/2" (Stat 3 420 0 0 1700000000) [x63; x64; x65] CloneUnsupported (CopyError 2 OSError).
Definition append (paths : list opened) := clone_append sha walk header owner None (8, 78)%Z ∅ paths idle.
(** The crash after the header of the first member: garbage where it was written. *)
Definition torn : disk :=
  Disk (Some (TarFile (8, 77)%Z (replicate 512 x62 ++ [x7a; x7a]) None)) (Some (JournalOk (append_journal sha old_tar 512))).
End AppendDemo.

Lemma triple_eta {A B C} (x : A * B * C) b : x.1.2 = b -> x = (x.1.1, b, x.2).
Proof. by destruct x as [[]]; intros <-. Qed.

Lemma crash_never_loses_witness :
  recover AppendDemo.sha AppendDemo.torn = AppendDemo.idle \/
  recover AppendDemo.sha AppendDemo.torn =
    Disk (Some (TarFile (8, 77)%Z (rolled_back (t_bytes AppendDemo.old_tar) 512) None)) None \/
  (length (AppendDemo.append [Opened AppendDemo.raw]).1.1 <= 3 /\
   recover AppendDemo.sha AppendDemo.torn = run AppendDemo.idle (AppendDemo.append [Opened AppendDemo.raw]).1.1 /\
   exists res, (AppendDemo.append [Opened AppendDemo.raw]).1.2 = Ok res).
Proof.
  refine (crash_never_loses AppendDemo.sha AppendDemo.walk AppendDemo.header AppendDemo.owner None (8, 78)%Z ∅
    [Opened AppendDemo.raw] AppendDemo.idle AppendDemo.old_tar 512 _ _
    (AppendDemo.append [Opened AppendDemo.raw]).2 3 AppendDemo.torn eq_refl eq_refl eq_refl _ _ _ _ _).
  - vm_compute. reflexivity.
  - apply Nat.leb_le. vm_compute. reflexivity.
  - apply Forall_cons. split; [vm_compute; reflexivity|apply Forall_nil_2].
  - apply triple_eta. reflexivity.
  - vm_compute. repeat split; lia.
Defined.


Lemma append_layout_witness :
  exists tail, archive AppendDemo.header AppendDemo.owner 512 [AppendDemo.raw] tail /\
    run AppendDemo.idle (AppendDemo.append [Opened AppendDemo.raw]).1.1 =
      Disk (Some (TarFile (8, 77)%Z (take 512 (t_bytes AppendDemo.old_tar) ++ tail) None)) None /\
    512 = 512 /\ 5632 = 512 + length tail /\ 1 = 1 /\ 1 + 0 = 1 /\ 1 + 0 = 1.
Proof.
  refine (append_layout AppendDemo.sha AppendDemo.walk AppendDemo.header AppendDemo.owner None (8, 78)%Z ∅
    [Opened AppendDemo.raw] AppendDemo.idle AppendDemo.old_tar 512 _
    {| appended := 1; cloned := 1; copied := 0; skipped := 0; old_end := 512; new_size := 5632 |} _ eq_refl eq_refl _ _ _ _ (triple_eta _ _ _)).
  - vm_compute. reflexivity.
  - apply Nat.leb_le. vm_compute. reflexivity.
  - apply Forall_cons. split; [vm_compute; reflexivity|apply Forall_nil_2].
  - discriminate.
  - vm_compute. reflexivity.
Defined.

Lemma recovery_restartable_witness :
  recover AppendDemo.sha AppendDemo.torn =
    Disk (Some (TarFile (8, 77)%Z (restored (append_journal AppendDemo.sha AppendDemo.old_tar 512)
      (t_bytes AppendDemo.old_tar)) None)) None.
Proof.
  refine (recovery_restartable AppendDemo.sha (t_bytes AppendDemo.old_tar)
    (append_journal AppendDemo.sha AppendDemo.old_tar 512) AppendDemo.torn 1 AppendDemo.torn _ eq_refl _).
  - constructor; [reflexivity|]. eexists. split; [reflexivity|].
    repeat split; first [apply Nat.leb_le; vm_compute; reflexivity|vm_compute; reflexivity].
  - vm_compute. repeat split; lia.
Defined.
